(* ===== verification/_CoqProject ===== *)
-Q . S2P
Prelude.v
Errors.v
GoText.v
GoNum.v
GoTime.v
GoSha.v
GoJson.v
JsonText.v
ByteSize.v
Yaml.v
Redact.v
Event.v
Model.v
Bus.v
GoChannel.v
Conformance.v
Sink.v
Simulation.v
SingleFlight.v
Once.v
Lazy.v
Router.v
WmLog.v
Receiver.v
GhClient.v
Recovery.v
RecoveryRun.v
Metrics.v
Config.v
Servers.v
Lag.v
Fixtures.v
Nats.v
Serve.v
Status.v
Cli.v
Lifecycle.v
Embedded.v
TestServer.v
NatsSub.v
Otlp.v
OtlpClient.v
Archive.v
Trace.v
Log.v
Stdout.v
OtlpSinks.v
Analytics.v
BigQuery.v
BqOpener.v
BqDriver.v
Forward.v
ForwardBus.v
Store.v
Compress.v
ReadBack.v
Filesystem.v
System.v
Fleet.v
Sinks.v
Webhooks.v
