(* ===== verification/Prelude.v ===== *)
(** * A verification development of antwatcher

    antwatcher turns GitHub webhooks into traces, logs, warehouse rows, archives and forwarded
    events.  A delivery enters through the webhook receiver ([internal/receiver]), becomes an
    envelope ([internal/event]) and is published on a bus ([internal/bus], with an in-process and a
    NATS JetStream driver) before GitHub is answered.  Every sink ([internal/sink]) is a named
    consumer of the bus: the router reads its messages back into envelopes and hands each to the
    sink, whose answer decides between acknowledging, redelivering and stalling the message.  The
    classes of sinks project the envelope through the canonical model ([internal/model]) and write
    the result through a driver; the trace and log classes export through [internal/otlp].  Next to
    that path a recovery loop ([internal/recovery]) lists the deliveries of the hook through
    [internal/ghclient] and asks GitHub to send again those that never got a 2xx; a poller watches
    the lag of the consumers; metrics ([internal/metrics]) and an admin server ([internal/admin])
    show all of it.  [cmd/antwatcher] reads the configuration ([internal/config]), builds the parts,
    runs them as tasks and shuts them down in order.

    ** Conventions

    The model is a shallow embedding: a Go function is a Gallina function of the same name, a
    struct a record with a prefix on its fields, a pointer an [option], a slice a list, a map a
    [gmap].  Strings and byte slices are [string], lists of 8-bit characters.  [int], [int64]
    and [time.Duration] are [Z] with their wrap-around written where the code can leave the
    range.  An [error] is a tree (Errors.v) that keeps what [errors.Is] and [errors.As] can see
    and the constant part of its text.  What the code gets from outside - answers of client
    libraries, contexts, the clock, a failing call - is an argument or a section variable;
    objects that keep a state (buses, writers, exporters) thread it.  Where goroutines share
    state, each is a thread of a step relation whose steps are what it does between two points
    where another can act.  The laws assumed of an interface are a class or named hypotheses; each
    theorem that has some has a closed witness.

    The interfaces between the components are classes: [Bus.Bus] with [Bus.BusLaws] (the bus the
    receiver, the router and the recovery loop use; GoChannel.v is an instance), [System.Transport]
    (a message arrives as it was published), [Fleet.Keeping] (what a broker collapses and for how
    long it keeps), [Fleet.Durable] (a sink keeps what it acknowledges; Sinks.v has an instance
    per class and driver), [Conformance.Broker] (a bus under test) and
    [Metrics.Registry] with [Metrics.RegistryLaws] (the Prometheus client).

    ** Files

    The language's library:
    - Prelude.v (this file): machine integers, notations, automation, generic lemmas.
    - Errors.v: error values, with [Permanent] and [ErrSkipped] of [internal/sink/errors.go].
    - GoText.v, GoNum.v, GoTime.v, GoSha.v, GoJson.v: [strings], [strconv] and
      [encoding/hex], [time] with RFC 3339, [crypto/sha256] and [crypto/hmac],
      [encoding/json]; JsonText.v: what is printed parses back.
    - Simulation.v: forward simulation between step relations.

    The core:
    - Event.v: [internal/event] envelope.go and message.go; Fixtures.v: fixtures.go, over the
      embedded files.
    - Model.v: [internal/model] model.go, status.go, normalize.go, ids.go.
    - Bus.v: [internal/bus] bus.go, capabilities.go, policy.go, registry.go.
    - GoChannel.v: [internal/bus/gochannel/driver.go]; Conformance.v: the conformance suite of
      [internal/bus/bustest/suite.go] as a program over any broker.
    - Nats.v, Embedded.v, TestServer.v, NatsSub.v: [internal/bus/natsjs], the calls to the broker,
      the embedded servers with their store directories, the one for tests, and the fetch loops of
      a consumer.
    - Sink.v: [internal/sink] sink.go and registry.go.
    - SingleFlight.v: [internal/sink/singleflight.go] as a step relation over threads; Once.v: the
      cell it implements; Lazy.v: the targets opened through it and closed once.
    - Router.v: [internal/sink] stalled.go ([Module Stalled]) and router.go; WmLog.v: wmlog.go.
    - Receiver.v: [internal/receiver/handler.go].
    - GhClient.v: [internal/ghclient/client.go]; Recovery.v: [internal/recovery] decide.go and
      recovery.go; RecoveryRun.v: the loop over any number of scans.

    Configuration and the process:
    - ByteSize.v, Yaml.v, Redact.v, Config.v: [internal/config] bytesize.go, load.go, the
      credentials of secret.go, url.go and redact.go, and config.go with validate.go.
    - Metrics.v, Lag.v: [internal/metrics] metrics.go and lag.go.
    - Servers.v: [internal/admin/server.go] and [internal/receiver/server.go].
    - Serve.v, Status.v, Lifecycle.v: [cmd/antwatcher/serve.go], that is [newService], the status
      document, and [run] with its tasks and its shutdown; Cli.v: main.go.

    The classes of sinks and their drivers:
    - Otlp.v, OtlpClient.v: [internal/otlp] types.go, retry.go, config.go and client.go.
    - Trace.v, Log.v, Analytics.v: project.go or record.go, schema.go, and sink.go of
      [internal/sink/trace], [log] and [analytics]; OtlpSinks.v, Stdout.v: the drivers of the
      first two.
    - BigQuery.v, BqOpener.v, BqDriver.v: [internal/sink/analytics/drivers/bigquery].
    - Forward.v, ForwardBus.v: [internal/sink/forward] and its driver.
    - Archive.v: [internal/sink/archive] record.go and sink.go; Store.v: jsonl.go over the
      bytes of its files and an environment that may fail any call; Compress.v: its compressions
      call by call, over files that a loss of power may take back; ReadBack.v: [ReadFile];
      Filesystem.v: the driver.

    The composition:
    - System.v: the transport of a message, and the archive as the router sees it; Fleet.v: the
      receiver, the bus with what its broker keeps, and any sinks; Sinks.v: every class and driver
      as such a sink; Webhooks.v: all of that with the recovery loop, its client, and GitHub with
      the logs of its hooks.

    ** What is shown

    - End to end (Webhooks.v, Fleet.v, Sinks.v, System.v): in any run against GitHub, with attempts
      that are lost, scans that fail, crashes and restarts, the event of an attempt that succeeded
      is stored by the broker - itself, or a message of the same GUID it was collapsed into within
      the dedup window - and then on its way to, kept by or ignored by every sink, unless its
      retention has passed or the process has ended over a bus that is not durable.  A GUID of
      which no attempt succeeded is remembered, and within the cap asked for, by the next scan that
      works.  What waits for an archive that rotates by time is archived and acknowledged when the
      disk works.
    - Events (Event.v): an envelope survives the message round trip; an accepted delivery
      reaches its consumer with its body byte for byte; accepted messages are well formed and
      refusals classify as permanent.
    - Model (Model.v): normalization is total and yields well-formed executions; identifiers
      are digests of strings that determine the entity; event times are never zero.
    - Ingress (Receiver.v, Bus.v, GoChannel.v): a 2xx implies a valid signature and a publish
      the bus accepted; the signature check is exact; unauthenticated requests touch nothing;
      the consumer policy is the documented table; consumers start where they were told to.
    - Bus drivers (Conformance.v, Nats.v, Embedded.v, NatsSub.v): what a driver that passes the
      conformance suite was seen to do; envelopes survive the JetStream headers; a durable consumer keeps the start it
      was given; a delivery is answered at most once; two servers never share a store directory.
    - Delivery (Sink.v, Router.v, SingleFlight.v, Once.v, Lazy.v): the answer to every message and
      its effect on the stalled set, the invariant of that set for any sequence of deliveries;
      construction is all or nothing; every interleaving of the single-flight opener refines a cell
      that is filled once, and nobody is stranded; what is opened lazily is closed.
    - Recovery (GhClient.v, Recovery.v, RecoveryRun.v): listings are complete back to the window's
      start; after any scans, failed ones included, what the loop remembers is the newest and failed
      attempt of its GUID, no GUID whose attempts all failed is missing, and a scan asks only for
      GUIDs without a success in its window (an older success does not count); requests that are
      refused may starve the rest under the cap, accepted ones do not.
    - Sinks (Otlp.v to ForwardBus.v): exports end and report what happened, and an event is
      acknowledged exactly when its request was answered with success, which may have rejected
      items (lost to the collector, and counted); a redelivery exports the same spans,
      which form a tree shared with the log records; rows fit the table, are never written before
      its schema is ensured, and are acknowledged when the service confirmed them; forwarding loops
      end.
    - Archive (Archive.v, Store.v, Compress.v, ReadBack.v): an archivable event (payload not null,
      nested less than the decoder's limit, UTF-8 text, a year of four digits) is decoded from its
      line; with time rotation on, an acknowledged event stays a complete line of some file through
      failed calls, torn writes, crashes, rotations, compressions and restarts, and from an empty
      directory what was archived is read back; a compression interrupted anywhere, by a loss of
      power too, is one of the three outcomes of Store.v, and loses nothing if the directory entry
      of an older compressed file was durable; a restart repairs any files and leaves those of
      other sinks alone.
    - Bounds (ByteSize.v, Nats.v): a size is accepted exactly when its product fits 64 bits; the
      redelivery delay stays in its bounds, and is the smallest doubled per delivery and capped as
      long as that product fits (the defaults always; [NakDelay_overflow] has an exception).
    - Configuration (Config.v, Redact.v, ByteSize.v, Yaml.v, Status.v): what the checks accept the
      start-up accepts, save a recovery block exactly characterized; sizes survive printing; expansion touches scalars only; the status document
      does not depend on secrets, comma-free userinfo of URLs and secret-looking keys.
    - Process (Serve.v, Lifecycle.v, Cli.v, Servers.v, Metrics.v, Lag.v): a failed start closes what
      it opened, once and in order; in every interleaving the parts start and are closed in the
      documented order, and [run] returns nil exactly when nothing failed; what each exit code means;
      a graceful stop waits for the requests in flight; the exported series are the sinks' counts,
      as long as event headers are UTF-8.

    ** Bounds and fuel

    JSON parsing is structural and SHA-256 runs over as many steps as there are words.  Where a
    function takes fuel, a lemma shows that what it is given is enough: decimal printing (binary
    digits bound decimal ones, [format_uint_spec]), trimming (the length of the text,
    [trim_left_done] and [trim_right_done]), the expansion of references (the length of the scalar),
    delivery listings and hook discovery (the code's own [maxPages]), the export loop
    ([Attempts + 1], [export_total]), and the search for a free file name (one more attempt than
    there are files, [free_seq_total]).  A wait of the conformance suite with a deadline ends after
    [patience] arrivals at the latest, for any [patience].  The runs of Fleet.v, Sinks.v and
    Webhooks.v are of any length.

    ** Not modelled

    Rendering of error and log texts, and the logs themselves; Watermill, go-github, NATS, gRPC,
    BigQuery, protobuf, gzip, YAML, net/http and Prometheus, which are third-party or the platform's
    and appear as arguments with what is documented of them; the forwarding goroutines of the
    in-process bus, which appear as the sequences they may produce; a read error in the middle of an
    archive file; constructors that only store their arguments and panic on nil, and the accessors
    of a sink's name and class; the registration of drivers at start.  The broker is modelled
    as far as the repository documents it: a power failure of its host, limits of its stream other
    than the age, and consumers added to an existing stream are outside.  In Webhooks.v a scan is one
    step: an attempt that GitHub makes during a scan is one made after it. *)

From Stdlib Require Export Strings.Ascii.
From stdpp Require Export prelude gmap strings list fin_maps sorting.
From Stdlib Require Export ZArith Lia.

#[export] Set Default Goal Selector "!".

(** ** Machine integers

    Go's [int], [int64] and [time.Duration] are 64-bit two's complement; [uint64]
    wraps modulo [2^64].  Values are [Z]; wherever the code can leave the range the
    wrap-around is written out with [wrap64] or [wrapu64]. *)

Definition int64_min : Z := (-9223372036854775808)%Z.
Definition int64_max : Z := 9223372036854775807%Z.
Definition two64 : Z := 18446744073709551616%Z.

Definition in_int64 (z : Z) : Prop := (int64_min ≤ z ≤ int64_max)%Z.
Definition in_uint64 (z : Z) : Prop := (0 ≤ z < two64)%Z.

Definition wrap64 (z : Z) : Z := ((z + 9223372036854775808) mod two64 - 9223372036854775808)%Z.
Definition wrapu64 (z : Z) : Z := (z mod two64)%Z.

#[export] Instance in_int64_dec z : Decision (in_int64 z).
Proof. unfold in_int64. apply _. Defined.

Lemma in_int64_0 : in_int64 0.
Proof. by split. Qed.

Lemma wrap64_range z : in_int64 (wrap64 z).
Proof.
  unfold wrap64, in_int64, int64_min, int64_max, two64.
  pose proof (Z.mod_pos_bound (z + 9223372036854775808) 18446744073709551616 ltac:(lia)).
  lia.
Qed.

Lemma wrap64_id z : in_int64 z → wrap64 z = z.
Proof.
  unfold wrap64, in_int64, int64_min, int64_max, two64. intros.
  rewrite Z.mod_small by lia. lia.
Qed.

Lemma wrapu64_range z : in_uint64 (wrapu64 z).
Proof. unfold in_uint64, wrapu64, two64. apply Z.mod_pos_bound. lia. Qed.

Lemma wrapu64_id z : in_uint64 z → wrapu64 z = z.
Proof. unfold wrapu64, in_uint64. apply Z.mod_small. Qed.

(** [time.Duration] constants, in nanoseconds. *)
Definition Duration := Z.
Definition Nanosecond : Duration := 1%Z.
Definition Millisecond : Duration := 1000000%Z.
Definition Second : Duration := 1000000000%Z.
Definition Minute : Duration := 60000000000%Z.
Definition Hour : Duration := 3600000000000%Z.

(** ** Generic lemmas on lists and options *)

Lemma forallb_Forall {A} (f : A → bool) (l : list A) :
  forallb f l = true ↔ Forall (λ x, f x = true) l.
Proof. rewrite forallb_forall, Forall_forall. setoid_rewrite list_elem_of_In. done. Qed.

(** A property every step preserves holds wherever the steps lead. *)
Lemma rtc_invariant {A} (R : relation A) (P : A → Prop) :
  (∀ x y, R x y → P x → P y) → ∀ x y, rtc R x y → P x → P y.
Proof. intros HR x y H. induction H as [|x y z Hxy _ IH]; [done|]. intros HP. by apply IH, (HR x). Qed.

Lemma Forall_filter_keep {A} (P Q : A → Prop) `{∀ x, Decision (Q x)} (l : list A) :
  Forall P l → Forall P (filter Q l).
Proof.
  rewrite !Forall_forall. intros HP x [_ Hx]%list_elem_of_filter. by apply HP.
Qed.

(** A [list] with its elements numbered from [i], for [for i, x := range l]. *)
Fixpoint enumerate_from {A} (i : nat) (l : list A) : list (nat * A) :=
  match l with
  | [] => []
  | x :: l' => (i, x) :: enumerate_from (S i) l'
  end.
Definition enumerate {A} (l : list A) : list (nat * A) := enumerate_from 0 l.

Lemma length_enumerate_from {A} i (l : list A) : length (enumerate_from i l) = length l.
Proof. revert i. induction l; intros; simpl; f_equal; auto. Qed.

(** ** Tactics of the development *)

(** Case analysis on every [match]/[if] of the goal or of a hypothesis, closing the
    branches that contradict an equation. *)
Ltac break_match :=
  match goal with
  | |- context [match ?x with _ => _ end] => destruct x eqn:?
  | H : context [match ?x with _ => _ end] |- _ => destruct x eqn:?
  end.

Ltac break := intros; repeat (break_match; simplify_eq/=); simplify_eq/=.

(** Turn boolean comparisons of the context into propositions. *)
Ltac to_prop :=
  repeat match goal with
  | H : (_ =? _)%Z = true |- _ => apply Z.eqb_eq in H
  | H : (_ =? _)%Z = false |- _ => apply Z.eqb_neq in H
  | H : (_ <? _)%Z = true |- _ => apply Z.ltb_lt in H
  | H : (_ <? _)%Z = false |- _ => apply Z.ltb_ge in H
  | H : (_ <=? _)%Z = true |- _ => apply Z.leb_le in H
  | H : (_ <=? _)%Z = false |- _ => apply Z.leb_gt in H
  | H : (_ && _)%bool = true |- _ => apply andb_true_iff in H as [? ?]
  | H : (_ && _)%bool = false |- _ => apply andb_false_iff in H
  | H : (_ || _)%bool = true |- _ => apply orb_true_iff in H
  | H : (_ || _)%bool = false |- _ => apply orb_false_iff in H as [? ?]
  | H : negb _ = true |- _ => apply negb_true_iff in H
  | H : negb _ = false |- _ => apply negb_false_iff in H
  | H : String.eqb _ _ = true |- _ => apply String.eqb_eq in H
  | H : String.eqb _ _ = false |- _ => apply String.eqb_neq in H
  | H : bool_decide _ = true |- _ => apply bool_decide_eq_true in H
  | H : bool_decide _ = false |- _ => apply bool_decide_eq_false in H
  end.
