(* ===== verification/Errors.v ===== *)
(** * Go errors, and the permanent/retryable classification of [internal/sink/errors.go]

    An [error] value is the tree that [errors.Is], [errors.As] and [errors.Join] can see:
    leaves are sentinel variables, typed errors of the program or of a client library, and
    plain texts; inner nodes are [fmt.Errorf] with one [%w] ([EWrap]), with two [%w] or
    [errors.Join] ([EJoin]), and the program's two wrapper types.  The text of a message is
    kept as the constant part of its format string, which names the branch that made it;
    the rendering of the formatted arguments is not modelled. *)

From S2P Require Import Prelude.

(** Package-level error variables compared with [errors.Is]. *)
Inductive sentinel : Set :=
  | CtxCanceled | CtxDeadlineExceeded            (* context *)
  | IoEOF | FsErrNotExist                        (* io, io/fs *)
  | ErrMissingDelivery | ErrMissingEvent | ErrInvalidPayload
  | ErrMissingMetadata | ErrInvalidMetadata      (* event *)
  | ErrMalformed                                 (* model *)
  | ErrSkipped                                   (* sink *)
  | ErrClosed | ErrInvalidConsumerName | ErrWrongTopic | ErrMissingCapability (* bus *)
  | ErrHookNotFound | ErrUnsupportedAuth         (* ghclient *)
  | ErrConsumerNotFound | ErrStreamNotFound.     (* jetstream *)

#[export] Instance sentinel_eq_dec : EqDecision sentinel.
Proof. solve_decision. Defined.

(** Leaves.  The typed ones carry the fields the program reads from them. *)
Inductive leaf : Set :=
  | LSentinel (s : sentinel)
  | LText (text : string)                                  (* errors.New, fmt.Errorf without %w *)
  | LHTTP (status_code : Z) (message : string) (retry_after : Z)  (* *otlp.HTTPError *)
  | LGRPC (code : Z) (retry_info : option Z)               (* a gRPC status error *)
  | LGoogle (code : Z)                                     (* *googleapi.Error *)
  | LGithubRateLimit (until_reset : option Z)              (* *github.RateLimitError *)
  | LGithubAbuse (retry_after : Z)                         (* *github.AbuseRateLimitError *)
  | LGithubAccepted                                        (* *github.AcceptedError *)
  | LHookAmbiguous (hook_ids : list Z).                    (* *ghclient.ErrHookAmbiguous *)

#[export] Instance leaf_eq_dec : EqDecision leaf.
Proof. solve_decision. Defined.

Inductive error : Set :=
  | ELeaf (l : leaf)
  | EWrap (text : string) (e : error)
  | EJoin (e1 e2 : error)
  | EPermanent (e : error)                                 (* *sink.permanentError *)
  | ERateLimited (retry_after : Z) (e : error).            (* *ghclient.ErrRateLimited *)

#[export] Instance error_eq_dec : EqDecision error.
Proof. solve_decision. Defined.

Definition errorf (text : string) : error := ELeaf (LText text).
Definition esent (s : sentinel) : error := ELeaf (LSentinel s).

(** [errors.Is(err, target)] for a sentinel target: some node of the chain is the target. *)
Fixpoint errors_is (e : error) (s : sentinel) : bool :=
  match e with
  | ELeaf (LSentinel s') => bool_decide (s' = s)
  | ELeaf _ => false
  | EWrap _ e => errors_is e s
  | EJoin e1 e2 => errors_is e1 s || errors_is e2 s
  | EPermanent e => errors_is e s
  | ERateLimited _ e => errors_is e s
  end.

(** [errors.As(err, &target)]: the first node of the depth-first walk that [f] accepts. *)
Fixpoint errors_as {A} (f : error → option A) (e : error) : option A :=
  match f e with
  | Some a => Some a
  | None =>
      match e with
      | ELeaf _ => None
      | EWrap _ e => errors_as f e
      | EJoin e1 e2 =>
          match errors_as f e1 with Some a => Some a | None => errors_as f e2 end
      | EPermanent e => errors_as f e
      | ERateLimited _ e => errors_as f e
      end
  end.

(** [errors.Join]: nil errors are dropped, and joining none is nil. *)
Fixpoint errors_join (l : list (option error)) : option error :=
  match l with
  | [] => None
  | None :: l => errors_join l
  | Some e :: l => match errors_join l with None => Some e | Some e' => Some (EJoin e e') end
  end.

(** [errors.Join] of the problems a validator collected. *)
Definition join_problems (l : list error) : option error := errors_join (Some <$> l).

(** ** [internal/sink/errors.go] *)

Definition IsPermanent (e : error) : bool :=
  match errors_as (λ e, match e with EPermanent _ => Some tt | _ => None end) e with
  | Some _ => true
  | None => false
  end.

Definition Permanent (e : option error) : option error :=
  match e with
  | None => None
  | Some e => if IsPermanent e then Some e else Some (EPermanent e)
  end.

(** [Permanent] of an error known to be non-nil. *)
Definition permanent (e : error) : error := if IsPermanent e then e else EPermanent e.

Definition Permanentf (text : string) : error := permanent (errorf text).

(** ** Results: Go's [(T, error)] pair, where a non-nil error discards the value *)

Inductive result (A : Type) : Type :=
  | Ok (a : A)
  | Err (e : error).
Arguments Ok {_} _.
Arguments Err {_} _.

Definition res_bind {A B} (m : result A) (k : A → result B) : result B :=
  match m with Ok a => k a | Err e => Err e end.

Declare Scope go_scope.
Delimit Scope go_scope with go.
Notation "'let!' x := m 'in' k" := (res_bind m (λ x, k))
  (at level 200, x pattern, m at level 100, k at level 200) : go_scope.

(** [if err != nil { return err }] for a validator that returns only an error. *)
Definition err_of {A} (m : result A) : option error :=
  match m with Ok _ => None | Err e => Some e end.

(** ** Lemmas *)

Lemma errors_is_esent s s' : errors_is (esent s) s' = bool_decide (s = s').
Proof. reflexivity. Qed.

Lemma errors_is_permanent e s : errors_is (permanent e) s = errors_is e s.
Proof. unfold permanent. destruct (IsPermanent e); reflexivity. Qed.

Lemma IsPermanent_wrap t e : IsPermanent (EWrap t e) = IsPermanent e.
Proof. reflexivity. Qed.

Lemma IsPermanent_join e1 e2 : IsPermanent (EJoin e1 e2) = IsPermanent e1 || IsPermanent e2.
Proof. unfold IsPermanent. simpl. by destruct (errors_as _ e1). Qed.

Lemma IsPermanent_EPermanent e : IsPermanent (EPermanent e) = true.
Proof. reflexivity. Qed.

Lemma IsPermanent_rate d e : IsPermanent (ERateLimited d e) = IsPermanent e.
Proof. reflexivity. Qed.

Lemma IsPermanent_permanent e : IsPermanent (permanent e) = true.
Proof. unfold permanent. by destruct (IsPermanent e) eqn:H. Qed.

Lemma permanent_fix e : IsPermanent e = true → permanent e = e.
Proof. unfold permanent. by intros ->. Qed.

Lemma permanent_idemp e : permanent (permanent e) = permanent e.
Proof. apply permanent_fix, IsPermanent_permanent. Qed.

Lemma Permanent_Some e : Permanent (Some e) = Some (permanent e).
Proof. unfold Permanent, permanent. by destruct (IsPermanent e). Qed.

Lemma errors_join_None l : errors_join l = None ↔ Forall (λ o, o = None) l.
Proof.
  induction l as [|[e|] l IH]; simpl.
  - split; constructor.
  - split; [destruct (errors_join l); discriminate|]. by inversion 1.
  - rewrite IH, Forall_cons. naive_solver.
Qed.

Lemma errors_join_is l s :
  match errors_join l with Some e => errors_is e s | None => false end
  = existsb (λ o, match o with Some e => errors_is e s | None => false end) l.
Proof.
  induction l as [|[e|] l IH]; simpl; [done| |done].
  destruct (errors_join l); simpl; rewrite <- IH; [done|by rewrite orb_false_r].
Qed.

Lemma join_problems_None l : join_problems l = None ↔ l = [].
Proof.
  unfold join_problems. rewrite errors_join_None. destruct l; simpl; [split; auto|].
  split; [by inversion 1|done].
Qed.

Lemma res_bind_Ok {A B} (m : result A) (k : A → result B) b :
  res_bind m k = Ok b ↔ ∃ a, m = Ok a ∧ k a = Ok b.
Proof. destruct m; simpl; naive_solver. Qed.

Create Rewrite HintDb errs.
#[export] Hint Rewrite IsPermanent_wrap IsPermanent_join IsPermanent_EPermanent
  IsPermanent_rate IsPermanent_permanent errors_is_permanent errors_is_esent : errs.
Create HintDb goerr.
#[export] Hint Resolve IsPermanent_permanent IsPermanent_EPermanent : goerr.
