(* ===== verification/GoText.v ===== *)
(** * Text functions of Go's standard library that the program uses

    A Go string is its bytes: [string] is a list of 8-bit characters.  [strings.TrimSpace]
    and [strings.HasPrefix/HasSuffix/TrimPrefix/TrimSuffix/Contains/Cut/Split/Join/ToLower]. *)

From S2P Require Import Prelude.

Open Scope string_scope.
Local Open Scope Z_scope.

(** ** Bytes *)

Definition byte_of (c : Ascii.ascii) : Z := Z.of_N (Ascii.N_of_ascii c).
Definition of_byte (z : Z) : Ascii.ascii := Ascii.ascii_of_N (Z.to_N z).

Lemma byte_of_range c : 0 ≤ byte_of c < 256.
Proof. unfold byte_of. pose proof (Ascii.N_ascii_bounded c). lia. Qed.

Lemma of_byte_of c : of_byte (byte_of c) = c.
Proof. unfold of_byte, byte_of. rewrite N2Z.id. apply Ascii.ascii_N_embedding. Qed.

Lemma byte_of_of z : 0 ≤ z < 256 → byte_of (of_byte z) = z.
Proof. intros. unfold of_byte, byte_of. rewrite Ascii.N_ascii_embedding; lia. Qed.

Definition nl : Ascii.ascii := of_byte 10.
Definition dquote : Ascii.ascii := of_byte 34.
Definition chr (z : Z) : string := String (of_byte z) EmptyString.

Fixpoint slen (s : string) : Z :=
  match s with EmptyString => 0 | String _ s => 1 + slen s end.

Lemma slen_nonneg s : 0 ≤ slen s.
Proof. induction s; simpl; lia. Qed.

Lemma slen_length s : slen s = Z.of_nat (String.length s).
Proof. induction s; simpl slen; simpl String.length; lia. Qed.

(** stdpp makes [String.append] opaque to [simpl]: these are its equations. *)
Lemma sapp_nil_l s : "" +:+ s = s.
Proof. reflexivity. Qed.

Lemma sapp_cons c s t : String c s +:+ t = String c (s +:+ t).
Proof. reflexivity. Qed.

Create Rewrite HintDb gostr.
#[export] Hint Rewrite sapp_nil_l sapp_cons : gostr.

Lemma slen_app s t : slen (s +:+ t) = slen s + slen t.
Proof. induction s; rewrite ?sapp_cons; simpl slen; [done|]. lia. Qed.

Fixpoint string_forall (f : Ascii.ascii → bool) (s : string) : bool :=
  match s with EmptyString => true | String c s => f c && string_forall f s end.

Lemma string_forall_app f s t : string_forall f (s +:+ t) = string_forall f s && string_forall f t.
Proof. induction s as [|c s IH]; [done|]. rewrite sapp_cons. simpl. by rewrite IH, andb_assoc. Qed.

Lemma sapp_nil_r s : s +:+ "" = s.
Proof. induction s; rewrite ?sapp_cons, ?sapp_nil_l; congruence. Qed.

Lemma sapp_assoc s t u : (s +:+ t) +:+ u = s +:+ (t +:+ u).
Proof. induction s; rewrite ?sapp_cons, ?sapp_nil_l; congruence. Qed.

(** ** Prefixes, suffixes, cuts *)

Fixpoint strip_prefix (p s : string) : option string :=
  match p, s with
  | EmptyString, _ => Some s
  | String a p, String b s => if bool_decide (a = b) then strip_prefix p s else None
  | String _ _, EmptyString => None
  end.

Definition HasPrefix (s p : string) : bool :=
  match strip_prefix p s with Some _ => true | None => false end.
Definition TrimPrefix (s p : string) : string := default s (strip_prefix p s).

Lemma strip_prefix_app p s : strip_prefix p (p +:+ s) = Some s.
Proof. induction p as [|a p IH]; [done|]. rewrite sapp_cons. simpl. by rewrite bool_decide_true. Qed.

Lemma strip_prefix_Some p s r : strip_prefix p s = Some r ↔ s = p +:+ r.
Proof.
  revert s. induction p as [|a p IH]; intros [|b s]; rewrite ?sapp_cons, ?sapp_nil_l; simpl.
  1,2: split; congruence.
  1: split; discriminate.
  case_bool_decide; [subst; rewrite IH|]; split; congruence.
Qed.

Lemma HasPrefix_true s p : HasPrefix s p = true ↔ ∃ r, s = p +:+ r.
Proof.
  unfold HasPrefix. destruct (strip_prefix p s) eqn:E.
  - apply strip_prefix_Some in E. naive_solver.
  - split; [done|]. intros [r ->]. by rewrite strip_prefix_app in E.
Qed.

(** [strip_suffix p s]: [s] without the suffix [p]. *)
Fixpoint strip_suffix (p s : string) : option string :=
  if bool_decide (s = p) then Some "" else
  match s with
  | EmptyString => None
  | String c s' => String c <$> strip_suffix p s'
  end.

Definition HasSuffix (s p : string) : bool :=
  match strip_suffix p s with Some _ => true | None => false end.
Definition TrimSuffix (s p : string) : string := default s (strip_suffix p s).

Lemma strip_suffix_Some p s r : strip_suffix p s = Some r → s = r +:+ p.
Proof.
  revert r. induction s as [|c s IH]; intros r; simpl; case_bool_decide; intros Hr; simplify_eq/=;
    rewrite ?sapp_nil_l; try done.
  destruct (strip_suffix p s) eqn:E; simplify_eq/=. rewrite sapp_cons. f_equal. by apply IH.
Qed.

Fixpoint Contains (s sub : string) : bool :=
  HasPrefix s sub || match s with EmptyString => false | String _ s' => Contains s' sub end.

Fixpoint contains_char (c : Ascii.ascii) (s : string) : bool :=
  match s with EmptyString => false | String d s => bool_decide (c = d) || contains_char c s end.

(** [strings.Cut(s, sep)] for a one-byte separator. *)
Fixpoint Cut (s : string) (sep : Ascii.ascii) : string * string * bool :=
  match s with
  | EmptyString => ("", "", false)
  | String c s' =>
      if bool_decide (c = sep) then ("", s', true)
      else let '(a, b, ok) := Cut s' sep in (String c a, b, ok)
  end.

(** [strings.Split(s, sep)] for a one-byte separator. *)
Fixpoint Split (s : string) (sep : Ascii.ascii) : list string :=
  match s with
  | EmptyString => [""]
  | String c s' =>
      if bool_decide (c = sep) then "" :: Split s' sep
      else match Split s' sep with [] => [chr (byte_of c)] | w :: ws => String c w :: ws end
  end.

(** [strings.Join(l, sep)] *)
Fixpoint Join (l : list string) (sep : string) : string :=
  match l with
  | [] => ""
  | [s] => s
  | s :: l => s +:+ sep +:+ Join l sep
  end.

Definition lower_char (c : Ascii.ascii) : Ascii.ascii :=
  let b := byte_of c in if (65 <=? b) && (b <=? 90) then of_byte (b + 32) else c.

(** [strings.ToLower] on ASCII letters; other bytes are kept (see the header). *)
Fixpoint ToLower (s : string) : string :=
  match s with EmptyString => "" | String c s => String (lower_char c) (ToLower s) end.

(** ** [strings.TrimSpace]: the UTF-8 encodings of the Unicode White_Space characters *)

Definition ascii_spaces : list string := (λ z, chr z) <$> [9; 10; 11; 12; 13; 32].
Definition u3 (a b c : Z) : string := chr a +:+ chr b +:+ chr c.
Definition unicode_spaces : list string :=
  [chr 194 +:+ chr 133; chr 194 +:+ chr 160; u3 225 154 128;
   u3 226 128 128; u3 226 128 129; u3 226 128 130; u3 226 128 131; u3 226 128 132;
   u3 226 128 133; u3 226 128 134; u3 226 128 135; u3 226 128 136; u3 226 128 137;
   u3 226 128 138; u3 226 128 168; u3 226 128 169; u3 226 128 175; u3 226 129 159;
   u3 227 128 128].
Definition spaces : list string := ascii_spaces ++ unicode_spaces.

Fixpoint first_some {A B} (f : A → option B) (l : list A) : option B :=
  match l with
  | [] => None
  | x :: l => match f x with Some y => Some y | None => first_some f l end
  end.

Fixpoint trim_left (fuel : nat) (s : string) : string :=
  match fuel with
  | O => s
  | S n => match first_some (λ p, strip_prefix p s) spaces with
           | Some s' => trim_left n s'
           | None => s
           end
  end.

Fixpoint trim_right (fuel : nat) (s : string) : string :=
  match fuel with
  | O => s
  | S n => match first_some (λ p, strip_suffix p s) spaces with
           | Some s' => trim_right n s'
           | None => s
           end
  end.

Definition TrimSpace (s : string) : string :=
  let l := trim_left (String.length s) s in trim_right (String.length l) l.

Example TrimSpace_ex : TrimSpace (chr 32 +:+ "a b" +:+ chr 9 +:+ u3 226 128 168) = "a b".
Proof. reflexivity. Qed.

(** Stripping makes a text shorter, so its length is enough fuel: trimming only stops when no
    space is left at the end it trims. *)
Lemma first_some_Some {A B} (f : A → option B) l y : first_some f l = Some y → ∃ x, x ∈ l ∧ f x = Some y.
Proof.
  induction l as [|x l IH]; intros H; [done|]. cbn [first_some] in H. destruct (f x) eqn:E.
  - injection H as ->. exists x. split; [apply list_elem_of_here|done].
  - destruct (IH H) as (z & Hz & Hf). exists z. split; [by apply list_elem_of_further|done].
Qed.

Lemma spaces_nonempty p : p ∈ spaces → p ≠ "".
Proof. intros Hp ->. apply (bool_decide_eq_true_2 _) in Hp. vm_compute in Hp. discriminate. Qed.

Lemma string_length_app a b : String.length (a +:+ b) = (String.length a + String.length b)%nat.
Proof. induction a as [|c a IH]; [done|]. rewrite sapp_cons. cbn [String.length]. by rewrite IH. Qed.

Lemma string_length_pos p : p ≠ "" → (0 < String.length p)%nat.
Proof. destruct p; [done|cbn [String.length]; lia]. Qed.

Lemma trim_left_done fuel s :
  (String.length s ≤ fuel)%nat → first_some (λ p, strip_prefix p (trim_left fuel s)) spaces = None.
Proof.
  revert s. induction fuel as [|n IH]; intros s H; cbn [trim_left].
  - destruct s; [reflexivity|cbn [String.length] in H; lia].
  - destruct (first_some (λ p, strip_prefix p s) spaces) as [s'|] eqn:E; [|exact E]. apply IH.
    apply first_some_Some in E as (p & Hp%spaces_nonempty%string_length_pos & E). apply strip_prefix_Some in E as ->.
    rewrite string_length_app in H. lia.
Qed.

Lemma trim_right_done fuel s :
  (String.length s ≤ fuel)%nat → first_some (λ p, strip_suffix p (trim_right fuel s)) spaces = None.
Proof.
  revert s. induction fuel as [|n IH]; intros s H; cbn [trim_right].
  - destruct s; [reflexivity|cbn [String.length] in H; lia].
  - destruct (first_some (λ p, strip_suffix p s) spaces) as [s'|] eqn:E; [|exact E]. apply IH.
    apply first_some_Some in E as (p & Hp%spaces_nonempty%string_length_pos & E). apply strip_suffix_Some in E as ->.
    rewrite string_length_app in H. lia.
Qed.

(** ** Separators *)

Lemma contains_char_app c s t : contains_char c (s +:+ t) = contains_char c s || contains_char c t.
Proof.
  induction s as [|d s IH]; [done|]. rewrite sapp_cons. simpl. by rewrite IH, orb_assoc.
Qed.

(** A string without [c] before a [c] is determined by the whole. *)
Lemma sep_inj c a a' r r' :
  contains_char c a = false → contains_char c a' = false →
  a +:+ String c r = a' +:+ String c r' → a = a' ∧ r = r'.
Proof.
  revert a'. induction a as [|d a IH]; intros [|d' a'] Ha Ha' H;
    rewrite ?sapp_nil_l, ?sapp_cons in H; cbn [contains_char] in *.
  - by injection H as H.
  - injection H as H1 H2. by rewrite H1, bool_decide_true in Ha'.
  - injection H as H1 H2. by rewrite H1, bool_decide_true in Ha.
  - injection H as H1 H2. apply orb_false_iff in Ha as [_ Ha], Ha' as [_ Ha'].
    destruct (IH a' Ha Ha' H2) as [-> ->]. by subst.
Qed.

Lemma sep_absent c a r a' : contains_char c a' = false → a +:+ String c r ≠ a'.
Proof.
  intros Ha' <-. rewrite contains_char_app in Ha'. simpl in Ha'.
  rewrite bool_decide_true in Ha' by done. by rewrite orb_true_r in Ha'.
Qed.

Lemma Join_cons2 a b l sep : Join (a :: b :: l) sep = a +:+ sep +:+ Join (b :: l) sep.
Proof. reflexivity. Qed.

(** Joining non-empty lists of fields that lack the separator is injective. *)
Lemma Join_inj c l l' :
  Forall (λ s, contains_char c s = false) l → Forall (λ s, contains_char c s = false) l' →
  l ≠ [] → l' ≠ [] → Join l (String c "") = Join l' (String c "") → l = l'.
Proof.
  revert l'. induction l as [|a l IH]; intros l' HF HF' Hne Hne' H; [done|].
  destruct l' as [|a' l']; [done|]. apply Forall_cons in HF as [Ha HF], HF' as [Ha' HF'].
  destruct l as [|b l], l' as [|b' l'].
  - by simpl in H; subst.
  - rewrite Join_cons2, sapp_cons in H. by apply eq_sym, sep_absent in H.
  - rewrite Join_cons2, sapp_cons in H. by apply sep_absent in H.
  - rewrite !Join_cons2, !sapp_cons, !sapp_nil_l in H. apply sep_inj in H as [-> H]; [|done..].
    f_equal. by apply IH.
Qed.

(** ** The byte order of strings, [a < b] in Go *)

Lemma string_leb_cons x y a b :
  String.leb (String x a) (String y b) = (byte_of x <? byte_of y) || ((byte_of x =? byte_of y) && String.leb a b).
Proof.
  unfold String.leb, byte_of. cbn [String.compare]. unfold Ascii.compare.
  destruct (N.compare_spec (Ascii.N_of_ascii x) (Ascii.N_of_ascii y)) as [E|E|E].
  - rewrite E, Z.ltb_irrefl, Z.eqb_refl. done.
  - rewrite (proj2 (Z.ltb_lt _ _)) by lia. done.
  - rewrite (proj2 (Z.ltb_ge _ _)), (proj2 (Z.eqb_neq _ _)) by lia. done.
Qed.

Lemma string_leb_trans a b c : String.leb a b = true → String.leb b c = true → String.leb a c = true.
Proof.
  revert b c. induction a as [|x a IH]; intros [|y b] [|z c]; try done.
  rewrite !string_leb_cons. intros H1 H2. apply orb_true_iff in H1, H2. apply orb_true_iff.
  rewrite !andb_true_iff, !Z.ltb_lt, !Z.eqb_eq in *.
  destruct H1 as [H1|[H1 H1']], H2 as [H2|[H2 H2']]; [left; lia|left; lia|left; lia|right].
  split; [lia|]. by eapply IH.
Qed.
