(* ===== verification/GoNum.v ===== *)
(** * [strconv] on base-10 integers, and [encoding/hex]

    [format_uint]/[format_int] are [FormatUint]/[FormatInt]/[Itoa] in base 10;
    [parse_uint] is [ParseUint(s, 10, 64)] and [parse_int] is [ParseInt(s, 10, 64)], which
    is also [Atoi] ([int] is 64 bits): an optional sign, at least one digit, nothing else,
    and a range check. *)

From S2P Require Import Prelude.
From S2P Require Import GoText.

Local Open Scope Z_scope.

Definition digit (d : Z) : Ascii.ascii := of_byte (48 + d).

Definition digit_val (c : Ascii.ascii) : option Z :=
  let d := byte_of c - 48 in if (0 <=? d) && (d <? 10) then Some d else None.

Fixpoint format_go (fuel : nat) (n : Z) (acc : string) : string :=
  match fuel with
  | O => acc
  | S f =>
      let acc' := String (digit (n mod 10)) acc in
      if n / 10 =? 0 then acc' else format_go f (n / 10) acc'
  end.

(** The fuel is the number of binary digits, which is at least the number of decimal ones. *)
Definition format_uint (n : Z) : string := format_go (S (Z.to_nat (Z.log2 n))) n "".

Definition format_int (z : Z) : string :=
  if z <? 0 then String "-"%char (format_uint (- z)) else format_uint z.

(** The value of a digit string appended to [acc]; [None] when a byte is not a digit. *)
Fixpoint digits_go (s : string) (acc : Z) : option Z :=
  match s with
  | EmptyString => Some acc
  | String c s =>
      match digit_val c with
      | Some d => digits_go s (10 * acc + d)
      | None => None
      end
  end.

Definition parse_digits (s : string) : option Z :=
  match s with EmptyString => None | _ => digits_go s 0 end.

Definition parse_uint (s : string) : option Z :=
  match parse_digits s with
  | Some n => if n <? two64 then Some n else None
  | None => None
  end.

Definition parse_int (s : string) : option Z :=
  match s with
  | String "-"%char r =>
      match parse_digits r with
      | Some n => if n <=? - int64_min then Some (- n) else None
      | None => None
      end
  | String "+"%char r =>
      match parse_digits r with
      | Some n => if n <=? int64_max then Some n else None
      | None => None
      end
  | _ =>
      match parse_digits s with
      | Some n => if n <=? int64_max then Some n else None
      | None => None
      end
  end.

(** ** [encoding/hex] *)

Definition hex_digit (d : Z) : Ascii.ascii := if d <? 10 then of_byte (48 + d) else of_byte (87 + d).

Definition hex_val (c : Ascii.ascii) : option Z :=
  let b := byte_of c in
  if (48 <=? b) && (b <=? 57) then Some (b - 48)
  else if (97 <=? b) && (b <=? 102) then Some (b - 87)
  else if (65 <=? b) && (b <=? 70) then Some (b - 55)
  else None.

Fixpoint hex_encode (bs : list Z) : string :=
  match bs with
  | [] => ""
  | b :: bs => String (hex_digit (b / 16)) (String (hex_digit (b mod 16)) (hex_encode bs))
  end.

(** [hex.DecodeString]: an even number of hexadecimal digits, of either case. *)
Fixpoint hex_decode (s : string) : option (list Z) :=
  match s with
  | EmptyString => Some []
  | String a (String b s) =>
      match hex_val a, hex_val b, hex_decode s with
      | Some x, Some y, Some l => Some (16 * x + y :: l)
      | _, _, _ => None
      end
  | String _ EmptyString => None
  end.

(** ** Lemmas *)

Lemma digit_val_digit d : 0 ≤ d < 10 → digit_val (digit d) = Some d.
Proof.
  intros. unfold digit_val, digit. rewrite byte_of_of by lia.
  replace (48 + d - 48) with d by lia.
  rewrite (proj2 (Z.leb_le 0 d)), (proj2 (Z.ltb_lt d 10)) by lia. done.
Qed.

Lemma digit_val_range c d : digit_val c = Some d → 0 ≤ d < 10.
Proof. unfold digit_val. break; to_prop; lia. Qed.

Lemma digits_go_app s t acc :
  digits_go (s +:+ t) acc = match digits_go s acc with Some a => digits_go t a | None => None end.
Proof.
  revert acc. induction s as [|c s IH]; intros acc; autorewrite with gostr; simpl; [done|].
  destruct (digit_val c); [apply IH|done].
Qed.

Lemma log2_div10 n : 10 ≤ n → Z.log2 (n / 10) < Z.log2 n.
Proof.
  intros. pose proof (Z.log2_spec n ltac:(lia)) as [? Hlt].
  rewrite Z.pow_succ_r in Hlt by apply Z.log2_nonneg.
  apply Z.log2_lt_pow2; [apply Z.div_str_pos; lia|].
  apply Z.div_lt_upper_bound; lia.
Qed.

Lemma div10_0 n : 0 ≤ n → n / 10 = 0 ↔ n < 10.
Proof. intros. split; intros H1; [|apply Z.div_small; lia].
  destruct (Z.lt_ge_cases n 10); [done|]. pose proof (Z.div_str_pos n 10 ltac:(lia)). lia.
Qed.

(** [format_go] prints a decimal string in front of [acc] whose value is [n]. *)
Lemma format_go_spec fuel n acc :
  0 ≤ n → Z.log2 n < Z.of_nat fuel →
  ∃ s, format_go fuel n acc = s +:+ acc ∧ s ≠ "" ∧ digits_go s 0 = Some n.
Proof.
  revert n acc. induction fuel as [|f IH]; intros n acc Hn Hf.
  { pose proof (Z.log2_nonneg n). lia. }
  simpl. pose proof (Z.mod_pos_bound n 10 ltac:(lia)). pose proof (Z.div_mod n 10 ltac:(lia)).
  destruct (n / 10 =? 0) eqn:E; to_prop.
  - exists (String (digit (n mod 10)) ""). split_and!; [done..|].
    cbn [digits_go]. rewrite digit_val_digit by lia. f_equal. lia.
  - assert (10 ≤ n) by (destruct (Z.lt_ge_cases n 10); [rewrite (proj2 (div10_0 n Hn)) in E|]; lia).
    pose proof (log2_div10 n ltac:(lia)).
    destruct (IH (n / 10) (String (digit (n mod 10)) acc)) as (s & -> & Hs & Hd).
    { apply Z.div_pos; lia. } { lia. }
    exists (s +:+ String (digit (n mod 10)) ""). split_and!.
    + by rewrite sapp_assoc.
    + destruct s; [done|]. rewrite sapp_cons. done.
    + rewrite digits_go_app, Hd. cbn [digits_go]. rewrite digit_val_digit by lia. f_equal. lia.
Qed.

Lemma format_uint_spec n :
  0 ≤ n → format_uint n ≠ "" ∧ digits_go (format_uint n) 0 = Some n.
Proof.
  intros. unfold format_uint. destruct (format_go_spec (S (Z.to_nat (Z.log2 n))) n "") as (s & -> & ? & ?).
  - done.
  - pose proof (Z.log2_nonneg n). lia.
  - by rewrite sapp_nil_r.
Qed.

Lemma parse_digits_format n : 0 ≤ n → parse_digits (format_uint n) = Some n.
Proof.
  intros H. destruct (format_uint_spec n H) as [Hne Hd]. unfold parse_digits.
  by destruct (format_uint n).
Qed.

Lemma format_uint_nonempty n : 0 ≤ n → format_uint n ≠ "".
Proof. intros H. apply (format_uint_spec n H). Qed.

Lemma parse_uint_format n : in_uint64 n → parse_uint (format_uint n) = Some n.
Proof.
  intros [? ?]. unfold parse_uint. rewrite parse_digits_format by done.
  by rewrite (proj2 (Z.ltb_lt _ _)).
Qed.

(** A decimal string starts with a digit, so with neither sign. *)
Lemma parse_digits_no_sign c s n :
  parse_digits (String c s) = Some n → c ≠ "-"%char ∧ c ≠ "+"%char.
Proof.
  unfold parse_digits. simpl. destruct (digit_val c) eqn:E; [|done]. intros _.
  split; intros ->; vm_compute in E; discriminate.
Qed.

Lemma parse_int_unsigned s n : parse_digits s = Some n → n ≤ int64_max → parse_int s = Some n.
Proof.
  intros H Hn. destruct s as [|c s]; [discriminate|].
  destruct (parse_digits_no_sign _ _ _ H) as [H1 H2].
  unfold parse_int. rewrite H, (proj2 (Z.leb_le _ _)) by done.
  destruct c as [[] [] [] [] [] [] [] []]; congruence.
Qed.

(** Round trip of [strconv] on every [int64]. *)
Lemma parse_int_format z : in_int64 z → parse_int (format_int z) = Some z.
Proof.
  intros [? ?]. unfold format_int. destruct (z <? 0) eqn:E; to_prop.
  - simpl. rewrite parse_digits_format by lia.
    rewrite (proj2 (Z.leb_le _ _)) by lia. f_equal. lia.
  - apply parse_int_unsigned; [by apply parse_digits_format|done].
Qed.

Lemma format_int_nonempty z : format_int z ≠ "".
Proof.
  unfold format_int. destruct (z <? 0) eqn:E; to_prop; [done|]. by apply format_uint_nonempty.
Qed.

Lemma parse_digits_nonneg s n : parse_digits s = Some n → 0 ≤ n.
Proof.
  assert (∀ acc, 0 ≤ acc → digits_go s acc = Some n → 0 ≤ n) as Hgo.
  { induction s as [|c s IH]; intros acc ? H; simpl in H; [by simplify_eq|].
    destruct (digit_val c) eqn:E; [|done]. apply digit_val_range in E. apply (IH _) in H; lia. }
  unfold parse_digits. destruct s; [done|]. apply Hgo. lia.
Qed.

(** What [parse_int] accepts is an [int64]. *)
Lemma parse_int_range s n : parse_int s = Some n → in_int64 n.
Proof.
  assert (∀ r n', match parse_digits r with
    | Some n => if n <=? int64_max then Some n else None | None => None end = Some n' → in_int64 n') as H1.
  { intros r n' H. destruct (parse_digits r) eqn:E; [|done]. apply parse_digits_nonneg in E.
    break. to_prop. unfold in_int64, int64_min. lia. }
  unfold parse_int. destruct s as [|c s]; [done|].
  destruct c as [[] [] [] [] [] [] [] []]; try apply H1.
  destruct (parse_digits s) eqn:E; [|done]. apply parse_digits_nonneg in E. intros.
  break. to_prop. unfold in_int64, int64_max, int64_min in *. lia.
Qed.

Lemma format_int_inj x y : in_int64 x → in_int64 y → format_int x = format_int y → x = y.
Proof.
  intros Hx Hy H. apply parse_int_format in Hx, Hy. rewrite H in Hx. congruence.
Qed.

Lemma hex_val_digit d : 0 ≤ d < 16 → hex_val (hex_digit d) = Some d.
Proof.
  intros. assert (d ∈ (Z.of_nat <$> seq 0 16)) as Hin.
  { apply list_elem_of_fmap. exists (Z.to_nat d). split; [lia|]. apply elem_of_seq. lia. }
  revert Hin. clear. intros Hin. simpl in Hin.
  repeat (apply elem_of_cons in Hin as [->|Hin]; [reflexivity|]). by apply elem_of_nil in Hin.
Qed.

Lemma hex_decode_encode bs : Forall (λ b, 0 ≤ b < 256) bs → hex_decode (hex_encode bs) = Some bs.
Proof.
  induction 1 as [|b bs Hb _ IH]; [done|]. cbn [hex_encode hex_decode].
  pose proof (Z.mod_pos_bound b 16 ltac:(lia)).
  rewrite (hex_val_digit (b / 16)) by (split; [apply Z.div_pos|apply Z.div_lt_upper_bound]; lia).
  rewrite (hex_val_digit (b mod 16)) by lia. rewrite IH. do 2 f_equal.
  pose proof (Z.div_mod b 16). lia.
Qed.

Lemma hex_val_range c x : hex_val c = Some x → 0 ≤ x < 16.
Proof. unfold hex_val. break; to_prop; lia. Qed.

Lemma slen_hex_encode bs : slen (hex_encode bs) = 2 * Z.of_nat (length bs).
Proof. induction bs as [|b bs IH]; cbn [hex_encode slen length]; lia. Qed.

(** A decimal number contains no byte but digits and a minus sign. *)
Lemma digits_go_no_char c s acc n :
  digit_val c = None → digits_go s acc = Some n → contains_char c s = false.
Proof.
  intros Hc. revert acc. induction s as [|d s IH]; intros acc H; simpl in *; [done|].
  destruct (digit_val d) eqn:E; [|done]. rewrite (IH _ H), orb_false_r.
  apply bool_decide_eq_false. congruence.
Qed.

Lemma format_int_no_char c z :
  digit_val c = None → c ≠ "-"%char → contains_char c (format_int z) = false.
Proof.
  intros Hc Hm. unfold format_int. destruct (z <? 0) eqn:E; to_prop; simpl.
  - rewrite bool_decide_false by done. simpl.
    eapply digits_go_no_char; [done|]. apply format_uint_spec. lia.
  - eapply digits_go_no_char; [done|]. apply format_uint_spec. lia.
Qed.

Lemma Join_format_inj c l l' :
  digit_val c = None → c ≠ "-"%char → l ≠ [] → l' ≠ [] →
  Forall in_int64 l → Forall in_int64 l' →
  Join (format_int <$> l) (String c "") = Join (format_int <$> l') (String c "") → l = l'.
Proof.
  intros Hc Hm Hl Hl' HF HF' H. apply Join_inj in H.
  - revert l' Hl' HF' H. clear Hl. induction HF as [|x l Hx _ IH]; intros [|y l'] ? HF' H; try done.
    apply Forall_cons in HF' as [Hy HF']. rewrite !fmap_cons in H. injection H as H1 H2.
    apply format_int_inj in H1 as ->; [|done..]. f_equal.
    destruct l' as [|]; [by destruct l|]. by apply IH.
  - apply Forall_fmap, Forall_true. intros. by apply format_int_no_char.
  - apply Forall_fmap, Forall_true. intros. by apply format_int_no_char.
  - by destruct l.
  - by destruct l'.
Qed.
