(* ===== verification/GoTime.v ===== *)
(** * [time]: instants, durations, RFC 3339

    A [Time] is an instant, in nanoseconds since Go's zero time (January 1, year 1, 00:00
    UTC), with the offset east of UTC, in seconds, of the location it is shown in.  Two
    locations with the same offset are not distinguished, and the monotonic clock reading
    is not modelled.  [Format] and [Parse] are those of the layout [time.RFC3339Nano]. *)

From S2P Require Import Prelude.
From S2P Require Import GoText.
From S2P Require Import GoNum.

Local Open Scope Z_scope.

Record Time := mkTime { t_ns : Z; t_off : Z }.

#[export] Instance Time_eq_dec : EqDecision Time.
Proof. solve_decision. Defined.

Definition zero_time : Time := mkTime 0 0.
Definition IsZero (t : Time) : bool := t_ns t =? 0.
Definition UTC (t : Time) : Time := mkTime (t_ns t) 0.
Definition Equal (t u : Time) : bool := t_ns t =? t_ns u.
Definition Before (t u : Time) : bool := t_ns t <? t_ns u.
Definition After (t u : Time) : bool := t_ns u <? t_ns t.
Definition Add (t : Time) (d : Duration) : Time := mkTime (t_ns t + d) (t_off t).

(** [t.Sub(u)] saturates at the bounds of [Duration]. *)
Definition Sub (t u : Time) : Duration :=
  Z.max int64_min (Z.min int64_max (t_ns t - t_ns u)).

(** [d.Milliseconds()] truncates toward zero. *)
Definition Milliseconds (d : Duration) : Z := Z.quot d 1000000.

Definition unix_epoch_ns : Z := 62135596800 * Second.
Definition UnixNano (t : Time) : Z := wrap64 (t_ns t - unix_epoch_ns).
Definition UnixMicro (t : Time) : Z := wrap64 ((t_ns t - unix_epoch_ns) / 1000).

(** ** The proleptic Gregorian calendar

    Days count from January 1, year 1.  Years start in March internally, so that the leap
    day is the last one. *)

Definition days_of_civil (y m d : Z) : Z :=
  let y' := if m <=? 2 then y - 1 else y in
  let mp := if m <=? 2 then m + 9 else m - 3 in
  365 * y' + y' / 4 - y' / 100 + y' / 400 + (153 * mp + 2) / 5 + d - 307.

Definition civil_of_days (days : Z) : Z * Z * Z :=
  let D := days + 306 in
  let n400 := D / 146097 in
  let r := D - 146097 * n400 in
  let n100 := Z.min (r / 36524) 3 in
  let r1 := r - 36524 * n100 in
  let n4 := r1 / 1461 in
  let r2 := r1 - 1461 * n4 in
  let n1 := Z.min (r2 / 365) 3 in
  let doy := r2 - 365 * n1 in
  let y := 400 * n400 + 100 * n100 + 4 * n4 + n1 in
  let mp := (5 * doy + 2) / 153 in
  let d := doy - (153 * mp + 2) / 5 + 1 in
  if mp <? 10 then (y, mp + 3, d) else (y + 1, mp - 9, d).

Definition is_leap (y : Z) : bool := (y mod 4 =? 0) && (negb (y mod 100 =? 0) || (y mod 400 =? 0)).

Definition days_in (m y : Z) : Z :=
  if m =? 2 then (if is_leap y then 29 else 28)
  else if (m =? 4) || (m =? 6) || (m =? 9) || (m =? 11) then 30 else 31.

Definition day_ns : Z := 86400 * Second.

(** The calendar year of a time in its own location. *)
Definition Year (t : Time) : Z :=
  let '(y, _, _) := civil_of_days ((t_ns t + t_off t * Second) / day_ns) in y.

(** ** Formatting *)

Definition pad2 (n : Z) : string := String (digit (n / 10)) (String (digit (n mod 10)) "").
Definition pad4 (n : Z) : string :=
  if n <? 10000 then pad2 (n / 100) +:+ pad2 (n mod 100) else format_uint n.
Definition fmt_year (y : Z) : string := if y <? 0 then String "-"%char (pad4 (- y)) else pad4 y.

(** The [k]-digit decimal fraction [n / 10^k] without its trailing zeros. *)
Fixpoint frac_digits (k : nat) (n : Z) : string :=
  match k with
  | O => ""
  | S k' =>
      if n =? 0 then ""
      else String (digit (n / 10 ^ Z.of_nat k')) (frac_digits k' (n mod 10 ^ Z.of_nat k'))
  end.

Definition fmt_frac (nsec : Z) : string :=
  if nsec =? 0 then "" else String "."%char (frac_digits 9 nsec).

(** [d.String()]: hours, minutes and seconds with their fraction, or the largest unit below a
    second that fits; [u] is the magnitude. *)
Definition duration_frac (k : nat) (n : Z) : string := if n =? 0 then "" else String "."%char (frac_digits k n).

Definition duration_magnitude (u : Z) : string :=
  if u =? 0 then "0s"
  else if u <? 1000 then format_uint u +:+ "ns"
  else if u <? Millisecond then format_uint (u / 1000) +:+ duration_frac 3 (u mod 1000) +:+ "µs"
  else if u <? Second then format_uint (u / Millisecond) +:+ duration_frac 6 (u mod Millisecond) +:+ "ms"
  else
    let secs := u / Second in
    let mins := secs / 60 in
    let s := format_uint (secs mod 60) +:+ duration_frac 9 (u mod Second) +:+ "s" in
    if mins =? 0 then s
    else let m := format_uint (mins mod 60) +:+ "m" +:+ s in
         if mins / 60 =? 0 then m else format_uint (mins / 60) +:+ "h" +:+ m.

Definition Duration_String (d : Duration) : string :=
  if d <? 0 then String "-"%char (duration_magnitude (- d)) else duration_magnitude d.

Example Duration_String_ex : Duration_String (168 * Hour) = "168h0m0s" ∧ Duration_String (1500 * Millisecond) = "1.5s" ∧
  Duration_String (- 90 * Second) = "-1m30s".
Proof. vm_compute. done. Qed.

(** [d.Round(m)]: to the nearest multiple, halves away from zero, saturating. *)
Definition Round (d m : Duration) : Duration :=
  if m <=? 0 then d
  else
    let r := Z.rem d m in
    if d <? 0 then
      let r := - r in
      if r + r <? m then d + r
      else let d1 := wrap64 (d - m + r) in if d1 <? d then d1 else int64_min
    else if r + r <? m then d - r
    else let d1 := wrap64 (d + m - r) in if d <? d1 then d1 else int64_max.

Definition fmt_zone (off : Z) : string :=
  if off =? 0 then "Z"
  else let z := Z.quot off 60 in
       let a := Z.abs z in
       String (if z <? 0 then "-"%char else "+"%char) (pad2 (a / 60) +:+ ":" +:+ pad2 (a mod 60)).

Definition Format_RFC3339Nano (t : Time) : string :=
  let l := t_ns t + t_off t * Second in
  let days := l / day_ns in
  let rem := l mod day_ns in
  let s := rem / Second in
  let '(y, m, d) := civil_of_days days in
  fmt_year y +:+ "-" +:+ pad2 m +:+ "-" +:+ pad2 d +:+ "T"
    +:+ pad2 (s / 3600) +:+ ":" +:+ pad2 (s / 60 mod 60) +:+ ":" +:+ pad2 (s mod 60)
    +:+ fmt_frac (rem mod Second) +:+ fmt_zone (t_off t).

(** ** Parsing *)

Definition take_char (c : ascii) (s : string) : option string :=
  match s with
  | String d s => if bool_decide (c = d) then Some s else None
  | EmptyString => None
  end.

(** [getnum(value, true)]: exactly two digits. *)
Definition get2 (s : string) : option (Z * string) :=
  match s with
  | String a (String b s) =>
      match digit_val a, digit_val b with
      | Some x, Some y => Some (10 * x + y, s)
      | _, _ => None
      end
  | _ => None
  end.

(** [getnum(value, false)]: one digit or two. *)
Definition get1or2 (s : string) : option (Z * string) :=
  match get2 s with
  | Some r => Some r
  | None => match s with
            | String a s => match digit_val a with Some x => Some (x, s) | None => None end
            | EmptyString => None
            end
  end.

Definition get4 (s : string) : option (Z * string) :=
  match get2 s with
  | Some (h, s) => match get2 s with Some (l, s) => Some (100 * h + l, s) | None => None end
  | None => None
  end.

(** Any number of digits, of which the first [k] count. *)
Fixpoint frac_val (k : nat) (s : string) : Z * string :=
  match s with
  | String c s' =>
      match digit_val c with
      | Some d =>
          match k with
          | O => (0, snd (frac_val O s'))
          | S k' => let '(v, r) := frac_val k' s' in (d * 10 ^ Z.of_nat k' + v, r)
          end
      | None => (0, s)
      end
  | EmptyString => (0, s)
  end.

Definition get_frac (s : string) : Z * string :=
  match s with
  | String p (String c r) =>
      if (bool_decide (p = "."%char) || bool_decide (p = ","%char))
      then match digit_val c with Some _ => frac_val 9 (String c r) | None => (0, s) end
      else (0, s)
  | _ => (0, s)
  end.

Definition get_zone (s : string) : option (Z * string) :=
  match s with
  | String c r =>
      if bool_decide (c = "Z"%char) then Some (0, r)
      else
        match get2 r with
        | Some (hr, r) =>
            match take_char ":"%char r with
            | Some r =>
                match get2 r with
                | Some (mm, r) =>
                    if (hr <=? 24) && (mm <=? 60) then
                      let off := (hr * 60 + mm) * 60 in
                      if bool_decide (c = "+"%char) then Some (off, r)
                      else if bool_decide (c = "-"%char) then Some (- off, r) else None
                    else None
                | None => None
                end
            | None => None
            end
        | None => None
        end
  | EmptyString => None
  end.

Definition Parse_RFC3339Nano (s : string) : option Time :=
  '(y, s) ← get4 s; s ← take_char "-"%char s;
  '(mo, s) ← get2 s;
  if negb ((1 <=? mo) && (mo <=? 12)) then None else
  s ← take_char "-"%char s; '(d, s) ← get2 s; s ← take_char "T"%char s;
  '(h, s) ← get1or2 s;
  if negb (h <? 24) then None else
  s ← take_char ":"%char s; '(mi, s) ← get2 s;
  if negb (mi <? 60) then None else
  s ← take_char ":"%char s; '(sec, s) ← get2 s;
  if negb (sec <? 60) then None else
  let '(nsec, s) := get_frac s in
  '(off, s) ← get_zone s;
  if negb (bool_decide (s = "")) then None else
  if negb ((1 <=? d) && (d <=? days_in mo y)) then None else
  Some (mkTime ((days_of_civil y mo d * 86400 + h * 3600 + mi * 60 + sec - off) * Second + nsec) off).

Example format_ex :
  Format_RFC3339Nano (mkTime (unix_epoch_ns + 1754000000 * Second + 120000000) 0) = "2025-07-31T22:13:20.12Z".
Proof. vm_compute. reflexivity. Qed.

Example parse_ex :
  Parse_RFC3339Nano "2024-02-29T23:59:59.000000001+02:00"
  = Some (mkTime (unix_epoch_ns + 1709243999 * Second + 1) 7200).
Proof. vm_compute. reflexivity. Qed.

(** ** Lemmas: the calendar *)

(** [lia] with the Euclidean equations of [/] and [mod]. *)
Ltac dm_lia := Z.div_mod_to_equations; lia.

(** The digits of a day number in the mixed radix 400/100/4/1 years. *)
Lemma civil_decomp D :
  let n400 := D / 146097 in
  let r := D - 146097 * n400 in
  let n100 := Z.min (r / 36524) 3 in
  let r1 := r - 36524 * n100 in
  let n4 := r1 / 1461 in
  let r2 := r1 - 1461 * n4 in
  let n1 := Z.min (r2 / 365) 3 in
  let doy := r2 - 365 * n1 in
  0 ≤ n100 ≤ 3 ∧ 0 ≤ n4 ≤ 24 ∧ 0 ≤ n1 ≤ 3 ∧ 0 ≤ doy ≤ 365 ∧
  (doy = 365 → n1 = 3 ∧ (n4 < 24 ∨ n100 = 3)) ∧
  D = 146097 * n400 + 36524 * n100 + 1461 * n4 + 365 * n1 + doy.
Proof.
  intros. subst n400.
  assert (0 ≤ r < 146097) by (subst r; dm_lia).
  assert (0 ≤ r1 ∧ (n100 < 3 → r1 < 36524) ∧ r1 ≤ 36524) by (subst r1 n100; dm_lia).
  assert (0 ≤ n4 ≤ 24) by (subst n4; dm_lia).
  assert (0 ≤ r2 ≤ 1460 ∧ (n4 = 24 → n100 < 3 → r2 < 1460)) by (subst r2 n4; dm_lia).
  subst doy n1 r2 n4 r1 n100. subst r. dm_lia.
Qed.

(** The month and day of a day number within a year that starts in March. *)
Lemma month_decomp doy :
  0 ≤ doy ≤ 365 →
  let mp := (5 * doy + 2) / 153 in
  let d := doy - (153 * mp + 2) / 5 + 1 in
  0 ≤ mp ≤ 11 ∧ 1 ≤ d ≤ 31 ∧ (mp = 11 → d ≤ 29) ∧ (mp = 11 → d = 29 → doy = 365) ∧
  (mp = 1 ∨ mp = 3 ∨ mp = 6 ∨ mp = 8 → d ≤ 30).
Proof. intros H mp d. subst mp d. dm_lia. Qed.

Definition civil_ok (y m d : Z) : Prop := 1 ≤ m ≤ 12 ∧ 1 ≤ d ≤ days_in m y.

(** The quotients of a March year from its digits. *)
Lemma year_digits n400 n100 n4 n1 :
  0 ≤ n100 ≤ 3 → 0 ≤ n4 ≤ 24 → 0 ≤ n1 ≤ 3 →
  let Y := 400 * n400 + 100 * n100 + 4 * n4 + n1 in
  Y / 4 = 100 * n400 + 25 * n100 + n4 ∧ Y / 100 = 4 * n400 + n100 ∧ Y / 400 = n400.
Proof. intros. subst Y. split_and!; dm_lia. Qed.

(** The February of a March year that has 366 days has 29. *)
Lemma leap_next n400 n100 n4 :
  0 ≤ n100 ≤ 3 → 0 ≤ n4 ≤ 24 → n4 < 24 ∨ n100 = 3 →
  is_leap (400 * n400 + 100 * n100 + 4 * n4 + 3 + 1) = true.
Proof.
  intros. unfold is_leap.
  assert ((400 * n400 + 100 * n100 + 4 * n4 + 3 + 1) mod 4 = 0) as -> by dm_lia.
  destruct (decide (n4 = 24)) as [->|].
  - assert (n100 = 3) as -> by lia.
    assert ((400 * n400 + 100 * 3 + 4 * 24 + 3 + 1) mod 400 = 0) as -> by dm_lia.
    by rewrite orb_true_r.
  - assert ((400 * n400 + 100 * n100 + 4 * n4 + 3 + 1) mod 100 = 4 * n4 + 4) as Hm by dm_lia.
    assert (4 * n4 + 4 ≠ 0) as Hne by lia. rewrite <- Hm in Hne.
    apply Z.eqb_neq in Hne. by rewrite Hne.
Qed.

Lemma days_in_bound m y d :
  1 ≤ m ≤ 12 → 1 ≤ d ≤ 31 → (m = 2 → d ≤ 28 ∨ d = 29 ∧ is_leap y = true) →
  (m = 4 ∨ m = 6 ∨ m = 9 ∨ m = 11 → d ≤ 30) → d ≤ days_in m y.
Proof. intros. unfold days_in. break; to_prop; intuition lia. Qed.

Lemma civil_roundtrip days :
  let '(y, m, d) := civil_of_days days in days_of_civil y m d = days ∧ civil_ok y m d.
Proof.
  unfold civil_of_days. pose proof (civil_decomp (days + 306)) as HD. cbv zeta in HD |- *.
  set (n400 := (days + 306) / 146097) in *.
  set (r := days + 306 - 146097 * n400) in *. set (n100 := Z.min (r / 36524) 3) in *.
  set (r1 := r - 36524 * n100) in *. set (n4 := r1 / 1461) in *.
  set (r2 := r1 - 1461 * n4) in *. set (n1 := Z.min (r2 / 365) 3) in *.
  set (doy := r2 - 365 * n1) in *.
  destruct HD as (H100 & H4 & H1 & Hdoy & Hleap & HD).
  clearbody doy n1 n4 n100 n400. clear r2 r1 r.
  destruct (month_decomp doy Hdoy) as (Hmp & Hd & Hfeb & Hfeb' & H30).
  set (mp := (5 * doy + 2) / 153) in *.
  destruct (year_digits n400 n100 n4 n1 H100 H4 H1) as (E4 & E100 & E400).
  assert (∀ q, q = (153 * mp + 2) / 5 → days + 306 = 146097 * n400 + 36524 * n100 + 1461 * n4 + 365 * n1 + q +
    (doy - (153 * mp + 2) / 5)) as Hsum by (intros; lia).
  destruct (mp <? 10) eqn:E; to_prop; unfold days_of_civil, civil_ok.
  - assert ((mp + 3 <=? 2) = false) as -> by (apply Z.leb_gt; lia).
    replace (mp + 3 - 3) with mp by lia. rewrite E4, E100, E400. split; [lia|].
    split; [lia|]. split; [lia|]. apply days_in_bound; lia.
  - assert ((mp - 9 <=? 2) = true) as -> by (apply Z.leb_le; lia).
    replace (mp - 9 + 9) with mp by lia.
    replace (400 * n400 + 100 * n100 + 4 * n4 + n1 + 1 - 1) with
      (400 * n400 + 100 * n100 + 4 * n4 + n1) by lia.
    rewrite E4, E100, E400. split; [lia|].
    split; [lia|]. split; [lia|]. apply days_in_bound; [lia|lia| |lia].
    intros. destruct (decide (doy - (153 * mp + 2) / 5 + 1 = 29)); [right|left; lia].
    split; [done|]. destruct (Hleap ltac:(lia)) as [-> ?]. by apply leap_next.
Qed.

(** ** Lemmas: digits *)

Lemma get2_pad2 n s : 0 ≤ n < 100 → get2 (pad2 n +:+ s) = Some (n, s).
Proof.
  intros. unfold pad2. autorewrite with gostr. cbn [get2].
  rewrite !digit_val_digit by dm_lia. do 2 f_equal. dm_lia.
Qed.

Lemma get4_pad4 n s : 0 ≤ n < 10000 → get4 (pad4 n +:+ s) = Some (n, s).
Proof.
  intros. unfold pad4, get4. rewrite (proj2 (Z.ltb_lt _ _)) by lia.
  rewrite sapp_assoc, get2_pad2 by dm_lia. rewrite get2_pad2 by dm_lia. do 2 f_equal. dm_lia.
Qed.

(** [s] does not start with a digit. *)
Definition no_digit (s : string) : Prop :=
  match s with String c _ => digit_val c = None | EmptyString => True end.

Lemma frac_val_digits k n r :
  0 ≤ n < 10 ^ Z.of_nat k → no_digit r → frac_val k (frac_digits k n +:+ r) = (n, r).
Proof.
  intros Hn Hr. revert n Hn. induction k as [|k IH]; intros n Hn.
  - change (10 ^ Z.of_nat 0) with 1 in Hn. simpl. rewrite sapp_nil_l.
    replace n with 0 by lia. destruct r; simpl in *; [done|]. by rewrite Hr.
  - cbn [frac_digits]. destruct (n =? 0) eqn:E; to_prop.
    { subst n. rewrite sapp_nil_l. destruct r; simpl in *; [done|]. by rewrite Hr. }
    rewrite Nat2Z.inj_succ, Z.pow_succ_r in Hn by lia.
    assert (0 < 10 ^ Z.of_nat k) by (apply Z.pow_pos_nonneg; lia).
    assert (0 ≤ n / 10 ^ Z.of_nat k < 10).
    { split; [apply Z.div_pos; lia|apply Z.div_lt_upper_bound; lia]. }
    rewrite sapp_cons. cbn [frac_val]. rewrite digit_val_digit by done.
    rewrite IH by (apply Z.mod_pos_bound; lia). f_equal.
    rewrite (Z.div_mod n (10 ^ Z.of_nat k)) at 3 by lia. lia.
Qed.

Lemma get_frac_fmt nsec r :
  0 ≤ nsec < Second → (∃ c r', r = String c r' ∧ digit_val c = None ∧ c ≠ "."%char ∧ c ≠ ","%char) →
  get_frac (fmt_frac nsec +:+ r) = (nsec, r).
Proof.
  intros Hn (c & r' & -> & Hc & Hp1 & Hp2). unfold fmt_frac. destruct (nsec =? 0) eqn:E; to_prop.
  - subst. rewrite sapp_nil_l. unfold get_frac. destruct r' as [|c' r']; [done|].
    by rewrite !bool_decide_false by done.
  - rewrite sapp_cons. pose proof (frac_val_digits 9 nsec (String c r') ltac:(done) Hc) as Hf.
    assert (∃ d s, frac_digits 9 nsec = String (digit d) s ∧ 0 ≤ d < 10) as (d & s & Hs & Hd).
    { cbn [frac_digits]. apply Z.eqb_neq in E. rewrite E. eexists _, _. split; [done|].
      unfold Second in Hn. change (10 ^ Z.of_nat 8) with 100000000. dm_lia. }
    rewrite Hs in Hf |- *. rewrite sapp_cons in Hf |- *. cbn [get_frac].
    rewrite digit_val_digit by done. exact Hf.
Qed.

Lemma take_char_cons c s : take_char c (String c s) = Some s.
Proof. simpl. by rewrite bool_decide_true. Qed.

(** A UTC time whose year has four digits: the times [time.RFC3339Nano] can carry. *)
Definition utc_4digit (t : Time) : Prop := t_off t = 0 ∧ 0 ≤ Year t < 10000.

#[export] Instance utc_4digit_dec t : Decision (utc_4digit t).
Proof. unfold utc_4digit. apply _. Defined.

Lemma Parse_Format t : utc_4digit t → Parse_RFC3339Nano (Format_RFC3339Nano t) = Some t.
Proof.
  destruct t as [ns off]. intros [Hoff Hy]. simpl in Hoff. subst off.
  unfold Year in Hy. unfold Format_RFC3339Nano. cbn [t_ns t_off] in *.
  rewrite Z.mul_0_l, Z.add_0_r in *. cbv zeta.
  pose proof (civil_roundtrip (ns / day_ns)) as Hc.
  destruct (civil_of_days (ns / day_ns)) as [[y m] d]. destruct Hc as [Hdays [Hm Hd]].
  set (rem := ns mod day_ns). set (s := rem / Second).
  assert (0 ≤ rem < day_ns) by (apply Z.mod_pos_bound; done).
  assert (0 ≤ s < 86400) by (subst s; unfold day_ns, Second in *; dm_lia).
  assert (d < 100) by (unfold days_in in Hd; break; lia).
  assert (0 ≤ s / 3600 < 24) by dm_lia. assert (0 ≤ s / 60 mod 60 < 60) by dm_lia.
  assert (0 ≤ s mod 60 < 60) by dm_lia.
  assert (0 ≤ rem mod Second < Second) by (apply Z.mod_pos_bound; done).
  unfold fmt_year. rewrite (proj2 (Z.ltb_ge _ _)) by lia.
  change (fmt_zone 0) with "Z". rewrite <- ?(sapp_assoc).
  unfold Parse_RFC3339Nano. rewrite ?sapp_assoc, get4_pad4 by lia. cbn [mbind option_bind].
  autorewrite with gostr. rewrite take_char_cons. cbn [mbind option_bind].
  rewrite get2_pad2 by lia. cbn [mbind option_bind].
  rewrite (proj2 (Z.leb_le 1 m)), (proj2 (Z.leb_le m 12)) by lia. cbn [andb negb].
  rewrite take_char_cons. cbn [mbind option_bind].
  rewrite get2_pad2 by lia. cbn [mbind option_bind]. rewrite take_char_cons. cbn [mbind option_bind].
  unfold get1or2. rewrite get2_pad2 by lia. cbn [mbind option_bind].
  rewrite (proj2 (Z.ltb_lt (s / 3600) 24)) by lia. cbn [negb].
  rewrite take_char_cons. cbn [mbind option_bind]. rewrite get2_pad2 by lia. cbn [mbind option_bind].
  rewrite (proj2 (Z.ltb_lt (s / 60 mod 60) 60)) by lia. cbn [negb].
  rewrite take_char_cons. cbn [mbind option_bind]. rewrite get2_pad2 by lia. cbn [mbind option_bind].
  rewrite (proj2 (Z.ltb_lt (s mod 60) 60)) by lia. cbn [negb].
  rewrite get_frac_fmt; [|done|by exists "Z"%char, ""].
  cbn [get_zone]. rewrite bool_decide_true by done. cbn [mbind option_bind].
  rewrite bool_decide_true by done. cbn [negb].
  rewrite (proj2 (Z.leb_le 1 d)), (proj2 (Z.leb_le d _)) by lia. cbn [negb andb].
  do 2 f_equal. rewrite Hdays. subst s rem. unfold day_ns, Second in *. dm_lia.
Qed.
