(* ===== verification/GoSha.v ===== *)
(** * [crypto/sha256] and [crypto/hmac]

    SHA-256 (FIPS 180-4) on byte strings, with 32-bit words as [Z], and HMAC over it
    (RFC 2104).  Both are executable and checked against published test vectors. *)

From S2P Require Import Prelude.
From S2P Require Import GoText.
From S2P Require Import GoNum.

Local Open Scope Z_scope.

Definition mask32 : Z := 4294967295.
Definition add32 (x y : Z) : Z := Z.land (x + y) mask32.
Definition rotr (n x : Z) : Z := Z.land (Z.lor (Z.shiftr x n) (Z.shiftl x (32 - n))) mask32.

Definition Ch (x y z : Z) : Z := Z.lxor (Z.land x y) (Z.land (Z.lxor x mask32) z).
Definition Maj (x y z : Z) : Z := Z.lxor (Z.lxor (Z.land x y) (Z.land x z)) (Z.land y z).
Definition Sigma0 (x : Z) : Z := Z.lxor (Z.lxor (rotr 2 x) (rotr 13 x)) (rotr 22 x).
Definition Sigma1 (x : Z) : Z := Z.lxor (Z.lxor (rotr 6 x) (rotr 11 x)) (rotr 25 x).
Definition sigma0 (x : Z) : Z := Z.lxor (Z.lxor (rotr 7 x) (rotr 18 x)) (Z.shiftr x 3).
Definition sigma1 (x : Z) : Z := Z.lxor (Z.lxor (rotr 17 x) (rotr 19 x)) (Z.shiftr x 10).

(** The constants are not listed but computed from their definition in FIPS 180-4: the first
    32 bits of the fractional parts of the cube roots (square roots for the initial state)
    of the first primes. *)
Definition is_prime (n : nat) : bool :=
  forallb (λ d, negb (Nat.eqb (Nat.modulo n d) 0)) (seq 2 (n - 2)).

Definition first_primes (k : nat) : list Z :=
  firstn k (Z.of_nat <$> filter (λ n, is_prime n = true) (seq 2 400)).

(** The largest [r < acc + 2^bits] with [r^3 ≤ n], by binary search. *)
Fixpoint cbrt_bits (bits : nat) (n acc : Z) : Z :=
  match bits with
  | O => acc
  | S b => let r := acc + 2 ^ Z.of_nat b in cbrt_bits b n (if r * r * r <=? n then r else acc)
  end.

Definition K256 : list Z :=
  Eval vm_compute in (λ p, Z.land (cbrt_bits 40 (p * 2 ^ 96) 0) mask32) <$> first_primes 64.

Definition H256 : list Z :=
  Eval vm_compute in (λ p, Z.land (Z.sqrt (p * 2 ^ 64)) mask32) <$> first_primes 8.

(** The message schedule, most recent word first: [W_t] from [W_(t-2)], [W_(t-7)],
    [W_(t-15)] and [W_(t-16)]. *)
Fixpoint schedule (n : nat) (rev_w : list Z) : list Z :=
  match n with
  | O => rev_w
  | S n =>
      let w i := nth i rev_w 0 in
      schedule n (add32 (add32 (sigma1 (w 1%nat)) (w 6%nat)) (add32 (sigma0 (w 14%nat)) (w 15%nat)) :: rev_w)
  end.

Definition sha_round (st : list Z) (kw : Z * Z) : list Z :=
  match st with
  | [a; b; c; d; e; f; g; h] =>
      let t1 := add32 (add32 (add32 h (Sigma1 e)) (add32 (Ch e f g) (fst kw))) (snd kw) in
      let t2 := add32 (Sigma0 a) (Maj a b c) in
      [add32 t1 t2; a; b; c; add32 d t1; e; f; g]
  | _ => st
  end.

Definition compress (h : list Z) (block : list Z) : list Z :=
  let w := rev (schedule 48 (rev block)) in
  zip_with add32 h (fold_left sha_round (zip K256 w) h).

Definition be32 (a b c d : Z) : Z := a * 16777216 + b * 65536 + c * 256 + d.

Fixpoint words (bs : list Z) : list Z :=
  match bs with
  | a :: b :: c :: d :: bs => be32 a b c d :: words bs
  | _ => []
  end.

Definition word_bytes (w : Z) : list Z :=
  [Z.land (Z.shiftr w 24) 255; Z.land (Z.shiftr w 16) 255; Z.land (Z.shiftr w 8) 255; Z.land w 255].

Definition len_bytes (bits : Z) : list Z :=
  word_bytes (Z.land (Z.shiftr bits 32) mask32) ++ word_bytes (Z.land bits mask32).

(** Padding: a 1 bit, zeros, and the length in bits as a 64-bit big-endian number. *)
Definition sha_pad (bs : list Z) : list Z :=
  let n := Z.of_nat (length bs) in
  bs ++ [128] ++ replicate (Z.to_nat ((55 - n) mod 64)) 0 ++ len_bytes (8 * n).

Fixpoint sha_blocks (fuel : nat) (h : list Z) (ws : list Z) : list Z :=
  match fuel with
  | O => h
  | S f => match ws with [] => h | _ => sha_blocks f (compress h (firstn 16 ws)) (skipn 16 ws) end
  end.

Definition sha256_words (bs : list Z) : list Z :=
  let ws := words (sha_pad bs) in sha_blocks (length ws) H256 ws.

(** [sha256.Sum256] *)
Definition sha256 (bs : list Z) : list Z := concat (word_bytes <$> sha256_words bs).

Fixpoint bytes (s : string) : list Z :=
  match s with EmptyString => [] | String c s => byte_of c :: bytes s end.

(** [hmac.New(sha256.New, key)] fed with [msg]: the block size is 64. *)
Definition hmac_key (key : list Z) : list Z :=
  let k := if (64 <? Z.of_nat (length key)) then sha256 key else key in
  k ++ replicate (64 - length k) 0.

Definition hmac_sha256 (key msg : list Z) : list Z :=
  let k := hmac_key key in
  sha256 ((Z.lxor 92 <$> k) ++ sha256 ((Z.lxor 54 <$> k) ++ msg)).

Example sha256_empty :
  hex_encode (sha256 []) = "e3b0c44298fc1c149afbf4c8996fb92427ae41e4649b934ca495991b7852b855".
Proof. vm_compute. reflexivity. Qed.

Example sha256_abc :
  hex_encode (sha256 (bytes "abc")) = "ba7816bf8f01cfea414140de5dae2223b00361a396177a9cb410ff61f20015ad".
Proof. vm_compute. reflexivity. Qed.

(** GitHub's documented webhook signature example. *)
Example hmac_github :
  hex_encode (hmac_sha256 (bytes "It's a Secret to Everybody") (bytes "Hello, World!"))
  = "757107ea0eb2509fc211221cce984b8a37570b6d7586c22c46f4379c8b043e17".
Proof. vm_compute. reflexivity. Qed.

(** ** Lemmas *)

Definition is_bytes (bs : list Z) : Prop := Forall (λ b, 0 ≤ b < 256) bs.

Lemma bytes_range s : is_bytes (bytes s).
Proof. induction s; constructor; [apply byte_of_range|done]. Qed.

Lemma bytes_inj s t : bytes s = bytes t → s = t.
Proof.
  revert t. induction s as [|c s IH]; intros [|d t]; simpl; try done. intros [= H1 H2].
  f_equal; [|by apply IH]. by rewrite <- (of_byte_of c), H1, of_byte_of.
Qed.

Lemma land255_range x : 0 ≤ Z.land x 255 < 256.
Proof. change 255 with (Z.ones 8). rewrite Z.land_ones by lia. by apply Z.mod_pos_bound. Qed.

Lemma word_bytes_ok w : is_bytes (word_bytes w) ∧ length (word_bytes w) = 4%nat.
Proof. split; [|done]. repeat constructor; apply land255_range. Qed.

Lemma length_sha_round st kw : length (sha_round st kw) = length st.
Proof. do 9 (destruct st; try done). Qed.

Lemma length_compress h b : length h = 8%nat → length (compress h b) = 8%nat.
Proof.
  intros Hh. unfold compress. rewrite length_zip_with.
  enough (∀ l st, length (fold_left sha_round l st) = length st) as -> by lia.
  clear. induction l as [|kw l IH]; intros st; simpl; [done|]. by rewrite IH, length_sha_round.
Qed.

Lemma length_sha256_words bs : length (sha256_words bs) = 8%nat.
Proof.
  unfold sha256_words. generalize (words (sha_pad bs)). intros l. generalize (length l). intros n.
  enough (∀ h, length h = 8%nat → length (sha_blocks n h l) = 8%nat) as H by by apply H.
  revert l. induction n as [|n IH]; intros l h Hh; simpl; [done|].
  destruct l; [done|]. apply IH. by apply length_compress.
Qed.

Lemma sha256_ok bs : is_bytes (sha256 bs) ∧ length (sha256 bs) = 32%nat.
Proof.
  unfold sha256. pose proof (length_sha256_words bs) as Hl. revert Hl.
  generalize (sha256_words bs). intros ws Hl.
  split.
  - clear Hl. induction ws as [|w ws IH]; [constructor|]. cbn [fmap list_fmap concat].
    apply Forall_app. split; [apply word_bytes_ok|exact IH].
  - do 9 (destruct ws; try done).
Qed.

Lemma hmac_ok key msg : is_bytes (hmac_sha256 key msg) ∧ length (hmac_sha256 key msg) = 32%nat.
Proof. apply sha256_ok. Qed.
