(* ===== verification/GoJson.v ===== *)
(** * [encoding/json]

    The scanner is a transducer over bytes ([lstep]) followed by a stack machine over
    tokens ([pstep]); both are structural, so parsing needs no fuel.  A parsed value keeps
    the source text of its strings and numbers, which is what [json.Compact] copies and
    what decoding reads.  Decoding into a Go type is a function ["dec : A → json → option
    A"] that updates the value already there ([None] is a type error, which makes
    [Unmarshal] fail); object keys match field names exactly or under case folding. *)

From S2P Require Import Prelude.
From S2P Require Import GoText.
From S2P Require Import GoNum.
From S2P Require Import GoTime.

Local Open Scope Z_scope.

Inductive json : Set :=
  | JNull
  | JBool (b : bool)
  | JNum (lit : string)
  | JStr (raw : string)                      (* the bytes between the quotes *)
  | JArr (l : list json)
  | JObj (l : list (string * json)).         (* keys are raw as well *)

(** ** The scanner *)

Inductive token : Set :=
  | TLBrace | TRBrace | TLBrack | TRBrack | TColon | TComma
  | TTrue | TFalse | TNull
  | TNum (lit : string) | TStr (raw : string).

(** The states of a number literal, by what was read last. *)
Inductive numstate : Set := NNeg | NZero | NInt | NDot | NFrac | NE | NESign | NEDig.

Inductive lstate : Set :=
  | LIdle
  | LInStr (acc : string)
  | LEsc (acc : string)
  | LHex (n : nat) (acc : string)            (* n hexadecimal digits of \u still to come *)
  | LNum (st : numstate) (acc : string)
  | LLit (rest : string) (t : token).

Definition is_ws (c : ascii) : bool :=
  let b := byte_of c in (b =? 32) || (b =? 9) || (b =? 10) || (b =? 13).

Definition snoc (s : string) (c : ascii) : string := s +:+ String c "".

Definition idle_step (c : ascii) : option (list token * lstate) :=
  let b := byte_of c in
  if is_ws c then Some ([], LIdle)
  else if b =? 123 then Some ([TLBrace], LIdle)
  else if b =? 125 then Some ([TRBrace], LIdle)
  else if b =? 91 then Some ([TLBrack], LIdle)
  else if b =? 93 then Some ([TRBrack], LIdle)
  else if b =? 58 then Some ([TColon], LIdle)
  else if b =? 44 then Some ([TComma], LIdle)
  else if b =? 34 then Some ([], LInStr "")
  else if b =? 45 then Some ([], LNum NNeg (String c ""))
  else if b =? 48 then Some ([], LNum NZero (String c ""))
  else if (49 <=? b) && (b <=? 57) then Some ([], LNum NInt (String c ""))
  else if b =? 116 then Some ([], LLit "rue" TTrue)
  else if b =? 102 then Some ([], LLit "alse" TFalse)
  else if b =? 110 then Some ([], LLit "ull" TNull)
  else None.

(** The state of a number after one more byte; [None] when the byte does not continue it. *)
Definition num_next (st : numstate) (c : ascii) : option numstate :=
  let b := byte_of c in
  let dig := (48 <=? b) && (b <=? 57) in
  let e := (b =? 101) || (b =? 69) in
  match st with
  | NNeg => if b =? 48 then Some NZero else if dig then Some NInt else None
  | NZero => if b =? 46 then Some NDot else if e then Some NE else None
  | NInt => if dig then Some NInt else if b =? 46 then Some NDot else if e then Some NE else None
  | NDot => if dig then Some NFrac else None
  | NFrac => if dig then Some NFrac else if e then Some NE else None
  | NE => if (b =? 43) || (b =? 45) then Some NESign else if dig then Some NEDig else None
  | NESign => if dig then Some NEDig else None
  | NEDig => if dig then Some NEDig else None
  end.

(** A number may end after these. *)
Definition num_final (st : numstate) : bool :=
  match st with NZero | NInt | NFrac | NEDig => true | NNeg | NDot | NE | NESign => false end.

Definition is_escape (c : ascii) : bool :=
  let b := byte_of c in
  (b =? 98) || (b =? 102) || (b =? 110) || (b =? 114) || (b =? 116)
  || (b =? 92) || (b =? 47) || (b =? 34).

Definition lstep (st : lstate) (c : ascii) : option (list token * lstate) :=
  let b := byte_of c in
  match st with
  | LIdle => idle_step c
  | LInStr acc =>
      if b =? 34 then Some ([TStr acc], LIdle)
      else if b =? 92 then Some ([], LEsc (snoc acc c))
      else if b <? 32 then None
      else Some ([], LInStr (snoc acc c))
  | LEsc acc =>
      if is_escape c then Some ([], LInStr (snoc acc c))
      else if b =? 117 then Some ([], LHex 4 (snoc acc c))
      else None
  | LHex n acc =>
      match hex_val c with
      | Some _ => Some ([], match n with S (S n') => LHex (S n') (snoc acc c) | _ => LInStr (snoc acc c) end)
      | None => None
      end
  | LNum ns acc =>
      match num_next ns c with
      | Some ns' => Some ([], LNum ns' (snoc acc c))
      | None =>
          if num_final ns then
            match idle_step c with Some (ts, st') => Some (TNum acc :: ts, st') | None => None end
          else None
      end
  | LLit (String d EmptyString) t => if bool_decide (c = d) then Some ([t], LIdle) else None
  | LLit (String d rest) t => if bool_decide (c = d) then Some ([], LLit rest t) else None
  | LLit EmptyString _ => None
  end.

Fixpoint lex (st : lstate) (s : string) : option (list token) :=
  match s with
  | EmptyString =>
      match st with
      | LIdle => Some []
      | LNum ns acc => if num_final ns then Some [TNum acc] else None
      | _ => None
      end
  | String c s =>
      match lstep st c with
      | Some (ts, st') => match lex st' s with Some ts' => Some (app ts ts') | None => None end
      | None => None
      end
  end.

(** ** The parser *)

Inductive frame : Set :=
  | FArr (acc : list json)
  | FObj (acc : list (string * json)) (key : string).

Inductive pmode : Set :=
  | MValue        (* a value must follow *)
  | MArrFirst     (* after "[": a value or "]" *)
  | MObjFirst     (* after "{": a key or "}" *)
  | MKey          (* after "," in an object: a key *)
  | MColon        (* after a key *)
  | MAfter        (* after a value: "," or the closing bracket *)
  | MDone (v : json).

Definition max_depth : nat := 10000.

Definition push_value (v : json) (stk : list frame) : pmode * list frame :=
  match stk with
  | [] => (MDone v, [])
  | FArr acc :: stk => (MAfter, FArr (acc ++ [v]) :: stk)
  | FObj acc key :: stk => (MAfter, FObj (acc ++ [(key, v)]) "" :: stk)
  end.

Definition open_frame (m : pmode) (f : frame) (stk : list frame) : option (pmode * list frame) :=
  if (Z.of_nat (length stk) <? 10000) then Some (m, f :: stk) else None.

Definition value_token (t : token) (stk : list frame) : option (pmode * list frame) :=
  match t with
  | TLBrace => open_frame MObjFirst (FObj [] "") stk
  | TLBrack => open_frame MArrFirst (FArr []) stk
  | TTrue => Some (push_value (JBool true) stk)
  | TFalse => Some (push_value (JBool false) stk)
  | TNull => Some (push_value JNull stk)
  | TNum lit => Some (push_value (JNum lit) stk)
  | TStr raw => Some (push_value (JStr raw) stk)
  | _ => None
  end.

Definition pstep (st : pmode * list frame) (t : token) : option (pmode * list frame) :=
  match st with
  | (MValue, stk) => value_token t stk
  | (MArrFirst, FArr _ :: stk') =>
      match t with TRBrack => Some (push_value (JArr []) stk') | _ => value_token t (snd st) end
  | (MObjFirst, FObj acc _ :: stk') =>
      match t with
      | TRBrace => Some (push_value (JObj acc) stk')
      | TStr k => Some (MColon, FObj acc k :: stk')
      | _ => None
      end
  | (MKey, FObj acc _ :: stk') =>
      match t with TStr k => Some (MColon, FObj acc k :: stk') | _ => None end
  | (MColon, stk) => match t with TColon => Some (MValue, stk) | _ => None end
  | (MAfter, FArr acc :: stk') =>
      match t with
      | TComma => Some (MValue, snd st)
      | TRBrack => Some (push_value (JArr acc) stk')
      | _ => None
      end
  | (MAfter, FObj acc _ :: stk') =>
      match t with
      | TComma => Some (MKey, snd st)
      | TRBrace => Some (push_value (JObj acc) stk')
      | _ => None
      end
  | _ => None
  end.

Fixpoint prun (st : pmode * list frame) (ts : list token) : option (pmode * list frame) :=
  match ts with
  | [] => Some st
  | t :: ts => match pstep st t with Some st' => prun st' ts | None => None end
  end.

Definition json_parse (s : string) : option json :=
  match lex LIdle s with
  | Some ts => match prun (MValue, []) ts with Some (MDone v, _) => Some v | _ => None end
  | None => None
  end.

(** ** Printing: [json.Compact] is the printing of the parsed value *)

Definition quoted (raw : string) : string := String dquote (raw +:+ String dquote "").

Fixpoint json_print (v : json) : string :=
  match v with
  | JNull => "null"
  | JBool true => "true"
  | JBool false => "false"
  | JNum lit => lit
  | JStr raw => quoted raw
  | JArr l => "[" +:+ Join (map json_print l) "," +:+ "]"
  | JObj l =>
      "{" +:+ Join (map (λ kv, quoted (fst kv) +:+ ":" +:+ json_print (snd kv)) l) "," +:+ "}"
  end.

(** [json.Compact]: the input without insignificant whitespace; [None] on invalid JSON. *)
Definition Compact (s : string) : option string := json_print <$> json_parse s.

(** ** Strings: UTF-8, quoting and unquoting *)

Definition is_cont (b : Z) : bool := (128 <=? b) && (b <=? 191).

(** The number of bytes of the UTF-8 sequence that starts with [a b c d] ([-1] past the
    end); 0 when it is invalid. *)
Definition seq_len (a b c d : Z) : Z :=
  if a <? 128 then 1
  else if (194 <=? a) && (a <=? 223) then (if is_cont b then 2 else 0)
  else if (224 <=? a) && (a <=? 239) then
    let lo := if a =? 224 then 160 else 128 in
    let hi := if a =? 237 then 159 else 191 in
    if (lo <=? b) && (b <=? hi) && is_cont c then 3 else 0
  else if (240 <=? a) && (a <=? 244) then
    let lo := if a =? 240 then 144 else 128 in
    let hi := if a =? 244 then 143 else 191 in
    if (lo <=? b) && (b <=? hi) && is_cont c && is_cont d then 4 else 0
  else 0.

(** A Go string as [range] sees it: the bytes of a rune, or one invalid byte. *)
Inductive rune_item : Set := RuneOK (bs : string) | RuneBad (c : ascii).

Definition byte_at (s : string) (i : nat) : Z :=
  match String.get i s with Some c => byte_of c | None => -1 end.

Fixpoint runes (s : string) : list rune_item :=
  match s with
  | EmptyString => []
  | String a s1 =>
      let n := seq_len (byte_of a) (byte_at s1 0) (byte_at s1 1) (byte_at s1 2) in
      if n =? 1 then RuneOK (String a "") :: runes s1
      else match s1 with
           | String b s2 =>
               if n =? 2 then RuneOK (String a (String b "")) :: runes s2
               else match s2 with
                    | String c s3 =>
                        if n =? 3 then RuneOK (String a (String b (String c ""))) :: runes s3
                        else match s3 with
                             | String d s4 =>
                                 if n =? 4 then RuneOK (String a (String b (String c (String d "")))) :: runes s4
                                 else RuneBad a :: runes s1
                             | EmptyString => RuneBad a :: runes s1
                             end
                    | EmptyString => RuneBad a :: runes s1
                    end
           | EmptyString => RuneBad a :: runes s1
           end
  end.

Definition sconcat (l : list string) : string := Join l "".

Definition ValidString (s : string) : bool :=
  forallb (λ r, match r with RuneOK _ => true | RuneBad _ => false end) (runes s).

(** U+FFFD *)
Definition replacement : string := u3 239 191 189.

Definition coerce_utf8 (s : string) : string :=
  sconcat (map (λ r, match r with RuneOK bs => bs | RuneBad _ => replacement end) (runes s)).

(** [appendString(dst, s, false)] without the quotes: what [Marshal] writes for a string
    when HTML escaping is off. *)
Definition quote_rune (r : rune_item) : string :=
  match r with
  | RuneBad _ => "\ufffd"
  | RuneOK (String c EmptyString) =>
      let b := byte_of c in
      if b =? 92 then "\\"
      else if b =? 34 then String "\"%char (String dquote "")
      else if b =? 8 then "\b"
      else if b =? 12 then "\f"
      else if b =? 10 then "\n"
      else if b =? 13 then "\r"
      else if b =? 9 then "\t"
      else if b <? 32 then "\u00" +:+ String (hex_digit (b / 16)) (String (hex_digit (b mod 16)) "")
      else String c ""
  | RuneOK bs =>
      if bool_decide (bs = u3 226 128 168) then "\u2028"
      else if bool_decide (bs = u3 226 128 169) then "\u2029"
      else bs
  end.

Definition quote_string (s : string) : string := sconcat (map quote_rune (runes s)).

(** [utf8.AppendRune] for a valid code point. *)
Definition encode_rune (r : Z) : string :=
  if r <? 128 then chr r
  else if r <? 2048 then chr (192 + r / 64) +:+ chr (128 + r mod 64)
  else if r <? 65536 then u3 (224 + r / 4096) (128 + r / 64 mod 64) (128 + r mod 64)
  else chr (240 + r / 262144) +:+ u3 (128 + r / 4096 mod 64) (128 + r / 64 mod 64) (128 + r mod 64).

Definition hex4 (a b c d : ascii) : Z :=
  let v x := default 0 (hex_val x) in ((v a * 16 + v b) * 16 + v c) * 16 + v d.

Definition unescape_char (c : ascii) : ascii :=
  let b := byte_of c in
  if b =? 98 then of_byte 8 else if b =? 102 then of_byte 12 else if b =? 110 then of_byte 10
  else if b =? 114 then of_byte 13 else if b =? 116 then of_byte 9 else c.

Definition is_hi_surrogate (r : Z) : bool := (55296 <=? r) && (r <? 56320).
Definition is_lo_surrogate (r : Z) : bool := (56320 <=? r) && (r <? 57344).

(** The escape sequences of a raw string literal, expanded. *)
Fixpoint unescape (s : string) : string :=
  match s with
  | EmptyString => ""
  | String a s1 =>
      if negb (byte_of a =? 92) then String a (unescape s1)
      else match s1 with
           | EmptyString => ""
           | String e s2 =>
               if negb (byte_of e =? 117) then String (unescape_char e) (unescape s2)
               else match s2 with
                    | String h1 (String h2 (String h3 (String h4 r))) =>
                        let x := hex4 h1 h2 h3 h4 in
                        if is_hi_surrogate x then
                          match r with
                          | String b (String u (String g1 (String g2 (String g3 (String g4 r'))))) =>
                              let y := hex4 g1 g2 g3 g4 in
                              if (byte_of b =? 92) && (byte_of u =? 117) && is_lo_surrogate y
                              then encode_rune (65536 + (x - 55296) * 1024 + (y - 56320)) +:+ unescape r'
                              else replacement +:+ unescape r
                          | _ => replacement +:+ unescape r
                          end
                        else if is_lo_surrogate x then replacement +:+ unescape r
                        else encode_rune x +:+ unescape r
                    | _ => ""
                    end
           end
  end.

(** The value of a raw string literal: escapes expanded, invalid UTF-8 replaced.  An escape
    expands to whole runes, so it never completes an invalid sequence around it. *)
Definition unquote (raw : string) : string := coerce_utf8 (unescape raw).

(** ** Decoding into Go values *)

(** [foldName] on an object key: ASCII letters in upper case, and the two other letters
    that fold to ASCII (U+017F and U+212A). *)
Definition upper_char (c : ascii) : ascii :=
  let b := byte_of c in if (97 <=? b) && (b <=? 122) then of_byte (b - 32) else c.

Fixpoint fold_name (s : string) : string :=
  match s with
  | EmptyString => ""
  | String a s1 =>
      match s1 with
      | String b s2 =>
          if (byte_of a =? 197) && (byte_of b =? 191) then String "S"%char (fold_name s2)
          else match s2 with
               | String c s3 =>
                   if (byte_of a =? 226) && (byte_of b =? 132) && (byte_of c =? 170)
                   then String "K"%char (fold_name s3)
                   else String (upper_char a) (fold_name s1)
               | EmptyString => String (upper_char a) (fold_name s1)
               end
      | EmptyString => String (upper_char a) ""
      end
  end.

Definition dec (A : Type) : Type := A → json → option A.

(** The decoder of the field a key selects: an exact match first, else a folded one. *)
Definition find_field {A} (fields : list (string * dec A)) (key : string) : option (dec A) :=
  match find (λ f, String.eqb (fst f) key) fields with
  | Some f => Some (snd f)
  | None => snd <$> find (λ f, String.eqb (fold_name (fst f)) (fold_name key)) fields
  end.

Fixpoint dec_members {A} (fields : list (string * dec A)) (a : A) (l : list (string * json)) : option A :=
  match l with
  | [] => Some a
  | (k, v) :: l =>
      match find_field fields (unquote k) with
      | Some d => match d a v with Some a' => dec_members fields a' l | None => None end
      | None => dec_members fields a l
      end
  end.

Definition dec_struct {A} (fields : list (string * dec A)) : dec A := λ a v,
  match v with JObj l => dec_members fields a l | JNull => Some a | _ => None end.

Definition dec_string : dec string := λ a v,
  match v with JStr raw => Some (unquote raw) | JNull => Some a | _ => None end.

Definition dec_int64 : dec Z := λ a v,
  match v with JNum lit => parse_int lit | JNull => Some a | _ => None end.

(** [time.Time.UnmarshalJSON] reads the raw bytes between the quotes. *)
Definition dec_time : dec Time := λ a v,
  match v with JStr raw => Parse_RFC3339Nano raw | JNull => Some a | _ => None end.

(** A pointer: null makes it nil, anything else is decoded into the value pointed to,
    allocated ([zero]) when there is none. *)
Definition dec_ptr {A} (zero : A) (d : dec A) : dec (option A) := λ a v,
  match v with JNull => Some None | _ => Some <$> d (default zero a) v end.

Fixpoint dec_elems {A} (zero : A) (d : dec A) (old : list A) (l : list json) : option (list A) :=
  match l with
  | [] => Some []
  | v :: l =>
      match d (default zero (head old)) v, dec_elems zero d (tail old) l with
      | Some a, Some r => Some (a :: r)
      | _, _ => None
      end
  end.

(** A slice: null makes it nil; elements are decoded over the ones already there. *)
Definition dec_slice {A} (zero : A) (d : dec A) : dec (list A) := λ a v,
  match v with JNull => Some [] | JArr l => dec_elems zero d a l | _ => None end.

(** A member of a struct, given how to read and write the field. *)
Definition at_field {A B} (get : A → B) (set : A → B → A) (d : dec B) : dec A := λ a v,
  set a <$> d (get a) v.

(** [json.Unmarshal] into a zero value. *)
Definition Unmarshal {A} (zero : A) (d : dec A) (s : string) : option A :=
  match json_parse s with Some v => d zero v | None => None end.

Example unquote_ex : unquote "\u00e9\ud83d\ude00\ud800x" = u3 195 169 240 +:+ u3 159 152 128 +:+ replacement +:+ "x".
Proof. vm_compute. reflexivity. Qed.

Example Compact_ex : Compact " { } " = Some "{}".
Proof. vm_compute. reflexivity. Qed.

(** ** Invariants of decoding *)

(** [d] keeps [P]. *)
Definition dec_keeps {A} (P : A → Prop) (d : dec A) : Prop := ∀ a v a', P a → d a v = Some a' → P a'.

Lemma find_field_elem {A} (fields : list (string * dec A)) key d :
  find_field fields key = Some d → ∃ k, (k, d) ∈ fields.
Proof.
  unfold find_field. destruct (find _ fields) as [[k d']|] eqn:E.
  - apply find_some in E as [E _]. intros [= <-]. exists k. by apply list_elem_of_In.
  - destruct (find _ fields) as [[k d']|] eqn:E2 in |- *; [|done].
    apply find_some in E2 as [E2 _]. intros [= <-]. exists k. by apply list_elem_of_In.
Qed.

Lemma dec_struct_inv {A} (P : A → Prop) (fields : list (string * dec A)) :
  Forall (λ f, dec_keeps P (snd f)) fields → dec_keeps P (dec_struct fields).
Proof.
  intros HF a v a' Ha. destruct v as [| | | | |l]; simpl; try done; [by intros [= <-]|].
  revert a Ha. induction l as [|[k v] l IH]; intros a Ha; simpl; [by intros [= <-]|].
  destruct (find_field fields (unquote k)) as [d|] eqn:E; [|by apply IH].
  apply find_field_elem in E as [k' E]. rewrite Forall_forall in HF. apply HF in E. simpl in E.
  destruct (d a v) as [a1|] eqn:Ed; [|done]. apply IH. by eapply E.
Qed.

Lemma at_field_inv {A B} (P : A → Prop) (get : A → B) set (d : dec B) :
  (∀ a v b, P a → d (get a) v = Some b → P (set a b)) → dec_keeps P (at_field get set d).
Proof. unfold at_field. intros H a v a' Ha. destruct (d (get a) v) eqn:E; [|done]. intros [= <-]. by eapply H. Qed.

Lemma dec_ptr_inv {A} (P : A → Prop) zero (d : dec A) o v r :
  dec_keeps P d → (∀ a, o = Some a → P a) → P zero → dec_ptr zero d o v = Some (Some r) → P r.
Proof.
  intros Hd Ho Hz. assert (P (default zero o)) as H0 by (destruct o; simpl; eauto).
  unfold dec_ptr. destruct v; try done; destruct (d _ _) eqn:E; try done; intros [= <-]; by eapply Hd.
Qed.

Lemma dec_int64_range a v x : in_int64 a → dec_int64 a v = Some x → in_int64 x.
Proof. destruct v; simpl; try done; [by intros ? [= <-]|]. intros _. apply parse_int_range. Qed.

Lemma Unmarshal_inv {A} (P : A → Prop) zero (d : dec A) s a :
  P zero → dec_keeps P d → Unmarshal zero d s = Some a → P a.
Proof. unfold Unmarshal. destruct (json_parse s); [|done]. intros ? Hd. by apply Hd. Qed.

(** One goal per field of a struct decoder. *)
Ltac dec_fields :=
  apply dec_struct_inv; repeat first [apply Forall_nil_2 | apply Forall_cons_2];
  cbn [snd]; apply at_field_inv; try done.

(** ** Struct decoding, field by field

    When the field names of a struct have distinct foldings, [find_field] gives a key to
    the field with the same folding: decoding the struct is decoding each field, in
    member order, over the members whose key it owns. *)

Fixpoint dec_member {B} (name : string) (d : dec B) (b : B) (l : list (string * json)) : option B :=
  match l with
  | [] => Some b
  | (k, v) :: l =>
      if String.eqb (fold_name name) (fold_name (unquote k))
      then match d b v with Some b' => dec_member name d b' l | None => None end
      else dec_member name d b l
  end.

(** The members of an object; null decodes to the value already there ([None]). *)
Definition dec_object {A} (a : A) (k : list (string * json) → option A) (v : json) : option A :=
  match v with JObj l => k l | JNull => Some a | _ => None end.

Lemma find_field_owner {A} (fields : list (string * dec A)) key name d :
  NoDup ((λ f, fold_name (fst f)) <$> fields) →
  (name, d) ∈ fields → fold_name name = fold_name key → find_field fields key = Some d.
Proof.
  intros HN Hin Hf.
  assert (∀ f, f ∈ fields → fold_name (fst f) = fold_name key → f = (name, d)) as Huniq.
  { intros f Hf1 Hf2. apply list_elem_of_lookup in Hin as [i Hi], Hf1 as [j Hj].
    assert (i = j) as ->; [|congruence]. eapply NoDup_lookup; [exact HN|..].
    - rewrite list_lookup_fmap, Hi. done.
    - rewrite list_lookup_fmap, Hj. simpl. congruence. }
  unfold find_field. destruct (find _ fields) as [f|] eqn:E.
  - apply find_some in E as [E1%list_elem_of_In E2%String.eqb_eq].
    rewrite (Huniq f E1 ltac:(by rewrite E2)). done.
  - destruct (find (λ f, String.eqb (fold_name f.1) (fold_name key)) fields) as [f|] eqn:E3.
    + apply find_some in E3 as [E1%list_elem_of_In E2%String.eqb_eq]. by rewrite (Huniq f E1 E2).
    + apply list_elem_of_In in Hin. eapply find_none in E3; [|exact Hin]. simpl in E3.
      rewrite Hf, String.eqb_refl in E3. done.
Qed.

Lemma dec_member_inv {B} (P : B → Prop) name (d : dec B) b l b' :
  dec_keeps P d → P b → dec_member name d b l = Some b' → P b'.
Proof.
  intros Hd. revert b. induction l as [|[k v] l IH]; intros b Hb; simpl; [by intros [= <-]|].
  destruct (String.eqb _ _); [|by apply IH]. destruct (d b v) eqn:E; [|done]. apply IH. by eapply Hd.
Qed.
