(* ===== verification/JsonText.v ===== *)
(** * [encoding/json]: printed values scan and parse back

    The scanner of GoJson reads back what [json_print] writes: a value obtained by parsing is
    made of well-formed tokens, nested at most [max_depth] deep ([json_ok]), and parsing the
    print of such a value gives the value ([json_parse_print]).  The quoted form of a Go string
    is a well-formed literal that unquotes to the string ([unquote_quote]).  No printed value
    holds a control character ([json_print_no_ctl]), so a compact document is one line. *)

From S2P Require Import Prelude.
From S2P Require Import GoText.
From S2P Require Import GoNum.
From S2P Require Import GoJson.

Local Open Scope Z_scope.

(** ** Scanning inside a string or a number *)

(** The bytes of [s] from state [st], when none of them ends a token. *)
Fixpoint srun (st : lstate) (s : string) : option lstate :=
  match s with
  | EmptyString => Some st
  | String c s => match lstep st c with Some ([], st') => srun st' s | _ => None end
  end.

Lemma srun_app st a b : srun st (a +:+ b) = st' ← srun st a; srun st' b.
Proof.
  revert st. induction a as [|c a IH]; intros st; [done|]. rewrite sapp_cons. cbn [srun].
  destruct (lstep st c) as [[[|t ts] st']|]; [apply IH|done|done].
Qed.

Lemma srun_snoc st a c st' st'' :
  srun st a = Some st' → lstep st' c = Some ([], st'') → srun st (snoc a c) = Some st''.
Proof. intros H1 H2. unfold snoc. rewrite srun_app, H1. cbn [mbind option_bind srun]. by rewrite H2. Qed.

Lemma snoc_app s c t : snoc s c +:+ t = s +:+ String c t.
Proof. unfold snoc. by rewrite sapp_assoc. Qed.

Definition visible (c : ascii) : bool := 32 <=? byte_of c.
Definition no_ctl (s : string) : bool := string_forall visible s.

(** The bytes between the quotes of a string, and the bytes of a number. *)
Definition raw_ok (raw : string) : Prop := srun (LInStr "") raw = Some (LInStr raw) ∧ no_ctl raw = true.
Definition starts_token (s : string) : bool := match s with String c _ => negb (is_ws c) | EmptyString => false end.
Definition num_ok (lit : string) : Prop :=
  ∃ ns, srun LIdle lit = Some (LNum ns lit) ∧ num_final ns = true ∧ no_ctl lit = true ∧ starts_token lit = true.

Definition token_ok (t : token) : Prop :=
  match t with TNum lit => num_ok lit | TStr raw => raw_ok raw | _ => True end.

(** What a scanner state knows of the bytes it has accumulated. *)
Definition state_ok (st : lstate) : Prop :=
  match st with
  | LInStr acc | LEsc acc | LHex _ acc => srun (LInStr "") acc = Some st ∧ no_ctl acc = true
  | LNum _ acc => srun LIdle acc = Some st ∧ no_ctl acc = true ∧ starts_token acc = true
  | LLit _ t => token_ok t
  | LIdle => True
  end.

Lemma no_ctl_snoc s c : no_ctl s = true → visible c = true → no_ctl (snoc s c) = true.
Proof. intros H1 H2. unfold no_ctl, snoc in *. rewrite string_forall_app, H1. simpl. by rewrite H2. Qed.

Lemma no_ctl_app s t : no_ctl (s +:+ t) = no_ctl s && no_ctl t.
Proof. apply string_forall_app. Qed.

Lemma idle_step_ok c ts st : idle_step c = Some (ts, st) → Forall token_ok ts ∧ state_ok st.
Proof.
  unfold idle_step. intros H.
  assert (∀ ns, idle_step c = Some ([], LNum ns (String c "")) → 33 ≤ byte_of c → state_ok (LNum ns (String c ""))) as Hn.
  { intros ns Hs Hb. split; [cbn [srun lstep]; by rewrite Hs|]. unfold no_ctl, visible, starts_token, is_ws. simpl.
    by rewrite (proj2 (Z.leb_le _ _)), !(proj2 (Z.eqb_neq _ _)) by lia. }
  unfold idle_step in Hn.
  repeat match type of H with (if ?b then _ else _) = _ => destruct b eqn:?; cbn [andb] in * end;
    try discriminate H; injection H as <- <-; (split; [by repeat constructor|]); try done;
    first [by split|apply Hn; [done|to_prop; lia]].
Qed.

Lemma hex_val_visible c d : hex_val c = Some d → visible c = true.
Proof. unfold hex_val, visible. intros H. apply Z.leb_le. repeat case_match; to_prop; simplify_eq; lia. Qed.

Lemma is_escape_visible c : is_escape c = true → visible c = true.
Proof. unfold is_escape, visible. intros H. apply Z.leb_le. destruct (byte_of c) eqn:E; try done; repeat (case_match; try done); lia. Qed.

Lemma num_next_visible ns c ns' : num_next ns c = Some ns' → visible c = true.
Proof. unfold num_next, visible. intros H. apply Z.leb_le. destruct ns; repeat case_match; simplify_eq; to_prop; lia. Qed.

Lemma lstep_ok st c ts st' : state_ok st → lstep st c = Some (ts, st') → Forall token_ok ts ∧ state_ok st'.
Proof.
  intros Hok Hs. pose proof Hs as Hs0. destruct st as [|acc|acc|n acc|ns acc|rest t]; cbn [lstep] in Hs.
  - by apply idle_step_ok in Hs.
  - destruct Hok as [Hr Hc]. destruct (byte_of c =? 34) eqn:E1; [|destruct (byte_of c =? 92) eqn:E2; [|destruct (byte_of c <? 32) eqn:E3; [done|]]];
      injection Hs as <- <-; to_prop.
    + split; [|done]. constructor; [|constructor]. by split.
    + split; [constructor|]. split; [by eapply srun_snoc|]. apply no_ctl_snoc; [done|]. unfold visible. apply Z.leb_le. lia.
    + split; [constructor|]. split; [by eapply srun_snoc|]. apply no_ctl_snoc; [done|]. unfold visible. apply Z.leb_le. lia.
  - destruct Hok as [Hr Hc]. destruct (is_escape c) eqn:E1; [|destruct (byte_of c =? 117) eqn:E2; [|done]];
      injection Hs as <- <-; (split; [constructor|]); (split; [by eapply srun_snoc|]); apply no_ctl_snoc; try done.
    + by apply is_escape_visible.
    + to_prop. unfold visible. apply Z.leb_le. lia.
  - destruct Hok as [Hr Hc]. destruct (hex_val c) eqn:E; [|done]. injection Hs as <- <-. apply hex_val_visible in E.
    split; [constructor|]. destruct n as [|[|n]]; (split; [by eapply srun_snoc|by apply no_ctl_snoc]).
  - destruct Hok as (Hr & Hc & Ht). destruct (num_next ns c) eqn:E.
    + injection Hs as <- <-. split; [constructor|]. split; [by eapply srun_snoc|]. split; [|by destruct acc].
      apply no_ctl_snoc; [done|]. by eapply num_next_visible.
    + destruct (num_final ns) eqn:Ef; [|done]. destruct (idle_step c) as [[ts0 st0]|] eqn:Ei; [|done].
      injection Hs as <- <-. apply idle_step_ok in Ei as [H1 H2]. split; [|done]. constructor; [|done]. by exists ns.
  - destruct rest as [|d [|d' rest]]; [done|..]; case_bool_decide; simplify_eq;
      (split; [|done]); first [by apply Forall_nil_2|apply Forall_singleton; exact Hok].
Qed.

Lemma lex_ok st s ts : state_ok st → lex st s = Some ts → Forall token_ok ts.
Proof.
  revert st ts. induction s as [|c s IH]; intros st ts Hok H; cbn [lex] in H.
  - destruct st as [| | | |ns acc|]; try done; [by injection H as <-|].
    destruct (num_final ns) eqn:E; [|done]. injection H as <-. destruct Hok as (? & ? & ?). apply Forall_singleton. by exists ns.
  - destruct (lstep st c) as [[ts1 st1]|] eqn:E; [|done]. destruct (lex st1 s) as [ts2|] eqn:E2; [|done].
    injection H as <-. apply lstep_ok in E as [H1 H2]; [|done]. apply Forall_app. split; [done|]. by eapply IH.
Qed.

(** ** Well-formed values *)

(** A value made of well-formed tokens, nested under [k] open brackets. *)
Fixpoint json_ok (k : nat) (v : json) : Prop :=
  match v with
  | JNull | JBool _ => True
  | JNum lit => num_ok lit
  | JStr raw => raw_ok raw
  | JArr l => Z.of_nat k < 10000 ∧ foldr (λ v P, json_ok (S k) v ∧ P) True l
  | JObj l => Z.of_nat k < 10000 ∧ foldr (λ kv P, (raw_ok (fst kv) ∧ json_ok (S k) (snd kv)) ∧ P) True l
  end.

Lemma foldr_Forall {A} (P : A → Prop) l : foldr (λ a Q, P a ∧ Q) True l ↔ Forall P l.
Proof. induction l; simpl; [by split|]. by rewrite Forall_cons, IHl. Qed.

Lemma json_ok_arr k l : json_ok k (JArr l) ↔ Z.of_nat k < 10000 ∧ Forall (json_ok (S k)) l.
Proof. cbn [json_ok]. by rewrite (foldr_Forall (json_ok (S k))). Qed.

Lemma json_ok_obj k l :
  json_ok k (JObj l) ↔ Z.of_nat k < 10000 ∧ Forall (λ kv, raw_ok (fst kv) ∧ json_ok (S k) (snd kv)) l.
Proof. cbn [json_ok]. by rewrite (foldr_Forall (λ kv, raw_ok (fst kv) ∧ json_ok (S k) (snd kv))). Qed.

(** Induction on values, with the hypothesis for every element and member. *)
Lemma json_ind_all (P : json → Prop) :
  P JNull → (∀ b, P (JBool b)) → (∀ lit, P (JNum lit)) → (∀ raw, P (JStr raw)) →
  (∀ l, Forall P l → P (JArr l)) → (∀ l, Forall (λ kv, P (snd kv)) l → P (JObj l)) → ∀ v, P v.
Proof.
  intros Hn Hb Hi Hs Ha Ho. fix IH 1. intros [|b|lit|raw|l|l]; [exact Hn|apply Hb|apply Hi|apply Hs|apply Ha|apply Ho].
  - induction l as [|v l IHl]; constructor; [apply IH|exact IHl].
  - induction l as [|[k v] l IHl]; constructor; [apply IH|exact IHl].
Qed.

(** ** The parser builds well-formed values *)

Definition frame_ok (k : nat) (f : frame) : Prop :=
  match f with
  | FArr acc => Forall (json_ok k) acc
  | FObj acc key => Forall (λ kv, raw_ok (fst kv) ∧ json_ok k (snd kv)) acc ∧ raw_ok key
  end.

Fixpoint stack_ok (stk : list frame) : Prop :=
  match stk with
  | [] => True
  | f :: stk' => frame_ok (length stk) f ∧ Z.of_nat (length stk) ≤ 10000 ∧ stack_ok stk'
  end.

Definition mode_ok (st : pmode * list frame) : Prop :=
  stack_ok (snd st) ∧ match fst st with MDone v => json_ok 0 v | _ => True end.

Lemma raw_ok_empty : raw_ok "".
Proof. by split. Qed.

Lemma push_value_ok v stk : stack_ok stk → json_ok (length stk) v → mode_ok (push_value v stk).
Proof.
  intros Hs Hv. destruct stk as [|[acc|acc key] stk]; [by split| |]; destruct Hs as (Hf & Hl & Hs);
    (split; [|done]); cbn [push_value snd stack_ok]; (split_and!; [|done|done]); cbn [frame_ok] in *.
  - apply Forall_app. split; [done|]. by apply Forall_singleton.
  - destruct Hf as [Hf Hk]. split; [|apply raw_ok_empty]. apply Forall_app. split; [done|]. by apply Forall_singleton.
Qed.

Lemma open_frame_ok m f stk st :
  open_frame m f stk = Some st → stack_ok stk → frame_ok (S (length stk)) f →
  (match m with MDone _ => False | _ => True end) → mode_ok st.
Proof.
  unfold open_frame. intros H Hs Hf Hm. destruct (_ <? _) eqn:E; [|done]. injection H as <-. to_prop.
  split; [|by destruct m]. cbn [snd stack_ok length]. split_and!; [done|lia|done].
Qed.

Lemma value_token_ok t stk st : value_token t stk = Some st → stack_ok stk → token_ok t → mode_ok st.
Proof.
  intros H Hs Ht. destruct t; cbn [value_token] in H; try discriminate H.
  1,2: eapply open_frame_ok; [exact H|exact Hs| |done]; cbn [frame_ok]; repeat split; constructor.
  all: injection H as <-; by apply push_value_ok.
Qed.

Lemma pstep_ok st t st' : pstep st t = Some st' → mode_ok st → token_ok t → mode_ok st'.
Proof.
  destruct st as [m stk]. intros H [Hs Hm] Ht. cbn [fst snd] in *.
  assert (∀ m', match m' with MDone _ => False | _ => True end → mode_ok (m', stk)) as Hgo by (intros m' ?; split; [done|by destruct m']).
  destruct m; cbn [pstep snd] in H; try (by eapply value_token_ok).
  - destruct stk as [|[acc|acc key] stk]; [done| |done].
    destruct t; try (by eapply value_token_ok). injection H as <-. destruct Hs as (_ & Hl & Hs).
    apply push_value_ok; [done|]. apply json_ok_arr. split; [cbn [length] in Hl; lia|constructor].
  - destruct stk as [|[acc|acc key] stk]; [done|done|]. destruct Hs as ([Hf Hk] & Hl & Hs).
    destruct t; try discriminate H; injection H as <-;
      [|by (split; [split; [split; [exact Hf|exact Ht]|by split]|done])].
    apply push_value_ok; [done|]. apply json_ok_obj. split; [cbn [length] in Hl; lia|done].
  - destruct stk as [|[acc|acc key] stk]; [done|done|]. destruct Hs as ([Hf Hk] & Hl & Hs).
    destruct t; try discriminate H; injection H as <-.
    by (split; [split; [split; [exact Hf|exact Ht]|by split]|done]).
  - destruct t; try discriminate H. injection H as <-. by apply Hgo.
  - destruct stk as [|[acc|acc key] stk]; [done|..]; destruct t; try discriminate H; injection H as <-; try (by apply Hgo).
    + destruct Hs as (Hf & Hl & Hs). apply push_value_ok; [done|]. apply json_ok_arr. split; [cbn [length] in Hl; lia|done].
    + destruct Hs as ([Hf Hk] & Hl & Hs). apply push_value_ok; [done|]. apply json_ok_obj. split; [cbn [length] in Hl; lia|done].
Qed.

Lemma prun_ok st ts st' : prun st ts = Some st' → mode_ok st → Forall token_ok ts → mode_ok st'.
Proof.
  intros H Hm Ht. revert st H Hm. induction Ht as [|t ts Ht _ IH]; intros st H Hm; cbn [prun] in H; [by injection H as <-|].
  destruct (pstep st t) as [st1|] eqn:E; [|done]. eapply IH; [exact H|]. by eapply pstep_ok.
Qed.

Lemma json_parse_ok s v : json_parse s = Some v → json_ok 0 v.
Proof.
  unfold json_parse. intros H. destruct (lex LIdle s) as [ts|] eqn:El; [|done].
  destruct (prun (MValue, []) ts) as [[m stk]|] eqn:Ep; [|done]. destruct m; try done. injection H as <-.
  apply lex_ok in El; [|done]. apply prun_ok in Ep; [|by split|done]. apply Ep.
Qed.

(** ** The tokens of a value *)

Fixpoint sepby (l : list (list token)) : list token :=
  match l with
  | [] => []
  | [a] => a
  | a :: l => (a ++ TComma :: sepby l)%list
  end.

Fixpoint tokens (v : json) : list token :=
  match v with
  | JNull => [TNull]
  | JBool true => [TTrue]
  | JBool false => [TFalse]
  | JNum lit => [TNum lit]
  | JStr raw => [TStr raw]
  | JArr l => (TLBrack :: sepby (map tokens l) ++ [TRBrack])%list
  | JObj l => (TLBrace :: sepby (map (λ kv, TStr (fst kv) :: TColon :: tokens (snd kv)) l) ++ [TRBrace])%list
  end.

(** A text after which a number has ended. *)
Definition delim_start (rest : string) : Prop :=
  match rest with
  | EmptyString => True
  | String c _ => byte_of c = 44 ∨ byte_of c = 93 ∨ byte_of c = 125
  end.

(** *** Tokens with their source text

    [json.RawMessage] keeps the bytes of a value as they are in the input.  [lexs] is [lex]
    with, for every token, the bytes from the end of the token before it ([cur] are those read
    so far).  A number ends at the byte after it. *)

Fixpoint lexs (st : lstate) (cur : string) (s : string) : option (list (token * string)) :=
  match s with
  | EmptyString =>
      match st with
      | LIdle => Some []
      | LNum ns acc => if num_final ns then Some [(TNum acc, cur)] else None
      | _ => None
      end
  | String c s =>
      match lstep st c with
      | None => None
      | Some ([], st') => lexs st' (snoc cur c) s
      | Some (t :: ts, st') =>
          match st with
          | LNum _ _ =>
              match ts with
              | [] => app [(t, cur)] <$> lexs st' (String c "") s
              | _ => app ((t, cur) :: ((λ t, (t, String c "")) <$> ts)) <$> lexs st' "" s
              end
          | _ => app ((λ t, (t, snoc cur c)) <$> t :: ts) <$> lexs st' "" s
          end
      end
  end.

(** The bytes of a token written without spaces. *)
Definition text (t : token) : string :=
  match t with
  | TLBrace => "{" | TRBrace => "}" | TLBrack => "[" | TRBrack => "]" | TColon => ":" | TComma => ","
  | TTrue => "true" | TFalse => "false" | TNull => "null"
  | TNum lit => lit
  | TStr raw => quoted raw
  end.

Definition with_text (ts : list token) : list (token * string) := (λ t, (t, text t)) <$> ts.

Lemma with_text_app a b : with_text (a ++ b) = (with_text a ++ with_text b)%list.
Proof. apply fmap_app. Qed.

(** [s] scans to [ts], each with its own text, whatever follows. *)
Definition prints (s : string) (ts : list token) : Prop :=
  ∀ rest, delim_start rest → lexs LIdle "" (s +:+ rest) = app (with_text ts) <$> lexs LIdle "" rest.

Lemma fmap_app_app {A} (a b : list A) (o : option (list A)) : app a <$> (app b <$> o) = app (a ++ b)%list <$> o.
Proof. destruct o; simpl; [|done]. by rewrite app_assoc. Qed.

Lemma fmap_app_nil {A} (o : option (list A)) : app [] <$> o = o.
Proof. by destruct o. Qed.

Lemma fst_pair_map {B} (f : token → B) (ts : list token) : fst <$> ((λ t, (t, f t)) <$> ts) = ts.
Proof. rewrite <- list_fmap_compose. apply list_fmap_id. Qed.

Lemma fmap_fst_app (a : list (token * string)) (o : option (list (token * string))) :
  fmap (M := list) fst <$> (app a <$> o) = app (fst <$> a) <$> (fmap (M := list) fst <$> o).
Proof. destruct o; [|done]. cbn [fmap option_fmap option_map]. by rewrite fmap_app. Qed.

Lemma lexs_lex st cur s : lex st s = fmap (M := list) fst <$> lexs st cur s.
Proof.
  revert st cur. induction s as [|c s IH]; intros st cur; cbn [lex lexs].
  - destruct st; try done. by destruct (num_final _).
  - destruct (lstep st c) as [[[|t ts] st']|]; [|..|done].
    + rewrite (IH _ (snoc cur c)). by destruct (lexs _ _ s).
    + assert (∀ cur' a, fst <$> a = t :: ts →
        match lex st' s with Some ts' => Some (app (t :: ts) ts') | None => None end
        = fmap (M := list) fst <$> (app a <$> lexs st' cur' s)) as H.
      { intros cur' a Ha. rewrite fmap_fst_app, Ha, (IH _ cur'). by destruct (lexs _ _ s). }
      destruct st; try (apply H; apply fst_pair_map). destruct ts as [|t' ts]; [by apply H|].
      apply H. rewrite fmap_cons, fst_pair_map. done.
Qed.

Lemma lexs_srun st cur a b st' : srun st a = Some st' → lexs st cur (a +:+ b) = lexs st' (cur +:+ a) b.
Proof.
  revert st cur. induction a as [|c a IH]; intros st cur H; [injection H as <-; by rewrite sapp_nil_r|].
  rewrite sapp_cons. cbn [srun lexs] in *. destruct (lstep st c) as [[[|t ts] st1]|]; [|done|done].
  rewrite (IH _ _ H). by rewrite snoc_app.
Qed.

Lemma prints_nil : prints "" [].
Proof. intros rest _. rewrite sapp_nil_l. by destruct (lexs LIdle "" rest). Qed.

Lemma num_lex ns lit cur rest :
  num_final ns = true → delim_start rest →
  lexs (LNum ns lit) cur rest = app [(TNum lit, cur)] <$> lexs LIdle "" rest.
Proof.
  intros Hf Hd. destruct rest as [|c rest]; [cbn [lexs]; by rewrite Hf|]. cbn [lexs lstep].
  assert (num_next ns c = None) as ->.
  { unfold num_next. destruct Hd as [-> | [-> | ->]]; by destruct ns. }
  assert (∃ t, idle_step c = Some ([t], LIdle)) as [t ->].
  { unfold idle_step, is_ws. destruct Hd as [-> | [-> | ->]]; by eexists. }
  rewrite Hf. rewrite fmap_app_app. done.
Qed.

Lemma prints_num lit : num_ok lit → prints lit [TNum lit].
Proof. intros (ns & Hs & Hf & _) rest Hd. rewrite (lexs_srun _ _ _ _ _ Hs), sapp_nil_l. by apply num_lex. Qed.

Lemma lex_quoted raw rest :
  raw_ok raw → lexs LIdle "" (quoted raw +:+ rest) = app (with_text [TStr raw]) <$> lexs LIdle "" rest.
Proof.
  intros [Hs _]. unfold quoted. rewrite sapp_cons, sapp_assoc. cbn [lexs].
  change (lstep LIdle dquote) with (Some (@nil token, LInStr "")). cbv beta iota.
  rewrite (lexs_srun _ _ _ _ _ Hs), sapp_cons, sapp_nil_l. cbn [lexs].
  change (lstep (LInStr raw) dquote) with (Some ([TStr raw], LIdle)). cbv beta iota.
  unfold with_text. cbn [fmap list_fmap text]. unfold quoted, snoc. rewrite sapp_assoc. done.
Qed.

(** One punctuation byte. *)
Lemma lex_punct c t s :
  idle_step c = Some ([t], LIdle) → text t = String c "" →
  lexs LIdle "" (String c s) = app (with_text [t]) <$> lexs LIdle "" s.
Proof. intros H Ht. cbn [lexs lstep]. rewrite H. unfold with_text. cbn [fmap list_fmap]. by rewrite Ht. Qed.

Lemma prints_join ss tss : Forall2 prints ss tss → prints (Join ss ",") (sepby tss).
Proof.
  induction 1 as [|s ts ss tss H Hall IH]; [apply prints_nil|].
  destruct Hall as [|s' ts' ss tss H' Hall]; [exact H|]. intros rest Hd.
  change (sepby (ts :: ts' :: tss)) with (ts ++ [TComma] ++ sepby (ts' :: tss))%list.
  rewrite Join_cons2, !sapp_assoc, H by (left; done). rewrite sapp_cons, sapp_nil_l, (lex_punct _ TComma) by reflexivity.
  rewrite IH by done. by rewrite !fmap_app_app, !with_text_app, <- ?app_assoc.
Qed.

Lemma prints_lit s t :
  (s, t) ∈ [("null", TNull); ("true", TTrue); ("false", TFalse)] → prints s [t].
Proof.
  rewrite !elem_of_cons, elem_of_nil. intros [H|[H|[H|[]]]] rest _; injection H as -> ->;
    rewrite ?sapp_cons, sapp_nil_l; reflexivity.
Qed.

(** A printed object scans whatever follows it. *)
Lemma prints_object k l rest :
  Forall (λ kv, ∀ k, json_ok k (snd kv) → prints (json_print (snd kv)) (tokens (snd kv))) l → json_ok k (JObj l) →
  lexs LIdle "" (json_print (JObj l) +:+ rest) = app (with_text (tokens (JObj l))) <$> lexs LIdle "" rest.
Proof.
  intros IH [_ Hok]%json_ok_obj.
  assert (prints (Join (map (λ kv, quoted (fst kv) +:+ ":" +:+ json_print (snd kv)) l) ",")
    (sepby (map (λ kv, TStr (fst kv) :: TColon :: tokens (snd kv)) l))) as Hj.
  { apply prints_join. apply Forall2_fmap, Forall_Forall2_diag. eapply Forall_impl; [exact (proj2 (Forall_and _ _) (conj IH Hok))|].
    intros [key v] (H1 & H2 & H3) rest' Hd. cbn [fst snd] in *. rewrite !sapp_assoc, lex_quoted by done.
    rewrite sapp_cons, sapp_nil_l, (lex_punct _ TColon) by reflexivity. rewrite (H1 _ H3) by done.
    by rewrite !fmap_app_app, <- !with_text_app. }
  cbn [json_print tokens]. rewrite !sapp_assoc, sapp_cons, sapp_nil_l, (lex_punct _ TLBrace) by reflexivity.
  rewrite Hj by (right; right; done). rewrite sapp_cons, sapp_nil_l, (lex_punct _ TRBrace) by reflexivity.
  by rewrite !fmap_app_app, <- !with_text_app, <- ?app_assoc.
Qed.

Lemma prints_print k v : json_ok k v → prints (json_print v) (tokens v).
Proof.
  revert k. induction v as [|b|lit|raw|l IH|l IH] using json_ind_all; intros k Hok.
  - apply prints_lit. set_solver.
  - destruct b; apply prints_lit; set_solver.
  - by apply prints_num.
  - intros rest _. by apply lex_quoted.
  - apply json_ok_arr in Hok as [_ Hok]. assert (prints (Join (map json_print l) ",") (sepby (map tokens l))) as Hj.
    { apply prints_join. apply Forall2_fmap, Forall_Forall2_diag. eapply Forall_impl; [exact (proj2 (Forall_and _ _) (conj IH Hok))|].
      intros v [H1 H2]. by eapply H1. }
    intros rest _. cbn [json_print tokens]. rewrite !sapp_assoc, sapp_cons, sapp_nil_l, (lex_punct _ TLBrack) by reflexivity.
    rewrite Hj by (right; left; done). rewrite sapp_cons, sapp_nil_l, (lex_punct _ TRBrack) by reflexivity.
    by rewrite !fmap_app_app, <- !with_text_app, <- ?app_assoc.
  - intros rest _. by eapply prints_object.
Qed.

(** ** Parsing the tokens of a value *)

(** The first token of a value never closes a bracket. *)
Lemma tokens_head v : ∃ t ts, tokens v = t :: ts ∧ ∀ acc stk,
  pstep (MArrFirst, FArr acc :: stk) t = pstep (MValue, FArr acc :: stk) t.
Proof. destruct v as [|[]|lit|raw|l|l]; by eexists _, _. Qed.

Lemma prun_first v ts acc stk :
  prun (MArrFirst, FArr acc :: stk) (tokens v ++ ts) = prun (MValue, FArr acc :: stk) (tokens v ++ ts).
Proof.
  destruct (tokens_head v) as (t & ts' & -> & H). rewrite <- app_comm_cons. cbn [prun]. by rewrite H.
Qed.

(** What parsing the tokens of [v] does. *)
Definition parses (v : json) : Prop :=
  ∀ stk ts, json_ok (length stk) v → prun (MValue, stk) (tokens v ++ ts) = prun (push_value v stk) ts.

Lemma open_frame_ok_step m f stk :
  Z.of_nat (length stk) < 10000 → open_frame m f stk = Some (m, f :: stk).
Proof. intros H. unfold open_frame. by rewrite (proj2 (Z.ltb_lt _ _)). Qed.

Lemma prun_elems v l acc stk ts :
  Forall parses (v :: l) → Forall (json_ok (S (length stk))) (v :: l) →
  prun (MValue, FArr acc :: stk) (sepby (map tokens (v :: l)) ++ TRBrack :: ts)
  = prun (push_value (JArr (acc ++ v :: l)) stk) ts.
Proof.
  revert v acc. induction l as [|v' l IH]; intros v acc Hp Hok;
    apply Forall_cons in Hp as [Hv Hp], Hok as [Hkv Hok].
  - change (sepby (map tokens [v])) with (tokens v). rewrite Hv by done. cbn [push_value prun pstep]. done.
  - change (sepby (map tokens (v :: v' :: l))) with (tokens v ++ TComma :: sepby (map tokens (v' :: l)))%list.
    rewrite <- app_assoc, Hv by done. rewrite <- app_comm_cons. cbn [push_value prun pstep snd].
    rewrite (IH v' (acc ++ [v])%list) by done. by rewrite <- app_assoc.
Qed.

Definition member_tokens (kv : string * json) : list token := TStr (fst kv) :: TColon :: tokens (snd kv).

Lemma prun_members m kv l acc key stk ts :
  m = MObjFirst ∨ m = MKey →
  Forall (λ kv, parses (snd kv)) (kv :: l) →
  Forall (λ kv, raw_ok (fst kv) ∧ json_ok (S (length stk)) (snd kv)) (kv :: l) →
  prun (m, FObj acc key :: stk) (sepby (map member_tokens (kv :: l)) ++ TRBrace :: ts)
  = prun (push_value (JObj (acc ++ kv :: l)) stk) ts.
Proof.
  revert m kv acc key. induction l as [|kv' l IH]; intros m kv acc key Hm Hp Hok;
    apply Forall_cons in Hp as [Hv Hp], Hok as [[_ Hkv] Hok].
  - change (sepby (map member_tokens [kv])) with (member_tokens kv). unfold member_tokens.
    destruct kv as [k v]. cbn [fst snd app].
    assert (∀ ts, prun (m, FObj acc key :: stk) (TStr k :: TColon :: ts) = prun (MValue, FObj acc k :: stk) ts) as Hk
      by (intros; by destruct Hm as [-> | ->]).
    rewrite Hk, Hv by done. cbn [push_value prun pstep]. done.
  - change (sepby (map member_tokens (kv :: kv' :: l))) with
      (member_tokens kv ++ TComma :: sepby (map member_tokens (kv' :: l)))%list.
    unfold member_tokens at 1. destruct kv as [k v]. cbn [fst snd app].
    assert (∀ ts, prun (m, FObj acc key :: stk) (TStr k :: TColon :: ts) = prun (MValue, FObj acc k :: stk) ts) as Hk
      by (intros; by destruct Hm as [-> | ->]).
    rewrite Hk, <- app_assoc, Hv by done. rewrite <- app_comm_cons. cbn [push_value prun pstep snd].
    rewrite (IH MKey kv' (acc ++ [(k, v)])%list) by first [done|by right]. by rewrite <- app_assoc.
Qed.

Lemma parses_all v : parses v.
Proof.
  induction v as [|b|lit|raw|l IH|l IH] using json_ind_all; intros stk ts Hok.
  - done.
  - by destruct b.
  - done.
  - done.
  - apply json_ok_arr in Hok as [Hk Hok]. cbn [tokens]. rewrite <- app_comm_cons, <- app_assoc. cbn [prun pstep value_token].
    rewrite open_frame_ok_step by done. cbn [app]. destruct l as [|v l]; [done|].
    destruct (tokens_head v) as (t & ts' & Ht & Hh).
    etransitivity; [|exact (prun_elems v l [] stk ts IH Hok)]. cbn [map].
    assert (∀ r, prun (MArrFirst, FArr [] :: stk) (tokens v ++ r) = prun (MValue, FArr [] :: stk) (tokens v ++ r)) as Hf
      by (intros; apply prun_first).
    destruct (map tokens l) as [|ts2 tss]; cbn [sepby]; [apply Hf|]. rewrite <- !app_assoc. apply Hf.
  - apply json_ok_obj in Hok as [Hk Hok]. cbn [tokens]. rewrite <- app_comm_cons, <- app_assoc. cbn [prun pstep value_token].
    rewrite open_frame_ok_step by done. cbn [app]. destruct l as [|kv l]; [done|].
    change (λ kv, TStr (fst kv) :: TColon :: tokens (snd kv)) with member_tokens.
    exact (prun_members MObjFirst kv l [] "" stk ts (or_introl eq_refl) IH Hok).
Qed.

Lemma map_fst_with_text ts : fst <$> with_text ts = ts.
Proof. unfold with_text. rewrite <- list_fmap_compose. apply list_fmap_id. Qed.

(** Parsing a printed value, and a printed object followed by white space. *)
Lemma json_parse_print v : json_ok 0 v → json_parse (json_print v) = Some v.
Proof.
  intros Hok. unfold json_parse. rewrite (lexs_lex LIdle ""), <- (sapp_nil_r (json_print v)), (prints_print 0 v Hok) by done.
  cbn [lexs fmap option_fmap option_map]. rewrite app_nil_r. change (list_fmap (token * string)%type token fst) with (fmap (M := list) (@fst token string)).
  rewrite map_fst_with_text, <- (app_nil_r (tokens v)), (parses_all v []) by done. done.
Qed.

(** ** Quoted strings *)

Definition plain (c : ascii) : bool := visible c && negb (byte_of c =? 34) && negb (byte_of c =? 92).
Definition high (c : ascii) : bool := 128 <=? byte_of c.

Lemma high_plain c : high c = true → plain c = true.
Proof. unfold high, plain, visible. intros H. to_prop. by rewrite (proj2 (Z.leb_le _ _)), !(proj2 (Z.eqb_neq _ _)) by lia. Qed.

Lemma string_forall_impl (f g : ascii → bool) s :
  (∀ c, f c = true → g c = true) → string_forall f s = true → string_forall g s = true.
Proof.
  intros H. induction s as [|c s IH]; [done|]. cbn [string_forall]. intros [H1 H2]%andb_true_iff. by rewrite (H c), IH.
Qed.

Lemma plain_no_ctl s : string_forall plain s = true → no_ctl s = true.
Proof. apply string_forall_impl. unfold plain. intros c H. by to_prop. Qed.

Lemma srun_plain acc s : string_forall plain s = true → srun (LInStr acc) s = Some (LInStr (acc +:+ s)).
Proof.
  revert acc. induction s as [|c s IH]; intros acc H; [by rewrite sapp_nil_r|].
  cbn [string_forall] in H. apply andb_true_iff in H as [Hc H]. unfold plain, visible in Hc. to_prop. cbn [srun lstep].
  rewrite !(proj2 (Z.eqb_neq _ _)), (proj2 (Z.ltb_ge _ _)) by lia. rewrite IH by done. by rewrite snoc_app.
Qed.

Lemma plain_raw_ok s : string_forall plain s = true → raw_ok s.
Proof. intros H. split; [by rewrite srun_plain|by apply plain_no_ctl]. Qed.

Lemma unescape_plain s t : string_forall plain s = true → unescape (s +:+ t) = s +:+ unescape t.
Proof.
  induction s as [|c s IH]; intros H; [done|]. rewrite !sapp_cons. cbn [string_forall] in H. apply andb_true_iff in H as [Hc H].
  unfold plain in Hc. to_prop. cbn [unescape]. rewrite (proj2 (Z.eqb_neq _ _)) by done. cbn [negb]. by rewrite IH.
Qed.

(** Bytes read before a string state do not matter. *)
Definition prefix_state (p : string) (st : lstate) : lstate :=
  match st with
  | LInStr acc => LInStr (p +:+ acc)
  | LEsc acc => LEsc (p +:+ acc)
  | LHex n acc => LHex n (p +:+ acc)
  | st => st
  end.
Definition in_string (st : lstate) : Prop := match st with LInStr _ | LEsc _ | LHex _ _ => True | _ => False end.

Lemma srun_prefix p st s st' :
  in_string st → srun st s = Some st' → srun (prefix_state p st) s = Some (prefix_state p st').
Proof.
  revert st. induction s as [|c s IH]; intros st Hin H; [by injection H as <-|]. cbn [srun] in *.
  destruct (lstep st c) as [[[|t ts] st1]|] eqn:E; [|done|done].
  assert (lstep (prefix_state p st) c = Some ([], prefix_state p st1) ∧ in_string st1) as [-> Hin1]; [|by apply IH].
  destruct st as [|acc|acc|n acc|ns acc|r t]; try done; cbn [prefix_state lstep] in *; unfold snoc in *;
    repeat case_match; simplify_eq/=; rewrite ?sapp_assoc; done.
Qed.

Definition rune_bytes (r : rune_item) : string := match r with RuneOK bs => bs | RuneBad _ => replacement end.

(** A rune as [runes] gives it: one byte, or bytes beyond ASCII. *)
Definition rune_ok (r : rune_item) : Prop :=
  match r with RuneOK (String c EmptyString) => True | RuneOK bs => string_forall high bs = true | RuneBad _ => True end.

(** What quoting a rune as [q] must do. *)
Definition quotes_as (q : string) (r : rune_item) : Prop :=
  srun (LInStr "") q = Some (LInStr q) ∧ no_ctl q = true ∧ ∀ t, unescape (q +:+ t) = rune_bytes r +:+ unescape t.
Definition quotes (r : rune_item) : Prop := quotes_as (quote_rune r) r.

Lemma quotes_high bs : string_forall high bs = true → quote_rune (RuneOK bs) = bs → quotes (RuneOK bs).
Proof.
  intros H%(string_forall_impl _ _ _ high_plain) Hq. unfold quotes. rewrite Hq. split_and!.
  - by apply plain_raw_ok.
  - by apply plain_no_ctl.
  - intros t. by apply unescape_plain.
Qed.

Lemma quotes_rune r : rune_ok r → quotes r.
Proof.
  intros Hok. destruct r as [bs|c].
  2: { split_and!; [vm_compute; reflexivity..|]. intros t. reflexivity. }
  destruct bs as [|c [|c' bs]].
  - by apply quotes_high.
  - clear Hok. split_and!; [destruct c as [[] [] [] [] [] [] [] []]; vm_compute; reflexivity..|].
    intros t. destruct c as [[] [] [] [] [] [] [] []]; reflexivity.
  - set (s := String c (String c' bs)) in *.
    assert (quote_rune (RuneOK s) = if bool_decide (s = u3 226 128 168) then "\u2028"
      else if bool_decide (s = u3 226 128 169) then "\u2029" else s) as Hq by done.
    case_bool_decide as H1; [rewrite H1; split_and!; [vm_compute; reflexivity..|intros t; reflexivity]|].
    case_bool_decide as H2; [rewrite H2; split_and!; [vm_compute; reflexivity..|intros t; reflexivity]|].
    by apply quotes_high.
Qed.

Lemma sconcat_cons a l : sconcat (a :: l) = a +:+ sconcat l.
Proof. unfold sconcat. destruct l; [|done]. cbn [Join]. by rewrite sapp_nil_r. Qed.

(** A way of quoting runes that is correct on each is correct on all. *)
Lemma quote_runes quote l acc t :
  (∀ r, rune_ok r → quotes_as (quote r) r) → Forall rune_ok l →
  srun (LInStr acc) (sconcat (map quote l)) = Some (LInStr (acc +:+ sconcat (map quote l))) ∧
  no_ctl (sconcat (map quote l)) = true ∧
  unescape (sconcat (map quote l) +:+ t) = sconcat (map rune_bytes l) +:+ unescape t.
Proof.
  intros Hq H. revert acc. induction H as [|r l Hr Hl IH]; intros acc.
  { cbn [map]. split_and!; [cbn; by rewrite sapp_nil_r|done|done]. }
  destruct (Hq r Hr) as (H1 & H2 & H3). cbn [map]. rewrite !sconcat_cons.
  destruct (IH (acc +:+ quote r)) as (I1 & I2 & I3). split_and!.
  - rewrite srun_app. apply (srun_prefix acc) in H1; [|done]. cbn [prefix_state] in H1. rewrite sapp_nil_r in H1.
    rewrite H1. cbn [mbind option_bind]. rewrite I1. by rewrite sapp_assoc.
  - by rewrite no_ctl_app, H2, I2.
  - by rewrite sapp_assoc, H3, I3, sapp_assoc.
Qed.

(** [runes] cuts a string into runes: the bytes of a valid string, in order. *)
Lemma runes_spec n s :
  (String.length s ≤ n)%nat →
  Forall rune_ok (runes s) ∧ (ValidString s = true → sconcat (map rune_bytes (runes s)) = s).
Proof.
  unfold ValidString. revert s. induction n as [|n IH]; intros s Hn.
  { destruct s; [by split; [constructor|]|simpl in Hn; lia]. }
  destruct s as [|a s1]; [by split; [constructor|]|]. cbn [String.length] in Hn.
  (* one rune [r] of bytes [p], then the runes of [s'] *)
  assert (∀ bs s', String a s1 = bs +:+ s' → (String.length s' ≤ n)%nat → rune_ok (RuneOK bs) →
    Forall rune_ok (RuneOK bs :: runes s') ∧
    (forallb (λ r, match r with RuneOK _ => true | RuneBad _ => false end) (RuneOK bs :: runes s') = true →
     sconcat (map rune_bytes (RuneOK bs :: runes s')) = String a s1)) as Hgood.
  { intros bs s' Heq Hl Hr. destruct (IH s' Hl) as [H1 H2]. split; [by constructor|].
    cbn [forallb andb map rune_bytes]. intros Hv. by rewrite sconcat_cons, H2. }
  assert (Forall rune_ok (RuneBad a :: runes s1) ∧
    (forallb (λ r, match r with RuneOK _ => true | RuneBad _ => false end) (RuneBad a :: runes s1) = true →
     sconcat (map rune_bytes (RuneBad a :: runes s1)) = String a s1)) as Hbad.
  { split; [constructor; [done|by apply IH; lia]|done]. }
  cbn [runes]. set (k := seq_len _ _ _ _).
  assert (k ≠ 1 → k ≠ 0 → high a = true ∧ is_cont (byte_at s1 0) = true ∧
    (3 ≤ k → is_cont (byte_at s1 1) = true) ∧ (4 ≤ k → is_cont (byte_at s1 2) = true)) as Hk.
  { subst k. unfold seq_len, high, is_cont in *. intros. repeat case_match; to_prop; repeat split; intros;
      try lia; apply andb_true_iff; split; apply Z.leb_le; lia. }
  assert (∀ c, is_cont (byte_of c) = true → high c = true) as Hc.
  { intros c Hc. unfold is_cont in Hc. unfold high. to_prop. apply Z.leb_le. lia. }
  destruct (k =? 1) eqn:E1; [by apply Hgood; [done|lia|]|]. to_prop.
  destruct s1 as [|b s2]; [done|]. cbn [String.length] in Hn.
  destruct (k =? 2) eqn:E2; to_prop.
  { destruct Hk as (Ha & Hb & _); [lia..|]. apply Hgood; [done|lia|]. cbn. rewrite Ha. by rewrite (Hc b). }
  destruct s2 as [|c s3]; [done|]. cbn [String.length] in Hn.
  destruct (k =? 3) eqn:E3; to_prop.
  { destruct Hk as (Ha & Hb & H3 & _); [lia..|]. apply Hgood; [done|lia|]. cbn. rewrite Ha, (Hc b), (Hc c); [done|..|done]. by apply H3; lia. }
  destruct s3 as [|d s4]; [done|]. cbn [String.length] in Hn.
  destruct (k =? 4) eqn:E4; [|done]. to_prop.
  destruct Hk as (Ha & Hb & H3 & H4); [lia..|]. apply Hgood; [done|lia|]. cbn.
  rewrite Ha, (Hc b), (Hc c), (Hc d); [done|..|done]; [by apply H4; lia|by apply H3; lia].
Qed.

Lemma quote_all_spec quote s :
  (∀ r, rune_ok r → quotes_as (quote r) r) →
  raw_ok (sconcat (map quote (runes s))) ∧ unescape (sconcat (map quote (runes s))) = coerce_utf8 s.
Proof.
  intros Hq. destruct (runes_spec (String.length s) s (Nat.le_refl _)) as [Hr _].
  destruct (quote_runes quote (runes s) "" "" Hq Hr) as (H1 & H2 & H3). split.
  - split; [|done]. by rewrite H1.
  - rewrite <- (sapp_nil_r (sconcat _)), H3. cbn [unescape]. by rewrite sapp_nil_r.
Qed.

Lemma quote_string_spec s :
  raw_ok (quote_string s) ∧ unescape (quote_string s) = coerce_utf8 s.
Proof. apply (quote_all_spec quote_rune), quotes_rune. Qed.

Lemma coerce_valid s : ValidString s = true → coerce_utf8 s = s.
Proof. intros Hv. by apply (runes_spec (String.length s) s (Nat.le_refl _)). Qed.

(** A valid string survives quoting and unquoting. *)
Lemma unquote_quote s : ValidString s = true → unquote (quote_string s) = s.
Proof.
  intros Hv. unfold unquote. destruct (quote_string_spec s) as [_ ->]. by rewrite !coerce_valid by (by rewrite ?coerce_valid).
Qed.

(** ** Printed values hold no control character *)

Lemma no_ctl_quoted raw : no_ctl raw = true → no_ctl (quoted raw) = true.
Proof. intros H. unfold quoted. unfold no_ctl in *. cbn [string_forall]. by rewrite string_forall_app, H. Qed.

Lemma no_ctl_join l sep : no_ctl sep = true → Forall (λ s, no_ctl s = true) l → no_ctl (Join l sep) = true.
Proof.
  intros Hsep. induction 1 as [|s l Hs Hl IH]; [done|]. destruct l; [done|]. by rewrite Join_cons2, !no_ctl_app, Hs, Hsep, IH.
Qed.

Lemma json_print_no_ctl k v : json_ok k v → no_ctl (json_print v) = true.
Proof.
  revert k. induction v as [|b|lit|raw|l IH|l IH] using json_ind_all; intros k Hok.
  - done.
  - by destruct b.
  - by destruct Hok as (? & _ & _ & ? & _).
  - destruct Hok. by apply no_ctl_quoted.
  - apply json_ok_arr in Hok as [_ Hok]. cbn [json_print]. rewrite !no_ctl_app. cbn [andb].
    rewrite no_ctl_join; [done..|]. apply Forall_fmap. eapply Forall_impl; [exact (proj2 (Forall_and _ _) (conj IH Hok))|].
    intros v [H1 H2]. by eapply H1.
  - apply json_ok_obj in Hok as [_ Hok]. cbn [json_print]. rewrite !no_ctl_app. cbn [andb].
    rewrite no_ctl_join; [done..|]. apply Forall_fmap. eapply Forall_impl; [exact (proj2 (Forall_and _ _) (conj IH Hok))|].
    intros [key v] (H1 & [_ Hk] & H2). cbn [fst snd compose] in *. by rewrite !no_ctl_app, no_ctl_quoted, (H1 _ H2).
Qed.

(** So a printed value is one line. *)
Lemma contains_no_ctl s : no_ctl s = true → contains_char nl s = false.
Proof.
  induction s as [|c s IH]; [done|]. unfold no_ctl. cbn [string_forall contains_char]. intros [Hc Hs]%andb_true_iff.
  rewrite (IH Hs), orb_false_r. apply bool_decide_eq_false. intros <-. done.
Qed.

(** ** [json.Compact] *)

Lemma Compact_spec s t :
  Compact s = Some t → ∃ v, json_parse s = Some v ∧ t = json_print v ∧ json_ok 0 v ∧ json_parse t = Some v.
Proof.
  unfold Compact. destruct (json_parse s) as [v|] eqn:E; [|done]. intros [= <-]. apply json_parse_ok in E as Hok.
  exists v. split_and!; [done..|]. by apply json_parse_print.
Qed.

(** ** [json.RawMessage]: the source text of an object's members *)

Inductive phase : Set :=
  | PKey                                     (* a key, or the end *)
  | PColon (key : string)
  | PVal (key : string) (d : nat) (cur : string)   (* in a value, under [d] open brackets *)
  | PAfter.                                  (* a comma, or the end *)

Fixpoint trim_ws (s : string) : string :=
  match s with String c s' => if is_ws c then trim_ws s' else s | EmptyString => "" end.

Definition depth_after (d : nat) (t : token) : nat :=
  match t with TLBrace | TLBrack => S d | TRBrace | TRBrack => Nat.pred d | _ => d end.

(** The raw keys with the source text of their values, from the tokens after the opening brace
    of a valid object. *)
Fixpoint osrc (p : phase) (ts : list (token * string)) : list (string * string) :=
  match ts with
  | [] => []
  | (t, x) :: ts =>
      match p with
      | PKey => match t with TStr k => osrc (PColon k) ts | _ => [] end
      | PColon k => osrc (PVal k 0 "") ts
      | PVal k d cur =>
          let cur := cur +:+ match d with O => trim_ws x | _ => x end in
          match depth_after d t with
          | O => (k, cur) :: osrc PAfter ts
          | d => osrc (PVal k d cur) ts
          end
      | PAfter => match t with TComma => osrc PKey ts | _ => [] end
      end
  end.

Definition object_sources (s : string) : list (string * string) :=
  match lexs LIdle "" s with Some ((TLBrace, _) :: ts) => osrc PKey ts | _ => [] end.

Definition texts (ts : list token) : string := sconcat (map text ts).

Lemma texts_cons t ts : texts (t :: ts) = text t +:+ texts ts.
Proof. apply sconcat_cons. Qed.

Lemma texts_app a b : texts (a ++ b) = texts a +:+ texts b.
Proof. induction a as [|t a IH]; [done|]. rewrite <- app_comm_cons, !texts_cons, IH. by rewrite sapp_assoc. Qed.

Lemma texts_sepby l : texts (sepby l) = Join (map texts l) ",".
Proof.
  induction l as [|a l IH]; [done|]. destruct l as [|b l]; [done|].
  change (sepby (a :: b :: l)) with (a ++ [TComma] ++ sepby (b :: l))%list.
  rewrite !texts_app, IH. reflexivity.
Qed.

Lemma texts_tokens v : texts (tokens v) = json_print v.
Proof.
  induction v as [|[]|lit|raw|l IH|l IH] using json_ind_all; try done.
  - cbn [tokens json_print]. rewrite texts_cons, texts_app, texts_sepby. cbn [text]. do 3 f_equal.
    rewrite map_map. apply map_ext_Forall. exact IH.
  - cbn [tokens json_print]. rewrite texts_cons, texts_app, texts_sepby. cbn [text]. do 3 f_equal.
    rewrite map_map. apply map_ext_Forall. eapply Forall_impl; [exact IH|]. intros [k v] Hv. cbn [fst snd] in *.
    rewrite !texts_cons, Hv. done.
Qed.

(** Inside a value, the tokens [ts] open as many brackets as they close. *)
Definition balanced (ts : list token) : Prop :=
  ∀ k d cur r, osrc (PVal k (S d) cur) (with_text ts ++ r) = osrc (PVal k (S d) (cur +:+ texts ts)) r.

Lemma balanced_nil : balanced [].
Proof. intros k d cur r. cbn. by rewrite sapp_nil_r. Qed.

Lemma balanced_app a b : balanced a → balanced b → balanced (a ++ b).
Proof. intros Ha Hb k d cur r. rewrite with_text_app, <- app_assoc, Ha, Hb, texts_app. by rewrite sapp_assoc. Qed.

Lemma balanced_one t : depth_after 1 t = 1%nat → balanced [t].
Proof.
  intros H k d cur r. cbn [with_text fmap list_fmap app osrc].
  assert (depth_after (S d) t = S d) as -> by (by destruct t). by rewrite texts_cons, sapp_nil_r.
Qed.

Lemma balanced_sepby l : Forall balanced l → balanced (sepby l).
Proof.
  induction 1 as [|a l Ha Hl IH]; [apply balanced_nil|]. destruct l as [|b l]; [done|].
  change (sepby (a :: b :: l)) with (a ++ [TComma] ++ sepby (b :: l))%list.
  apply balanced_app; [done|]. apply balanced_app; [by apply balanced_one|done].
Qed.

Lemma osrc_bracket o c ts k d cur r :
  (o = TLBrace ∧ c = TRBrace) ∨ (o = TLBrack ∧ c = TRBrack) → balanced ts →
  osrc (PVal k d cur) (with_text (o :: ts ++ [c]) ++ r) =
  match d with
  | O => (k, cur +:+ texts (o :: ts ++ [c])) :: osrc PAfter r
  | _ => osrc (PVal k d (cur +:+ texts (o :: ts ++ [c]))) r
  end.
Proof.
  intros Hoc Hb. change (with_text (o :: ts ++ [c])) with ((o, text o) :: with_text (ts ++ [c])).
  rewrite <- app_comm_cons, with_text_app, <- app_assoc. cbn [osrc].
  assert (depth_after d o = S d ∧ depth_after (S d) c = d ∧ trim_ws (text o) = text o) as (Ho & Hc & Ht)
    by (by destruct Hoc as [[-> ->] | [-> ->]]).
  rewrite Ho, Ht, Hb. cbn [with_text fmap list_fmap app osrc]. rewrite Hc.
  rewrite texts_cons, texts_app. change (texts [c]) with (text c). destruct d; by rewrite !sapp_assoc.
Qed.

(** [trim_ws] leaves the text of a token alone. *)
Lemma trim_text t : token_ok t → trim_ws (text t) = text t.
Proof.
  destruct t; try done. intros (ns & _ & _ & _ & Hs). cbn [text]. destruct lit as [|c s]; [done|].
  cbn [starts_token trim_ws] in *. by destruct (is_ws c).
Qed.

Lemma balanced_tokens v : balanced (tokens v).
Proof.
  assert (∀ o c ts, (o = TLBrace ∧ c = TRBrace) ∨ (o = TLBrack ∧ c = TRBrack) → balanced ts → balanced (o :: ts ++ [c])) as Hbr.
  { intros o c ts Hoc Hts k d cur r. by rewrite (osrc_bracket o c). }
  induction v as [|[]|lit|raw|l IH|l IH] using json_ind_all; try by apply balanced_one.
  - apply Hbr; [by right|]. apply balanced_sepby. by apply Forall_fmap.
  - apply Hbr; [by left|]. apply balanced_sepby, Forall_fmap. eapply Forall_impl; [exact IH|]. intros [k v] Hv.
    change (balanced ([TStr k] ++ [TColon] ++ tokens v)). apply balanced_app; [by apply balanced_one|].
    apply balanced_app; [by apply balanced_one|done].
Qed.

(** The value of a member is the printed value. *)
Lemma osrc_value n k v r :
  json_ok n v → osrc (PVal k 0 "") (with_text (tokens v) ++ r) = (k, json_print v) :: osrc PAfter r.
Proof.
  intros Hok.
  assert (∀ t, depth_after 0 t = 0%nat → token_ok t →
    osrc (PVal k 0 "") (with_text [t] ++ r) = (k, texts [t]) :: osrc PAfter r) as Hone.
  { intros t Hd Ht. cbn [with_text fmap list_fmap app osrc]. by rewrite Hd, sapp_nil_l, trim_text. }
  rewrite <- texts_tokens. destruct v as [|[]|lit|raw|l|l]; try by apply Hone.
  - assert (balanced (sepby (map tokens l))) as Hb.
    { apply balanced_sepby, Forall_fmap, Forall_true. intros. apply balanced_tokens. }
    exact (osrc_bracket TLBrack TRBrack _ k 0 "" r (or_intror (conj eq_refl eq_refl)) Hb).
  - assert (balanced (sepby (map (λ kv, TStr (fst kv) :: TColon :: tokens (snd kv)) l))) as Hb.
    { apply balanced_sepby, Forall_fmap, Forall_true. intros [k' v].
      change (balanced ([TStr k'] ++ [TColon] ++ tokens v)). apply balanced_app; [by apply balanced_one|].
      apply balanced_app; [by apply balanced_one|apply balanced_tokens]. }
    exact (osrc_bracket TLBrace TRBrace _ k 0 "" r (or_introl (conj eq_refl eq_refl)) Hb).
Qed.

Lemma osrc_members n kv l r :
  Forall (λ kv, json_ok n (snd kv)) (kv :: l) →
  osrc PKey (with_text (sepby (map member_tokens (kv :: l)) ++ [TRBrace]) ++ r) =
  map (λ kv, (fst kv, json_print (snd kv))) (kv :: l).
Proof.
  revert kv. induction l as [|kv' l IH]; intros [k v] H; apply Forall_cons in H as [Hv Hl]; cbn [snd] in Hv.
  - change (sepby (map member_tokens [(k, v)])) with (TStr k :: TColon :: tokens v).
    rewrite with_text_app, <- app_assoc. cbn [with_text fmap list_fmap app osrc].
    rewrite (osrc_value n) by done. done.
  - change (sepby (map member_tokens ((k, v) :: kv' :: l))) with
      (TStr k :: TColon :: tokens v ++ [TComma] ++ sepby (map member_tokens (kv' :: l)))%list.
    transitivity ((k, json_print v) :: map (λ kv, (fst kv, json_print (snd kv))) (kv' :: l)); [|done].
    rewrite <- (IH kv' Hl). cbn [with_text fmap list_fmap app osrc].
    rewrite <- app_assoc, with_text_app, <- app_assoc. rewrite (osrc_value n) by done. reflexivity.
Qed.

(** The source of the members of a printed object, whatever white space follows it. *)
Lemma object_sources_print l ws :
  json_ok 0 (JObj l) → lexs LIdle "" ws = Some [] →
  json_parse (json_print (JObj l) +:+ ws) = Some (JObj l) ∧
  object_sources (json_print (JObj l) +:+ ws) = map (λ kv, (fst kv, json_print (snd kv))) l.
Proof.
  intros Hok Hws.
  assert (lexs LIdle "" (json_print (JObj l) +:+ ws) = Some (with_text (tokens (JObj l)))) as Hl.
  { rewrite (prints_object 0) by (done || (apply Forall_true; intros kv k; apply prints_print)).
    rewrite Hws. cbn [fmap option_fmap option_map]. by rewrite app_nil_r. }
  split.
  - unfold json_parse. rewrite (lexs_lex LIdle ""), Hl. cbn [fmap option_fmap option_map].
    change (list_fmap (token * string)%type token fst) with (fmap (M := list) (@fst token string)).
    rewrite map_fst_with_text, <- (app_nil_r (tokens _)), (parses_all _ []) by done. done.
  - unfold object_sources. rewrite Hl. cbn [tokens with_text fmap list_fmap]. destruct l as [|kv l]; [done|].
    apply json_ok_obj in Hok as [_ Hok]. rewrite <- (osrc_members 1 kv l []).
    + by rewrite app_nil_r.
    + eapply Forall_impl; [exact Hok|]. by intros ? [? ?].
Qed.

(** ** Integers as number literals *)

Definition is_digit (c : ascii) : bool := (48 <=? byte_of c) && (byte_of c <=? 57).

Lemma byte_digit d : 0 ≤ d < 10 → byte_of (digit d) = 48 + d.
Proof. intros. unfold digit. apply byte_of_of. lia. Qed.

(** The digits of a positive number: the first one is not zero. *)
Lemma format_go_digits fuel n acc :
  0 < n → n < 10 ^ Z.of_nat fuel → string_forall is_digit acc = true →
  ∃ d s, format_go fuel n acc = String (digit d) s ∧ 1 ≤ d < 10 ∧ string_forall is_digit s = true.
Proof.
  revert n acc. induction fuel as [|f IH]; intros n acc Hn Hf Ha.
  { change (10 ^ Z.of_nat 0) with 1 in Hf. lia. }
  cbn [format_go]. cbv zeta. pose proof (Z.mod_pos_bound n 10 ltac:(lia)). pose proof (Z.div_mod n 10 ltac:(lia)).
  destruct (n / 10 =? 0) eqn:E; to_prop.
  - exists (n mod 10), acc. split; [done|]. split; [lia|done].
  - rewrite Nat2Z.inj_succ, Z.pow_succ_r in Hf by lia. apply IH; [|by apply Z.div_lt_upper_bound; lia|].
    + assert (0 ≤ n / 10) by (apply Z.div_pos; lia). lia.
    + cbn [string_forall]. unfold is_digit at 1. rewrite byte_digit by lia. rewrite Ha, !(proj2 (Z.leb_le _ _)) by lia. done.
Qed.

Lemma format_uint_digits n :
  0 < n → ∃ d s, format_uint n = String (digit d) s ∧ 1 ≤ d < 10 ∧ string_forall is_digit s = true.
Proof.
  intros Hn. unfold format_uint. apply format_go_digits; [done| |done].
  rewrite Nat2Z.inj_succ, Z2Nat.id by apply Z.log2_nonneg. destruct (Z.log2_spec n Hn) as [_ H].
  eapply Z.lt_le_trans; [exact H|]. apply Z.pow_le_mono_l. pose proof (Z.log2_nonneg n). lia.
Qed.

Lemma srun_digits ns acc s :
  ns = NInt → string_forall is_digit s = true → srun (LNum ns acc) s = Some (LNum NInt (acc +:+ s)).
Proof.
  intros ->. revert acc. induction s as [|c s IH]; intros acc H; [by rewrite sapp_nil_r|].
  cbn [string_forall] in H. apply andb_true_iff in H as [Hc H]. unfold is_digit in Hc. cbn [srun lstep num_next].
  rewrite Hc, IH by done. by rewrite snoc_app.
Qed.

Lemma idle_digit d : 1 ≤ d < 10 → idle_step (digit d) = Some ([], LNum NInt (String (digit d) "")).
Proof.
  intros. unfold idle_step, is_ws. rewrite byte_digit by lia.
  repeat (rewrite (proj2 (Z.eqb_neq _ _)) by lia). rewrite !(proj2 (Z.leb_le _ _)) by lia. done.
Qed.

Lemma digits_no_ctl s : string_forall is_digit s = true → no_ctl s = true.
Proof. apply string_forall_impl. unfold is_digit, visible. intros c H. to_prop. apply Z.leb_le. lia. Qed.

Lemma num_ok_digits d s : 1 ≤ d < 10 → string_forall is_digit s = true → num_ok (String (digit d) s).
Proof.
  intros Hd Hs. exists NInt. split_and!; [|done|..].
  - cbn [srun lstep]. rewrite idle_digit by done. by rewrite srun_digits.
  - unfold no_ctl. cbn [string_forall]. unfold visible at 1. rewrite byte_digit by lia.
    rewrite (proj2 (Z.leb_le _ _)) by lia. by apply digits_no_ctl.
  - cbn [starts_token]. unfold is_ws. rewrite byte_digit by lia. by rewrite !(proj2 (Z.eqb_neq _ _)) by lia.
Qed.

Lemma num_ok_format z : num_ok (format_int z).
Proof.
  unfold format_int. destruct (z <? 0) eqn:E; to_prop.
  - destruct (format_uint_digits (- z)) as (d & s & -> & Hd & Hs); [lia|]. exists NInt. split_and!; [|done|..].
    + cbn [srun]. change (lstep LIdle "-"%char) with (Some (@nil token, LNum NNeg "-")). cbn [srun lstep num_next].
      rewrite byte_digit by lia. rewrite (proj2 (Z.eqb_neq _ _)), !(proj2 (Z.leb_le _ _)) by lia. cbn [andb]. by rewrite srun_digits.
    + unfold no_ctl. cbn [string_forall]. unfold visible at 2. rewrite byte_digit by lia.
      rewrite (proj2 (Z.leb_le _ _)) by lia. by apply digits_no_ctl.
    + done.
  - destruct (decide (z = 0)) as [->|Hz]; [exists NZero; by split_and!|].
    destruct (format_uint_digits z) as (d & s & -> & Hd & Hs); [lia|]. by apply num_ok_digits.
Qed.
