(* ===== verification/ByteSize.v ===== *)
(** * [internal/config/bytesize.go]: sizes with units

    [ParseByteSize] with its overflow check, [String] and [UnmarshalText].  A [ByteSize] is an
    [int64]; the product of a number and its unit is written with its wrap-around. *)

From S2P Require Import Prelude.
From S2P Require Import Errors.
From S2P Require Import GoText.
From S2P Require Import GoNum.

Local Open Scope Z_scope.

Definition ByteSize : Set := Z.

Definition KiB : ByteSize := 1024.
Definition MiB : ByteSize := 1048576.
Definition GiB : ByteSize := 1073741824.
Definition TiB : ByteSize := 1099511627776.

Definition byteUnits (unit : string) : option ByteSize :=
  if bool_decide (unit ∈ [""; "b"]) then Some 1
  else if bool_decide (unit ∈ ["k"; "kib"]) then Some KiB
  else if String.eqb unit "kb" then Some 1000
  else if bool_decide (unit ∈ ["m"; "mib"]) then Some MiB
  else if String.eqb unit "mb" then Some 1000000
  else if bool_decide (unit ∈ ["g"; "gib"]) then Some GiB
  else if String.eqb unit "gb" then Some 1000000000
  else if bool_decide (unit ∈ ["t"; "tib"]) then Some TiB
  else if String.eqb unit "tb" then Some 1000000000000
  else None.

(** [strings.ToLower] as far as a lookup among ASCII names can tell: the two other characters
    whose lower case is an ASCII letter are the Kelvin sign and the dotted capital I. *)
Fixpoint lower_unit (s : string) : string :=
  match s with
  | String a ((String b ((String c r) as r2)) as r1) =>
      if (byte_of a =? 226) && (byte_of b =? 132) && (byte_of c =? 170) then String "k"%char (lower_unit r)
      else if (byte_of a =? 196) && (byte_of b =? 176) then String "i"%char (lower_unit r2)
      else String (lower_char a) (lower_unit r1)
  | String a ((String b EmptyString) as r1) =>
      if (byte_of a =? 196) && (byte_of b =? 176) then "i" else String (lower_char a) (lower_unit r1)
  | String a r => String (lower_char a) (lower_unit r)
  | EmptyString => ""
  end.

(** The leading digits of a text, and the rest. *)
Fixpoint span_digits (s : string) : string * string :=
  match s with
  | EmptyString => ("", "")
  | String c r =>
      match digit_val c with
      | Some _ => let '(d, u) := span_digits r in (String c d, u)
      | None => ("", s)
      end
  end.

Definition ParseByteSize (s : string) : result ByteSize :=
  let text := TrimSpace s in
  if bool_decide (text = "") then Err (errorf "empty size")
  else
    let '(digits, rest) := span_digits text in
    let unit := lower_unit (TrimSpace rest) in
    if bool_decide (digits = "") then Err (errorf "invalid size: must start with a number")
    else match byteUnits unit with
         | None => Err (errorf "invalid size: unknown unit")
         | Some mult =>
             match parse_int digits with
             | None => Err (EWrap "invalid size" (errorf "strconv.ParseInt"))
             | Some n =>
                 if int64_max / mult <? n then Err (errorf "invalid size: overflows")
                 else Ok (wrap64 (n * mult))
             end
         end.

(** The loop of [String] over the units, the largest first. *)
Fixpoint size_in (b : ByteSize) (units : list (ByteSize * string)) : string :=
  match units with
  | [] => format_int b +:+ "B"
  | (u, name) :: units =>
      if (u <=? b) && (Z.rem b u =? 0) then format_int (Z.quot b u) +:+ name else size_in b units
  end.

Definition String_ (b : ByteSize) : string :=
  if b <? 0 then format_int b +:+ "B"
  else size_in b [(TiB, "TiB"); (GiB, "GiB"); (MiB, "MiB"); (KiB, "KiB")].

(** [MarshalText] *)
Definition MarshalText (b : ByteSize) : string := String_ b.

Definition UnmarshalText (text : string) : result ByteSize :=
  match ParseByteSize text with
  | Err e => Err e
  | Ok v => if v <? 0 then Err (errorf "invalid size: negative") else Ok v
  end.

(** ** Lemmas *)

Lemma byteUnits_pos u mult : byteUnits u = Some mult → 1 ≤ mult ≤ 1099511627776.
Proof. unfold byteUnits. repeat case_match; intros; simplify_eq; unfold KiB, MiB, GiB, TiB; lia. Qed.

Lemma parse_digits_span s n : parse_digits s = Some n → ∀ r,
  (∀ c r', r = String c r' → digit_val c = None) → span_digits (s +:+ r) = (s, r).
Proof.
  assert (∀ acc, digits_go s acc = Some n → ∀ r, (∀ c r', r = String c r' → digit_val c = None) →
    span_digits (s +:+ r) = (s, r)) as Hgo.
  { induction s as [|c s IH]; intros acc H r Hr.
    - rewrite sapp_nil_l. destruct r as [|c r]; [done|]. cbn [span_digits]. by rewrite (Hr c r eq_refl).
    - rewrite sapp_cons. cbn in *. destruct (digit_val c); [|done]. by rewrite (IH _ H r Hr). }
  unfold parse_digits. destruct s; [done|]. apply Hgo.
Qed.

(** The texts that [String] prints: a number and one of five units. *)
Definition printed_units : list string := ["TiB"; "GiB"; "MiB"; "KiB"; "B"].

(** The value of a digit is determined by its character. *)
Lemma digit_char c d : digit_val c = Some d → c = digit d.
Proof.
  unfold digit_val, digit. destruct (_ && _) eqn:E; [|done]. intros [= <-].
  replace (48 + (byte_of c - 48)) with (byte_of c) by lia. by rewrite of_byte_of.
Qed.

Lemma first_digit n : 0 ≤ n → ∃ d s, 0 ≤ d < 10 ∧ format_uint n = String (digit d) s.
Proof.
  intros Hn. destruct (format_uint_spec n Hn) as [Hne Hd]. destruct (format_uint n) as [|c s]; [done|].
  cbn in Hd. destruct (digit_val c) as [d|] eqn:E; [|done]. exists d, s.
  split; [by eapply digit_val_range|]. f_equal. by apply digit_char.
Qed.

(** No space starts with a digit, and none ends a unit. *)
Lemma no_space_digit d s : 0 ≤ d < 10 → first_some (λ p, strip_prefix p (String (digit d) s)) spaces = None.
Proof.
  intros H. assert (d ∈ (Z.of_nat <$> seq 0 10)) as Hin.
  { apply list_elem_of_fmap. exists (Z.to_nat d). split; [lia|]. apply elem_of_seq. lia. }
  clear H. cbn in Hin. repeat (apply elem_of_cons in Hin as [->|Hin]; [reflexivity|]). by apply not_elem_of_nil in Hin.
Qed.

Lemma strip_suffix_last p c s : strip_suffix (p +:+ chr (byte_of c)) s ≠ None →
  ∃ r, s = r +:+ (p +:+ chr (byte_of c)).
Proof. destruct (strip_suffix _ s) as [r|] eqn:E; [|done]. intros _. exists r. by apply strip_suffix_Some. Qed.

Lemma string_last_inj a b c d : a +:+ String c "" = b +:+ String d "" → c = d.
Proof.
  revert b. induction a as [|x a IH]; intros [|y b] H; rewrite ?sapp_nil_l, ?sapp_cons in H.
  - by injection H.
  - injection H as _ H. by destruct b.
  - injection H as _ H. by destruct a.
  - injection H as _ H. by eapply IH.
Qed.

(** The last character of every space; none is the capital B. *)
Definition ends_not_B (p : string) : bool :=
  match strip_suffix "B" p with Some _ => false | None => true end.

Lemma strip_suffix_app p s : is_Some (strip_suffix p (s +:+ p)).
Proof.
  induction s as [|c s IH].
  - rewrite sapp_nil_l. destruct p; cbn [strip_suffix]; rewrite bool_decide_true by done; by eexists.
  - rewrite sapp_cons. cbn [strip_suffix]. case_bool_decide; [by eexists|]. destruct IH as [r ->]. by eexists.
Qed.

Lemma spaces_not_B p : p ∈ spaces → ∀ s r, s +:+ "B" ≠ r +:+ p.
Proof.
  intros Hp s r H.
  assert (Forall (λ p, ∃ q c, p = q +:+ String c "" ∧ c ≠ "B"%char) spaces) as Hall.
  { unfold spaces, ascii_spaces, unicode_spaces. cbn -[String.append].
    repeat (apply Forall_cons; split; [|]); try apply Forall_nil; try done.
    all: try (by exists ""; eexists; split; [reflexivity|discriminate]).
    all: try (by eexists (chr _); eexists; split; [reflexivity|discriminate]).
    all: by eexists (chr _ +:+ chr _); eexists; split; [reflexivity|discriminate]. }
  rewrite Forall_forall in Hall. destruct (Hall p Hp) as (q & c & -> & Hc).
  rewrite <- sapp_assoc in H. change "B" with (String "B"%char "") in H. apply string_last_inj in H. by subst.
Qed.

Lemma TrimSpace_printed d s : 0 ≤ d < 10 → TrimSpace (String (digit d) s +:+ "B") = String (digit d) s +:+ "B".
Proof.
  intros Hd. unfold TrimSpace.
  assert (∀ fuel, trim_left fuel (String (digit d) s +:+ "B") = String (digit d) s +:+ "B") as Hl.
  { intros [|fuel]; [done|]. cbn [trim_left]. rewrite sapp_cons. by rewrite no_space_digit. }
  rewrite Hl. generalize (String.length (String (digit d) s +:+ "B")) as fuel. intros [|fuel]; [done|]. cbn [trim_right].
  destruct (first_some _ spaces) as [r|] eqn:E; [|done]. exfalso.
  apply first_some_Some in E as (p & Hp & E). apply strip_suffix_Some in E. by eapply spaces_not_B.
Qed.

(** What [String] prints, for a size that is not negative. *)
Lemma String_form b : 0 ≤ b → ∃ n u mult,
  String_ b = format_uint n +:+ (u +:+ "B") ∧ u ∈ [""; "Ki"; "Mi"; "Gi"; "Ti"] ∧
  byteUnits (lower_unit (u +:+ "B")) = Some mult ∧ 0 ≤ n ∧ b = n * mult.
Proof.
  intros Hb. unfold String_. rewrite (proj2 (Z.ltb_ge b 0)) by lia. cbn [size_in].
  assert (∀ u name mult, 0 < u → (u <=? b) && (Z.rem b u =? 0) = true → bool_decide (name ∈ [""; "Ki"; "Mi"; "Gi"; "Ti"]) = true →
    byteUnits (lower_unit (name +:+ "B")) = Some mult → mult = u →
    ∃ n v mult, format_int (Z.quot b u) +:+ (name +:+ "B") = format_uint n +:+ (v +:+ "B") ∧
      v ∈ [""; "Ki"; "Mi"; "Gi"; "Ti"] ∧ byteUnits (lower_unit (v +:+ "B")) = Some mult ∧ 0 ≤ n ∧ b = n * mult) as Hu.
  { intros u name mult Hpos H Hin%bool_decide_eq_true Hm ->. to_prop. exists (Z.quot b u), name, u.
    assert (0 ≤ Z.quot b u) by (apply Z.quot_pos; lia).
    unfold format_int. rewrite (proj2 (Z.ltb_ge (Z.quot b u) 0)) by lia.
    split_and!; try done. pose proof (Z.quot_rem' b u). lia. }
  destruct ((TiB <=? b) && (Z.rem b TiB =? 0)) eqn:E1; [by apply (Hu TiB "Ti" TiB)|].
  destruct ((GiB <=? b) && (Z.rem b GiB =? 0)) eqn:E2; [by apply (Hu GiB "Gi" GiB)|].
  destruct ((MiB <=? b) && (Z.rem b MiB =? 0)) eqn:E3; [by apply (Hu MiB "Mi" MiB)|].
  destruct ((KiB <=? b) && (Z.rem b KiB =? 0)) eqn:E4; [by apply (Hu KiB "Ki" KiB)|].
  exists b, "", 1. unfold format_int. rewrite (proj2 (Z.ltb_ge b 0)) by lia. split_and!; try done; [left|lia].
Qed.

(** Try each unit of the list [H] says it is in. *)
Ltac units H tac :=
  repeat (apply elem_of_cons in H as [->|H]; [tac|]); by apply not_elem_of_nil in H.

(** ** Properties *)

(** Sizes survive their text form, in every unit [String] chooses, up to the largest
    [int64]. *)
Lemma ByteSize_roundtrip b : 0 ≤ b ≤ int64_max → UnmarshalText (MarshalText b) = Ok b.
Proof.
  intros [Hb Hmax]. unfold MarshalText. destruct (String_form b Hb) as (n & u & mult & -> & Hu & Hmult & Hn & ->).
  destruct (first_digit n Hn) as (d & s & Hd & Hs).
  assert (parse_digits (format_uint n) = Some n) as Hp by (by apply parse_digits_format).
  pose proof (byteUnits_pos _ _ Hmult) as Hmp.
  unfold UnmarshalText, ParseByteSize.
  assert (TrimSpace (format_uint n +:+ (u +:+ "B")) = format_uint n +:+ (u +:+ "B")) as ->.
  { rewrite Hs. rewrite sapp_cons, <- sapp_assoc, <- sapp_cons. by apply TrimSpace_printed. }
  rewrite bool_decide_false by (rewrite Hs; by rewrite sapp_cons).
  rewrite (parse_digits_span _ n Hp) by
    (intros c r' Hc; units Hu ltac:(by injection Hc as <- _)).
  rewrite bool_decide_false by (by rewrite Hs).
  assert (TrimSpace (u +:+ "B") = u +:+ "B") as ->
    by (units Hu ltac:(reflexivity)).
  rewrite Hmult. rewrite (parse_int_unsigned _ n Hp) by nia.
  rewrite (proj2 (Z.ltb_ge _ _)) by (apply Z.div_le_lower_bound; lia).
  rewrite wrap64_id by (unfold in_int64, int64_min; lia). by rewrite (proj2 (Z.ltb_ge _ _)) by lia.
Qed.

(** The digits a size starts with are read as the number they are, if it fits an [int64]. *)
Lemma parse_int_digits s digits rest n :
  span_digits s = (digits, rest) → digits ≠ "" → parse_int digits = Some n → parse_digits digits = Some n.
Proof.
  intros Es Hne Hn. assert (∃ c r, digits = String c r ∧ digit_val c ≠ None) as (c & r & -> & Hc).
  { clear Hn. revert Hne Es. destruct s as [|c t]; cbn; [by intros Hne [= <- _]|].
    destruct (digit_val c) eqn:Ec; [|by intros Hne [= <- _]]. destruct (span_digits t) as [d u].
    intros _ [= <- _]. exists c, d. by rewrite Ec. }
  destruct (digit_val c) as [d|] eqn:E; [|done]. pose proof (digit_char c d E) as ->. unfold parse_int in Hn.
  assert (digit d ≠ "-"%char ∧ digit d ≠ "+"%char) as [H1 H2].
  { split; intros Hx; rewrite Hx in E; vm_compute in E; discriminate. }
  assert (match parse_digits (String (digit d) r) with
    | Some n0 => if n0 <=? int64_max then Some n0 else None | None => None end = Some n) as Hn'.
  { destruct (digit d) as [[] [] [] [] [] [] [] []]; congruence. }
  destruct (parse_digits _) as [m|]; [|done]. case_match; [|done]. by injection Hn' as <-.
Qed.

(** C30: a size is accepted exactly when it is a number with a known unit, whatever the spaces
    around them and the case of the unit, and their product fits an [int64]; its value is that
    product.  The division in the overflow check lets nothing wrap around and turns nothing down
    that fits. *)
Theorem ParseByteSize_exact s v :
  ParseByteSize s = Ok v ↔
  let '(digits, rest) := span_digits (TrimSpace s) in
  ∃ n mult, parse_digits digits = Some n ∧ byteUnits (lower_unit (TrimSpace rest)) = Some mult ∧
    v = n * mult ∧ v ≤ int64_max.
Proof.
  unfold ParseByteSize. destruct (span_digits (TrimSpace s)) as [digits rest] eqn:Es. split.
  - repeat (case_bool_decide; [done|]). destruct (byteUnits _) as [mult|] eqn:Em; [|done].
    destruct (parse_int digits) as [n|] eqn:En; [|done]. destruct (int64_max / mult <? n) eqn:Eo; [done|]. intros [= <-].
    to_prop. apply byteUnits_pos in Em as Hm. eapply parse_int_digits in En; [|done..].
    pose proof (parse_digits_nonneg _ _ En) as Hn. assert (n * mult ≤ int64_max) as Hle.
    { transitivity (int64_max / mult * mult); [apply Z.mul_le_mono_nonneg_r; lia|]. rewrite Z.mul_comm. apply Z.mul_div_le. lia. }
    rewrite wrap64_id by (unfold in_int64, int64_min; nia). by exists n, mult.
  - intros (n & mult & Hn & Em & -> & Hle). pose proof (parse_digits_nonneg _ _ Hn) as H0. apply byteUnits_pos in Em as Hm.
    assert (digits ≠ "") as Hd by (by intros ->). rewrite bool_decide_false by (intros E; rewrite E in Es; by injection Es as <- _).
    rewrite (bool_decide_false (digits = "")), Em by done. rewrite (parse_int_unsigned _ n Hn) by nia.
    rewrite (proj2 (Z.ltb_ge _ _)) by (apply Z.div_le_lower_bound; lia). by rewrite wrap64_id by (unfold in_int64, int64_min; nia).
Qed.

(** ** Witnesses *)

Lemma ByteSize_roundtrip_witness : UnmarshalText "128MiB" = Ok 134217728 ∧ MarshalText 134217728 = "128MiB".
Proof.
  split; [|vm_compute; reflexivity].
  exact (ByteSize_roundtrip 134217728 ltac:(unfold int64_max; lia)).
Defined.

Lemma ParseByteSize_exact_witness :
  ParseByteSize " 8589934591 GiB " = Ok 9223372035781033984 ∧ ParseByteSize "8589934592GiB" ≠ Ok (2 ^ 63).
Proof.
  split.
  - apply ParseByteSize_exact. exists 8589934591, GiB. split_and!; [vm_compute; reflexivity..|]. vm_compute. discriminate.
  - intros H%ParseByteSize_exact. revert H. cbn -[int64_max byteUnits parse_digits lower_unit TrimSpace]. intros (n & mult & _ & _ & _ & H).
    revert H. vm_compute. intros H. apply H. reflexivity.
Defined.
