(* ===== verification/Yaml.v ===== *)
(** * YAML node trees and environment references: [internal/config/load.go]

    A [yaml.Node] as the fields the program reads; parsing and printing YAML are third party.
    [ExpandEnv] replaces [${VAR}] and [${VAR:-default}] in the scalars of a tree.  Aliases are
    leaves, as for the code, which expands an anchored node where it is defined. *)

From S2P Require Import Prelude.
From S2P Require Import Errors.
From S2P Require Import GoText.

Local Open Scope Z_scope.

(** ** Nodes *)

Definition DocumentNode : Z := 1.
Definition SequenceNode : Z := 2.
Definition MappingNode : Z := 4.
Definition ScalarNode : Z := 8.
Definition AliasNode : Z := 16.

(** Kind, style, tag, value, content. *)
Inductive Node : Set := mkNode (kind style : Z) (tag value : string) (content : list Node).

Definition n_Kind (n : Node) : Z := let 'mkNode k _ _ _ _ := n in k.
Definition n_Style (n : Node) : Z := let 'mkNode _ s _ _ _ := n in s.
Definition n_Tag (n : Node) : string := let 'mkNode _ _ t _ _ := n in t.
Definition n_Value (n : Node) : string := let 'mkNode _ _ _ v _ := n in v.
Definition n_Content (n : Node) : list Node := let 'mkNode _ _ _ _ c := n in c.

(** The zero value: an absent block. *)
Definition zero_node : Node := mkNode 0 0 "" "" [].

Definition is_null (n : Node) : bool := (n_Kind n =? ScalarNode) && String.eqb (n_Tag n) "!!null".

Lemma Node_ind' (P : Node → Prop) :
  (∀ k s t v c, Forall P c → P (mkNode k s t v c)) → ∀ n, P n.
Proof.
  intros H. fix IH 1. intros [k s t v c]. apply H. induction c as [|n c IHc]; constructor; [apply IH|apply IHc].
Qed.

(** ** [DecodeStrict]

    [decode] is the library's: the node is printed and decoded with unknown fields refused. *)

Definition DecodeStrict {A} (decode : Node → A → result A) (node : Node) (out : A) : result A :=
  if n_Kind node =? 0 then Ok out
  else if is_null node then Ok out
  else match decode node out with Ok a => Ok a | Err e => Err (EWrap "decode" e) end.

(** An absent block, and one that is null, leave the defaults. *)
Lemma DecodeStrict_absent {A} (decode : Node → A → result A) node out :
  n_Kind node = 0 ∨ is_null node = true → DecodeStrict decode node out = Ok out.
Proof. unfold DecodeStrict. intros [H|H]; [by rewrite H|]. rewrite H. by destruct (_ =? _). Qed.

(** ** [expandScalar] *)

Definition name_start (c : ascii) : bool :=
  let b := byte_of c in ((65 <=? b) && (b <=? 90)) || ((97 <=? b) && (b <=? 122)) || (b =? 95).
Definition name_char (c : ascii) : bool := name_start c || ((48 <=? byte_of c) && (byte_of c <=? 57)).

Fixpoint span_name (s : string) : string * string :=
  match s with
  | String c r => if name_char c then let '(a, b) := span_name r in (String c a, b) else ("", s)
  | EmptyString => ("", "")
  end.

(** A match of [envPattern] on the text after a [${]: the name, the default if there is one,
    and the text after the closing brace. *)
Definition match_ref (s : string) : option (string * option string * string) :=
  match s with
  | EmptyString => None
  | String c _ =>
      if negb (name_start c) then None
      else
        let '(name, rest) := span_name s in
        match rest with
        | String "}"%char rest => Some (name, None, rest)
        | String ":"%char (String "-"%char rest) =>
            let '(def, after, found) := Cut rest "}"%char in
            if found then Some (name, Some def, after) else None
        | _ => None
        end
  end.

Section Expand.
Variable lookup : string → option string.

(** The replacement function: the text, and the name when it is missing. *)
Definition replacement (name : string) (def : option string) : string * list string :=
  match lookup name with
  | Some v => (v, [])
  | None => match def with Some d => (d, []) | None => ("", [name]) end
  end.

(** [ReplaceAllStringFunc]; every turn consumes a character. *)
Fixpoint replace_go (fuel : nat) (s : string) : string * list string :=
  match fuel with
  | O => (s, [])
  | S n =>
      match s with
      | EmptyString => ("", [])
      | String "$"%char ((String "{"%char r) as tl) =>
          match match_ref r with
          | Some (name, def, rest) =>
              let '(v, m) := replacement name def in
              let '(out, missing) := replace_go n rest in
              (v +:+ out, (m ++ missing)%list)
          | None => let '(out, missing) := replace_go n tl in (String "$"%char out, missing)
          end
      | String c r => let '(out, missing) := replace_go n r in (String c out, missing)
      end
  end.

Definition replace (s : string) : string * list string := replace_go (String.length s) s.

(** TaggedStyle and the quoted styles. *)
Definition keeps_tag (style : Z) : bool := negb (Z.land style 31 =? 0).

Definition expandScalar (n : Node) : Node * list string :=
  if negb (Contains (n_Value n) "${") then (n, [])
  else
    let '(value, missing) := replace (n_Value n) in
    let tag := if keeps_tag (n_Style n) then n_Tag n
               else if bool_decide (value = "") then "!!str" else "" in
    (mkNode (n_Kind n) (n_Style n) tag value (n_Content n), missing).

(** [expandNode]: the values of a mapping, not its keys; the missing names in the order of the
    walk. *)
Fixpoint expandNode (n : Node) : Node * list string :=
  let 'mkNode k s t v c := n in
  let fix values (i : nat) (l : list Node) : list Node * list string :=
    match l with
    | [] => ([], [])
    | x :: l =>
        let '(x', m) := if Nat.odd i then expandNode x else (x, []) in
        let '(l', ms) := values (S i) l in
        (x' :: l', (m ++ ms)%list)
    end in
  let fix all (l : list Node) : list Node * list string :=
    match l with
    | [] => ([], [])
    | x :: l =>
        let '(x', m) := expandNode x in
        let '(l', ms) := all l in
        (x' :: l', (m ++ ms)%list)
    end in
  if k =? ScalarNode then expandScalar n
  else if k =? MappingNode then let '(c', m) := values 0%nat c in (mkNode k s t v c', m)
  else if (k =? DocumentNode) || (k =? SequenceNode) then let '(c', m) := all c in (mkNode k s t v c', m)
  else (n, []).

(** The names of the map, sorted. *)
Definition missing_names (l : list string) : list string :=
  merge_sort (λ a b, Is_true (String.leb a b)) (elements (list_to_set l : gset string)).

Definition ExpandEnv (root : Node) : Node * option error :=
  let '(root', missing) := expandNode root in
  (root', match missing_names missing with
          | [] => None
          | names => Some (errorf ("undefined environment variables: " +:+ Join names ", "))
          end).

End Expand.

(** ** Lemmas: the text *)

Lemma span_name_length s a b : span_name s = (a, b) → (String.length b ≤ String.length s)%nat.
Proof.
  revert a b. induction s as [|c s IH]; intros a b; cbn; [by intros [= <- <-]|].
  destruct (name_char c); [|by intros [= <- <-]]. destruct (span_name s) as [a' b'] eqn:E. intros [= <- <-].
  specialize (IH _ _ eq_refl). lia.
Qed.

Lemma Cut_length s c a b f : Cut s c = (a, b, f) → (String.length b ≤ String.length s)%nat.
Proof.
  revert a b f. induction s as [|d s IH]; intros a b f; cbn; [by intros [= <- <- <-]|].
  case_bool_decide; [intros [= <- <- <-]; lia|]. destruct (Cut s c) as [[a' b'] f'] eqn:E. intros [= <- <- <-].
  specialize (IH _ _ _ eq_refl). lia.
Qed.

Lemma match_ref_length s name def rest : match_ref s = Some (name, def, rest) → (String.length rest < String.length s)%nat.
Proof.
  destruct s as [|c s]; [done|]. unfold match_ref. destruct (negb (name_start c)) eqn:En; [done|].
  destruct (span_name (String c s)) as [a b] eqn:E. apply span_name_length in E.
  destruct b as [|d b]; [done|]. destruct (bool_decide (d = "}"%char)) eqn:Ed; to_prop.
  - subst d. intros [= _ _ <-]. cbn [String.length] in *. lia.
  - intros H. assert (d = ":"%char) as -> by (by destruct d as [[] [] [] [] [] [] [] []]).
    destruct b as [|e b]; [done|]. assert (e = "-"%char) as -> by (by destruct e as [[] [] [] [] [] [] [] []]).
    destruct (Cut b "}"%char) as [[def' after] found] eqn:Ec. destruct found; [|done]. injection H as _ _ <-.
    apply Cut_length in Ec. cbn [String.length] in *. lia.
Qed.

(** The length of the text is enough fuel. *)
Lemma replace_go_fuel lookup n m s : (String.length s ≤ n)%nat → (String.length s ≤ m)%nat →
  replace_go lookup n s = replace_go lookup m s.
Proof.
  revert m s. induction n as [|n IH]; intros [|m] s Hn Hm; try (by destruct s; [|cbn in *; lia]).
  destruct s as [|c s]; [done|].
  cbn [String.length] in *. assert (replace_go lookup n s = replace_go lookup m s) as Hs by (apply IH; lia).
  cbn [replace_go]. rewrite Hs. destruct s as [|d s]; [done|].
  destruct (match_ref s) as [[[name def] rest]|] eqn:E; [|done]. apply match_ref_length in E.
  cbn [String.length] in *. rewrite (IH m rest) by lia. done.
Qed.

Lemma replace_unfold lookup c s : replace_go lookup (S (String.length s)) (String c s) = replace lookup (String c s).
Proof. reflexivity. Qed.

(** A character that is not a dollar sign is kept. *)
Lemma replace_cons lookup c s : c ≠ "$"%char →
  replace lookup (String c s) = let '(out, m) := replace lookup s in (String c out, m).
Proof.
  intros Hc. unfold replace. cbn [String.length replace_go].
  destruct c as [[] [] [] [] [] [] [] []]; try reflexivity. by destruct Hc.
Qed.

Lemma replace_go_ref lookup n r name def rest : match_ref r = Some (name, def, rest) →
  replace_go lookup (S n) (String "$"%char (String "{"%char r)) =
    let '(v, m) := replacement lookup name def in
    let '(out, ms) := replace_go lookup n rest in (v +:+ out, (m ++ ms)%list).
Proof. intros H. cbn [replace_go]. by rewrite H. Qed.

(** A reference is replaced by its value, and the scan goes on after it. *)
Lemma replace_ref lookup r name def rest : match_ref r = Some (name, def, rest) →
  replace lookup ("${" +:+ r) =
    let '(v, m) := replacement lookup name def in
    let '(out, ms) := replace lookup rest in (v +:+ out, (m ++ ms)%list).
Proof.
  intros H. unfold replace. change ("${" +:+ r) with (String "$"%char (String "{"%char r)). cbn [String.length].
  pose proof (match_ref_length _ _ _ _ H). rewrite (replace_go_ref lookup _ r name def rest H).
  by rewrite (replace_go_fuel lookup (S (String.length r)) (String.length rest)) by lia.
Qed.

Lemma replace_lit lookup l s : contains_char "$"%char l = false →
  replace lookup (l +:+ s) = let '(out, m) := replace lookup s in (l +:+ out, m).
Proof.
  induction l as [|c l IH]; intros H.
  - rewrite sapp_nil_l. destruct (replace lookup s). by rewrite sapp_nil_l.
  - cbn in H. apply orb_false_iff in H as [Hc Hl]. apply bool_decide_eq_false in Hc.
    rewrite sapp_cons, replace_cons by congruence. rewrite (IH Hl). destruct (replace lookup s). by rewrite sapp_cons.
Qed.

Definition valid_name (name : string) : bool :=
  match name with EmptyString => false | String c _ => name_start c && string_forall name_char name end.

Lemma span_name_app name s : string_forall name_char name = true →
  match s with String c _ => name_char c = false | EmptyString => True end → span_name (name +:+ s) = (name, s).
Proof.
  intros Hn Hs. induction name as [|c name IH].
  - rewrite sapp_nil_l. destruct s as [|c s]; [done|]. cbn [span_name]. by rewrite Hs.
  - cbn in Hn. apply andb_true_iff in Hn as [Hc Hn]. rewrite sapp_cons. cbn [span_name]. by rewrite Hc, IH.
Qed.

Lemma Cut_app d c rest : contains_char c d = false → Cut (d +:+ String c rest) c = (d, rest, true).
Proof.
  induction d as [|x d IH]; intros H.
  - rewrite sapp_nil_l. cbn. by rewrite bool_decide_true.
  - cbn in H. apply orb_false_iff in H as [Hx Hd]. apply bool_decide_eq_false in Hx.
    rewrite sapp_cons. cbn. rewrite bool_decide_false by congruence. by rewrite IH.
Qed.

(** ** Texts as the literals and references they are made of *)

Inductive segment : Set := Lit (text : string) | Ref (name : string) (def : option string).

Definition valid_segment (g : segment) : bool :=
  match g with
  | Lit text => negb (contains_char "$"%char text)
  | Ref name def => valid_name name && negb (contains_char "}"%char (default "" def))
  end.

Definition write_segment (g : segment) : string :=
  match g with
  | Lit text => text
  | Ref name None => "${" +:+ name +:+ "}"
  | Ref name (Some def) => "${" +:+ name +:+ ":-" +:+ def +:+ "}"
  end.
Definition write (l : list segment) : string := foldr (λ g s, write_segment g +:+ s) "" l.

Definition value_of (lookup : string → option string) (g : segment) : string :=
  match g with Lit text => text | Ref name def => (replacement lookup name def).1 end.
Definition values_of (lookup : string → option string) (l : list segment) : string :=
  foldr (λ g s, value_of lookup g +:+ s) "" l.

(** The references that have neither a value nor a default. *)
Definition undefined (lookup : string → option string) (l : list segment) : list string :=
  l ≫= λ g, match g with Lit _ => [] | Ref name def => (replacement lookup name def).2 end.

Lemma match_ref_write name def s : valid_name name = true → contains_char "}"%char (default "" def) = false →
  ∃ r, write_segment (Ref name def) +:+ s = "${" +:+ r ∧ match_ref r = Some (name, def, s).
Proof.
  intros Hn Hd. destruct name as [|c name]; [done|]. unfold valid_name in Hn. apply andb_true_iff in Hn as [Hc Hn].
  destruct def as [d|]; cbn [write_segment default] in *.
  - exists (String c name +:+ String ":"%char (String "-"%char (d +:+ String "}"%char s))). split.
    { rewrite !sapp_assoc. reflexivity. }
    unfold match_ref. rewrite sapp_cons at 1. rewrite Hc. cbn [negb]. rewrite (span_name_app (String c name)) by done.
    by rewrite Cut_app.
  - exists (String c name +:+ String "}"%char s). split; [by rewrite !sapp_assoc|].
    unfold match_ref. rewrite sapp_cons at 1. rewrite Hc. cbn [negb]. by rewrite (span_name_app (String c name)) by done.
Qed.

(** ** Lemmas: the tree *)

(** What an expansion must not touch: a tree with its scalar values blanked, keys kept. *)
Fixpoint erase (n : Node) : Node :=
  let 'mkNode k s t v c := n in
  let fix values (i : nat) (l : list Node) : list Node :=
    match l with [] => [] | x :: l => (if Nat.odd i then erase x else x) :: values (S i) l end in
  if k =? ScalarNode then mkNode k s "" "" c
  else if k =? MappingNode then mkNode k s t v (values 0%nat c)
  else if (k =? DocumentNode) || (k =? SequenceNode) then
    mkNode k s t v ((fix all (l : list Node) := match l with [] => [] | x :: l => erase x :: all l end) c)
  else n.

Lemma expandScalar_shape lookup n :
  n_Kind (expandScalar lookup n).1 = n_Kind n ∧ n_Style (expandScalar lookup n).1 = n_Style n ∧
  n_Content (expandScalar lookup n).1 = n_Content n.
Proof. unfold expandScalar. destruct (negb _); [done|]. by destruct (replace lookup (n_Value n)). Qed.

Lemma erase_expand lookup n : erase (expandNode lookup n).1 = erase n.
Proof.
  induction n as [k s t v c IH] using Node_ind'. cbn [expandNode].
  destruct (k =? ScalarNode) eqn:E1.
  { pose proof (expandScalar_shape lookup (mkNode k s t v c)) as (H1 & H2 & H3).
    destruct (expandScalar lookup (mkNode k s t v c)) as [[k' s' t' v' c'] m]. cbn in *. subst. by rewrite E1. }
  destruct (k =? MappingNode) eqn:E2.
  { match goal with |- context [let '(_, _) := ?f 0%nat c in _] => set (values := f) end.
    assert (∀ i, (fix values (i : nat) (l : list Node) : list Node :=
        match l with [] => [] | x :: l => (if Nat.odd i then erase x else x) :: values (S i) l end) i (values i c).1
      = (fix values (i : nat) (l : list Node) : list Node :=
        match l with [] => [] | x :: l => (if Nat.odd i then erase x else x) :: values (S i) l end) i c) as H.
    { induction IH as [|x l Hx _ IHl]; intros i; [done|]. cbn [values]. specialize (IHl (S i)). destruct (Nat.odd i) eqn:Eo.
      - destruct (expandNode lookup x) as [x' m]. fold values. destruct (values (S i) l) as [l' ms]. cbn in *.
        by rewrite Eo, Hx, IHl.
      - fold values. destruct (values (S i) l) as [l' ms]. cbn in *. by rewrite Eo, IHl. }
    specialize (H 0%nat). destruct (values 0%nat c) as [c' m]. cbn [fst erase] in *. by rewrite E1, E2, H. }
  destruct ((k =? DocumentNode) || (k =? SequenceNode)) eqn:E3; [|by cbn; rewrite E1, E2, E3].
  match goal with |- context [let '(_, _) := ?f c in _] => set (all := f) end.
  assert ((fix all (l : list Node) := match l with [] => [] | x :: l => erase x :: all l end) (all c).1
    = (fix all (l : list Node) := match l with [] => [] | x :: l => erase x :: all l end) c) as H.
  { induction IH as [|x l Hx _ IHl]; [done|]. cbn [all]. destruct (expandNode lookup x) as [x' m]. fold all.
    destruct (all l) as [l' ms]. cbn in *. by rewrite Hx, IHl. }
  destruct (all c) as [c' m]. cbn [fst erase] in *. by rewrite E1, E2, E3, H.
Qed.

Lemma missing_names_elem l x : x ∈ missing_names l ↔ x ∈ l.
Proof. unfold missing_names. by rewrite merge_sort_Permutation, elem_of_elements, elem_of_list_to_set. Qed.

(** ** Properties *)

(** Environment references are expanded in one pass: in a text made of literals and
    references each reference becomes its value, or its default when the variable is not set,
    verbatim - also when the value contains a reference itself - and what is reported missing
    is exactly the references that have neither, in order. *)
Lemma replace_segments lookup l :
  forallb valid_segment l = true → replace lookup (write l) = (values_of lookup l, undefined lookup l).
Proof.
  induction l as [|g l IH]; intros H; [done|]. cbn [forallb] in H. apply andb_true_iff in H as [Hg Hl].
  specialize (IH Hl). cbn [write foldr values_of]. fold (write l). fold (values_of lookup l).
  destruct g as [text|name def]; cbn [valid_segment] in Hg.
  - apply negb_true_iff in Hg. cbn [write_segment]. rewrite replace_lit by done. by rewrite IH.
  - apply andb_true_iff in Hg as [Hn Hd]. apply negb_true_iff in Hd.
    destruct (match_ref_write name def (write l) Hn Hd) as (r & -> & Hr).
    rewrite (replace_ref lookup r name def (write l) Hr), IH. unfold undefined. rewrite bind_cons. cbn [value_of].
    by destruct (replacement lookup name def).
Qed.

(** [ExpandEnv] fills scalars and touches nothing else: kinds, styles, keys and the number
    of children of every node stay, so that a value never becomes structure; and it fails
    exactly when some reference is missing, naming each missing variable once, in order. *)
Lemma ExpandEnv_spec lookup root :
  erase (ExpandEnv lookup root).1 = erase root ∧
  (let missing := (expandNode lookup root).2 in
   (ExpandEnv lookup root).2 = (match missing with
                                | [] => None
                                | _ => Some (errorf ("undefined environment variables: " +:+ Join (missing_names missing) ", "))
                                end) ∧
   NoDup (missing_names missing) ∧ (∀ x, x ∈ missing_names missing ↔ x ∈ missing) ∧
   StronglySorted (λ a b, Is_true (String.leb a b)) (missing_names missing)).
Proof.
  pose proof (erase_expand lookup root) as He. unfold ExpandEnv. destruct (expandNode lookup root) as [root' missing].
  cbn [fst snd] in *. split; [done|]. split_and!.
  - destruct missing as [|x missing]; [done|]. destruct (missing_names (x :: missing)) as [|y names] eqn:E; [|done].
    exfalso. assert (x ∈ missing_names (x :: missing)) as H by (apply missing_names_elem; left). rewrite E in H.
    by apply not_elem_of_nil in H.
  - unfold missing_names. rewrite merge_sort_Permutation. apply NoDup_elements.
  - apply missing_names_elem.
  - apply (StronglySorted_merge_sort (λ a b, Is_true (String.leb a b))).
Qed.

(** ** Witness: a value that contains a reference itself is not expanded again *)

Definition ex_lookup (name : string) : option string := if String.eqb name "A" then Some "${B}" else None.

Lemma replace_segments_witness : replace ex_lookup "x${A}${C:-y}${D}z" = ("x${B}yz", ["D"]).
Proof. exact (replace_segments ex_lookup [Lit "x"; Ref "A" None; Ref "C" (Some "y"); Ref "D" None; Lit "z"] eq_refl). Defined.
