(* ===== verification/Event.v ===== *)
(** * [internal/event]: the envelope of a webhook delivery and its message form

    [Envelope], [FromWebhook] (envelope.go), [ToMessage] and [FromMessage] (message.go).
    [http.Header] is a map from canonical names to values.  [message.Message] is the data
    Watermill carries: a UUID, a metadata map (which may be nil) and the payload bytes. *)

From S2P Require Import Prelude.
From S2P Require Import Errors.
From S2P Require Import GoText.
From S2P Require Import GoNum.
From S2P Require Import GoTime.
From S2P Require Import GoJson.

Local Open Scope Z_scope.

Definition SchemaVersion : Z := 1.

Definition HeaderDelivery : string := "X-GitHub-Delivery".
Definition HeaderEvent : string := "X-GitHub-Event".
Definition HeaderHookID : string := "X-GitHub-Hook-ID".

Record Envelope := mkEnvelope {
  e_SchemaVersion : Z;
  e_DeliveryGUID : string;
  e_Event : string;
  e_Action : string;
  e_HookID : string;
  e_ReceivedAt : Time;
  e_RepositoryID : Z;
  e_Repository : string;
  e_ForwardedBy : string;
  e_ForwardHops : Z;
  e_Payload : string }.

#[export] Instance Envelope_eq_dec : EqDecision Envelope.
Proof. solve_decision. Defined.

(** ** HTTP headers *)

Abbreviation Header := (gmap string (list string)).

Fixpoint canonical_from (upper : bool) (s : string) : string :=
  match s with
  | EmptyString => ""
  | String c s =>
      String (if upper then upper_char c else lower_char c) (canonical_from (bool_decide (c = "-"%char)) s)
  end.

(** [textproto.CanonicalMIMEHeaderKey] for the names of the program, which are tokens. *)
Definition CanonicalHeaderKey (s : string) : string := canonical_from true s.

(** [hdr.Get(key)] *)
Definition header_get (hdr : Header) (key : string) : string :=
  match hdr !! CanonicalHeaderKey key with Some (v :: _) => v | _ => "" end.

Example canonical_ex : CanonicalHeaderKey HeaderHookID = "X-Github-Hook-Id".
Proof. reflexivity. Qed.

(** ** [FromWebhook] *)

Record headRepository := mkHeadRepository { hr_ID : Z; hr_FullName : string }.
Record payloadHead := mkPayloadHead { ph_Action : string; ph_Repository : option headRepository }.

Definition dec_headRepository : dec headRepository := dec_struct
  [("id", at_field hr_ID (λ r x, mkHeadRepository x (hr_FullName r)) dec_int64);
   ("full_name", at_field hr_FullName (λ r x, mkHeadRepository (hr_ID r) x) dec_string)].

Definition dec_payloadHead : dec payloadHead := dec_struct
  [("action", at_field ph_Action (λ h x, mkPayloadHead x (ph_Repository h)) dec_string);
   ("repository", at_field ph_Repository (λ h x, mkPayloadHead (ph_Action h) x)
      (dec_ptr (mkHeadRepository 0 "") dec_headRepository))].

Definition FromWebhook (hdr : Header) (body : string) (now : Time) : result Envelope :=
  let guid := TrimSpace (header_get hdr HeaderDelivery) in
  let event := TrimSpace (header_get hdr HeaderEvent) in
  let hook := TrimSpace (header_get hdr HeaderHookID) in
  if bool_decide (guid = "") then Err (esent ErrMissingDelivery) else
  if bool_decide (event = "") then Err (esent ErrMissingEvent) else
  let trimmed := TrimSpace body in
  if negb (HasPrefix trimmed "{") then Err (esent ErrInvalidPayload) else
  match Unmarshal (mkPayloadHead "" None) dec_payloadHead trimmed with
  | None => Err (EJoin (esent ErrInvalidPayload) (errorf "json"))
  | Some head =>
      let '(id, name) := match ph_Repository head with
                         | Some r => (hr_ID r, hr_FullName r)
                         | None => (0, "")
                         end in
      Ok (mkEnvelope SchemaVersion guid event (ph_Action head) hook (UTC now) id name "" 0 body)
  end.

(** ** Messages *)

Abbreviation Metadata := (gmap string string).

Record Message := mkMessage { m_UUID : string; m_Metadata : option Metadata; m_Payload : string }.

Definition MetaDeliveryGUID : string := "delivery_guid".
Definition MetaSchemaVersion : string := "schema_version".
Definition MetaEvent : string := "event".
Definition MetaAction : string := "action".
Definition MetaHookID : string := "hook_id".
Definition MetaReceivedAt : string := "received_at".
Definition MetaRepositoryID : string := "repository_id".
Definition MetaRepository : string := "repository".
Definition MetaForwardedBy : string := "antwatcher.forward.by".
Definition MetaForwardHops : string := "antwatcher.forward.hops".

(** [if cond { md.Set(key, v) }] *)
Definition set_if (cond : bool) (key v : string) (md : Metadata) : Metadata :=
  if cond then <[key := v]> md else md.

Definition nonempty (s : string) : bool := negb (bool_decide (s = "")).

Definition envelope_metadata (env : Envelope) : Metadata :=
  let md := <[MetaDeliveryGUID := e_DeliveryGUID env]> (∅ : Metadata) in
  let md := <[MetaSchemaVersion := format_int (e_SchemaVersion env)]> md in
  let md := <[MetaEvent := e_Event env]> md in
  let md := <[MetaReceivedAt := Format_RFC3339Nano (UTC (e_ReceivedAt env))]> md in
  let md := set_if (nonempty (e_Action env)) MetaAction (e_Action env) md in
  let md := set_if (nonempty (e_HookID env)) MetaHookID (e_HookID env) md in
  let md := set_if (negb (e_RepositoryID env =? 0)) MetaRepositoryID (format_int (e_RepositoryID env)) md in
  let md := set_if (nonempty (e_Repository env)) MetaRepository (e_Repository env) md in
  let md := set_if (nonempty (e_ForwardedBy env)) MetaForwardedBy (e_ForwardedBy env) md in
  set_if (0 <? e_ForwardHops env) MetaForwardHops (format_int (e_ForwardHops env)) md.

Definition ToMessage (env : Envelope) : Message :=
  mkMessage (e_DeliveryGUID env) (Some (envelope_metadata env)) (e_Payload env).

(** [md[key]]: the zero value when the key is absent. *)
Definition md_get (md : Metadata) (key : string) : string := default "" (md !! key).

Definition required (md : Metadata) (key : string) : result string :=
  match md !! key with
  | Some v => if bool_decide (v = "") then Err (EWrap key (esent ErrMissingMetadata)) else Ok v
  | None => Err (EWrap key (esent ErrMissingMetadata))
  end.

Definition invalid_metadata (key : string) : error := EWrap key (esent ErrInvalidMetadata).

(** An optional non-negative integer: absent and empty are 0. *)
Definition optional_nat (md : Metadata) (key : string) : result Z :=
  match md !! key with
  | Some text =>
      if bool_decide (text = "") then Ok 0
      else match parse_int text with
           | Some n => if n <? 0 then Err (invalid_metadata key) else Ok n
           | None => Err (invalid_metadata key)
           end
  | None => Ok 0
  end.

Definition FromMessage (msg : option Message) : result Envelope :=
  match msg with
  | None => Err (EWrap "nil message" (esent ErrMissingMetadata))
  | Some msg =>
      let md := default ∅ (m_Metadata msg) in
      let guid := default (m_UUID msg) (md !! MetaDeliveryGUID) in
      if bool_decide (guid = "") then Err (EWrap MetaDeliveryGUID (esent ErrMissingMetadata)) else
      let! versionText := required md MetaSchemaVersion in
      match parse_int versionText with
      | None => Err (invalid_metadata MetaSchemaVersion)
      | Some version =>
          if negb (version =? SchemaVersion) then Err (invalid_metadata MetaSchemaVersion) else
          let! event := required md MetaEvent in
          let! receivedText := required md MetaReceivedAt in
          match Parse_RFC3339Nano receivedText with
          | None => Err (invalid_metadata MetaReceivedAt)
          | Some receivedAt =>
              let! repositoryID := optional_nat md MetaRepositoryID in
              let! hops := optional_nat md MetaForwardHops in
              Ok (mkEnvelope version guid event (md_get md MetaAction) (md_get md MetaHookID)
                    (UTC receivedAt) repositoryID (md_get md MetaRepository)
                    (md_get md MetaForwardedBy) hops (m_Payload msg))
          end
      end
  end%go.

(** ** Lemmas *)

Lemma lookup_set_if c k v k' (md : Metadata) :
  set_if c k v md !! k' = if c && bool_decide (k = k') then Some v else md !! k'.
Proof.
  unfold set_if. destruct c; [|done]. destruct (decide (k = k')) as [->|].
  - by rewrite bool_decide_true, lookup_insert_eq.
  - by rewrite bool_decide_false, lookup_insert_ne.
Qed.

Lemma lookup_insert_dec k v k' (md : Metadata) :
  <[k := v]> md !! k' = if bool_decide (k = k') then Some v else md !! k'.
Proof.
  destruct (decide (k = k')) as [->|].
  - by rewrite bool_decide_true, lookup_insert_eq.
  - by rewrite bool_decide_false, lookup_insert_ne.
Qed.

Create Rewrite HintDb metadata.
#[export] Hint Rewrite lookup_set_if lookup_insert_dec (lookup_empty (M := gmap string) (A := string)) : metadata.

(** Decide the comparisons of two metadata keys. *)
Ltac decide_keys :=
  repeat match goal with
  | |- context [bool_decide (?a = ?b)] =>
      let v := eval vm_compute in (bool_decide (a = b)) in
      lazymatch v with
      | true => change (bool_decide (a = b)) with true
      | false => change (bool_decide (a = b)) with false
      end
  end.

Lemma nonempty_true s : nonempty s = true ↔ s ≠ "".
Proof. unfold nonempty. case_bool_decide; naive_solver. Qed.

Lemma nonempty_false s : nonempty s = false ↔ s = "".
Proof. unfold nonempty. case_bool_decide; naive_solver. Qed.

(** The metadata [ToMessage] writes, key by key. *)
Lemma envelope_metadata_lookup env :
  let md := envelope_metadata env in
  md !! MetaDeliveryGUID = Some (e_DeliveryGUID env) ∧
  md !! MetaSchemaVersion = Some (format_int (e_SchemaVersion env)) ∧
  md !! MetaEvent = Some (e_Event env) ∧
  md !! MetaReceivedAt = Some (Format_RFC3339Nano (UTC (e_ReceivedAt env))) ∧
  md_get md MetaAction = e_Action env ∧ md_get md MetaHookID = e_HookID env ∧
  md_get md MetaRepository = e_Repository env ∧ md_get md MetaForwardedBy = e_ForwardedBy env ∧
  md !! MetaRepositoryID = (if negb (e_RepositoryID env =? 0) then Some (format_int (e_RepositoryID env)) else None) ∧
  md !! MetaForwardHops = (if 0 <? e_ForwardHops env then Some (format_int (e_ForwardHops env)) else None).
Proof.
  intros md. subst md. unfold md_get, envelope_metadata. cbv zeta.
  autorewrite with metadata. decide_keys. rewrite ?andb_false_r, ?andb_true_r. cbn [default from_option].
  repeat split.
  all: match goal with |- context [nonempty ?s] => destruct (nonempty s) eqn:E end; [done|].
  all: by apply nonempty_false in E.
Qed.

(** The envelopes that survive the bus: what [FromMessage] requires of one. *)
Record publishable (env : Envelope) : Prop := {
  pub_version : e_SchemaVersion env = SchemaVersion;
  pub_guid : e_DeliveryGUID env ≠ "";
  pub_event : e_Event env ≠ "";
  pub_time : utc_4digit (UTC (e_ReceivedAt env));
  pub_repo : 0 ≤ e_RepositoryID env ≤ int64_max;
  pub_hops : 0 ≤ e_ForwardHops env ≤ int64_max }.

(** [env] with its reception time shown in UTC. *)
Definition utc_envelope (env : Envelope) : Envelope :=
  mkEnvelope (e_SchemaVersion env) (e_DeliveryGUID env) (e_Event env) (e_Action env) (e_HookID env)
    (UTC (e_ReceivedAt env)) (e_RepositoryID env) (e_Repository env) (e_ForwardedBy env)
    (e_ForwardHops env) (e_Payload env).

Lemma required_Some md key v : md !! key = Some v → v ≠ "" → required md key = Ok v.
Proof. unfold required. intros -> ?. by rewrite bool_decide_false. Qed.

Lemma Format_nonempty t : Format_RFC3339Nano t ≠ "".
Proof.
  unfold Format_RFC3339Nano. destruct (civil_of_days _) as [[y m] d]. intros H.
  apply (f_equal slen) in H. rewrite !slen_app in H.
  pose proof (slen_nonneg (fmt_year y)). simpl in H.
  repeat match type of H with context [slen ?s] =>
    let Hs := fresh in pose proof (slen_nonneg s) as Hs; generalize dependent (slen s); intros end. lia.
Qed.

Lemma optional_nat_format md key n (c : bool) :
  0 ≤ n ≤ int64_max → (c = false → n = 0) →
  md !! key = (if c then Some (format_int n) else None) → optional_nat md key = Ok n.
Proof.
  intros Hn Hc H. unfold optional_nat. rewrite H. destruct c; [|by rewrite Hc].
  rewrite bool_decide_false by apply format_int_nonempty.
  rewrite parse_int_format by (unfold in_int64, int64_min; lia).
  by rewrite (proj2 (Z.ltb_ge _ _)) by lia.
Qed.

Lemma required_Ok md key v : required md key = Ok v ↔ md !! key = Some v ∧ v ≠ "".
Proof. unfold required. split; [break; to_prop; done|]. intros [-> ?]. by rewrite bool_decide_false. Qed.

Lemma optional_nat_range md key n : optional_nat md key = Ok n → 0 ≤ n ≤ int64_max.
Proof.
  unfold optional_nat. intros H. destruct (md !! key) as [t|]; simplify_eq; [|done].
  case_bool_decide; simplify_eq; [done|]. destruct (parse_int t) eqn:E; [|done].
  apply parse_int_range in E as [? ?]. break. to_prop. done.
Qed.

(** Both kinds of metadata error. *)
Definition metadata_error (e : error) : Prop :=
  errors_is e ErrMissingMetadata = true ∨ errors_is e ErrInvalidMetadata = true.

Lemma required_err md key e : required md key = Err e → metadata_error e.
Proof. unfold required, metadata_error. break; auto. Qed.

Lemma optional_nat_err md key e : optional_nat md key = Err e → metadata_error e.
Proof. unfold optional_nat, metadata_error. break; auto. Qed.

(** What [FromWebhook] extracts: the identity from the headers, the body unchanged. *)
Lemma FromWebhook_fields hdr body now env :
  FromWebhook hdr body now = Ok env →
  e_SchemaVersion env = SchemaVersion ∧
  e_DeliveryGUID env = TrimSpace (header_get hdr HeaderDelivery) ∧ e_DeliveryGUID env ≠ "" ∧
  e_Event env = TrimSpace (header_get hdr HeaderEvent) ∧ e_Event env ≠ "" ∧
  e_ReceivedAt env = UTC now ∧ e_Payload env = body ∧
  e_ForwardedBy env = "" ∧ e_ForwardHops env = 0 ∧ in_int64 (e_RepositoryID env).
Proof.
  unfold FromWebhook. case_bool_decide; [done|]. case_bool_decide; [done|].
  destruct (negb _); [done|].
  destruct (Unmarshal _ _ _) as [[act repo]|] eqn:E; [|done]. cbn [ph_Repository ph_Action].
  assert (∀ r, repo = Some r → in_int64 (hr_ID r)) as Hrepo.
  { refine (Unmarshal_inv (λ h, ∀ r, ph_Repository h = Some r → in_int64 (hr_ID r)) _ _ _ _ _ _ E); [done|].
    dec_fields.
    intros h0 v0 o' Hh Hd r Hr. simpl in Hr. subst o'.
    refine (dec_ptr_inv (λ r, in_int64 (hr_ID r)) _ _ _ _ _ _ _ _ Hd).
    + dec_fields.
      intros a0 v2 x Ha Hx. by apply (dec_int64_range _ _ _ Ha Hx).
    + apply Hh.
    + done. }
  destruct repo as [r|]; intros [= <-]; simpl; (split_and!; [done..|]); [by apply Hrepo|done].
Qed.

Lemma FromMessage_roundtrip env :
  publishable env → FromMessage (Some (ToMessage env)) = Ok (utc_envelope env).
Proof.
  intros [Hv Hg He Ht Hr Hh].
  destruct (envelope_metadata_lookup env) as (L1 & L2 & L3 & L4 & L5 & L6 & L7 & L8 & L9 & L10).
  unfold FromMessage, ToMessage. cbn [m_Metadata m_UUID m_Payload default].
  set (md := envelope_metadata env) in *. cbn [from_option id]. rewrite L1. cbn [from_option id].
  rewrite bool_decide_false by done.
  rewrite (required_Some _ _ _ L2) by apply format_int_nonempty. cbn [res_bind].
  rewrite parse_int_format by (rewrite Hv; done). rewrite Hv. cbn [Z.eqb SchemaVersion negb Pos.eqb].
  rewrite (required_Some _ _ _ L3) by done. cbn [res_bind].
  rewrite (required_Some _ _ _ L4) by apply Format_nonempty. cbn [res_bind].
  rewrite Parse_Format by done.
  assert (∀ n, negb (n =? 0) = false → n = 0) as Hc1 by (intros; to_prop; done).
  rewrite (optional_nat_format _ _ _ _ Hr (Hc1 _) L9). cbn [res_bind].
  assert (∀ n, 0 ≤ n ≤ int64_max → (0 <? n) = false → n = 0) as Hc2 by (intros; to_prop; lia).
  rewrite (optional_nat_format _ _ _ _ Hh (Hc2 _ Hh) L10). cbn [res_bind].
  rewrite L5, L6, L7, L8. unfold utc_envelope. rewrite Hv. done.
Qed.


(** ** Properties *)

(** C3: an envelope that satisfies the envelope's own constraints survives the bus: the
    message written for it has the delivery GUID as its UUID, and reading it back gives the
    same envelope, field by field, with the reception time normalised to UTC. *)
Theorem FromMessage_ToMessage env :
  publishable env →
  m_UUID (ToMessage env) = e_DeliveryGUID env ∧
  FromMessage (Some (ToMessage env)) = Ok (utc_envelope env).
Proof. split; [done|by apply FromMessage_roundtrip]. Qed.

(** Whatever message arrives, an envelope that [FromMessage] accepts has the supported
    schema version, a delivery GUID (from the metadata or, without the key, the message
    UUID), an event name, a UTC reception time, and repository and hop counts that are
    non-negative 64-bit integers; the payload is the message's, untouched. *)
Lemma FromMessage_sound msg env :
  FromMessage (Some msg) = Ok env →
  e_SchemaVersion env = SchemaVersion ∧
  e_DeliveryGUID env ≠ "" ∧
  e_DeliveryGUID env = default (m_UUID msg) (default ∅ (m_Metadata msg) !! MetaDeliveryGUID) ∧
  e_Event env ≠ "" ∧ t_off (e_ReceivedAt env) = 0 ∧
  0 ≤ e_RepositoryID env ≤ int64_max ∧ 0 ≤ e_ForwardHops env ≤ int64_max ∧
  e_Payload env = m_Payload msg.
Proof.
  unfold FromMessage. case_bool_decide; [done|]. rewrite res_bind_Ok.
  intros (vt & _ & H1). destruct (parse_int vt) as [v|]; [|done].
  destruct (v =? SchemaVersion) eqn:Ev; [|done]. to_prop. cbn [negb] in H1.
  apply res_bind_Ok in H1 as (ev & [_ Hev]%required_Ok & H1).
  apply res_bind_Ok in H1 as (rt & _ & H1). destruct (Parse_RFC3339Nano rt); [|done].
  apply res_bind_Ok in H1 as (rid & Hrid%optional_nat_range & H1).
  apply res_bind_Ok in H1 as (hops & Hhops%optional_nat_range & H1). by simplify_eq/=.
Qed.

(** A message that is refused is refused with one of the two metadata errors, which
    every caller classifies as permanent. *)
Lemma FromMessage_error_kind msg e : FromMessage msg = Err e → metadata_error e.
Proof.
  unfold FromMessage. destruct msg as [msg|]; [|intros [= <-]; by left].
  case_bool_decide; [intros [= <-]; by left|].
  destruct (required _ MetaSchemaVersion) as [vt|] eqn:E; cbn [res_bind]; [|intros [= <-]; by eapply required_err].
  destruct (parse_int vt) as [v|]; [|intros [= <-]; by right].
  destruct (negb _); [intros [= <-]; by right|].
  destruct (required _ MetaEvent) eqn:E1; cbn [res_bind]; [|intros [= <-]; by eapply required_err].
  destruct (required _ MetaReceivedAt) eqn:E2; cbn [res_bind]; [|intros [= <-]; by eapply required_err].
  destruct (Parse_RFC3339Nano _); [|intros [= <-]; by right].
  destruct (optional_nat _ MetaRepositoryID) eqn:E3; cbn [res_bind]; [|intros [= <-]; by eapply optional_nat_err].
  destruct (optional_nat _ MetaForwardHops) eqn:E4; cbn [res_bind]; [done|intros [= <-]; by eapply optional_nat_err].
Qed.

(** End to end, a delivery that [FromWebhook] accepts reaches every consumer of the bus
    as it was received: identity from the (trimmed) headers, body byte for byte.  The two
    remaining conditions are the ones [FromMessage] imposes and [FromWebhook] does not: a
    four-digit year and a repository id that is not negative. *)
Lemma FromWebhook_delivered hdr body now env :
  FromWebhook hdr body now = Ok env →
  utc_4digit (UTC now) → 0 ≤ e_RepositoryID env →
  FromMessage (Some (ToMessage env)) = Ok env ∧
  e_Payload env = body ∧
  e_DeliveryGUID env = TrimSpace (header_get hdr HeaderDelivery) ∧
  e_Event env = TrimSpace (header_get hdr HeaderEvent).
Proof.
  intros (Hv & Hg & Hg' & He & He' & Ht & Hp & Hb & Hh & Hr)%FromWebhook_fields Hy Hpos.
  split; [|done]. rewrite FromMessage_roundtrip.
  - f_equal. destruct env; unfold utc_envelope; simpl in *. subst. done.
  - constructor; try done; [|by destruct Hr|by rewrite Hh].
    rewrite Ht. done.
Qed.

(** ** Witnesses *)

Definition ex_time : Time := mkTime (unix_epoch_ns + 1754000000 * Second + 120000000) 3600.

Definition ex_envelope : Envelope :=
  mkEnvelope 1 "guid-1" "workflow_run" "completed" "42" ex_time 7 "octo/repo" "" 0 "{}".

Lemma ex_publishable : publishable ex_envelope.
Proof. constructor; vm_compute; intuition congruence. Qed.

Lemma FromMessage_ToMessage_witness :
  publishable ex_envelope ∧ FromMessage (Some (ToMessage ex_envelope)) = Ok (utc_envelope ex_envelope).
Proof. split; [exact ex_publishable|]. apply (FromMessage_ToMessage ex_envelope ex_publishable). Defined.

Definition ex_message : Message := ToMessage ex_envelope.

Lemma FromMessage_sound_witness :
  e_DeliveryGUID (utc_envelope ex_envelope) ≠ "" ∧ 0 ≤ e_RepositoryID (utc_envelope ex_envelope) ≤ int64_max.
Proof.
  assert (FromMessage (Some ex_message) = Ok (utc_envelope ex_envelope)) as H by (vm_compute; reflexivity).
  destruct (FromMessage_sound _ _ H) as (_ & H1 & _ & _ & _ & H2 & _). split; [exact H1|exact H2].
Defined.

Lemma FromMessage_error_kind_witness :
  metadata_error (EWrap MetaSchemaVersion (esent ErrMissingMetadata)).
Proof. apply (FromMessage_error_kind (Some (mkMessage "u" None ""))). vm_compute. reflexivity. Defined.

Definition ex_header : Header :=
  <["X-Github-Delivery" := [" guid-1 "]]> (<["X-Github-Event" := ["workflow_run"]]> ∅).
Definition ex_body : string :=
  let q := String dquote "" in
  "{" +:+ q +:+ "action" +:+ q +:+ ":null," +:+ q +:+ "Repository" +:+ q +:+ ":{" +:+ q +:+ "id" +:+ q +:+ ":7}}".
Definition ex_received : Envelope :=
  mkEnvelope 1 "guid-1" "workflow_run" "" "" (UTC ex_time) 7 "" "" 0 ex_body.

Lemma FromWebhook_delivered_witness :
  FromWebhook ex_header ex_body ex_time = Ok ex_received ∧
  FromMessage (Some (ToMessage ex_received)) = Ok ex_received.
Proof.
  assert (FromWebhook ex_header ex_body ex_time = Ok ex_received) as H by (vm_compute; reflexivity).
  split; [exact H|]. apply (FromWebhook_delivered _ _ _ _ H); [split; vm_compute; intuition congruence|done].
Defined.
