(* ===== verification/Model.v ===== *)
(** * [internal/model]: the canonical execution model

    The entities (model.go), [StatusRank] (status.go), [Normalize] (normalize.go), and the
    deterministic identifiers and event times (ids.go).  A Go pointer field is an [option];
    a slice is a list (nil and empty are not distinguished, no code of the program does). *)

From S2P Require Import Prelude.
From S2P Require Import Errors.
From S2P Require Import GoText.
From S2P Require Import GoNum.
From S2P Require Import GoTime.
From S2P Require Import GoSha.
From S2P Require Import GoJson.
From S2P Require Import Event.

Local Open Scope Z_scope.

(** ** Entities *)

Inductive Kind : Set := KindNone | KindRun | KindJob.

#[export] Instance Kind_eq_dec : EqDecision Kind.
Proof. solve_decision. Defined.

Definition Kind_String (k : Kind) : string :=
  match k with KindNone => "none" | KindRun => "run" | KindJob => "job" end.

Record Run := mkRun {
  r_RepositoryID : Z; r_Repository : string;
  r_WorkflowID : Z; r_WorkflowName : option string; r_WorkflowPath : string;
  r_RunID : Z; r_RunNumber : Z; r_RunAttempt : Z;
  r_Status : string; r_Conclusion : option string;
  r_CreatedAt : Time; r_UpdatedAt : Time; r_StartedAt : option Time;
  r_TriggerEvent : string; r_HeadBranch : option string; r_HeadSHA : string;
  r_Actor : option string; r_HTMLURL : string }.

Record Step := mkStep {
  s_Number : Z; s_Name : string; s_Status : string; s_Conclusion : option string;
  s_StartedAt : option Time; s_CompletedAt : option Time }.

Record Job := mkJob {
  j_RepositoryID : Z; j_Repository : string;
  j_RunID : Z; j_RunAttempt : Z; j_JobID : Z; j_Name : string; j_WorkflowName : option string;
  j_Status : string; j_Conclusion : option string;
  j_CreatedAt : Time; j_StartedAt : option Time; j_CompletedAt : option Time;
  j_RunnerName : option string; j_RunnerGroup : option string; j_Labels : list string;
  j_HeadBranch : option string; j_HeadSHA : string; j_HTMLURL : string;
  j_Steps : list Step }.

Record Execution := mkExecution {
  x_Kind : Kind; x_Run : option Run; x_Job : option Job; x_Envelope : Envelope }.

(** ** [StatusRank] *)

Definition StatusCompleted : string := "completed".
Definition StatusInProgress : string := "in_progress".
Definition StatusQueued : string := "queued".
Definition StatusWaiting : string := "waiting".
Definition StatusRequested : string := "requested".
Definition StatusPending : string := "pending".

Definition RankUnknown : Z := 0.
Definition RankScheduled : Z := 1.
Definition RankInProgress : Z := 2.
Definition RankCompleted : Z := 3.

Definition StatusRank (status : string) : Z :=
  if String.eqb status StatusCompleted then RankCompleted
  else if String.eqb status StatusInProgress then RankInProgress
  else if String.eqb status StatusQueued || String.eqb status StatusWaiting
       || String.eqb status StatusRequested || String.eqb status StatusPending then RankScheduled
  else RankUnknown.

(** ** [Normalize] *)

Definition EventWorkflowRun : string := "workflow_run".
Definition EventWorkflowJob : string := "workflow_job".

Definition malformed (reason : string) : error := EWrap reason (esent ErrMalformed).

Record rawRepository := mkRawRepository { rp_ID : Z; rp_FullName : string }.
Record rawActor := mkRawActor { ra_Login : string }.

Record rawRun := mkRawRun {
  rr_ID : Z; rr_Name : option string; rr_Path : string; rr_RunNumber : Z; rr_RunAttempt : Z;
  rr_Event : string; rr_Status : option string; rr_Conclusion : option string; rr_WorkflowID : Z;
  rr_CreatedAt : Time; rr_UpdatedAt : Time; rr_RunStartedAt : option Time;
  rr_HeadBranch : option string; rr_HeadSHA : string; rr_Actor : option rawActor; rr_HTMLURL : string }.

Record rawRunPayload := mkRawRunPayload {
  rrp_WorkflowRun : option rawRun; rrp_Repository : option rawRepository }.

Record rawStep := mkRawStep {
  rs_Number : Z; rs_Name : string; rs_Status : option string; rs_Conclusion : option string;
  rs_StartedAt : option Time; rs_CompletedAt : option Time }.

Record rawJob := mkRawJob {
  rj_ID : Z; rj_RunID : Z; rj_RunAttempt : Z; rj_Name : string; rj_WorkflowName : option string;
  rj_Status : option string; rj_Conclusion : option string; rj_CreatedAt : Time;
  rj_StartedAt : option Time; rj_CompletedAt : option Time; rj_RunnerName : option string;
  rj_RunnerGroupName : option string; rj_Labels : list string; rj_HeadBranch : option string;
  rj_HeadSHA : string; rj_HTMLURL : string; rj_Steps : list rawStep }.

Record rawJobPayload := mkRawJobPayload {
  rjp_WorkflowJob : option rawJob; rjp_Repository : option rawRepository }.

Definition zero_rawRun : rawRun :=
  mkRawRun 0 None "" 0 0 "" None None 0 zero_time zero_time None None "" None "".
Definition zero_rawStep : rawStep := mkRawStep 0 "" None None None None.
Definition zero_rawJob : rawJob :=
  mkRawJob 0 0 0 "" None None None zero_time None None None None [] None "" "" [].

Definition opt_string : dec (option string) := dec_ptr "" dec_string.
Definition opt_time : dec (option Time) := dec_ptr zero_time dec_time.

Definition dec_rawRepository : dec rawRepository := λ a, dec_object a (λ l,
  id ← dec_member "id" dec_int64 (rp_ID a) l;
  name ← dec_member "full_name" dec_string (rp_FullName a) l;
  Some (mkRawRepository id name)).

Definition dec_rawActor : dec rawActor := λ a, dec_object a (λ l,
  login ← dec_member "login" dec_string (ra_Login a) l; Some (mkRawActor login)).

Definition dec_rawRun : dec rawRun := λ a, dec_object a (λ l,
  id ← dec_member "id" dec_int64 (rr_ID a) l;
  name ← dec_member "name" opt_string (rr_Name a) l;
  path ← dec_member "path" dec_string (rr_Path a) l;
  num ← dec_member "run_number" dec_int64 (rr_RunNumber a) l;
  att ← dec_member "run_attempt" dec_int64 (rr_RunAttempt a) l;
  ev ← dec_member "event" dec_string (rr_Event a) l;
  st ← dec_member "status" opt_string (rr_Status a) l;
  co ← dec_member "conclusion" opt_string (rr_Conclusion a) l;
  wf ← dec_member "workflow_id" dec_int64 (rr_WorkflowID a) l;
  ca ← dec_member "created_at" dec_time (rr_CreatedAt a) l;
  ua ← dec_member "updated_at" dec_time (rr_UpdatedAt a) l;
  sa ← dec_member "run_started_at" opt_time (rr_RunStartedAt a) l;
  hb ← dec_member "head_branch" opt_string (rr_HeadBranch a) l;
  sha ← dec_member "head_sha" dec_string (rr_HeadSHA a) l;
  actor ← dec_member "actor" (dec_ptr (mkRawActor "") dec_rawActor) (rr_Actor a) l;
  url ← dec_member "html_url" dec_string (rr_HTMLURL a) l;
  Some (mkRawRun id name path num att ev st co wf ca ua sa hb sha actor url)).

Definition dec_rawRunPayload : dec rawRunPayload := λ a, dec_object a (λ l,
  wr ← dec_member "workflow_run" (dec_ptr zero_rawRun dec_rawRun) (rrp_WorkflowRun a) l;
  rp ← dec_member "repository" (dec_ptr (mkRawRepository 0 "") dec_rawRepository) (rrp_Repository a) l;
  Some (mkRawRunPayload wr rp)).

Definition dec_rawStep : dec rawStep := λ a, dec_object a (λ l,
  num ← dec_member "number" dec_int64 (rs_Number a) l;
  name ← dec_member "name" dec_string (rs_Name a) l;
  st ← dec_member "status" opt_string (rs_Status a) l;
  co ← dec_member "conclusion" opt_string (rs_Conclusion a) l;
  sa ← dec_member "started_at" opt_time (rs_StartedAt a) l;
  ca ← dec_member "completed_at" opt_time (rs_CompletedAt a) l;
  Some (mkRawStep num name st co sa ca)).

Definition dec_rawJob : dec rawJob := λ a, dec_object a (λ l,
  id ← dec_member "id" dec_int64 (rj_ID a) l;
  run ← dec_member "run_id" dec_int64 (rj_RunID a) l;
  att ← dec_member "run_attempt" dec_int64 (rj_RunAttempt a) l;
  name ← dec_member "name" dec_string (rj_Name a) l;
  wn ← dec_member "workflow_name" opt_string (rj_WorkflowName a) l;
  st ← dec_member "status" opt_string (rj_Status a) l;
  co ← dec_member "conclusion" opt_string (rj_Conclusion a) l;
  cr ← dec_member "created_at" dec_time (rj_CreatedAt a) l;
  sa ← dec_member "started_at" opt_time (rj_StartedAt a) l;
  ca ← dec_member "completed_at" opt_time (rj_CompletedAt a) l;
  rn ← dec_member "runner_name" opt_string (rj_RunnerName a) l;
  rg ← dec_member "runner_group_name" opt_string (rj_RunnerGroupName a) l;
  lb ← dec_member "labels" (dec_slice "" dec_string) (rj_Labels a) l;
  hb ← dec_member "head_branch" opt_string (rj_HeadBranch a) l;
  sha ← dec_member "head_sha" dec_string (rj_HeadSHA a) l;
  url ← dec_member "html_url" dec_string (rj_HTMLURL a) l;
  steps ← dec_member "steps" (dec_slice zero_rawStep dec_rawStep) (rj_Steps a) l;
  Some (mkRawJob id run att name wn st co cr sa ca rn rg lb hb sha url steps)).

Definition dec_rawJobPayload : dec rawJobPayload := λ a, dec_object a (λ l,
  wj ← dec_member "workflow_job" (dec_ptr zero_rawJob dec_rawJob) (rjp_WorkflowJob a) l;
  rp ← dec_member "repository" (dec_ptr (mkRawRepository 0 "") dec_rawRepository) (rjp_Repository a) l;
  Some (mkRawJobPayload wj rp)).

(** [decode]: any JSON error is malformed. *)
Definition decode {A} (zero : A) (d : dec A) (env : Envelope) : result A :=
  if bool_decide (e_Payload env = "") then Err (malformed "empty payload")
  else match Unmarshal zero d (e_Payload env) with
       | Some a => Ok a
       | None => Err (EJoin (esent ErrMalformed) (errorf "json"))
       end.

Definition repository (env : Envelope) (raw : option rawRepository) : result (Z * string) :=
  let '(id, name) := match raw with
                     | Some r => if negb (rp_ID r =? 0) then (rp_ID r, rp_FullName r)
                                 else (e_RepositoryID env, e_Repository env)
                     | None => (e_RepositoryID env, e_Repository env)
                     end in
  if id =? 0 then Err (malformed "missing repository.id") else Ok (id, name).

Definition deref (s : option string) : string := default "" s.
Definition utc (t : option Time) : option Time := UTC <$> t.

Definition decodeRun (env : Envelope) : result Run :=
  (let! raw := decode (mkRawRunPayload None None) dec_rawRunPayload env in
   match rrp_WorkflowRun raw with
   | None => Err (malformed "missing workflow_run object")
   | Some wr =>
       if (rr_ID wr =? 0) || (rr_RunAttempt wr =? 0) then
         Err (malformed "workflow_run.id and workflow_run.run_attempt are required")
       else
       let! (repoID, repoName) := repository env (rrp_Repository raw) in
       Ok (mkRun repoID repoName (rr_WorkflowID wr) (rr_Name wr) (rr_Path wr)
             (rr_ID wr) (rr_RunNumber wr) (rr_RunAttempt wr) (deref (rr_Status wr)) (rr_Conclusion wr)
             (UTC (rr_CreatedAt wr)) (UTC (rr_UpdatedAt wr)) (utc (rr_RunStartedAt wr))
             (rr_Event wr) (rr_HeadBranch wr) (rr_HeadSHA wr) (ra_Login <$> rr_Actor wr) (rr_HTMLURL wr))
   end)%go.

Definition step_of_raw (s : rawStep) : Step :=
  mkStep (rs_Number s) (rs_Name s) (deref (rs_Status s)) (rs_Conclusion s)
    (utc (rs_StartedAt s)) (utc (rs_CompletedAt s)).

Definition decodeJob (env : Envelope) : result Job :=
  (let! raw := decode (mkRawJobPayload None None) dec_rawJobPayload env in
   match rjp_WorkflowJob raw with
   | None => Err (malformed "missing workflow_job object")
   | Some wj =>
       if (rj_ID wj =? 0) || (rj_RunID wj =? 0) || (rj_RunAttempt wj =? 0) then
         Err (malformed "workflow_job.id, workflow_job.run_id, and workflow_job.run_attempt are required")
       else
       let! (repoID, repoName) := repository env (rjp_Repository raw) in
       Ok (mkJob repoID repoName (rj_RunID wj) (rj_RunAttempt wj) (rj_ID wj) (rj_Name wj) (rj_WorkflowName wj)
             (deref (rj_Status wj)) (rj_Conclusion wj) (UTC (rj_CreatedAt wj)) (utc (rj_StartedAt wj))
             (utc (rj_CompletedAt wj)) (rj_RunnerName wj) (rj_RunnerGroupName wj) (rj_Labels wj)
             (rj_HeadBranch wj) (rj_HeadSHA wj) (rj_HTMLURL wj) (step_of_raw <$> rj_Steps wj))
   end)%go.

Definition Normalize (env : Envelope) : result Execution :=
  (if String.eqb (e_Event env) EventWorkflowRun then
     let! run := decodeRun env in Ok (mkExecution KindRun (Some run) None env)
   else if String.eqb (e_Event env) EventWorkflowJob then
     let! job := decodeJob env in Ok (mkExecution KindJob None (Some job) env)
   else Ok (mkExecution KindNone None None env))%go.

(** ** Deterministic identifiers *)

Definition nsTrace : string := "antwatcher:trace:".
Definition nsRun : string := "antwatcher:run:".
Definition nsJob : string := "antwatcher:job:".
Definition nsStep : string := "antwatcher:step:".
Definition nsRecord : string := "antwatcher:record:".

Inductive RecordKind : Set := RecordRun | RecordJob | RecordStep.
Definition RecordKind_string (k : RecordKind) : string :=
  match k with RecordRun => "run" | RecordJob => "job" | RecordStep => "step" end.

#[export] Instance RecordKind_eq_dec : EqDecision RecordKind.
Proof. solve_decision. Defined.

Definition join (ids : list Z) : string := Join (format_int <$> ids) ":".

Definition spanID (s : string) : list Z := firstn 8 (sha256 (bytes s)).
Definition TraceID (repositoryID runID runAttempt : Z) : list Z :=
  firstn 16 (sha256 (bytes (nsTrace +:+ join [repositoryID; runID; runAttempt]))).
Definition RunSpanID (runID runAttempt : Z) : list Z := spanID (nsRun +:+ join [runID; runAttempt]).
Definition JobSpanID (jobID : Z) : list Z := spanID (nsJob +:+ join [jobID]).
Definition StepSpanID (jobID stepNumber : Z) : list Z := spanID (nsStep +:+ join [jobID; stepNumber]).
Definition RecordID (kind : RecordKind) (ids : list Z) : string :=
  hex_encode (sha256 (bytes (nsRecord +:+ RecordKind_string kind +:+ ":" +:+ join ids))).

Definition Run_TraceID (r : Run) : list Z := TraceID (r_RepositoryID r) (r_RunID r) (r_RunAttempt r).
Definition Run_SpanID (r : Run) : list Z := RunSpanID (r_RunID r) (r_RunAttempt r).
Definition Run_RecordID (r : Run) : string :=
  RecordID RecordRun [r_RepositoryID r; r_RunID r; r_RunAttempt r].
Definition Job_TraceID (j : Job) : list Z := TraceID (j_RepositoryID j) (j_RunID j) (j_RunAttempt j).
Definition Job_SpanID (j : Job) : list Z := JobSpanID (j_JobID j).
Definition Job_ParentSpanID (j : Job) : list Z := RunSpanID (j_RunID j) (j_RunAttempt j).
Definition Job_RecordID (j : Job) : string :=
  RecordID RecordJob [j_RepositoryID j; j_RunID j; j_RunAttempt j; j_JobID j].
Definition Step_SpanID (s : Step) (j : Job) : list Z := StepSpanID (j_JobID j) (s_Number s).
Definition Step_RecordID (s : Step) (j : Job) : string :=
  RecordID RecordStep [j_RepositoryID j; j_RunID j; j_RunAttempt j; j_JobID j; s_Number s].

(** ** Event times *)

Definition orTime (t : option Time) (fallback : Time) : Time :=
  match t with Some t => if IsZero t then fallback else t | None => fallback end.
Definition orZero (t fallback : Time) : Time := if IsZero t then fallback else t.

Definition runEventTime (r : Run) (received : Time) : Time :=
  if String.eqb (r_Status r) StatusCompleted then orZero (r_UpdatedAt r) received
  else if String.eqb (r_Status r) StatusInProgress then orTime (r_StartedAt r) received
  else orZero (r_CreatedAt r) received.

Definition jobEventTime (j : Job) (received : Time) : Time :=
  if String.eqb (j_Status j) StatusCompleted then orTime (j_CompletedAt j) received
  else if String.eqb (j_Status j) StatusInProgress then orTime (j_StartedAt j) received
  else orZero (j_CreatedAt j) received.

Definition EventTime (exec : Execution) : Time :=
  let received := e_ReceivedAt (x_Envelope exec) in
  match x_Kind exec, x_Run exec, x_Job exec with
  | KindRun, Some r, _ => runEventTime r received
  | KindJob, _, Some j => jobEventTime j received
  | _, _, _ => received
  end.

Definition StepEventTime (exec : Execution) (step : Step) : Time :=
  let jobTime := EventTime exec in
  match x_Kind exec, x_Job exec with
  | KindJob, Some _ =>
      if String.eqb (s_Status step) StatusCompleted then orTime (s_CompletedAt step) jobTime
      else if String.eqb (s_Status step) StatusInProgress then orTime (s_StartedAt step) jobTime
      else jobTime
  | _, _ => jobTime
  end.

(** ** Well-formedness *)

Definition nonzero_int64 (z : Z) : Prop := z ≠ 0 ∧ in_int64 z.
Definition is_utc (t : Time) : Prop := t_off t = 0.
Definition is_utc_opt (t : option Time) : Prop := ∀ u, t = Some u → is_utc u.

Record run_wf (r : Run) : Prop := {
  run_repo : nonzero_int64 (r_RepositoryID r);
  run_id : nonzero_int64 (r_RunID r);
  run_attempt : nonzero_int64 (r_RunAttempt r);
  run_number : in_int64 (r_RunNumber r);
  run_workflow : in_int64 (r_WorkflowID r);
  run_utc : is_utc (r_CreatedAt r) ∧ is_utc (r_UpdatedAt r) ∧ is_utc_opt (r_StartedAt r) }.

Definition step_wf (s : Step) : Prop :=
  in_int64 (s_Number s) ∧ is_utc_opt (s_StartedAt s) ∧ is_utc_opt (s_CompletedAt s).

Record job_wf (j : Job) : Prop := {
  job_repo : nonzero_int64 (j_RepositoryID j);
  job_id : nonzero_int64 (j_JobID j);
  job_run : nonzero_int64 (j_RunID j);
  job_attempt : nonzero_int64 (j_RunAttempt j);
  job_utc : is_utc (j_CreatedAt j) ∧ is_utc_opt (j_StartedAt j) ∧ is_utc_opt (j_CompletedAt j);
  job_steps : Forall step_wf (j_Steps j) }.

(** An execution carries exactly the entity its kind says, for the event it came from. *)
Definition exec_wf (x : Execution) : Prop :=
  match x_Kind x, x_Run x, x_Job x with
  | KindRun, Some r, None => e_Event (x_Envelope x) = EventWorkflowRun ∧ run_wf r
  | KindJob, None, Some j => e_Event (x_Envelope x) = EventWorkflowJob ∧ job_wf j
  | KindNone, None, None =>
      e_Event (x_Envelope x) ≠ EventWorkflowRun ∧ e_Event (x_Envelope x) ≠ EventWorkflowJob
  | _, _, _ => False
  end.

Lemma is_utc_opt_utc t : is_utc_opt (utc t).
Proof. destruct t; intros u; simpl; [by intros [= <-]|done]. Qed.

Lemma dec_object_inv {A} (P : A → Prop) (k : A → list (string * json) → option A) :
  (∀ a l a', P a → k a l = Some a' → P a') → dec_keeps P (λ a, dec_object a (k a)).
Proof. intros H a v a' Ha. destruct v; simpl; try done; [by intros [= <-]|by apply H]. Qed.

Lemma dec_member_int64 name a l x : dec_member name dec_int64 a l = Some x → in_int64 a → in_int64 x.
Proof. intros H Ha. revert Ha H. exact (dec_member_inv in_int64 name dec_int64 a l x dec_int64_range). Qed.

Lemma dec_member_ptr {A} (P : A → Prop) name zero (d : dec A) o l r :
  dec_keeps P d → P zero → (∀ a, o = Some a → P a) →
  dec_member name (dec_ptr zero d) o l = Some (Some r) → P r.
Proof.
  intros Hd Hz Ho H.
  refine (dec_member_inv (λ o, ∀ a, o = Some a → P a) _ _ _ _ _ _ Ho H r eq_refl).
  intros b v b' Hb Hdec a ->. exact (dec_ptr_inv P _ _ _ _ _ Hd Hb Hz Hdec).
Qed.

Lemma dec_elems_inv {A} (P : A → Prop) zero (d : dec A) old l r :
  dec_keeps P d → P zero → Forall P old → dec_elems zero d old l = Some r → Forall P r.
Proof.
  intros Hd Hz. revert old r. induction l as [|v l IH]; intros old r Ho; simpl; [by intros [= <-]|].
  destruct (d _ v) eqn:E; [|done]. destruct (dec_elems zero d (tail old) l) eqn:E2; [|done].
  intros [= <-]. constructor.
  - eapply Hd; [|exact E]. destruct Ho; simpl; done.
  - eapply IH; [|exact E2]. destruct Ho; simpl; [constructor|done].
Qed.

Lemma dec_slice_inv {A} (P : A → Prop) zero (d : dec A) :
  dec_keeps P d → P zero → dec_keeps (Forall P) (dec_slice zero d).
Proof.
  intros Hd Hz old v r Ho. destruct v; simpl; try done; [by intros [= <-]|]. by apply dec_elems_inv.
Qed.

Definition raw_run_ok (r : rawRun) : Prop :=
  in_int64 (rr_ID r) ∧ in_int64 (rr_RunNumber r) ∧ in_int64 (rr_RunAttempt r) ∧ in_int64 (rr_WorkflowID r).
Definition raw_step_ok (s : rawStep) : Prop := in_int64 (rs_Number s).
Definition raw_job_ok (j : rawJob) : Prop :=
  in_int64 (rj_ID j) ∧ in_int64 (rj_RunID j) ∧ in_int64 (rj_RunAttempt j) ∧ Forall raw_step_ok (rj_Steps j).

Lemma zero_rawRun_ok : raw_run_ok zero_rawRun.
Proof. by repeat split. Qed.

Lemma zero_rawJob_ok : raw_job_ok zero_rawJob.
Proof. unfold raw_job_ok. by split_and!; [..|constructor]. Qed.

(** The equations of a decoder that succeeded. *)
Ltac dec_binds H := repeat (apply bind_Some in H as (? & ? & H)); injection H as <-.

Lemma dec_rawRepository_ok : dec_keeps (λ r, in_int64 (rp_ID r)) dec_rawRepository.
Proof. apply dec_object_inv. intros a l a' Ha H. dec_binds H. by eapply dec_member_int64. Qed.

Lemma dec_rawRun_ok : dec_keeps raw_run_ok dec_rawRun.
Proof.
  apply dec_object_inv. intros a l a' (H1 & H2 & H3 & H4) H. dec_binds H.
  split_and!; simpl; by eapply dec_member_int64.
Qed.

Lemma dec_rawStep_ok : dec_keeps raw_step_ok dec_rawStep.
Proof. apply dec_object_inv. intros a l a' Ha H. dec_binds H. by eapply dec_member_int64. Qed.

Lemma dec_rawJob_ok : dec_keeps raw_job_ok dec_rawJob.
Proof.
  apply dec_object_inv. intros a l a' (H1 & H2 & H3 & H4) H. dec_binds H.
  split_and!; simpl; [by eapply dec_member_int64..|].
  eapply (dec_member_inv (Forall raw_step_ok)); [apply dec_slice_inv; [exact dec_rawStep_ok|]|exact H4|eassumption].
  done.
Qed.

Lemma decode_Ok {A} (zero : A) d env a :
  decode zero d env = Ok a → Unmarshal zero d (e_Payload env) = Some a.
Proof. unfold decode. case_bool_decide; [done|]. destruct (Unmarshal _ _ _); [by intros [= ->]|done]. Qed.

Lemma decodeRun_raw env raw :
  decode (mkRawRunPayload None None) dec_rawRunPayload env = Ok raw →
  (∀ r, rrp_WorkflowRun raw = Some r → raw_run_ok r) ∧
  (∀ r, rrp_Repository raw = Some r → in_int64 (rp_ID r)).
Proof.
  intros H%decode_Ok.
  refine (Unmarshal_inv (λ raw, (∀ r, rrp_WorkflowRun raw = Some r → raw_run_ok r) ∧
    (∀ r, rrp_Repository raw = Some r → in_int64 (rp_ID r))) _ _ _ _ _ _ H); [by split|].
  clear H. apply dec_object_inv. intros a l a' [Ha1 Ha2] H. dec_binds H. split; simpl; intros r ->.
  - eapply (dec_member_ptr raw_run_ok); [exact dec_rawRun_ok|exact zero_rawRun_ok|exact Ha1|eassumption].
  - eapply (dec_member_ptr (λ r, in_int64 (rp_ID r)));
      [exact dec_rawRepository_ok| |exact Ha2|eassumption]; exact in_int64_0.
Qed.

Lemma decodeJob_raw env raw :
  decode (mkRawJobPayload None None) dec_rawJobPayload env = Ok raw →
  (∀ r, rjp_WorkflowJob raw = Some r → raw_job_ok r) ∧
  (∀ r, rjp_Repository raw = Some r → in_int64 (rp_ID r)).
Proof.
  intros H%decode_Ok.
  refine (Unmarshal_inv (λ raw, (∀ r, rjp_WorkflowJob raw = Some r → raw_job_ok r) ∧
    (∀ r, rjp_Repository raw = Some r → in_int64 (rp_ID r))) _ _ _ _ _ _ H); [by split|].
  clear H. apply dec_object_inv. intros a l a' [Ha1 Ha2] H. dec_binds H. split; simpl; intros r ->.
  - eapply (dec_member_ptr raw_job_ok); [exact dec_rawJob_ok|exact zero_rawJob_ok|exact Ha1|eassumption].
  - eapply (dec_member_ptr (λ r, in_int64 (rp_ID r)));
      [exact dec_rawRepository_ok| |exact Ha2|eassumption]; exact in_int64_0.
Qed.

Lemma repository_ok env raw id name :
  in_int64 (e_RepositoryID env) → (∀ r, raw = Some r → in_int64 (rp_ID r)) →
  repository env raw = Ok (id, name) → nonzero_int64 id.
Proof.
  unfold repository, nonzero_int64. intros He Hr H.
  destruct raw as [r|]; [destruct (rp_ID r =? 0) eqn:E; simpl in H|]; break; to_prop; auto.
Qed.

Lemma decodeRun_wf env r : in_int64 (e_RepositoryID env) → decodeRun env = Ok r → run_wf r.
Proof.
  intros He H. apply res_bind_Ok in H as (raw & Hraw%decodeRun_raw & H). destruct Hraw as [H1 H2].
  destruct (rrp_WorkflowRun raw) as [wr|]; [|done]. destruct (H1 wr eq_refl) as (K1 & K2 & K3 & K4).
  destruct (_ || _) eqn:E; [done|]. to_prop.
  apply res_bind_Ok in H as ([id name] & Hrep%repository_ok & H); [|done..]. simplify_eq/=.
  constructor; simpl; try done; try by split. split_and!; try done. apply is_utc_opt_utc.
Qed.

Lemma step_of_raw_wf l : Forall raw_step_ok l → Forall step_wf (step_of_raw <$> l).
Proof.
  intros H. apply Forall_fmap. eapply Forall_impl; [exact H|]. intros s Hs.
  split_and!; [exact Hs|apply is_utc_opt_utc..].
Qed.

Lemma decodeJob_wf env j : in_int64 (e_RepositoryID env) → decodeJob env = Ok j → job_wf j.
Proof.
  intros He H. apply res_bind_Ok in H as (raw & Hraw%decodeJob_raw & H). destruct Hraw as [H1 H2].
  destruct (rjp_WorkflowJob raw) as [wj|]; [|done]. destruct (H1 wj eq_refl) as (K1 & K2 & K3 & K4).
  destruct (_ || _) eqn:E; [done|]. to_prop.
  apply res_bind_Ok in H as ([id name] & Hrep%repository_ok & H); [|done..]. simplify_eq/=.
  constructor; simpl; try done; try by split.
  - split_and!; [done|apply is_utc_opt_utc..].
  - by apply step_of_raw_wf.
Qed.

Lemma Normalize_wf env x :
  in_int64 (e_RepositoryID env) → Normalize env = Ok x → x_Envelope x = env ∧ exec_wf x.
Proof.
  intros He. unfold Normalize. destruct (String.eqb _ EventWorkflowRun) eqn:E1; to_prop.
  { rewrite res_bind_Ok. intros (r & Hr & [= <-]). split; [done|]. split; [done|by eapply decodeRun_wf]. }
  destruct (String.eqb _ EventWorkflowJob) eqn:E2; to_prop.
  { rewrite res_bind_Ok. intros (r & Hr & [= <-]). split; [done|]. split; [done|by eapply decodeJob_wf]. }
  by intros [= <-].
Qed.

(** ** Errors *)

(** An error that is [ErrMalformed] and no other sentinel. *)
Definition malformed_only (e : error) : Prop := ∀ s, errors_is e s = bool_decide (ErrMalformed = s).

Lemma decode_err {A} (zero : A) d env e : decode zero d env = Err e → malformed_only e.
Proof. unfold decode. break; intros s; cbn; by rewrite ?orb_false_r. Qed.

Lemma repository_err env raw e : repository env raw = Err e → malformed_only e.
Proof. unfold repository. break; done. Qed.

Lemma decodeRun_err env e : decodeRun env = Err e → malformed_only e.
Proof.
  unfold decodeRun. destruct (decode _ _ _) eqn:E; cbn [res_bind]; [|intros [= <-]; by eapply decode_err].
  destruct (rrp_WorkflowRun _); [|by intros [= <-]]. destruct (_ || _); [by intros [= <-]|].
  destruct (repository _ _) as [[]|] eqn:E2; cbn [res_bind]; [done|intros [= <-]; by eapply repository_err].
Qed.

Lemma decodeJob_err env e : decodeJob env = Err e → malformed_only e.
Proof.
  unfold decodeJob. destruct (decode _ _ _) eqn:E; cbn [res_bind]; [|intros [= <-]; by eapply decode_err].
  destruct (rjp_WorkflowJob _); [|by intros [= <-]]. destruct (_ || _); [by intros [= <-]|].
  destruct (repository _ _) as [[]|] eqn:E2; cbn [res_bind]; [done|intros [= <-]; by eapply repository_err].
Qed.

Lemma Normalize_err env e :
  Normalize env = Err e → malformed_only e ∧ (e_Event env = EventWorkflowRun ∨ e_Event env = EventWorkflowJob).
Proof.
  unfold Normalize. destruct (String.eqb _ EventWorkflowRun) eqn:E1; to_prop.
  { destruct (decodeRun env) eqn:D; cbn [res_bind]; [done|]. intros [= <-]. split; [by eapply decodeRun_err|by left]. }
  destruct (String.eqb _ EventWorkflowJob) eqn:E2; to_prop; [|done].
  destruct (decodeJob env) eqn:D; cbn [res_bind]; [done|]. intros [= <-]. split; [by eapply decodeJob_err|by right].
Qed.

(** ** Event times *)

Lemma orTime_nonzero t f : IsZero f = false → IsZero (orTime t f) = false.
Proof. unfold orTime. break; done. Qed.

Lemma orZero_nonzero t f : IsZero f = false → IsZero (orZero t f) = false.
Proof. unfold orZero. break; done. Qed.

Create HintDb gotime.
#[export] Hint Resolve orTime_nonzero orZero_nonzero : gotime.

Lemma EventTime_nonzero_aux x : IsZero (e_ReceivedAt (x_Envelope x)) = false → IsZero (EventTime x) = false.
Proof.
  intros H. unfold EventTime, runEventTime, jobEventTime.
  destruct (x_Kind x), (x_Run x), (x_Job x); try done;
    repeat destruct (String.eqb _ _); auto with gotime.
Qed.

(** ** Identities *)

(** What an identifier names. *)
Inductive entity : Set :=
  | ETrace (repo run attempt : Z)
  | ERunSpan (run attempt : Z)
  | EJobSpan (job : Z)
  | EStepSpan (job number : Z)
  | ERecord (kind : RecordKind) (ids : list Z).

Definition entity_ids (e : entity) : list Z :=
  match e with
  | ETrace r i a => [r; i; a] | ERunSpan i a => [i; a] | EJobSpan j => [j]
  | EStepSpan j n => [j; n] | ERecord _ ids => ids
  end.

Definition entity_ok (e : entity) : Prop := Forall in_int64 (entity_ids e) ∧ entity_ids e ≠ [].

Definition entity_namespace (e : entity) : string :=
  match e with
  | ETrace _ _ _ => nsTrace | ERunSpan _ _ => nsRun | EJobSpan _ => nsJob
  | EStepSpan _ _ => nsStep | ERecord k _ => nsRecord +:+ RecordKind_string k +:+ ":"
  end.

(** The string that is hashed. *)
Definition id_preimage (e : entity) : string := entity_namespace e +:+ join (entity_ids e).

Definition id_len (e : entity) : nat :=
  match e with ETrace _ _ _ => 16 | ERecord _ _ => 32 | _ => 8 end.

(** The identifier as bytes. *)
Definition entity_id (e : entity) : option (list Z) :=
  match e with
  | ETrace r i a => Some (TraceID r i a)
  | ERunSpan i a => Some (RunSpanID i a)
  | EJobSpan j => Some (JobSpanID j)
  | EStepSpan j n => Some (StepSpanID j n)
  | ERecord k ids => hex_decode (RecordID k ids)
  end.

Lemma entity_id_digest e : entity_id e = Some (firstn (id_len e) (sha256 (bytes (id_preimage e)))).
Proof.
  destruct e; try done. unfold entity_id, RecordID. destruct (sha256_ok (bytes (id_preimage (ERecord kind ids)))) as [H1 H2].
  unfold id_preimage in *. cbn [entity_namespace entity_ids id_len] in *. rewrite !sapp_assoc in *.
  rewrite hex_decode_encode by done. by rewrite firstn_all2 by lia.
Qed.

Lemma join_inj l l' :
  Forall in_int64 l → Forall in_int64 l' → l ≠ [] → l' ≠ [] → join l = join l' → l = l'.
Proof. intros. by apply (Join_format_inj ":"%char). Qed.

(** Namespaces are prefix-free, so the first differing byte separates two of them. *)
Lemma namespace_inj e e' s s' :
  entity_namespace e +:+ s = entity_namespace e' +:+ s' → entity_namespace e = entity_namespace e' ∧ s = s'.
Proof.
  destruct e as [| | | |[]], e' as [| | | |[]]; unfold entity_namespace, nsTrace, nsRun, nsJob, nsStep, nsRecord;
    cbn [RecordKind_string]; autorewrite with gostr; intros H; first [by injection H as H|discriminate H].
Qed.

Lemma id_preimage_inj e e' : entity_ok e → entity_ok e' → id_preimage e = id_preimage e' → e = e'.
Proof.
  intros [H1 H2] [H1' H2'] H. apply namespace_inj in H as [Hns Hids%join_inj]; [|done..].
  destruct e as [| | | |[]], e' as [| | | |[]]; first [discriminate Hns|simpl in Hids; congruence].
Qed.

(** ** Properties *)

(** C20: whatever payload arrives, [Normalize] returns an execution of exactly the kind of the
    event, whose identity fields are non-zero 64-bit integers and whose times are in UTC, or
    an error that is [ErrMalformed], and that only for a workflow event: every other event
    yields [KindNone]. *)
Theorem Normalize_total env :
  in_int64 (e_RepositoryID env) →
  (∃ x, Normalize env = Ok x ∧ x_Envelope x = env ∧ exec_wf x) ∨
  (∃ e, Normalize env = Err e ∧ errors_is e ErrMalformed = true ∧
        (e_Event env = EventWorkflowRun ∨ e_Event env = EventWorkflowJob)).
Proof.
  intros He. destruct (Normalize env) as [x|e] eqn:E.
  - left. exists x. split; [done|]. by apply Normalize_wf.
  - right. exists e. apply Normalize_err in E as [Hm Ho]. by rewrite Hm.
Qed.

(** C21: identifiers are digests of strings that determine the entity: the identifier is the
    documented prefix of the SHA-256 of [id_preimage], and no two entities, of the same or
    of different classes, share a preimage.  Two entities can only share an identifier
    through a collision of (truncated) SHA-256. *)
Theorem ids_faithful e e' :
  entity_ok e → entity_ok e' →
  entity_id e = Some (firstn (id_len e) (sha256 (bytes (id_preimage e)))) ∧
  (bytes (id_preimage e) = bytes (id_preimage e') → e = e').
Proof.
  intros He He'. split; [apply entity_id_digest|]. intros H%bytes_inj. by apply id_preimage_inj.
Qed.

(** The event time of an execution, and of each of its steps, is never zero as long as
    the reception time is not, whatever fields the payload lacks. *)
Lemma EventTime_nonzero x step :
  IsZero (e_ReceivedAt (x_Envelope x)) = false →
  IsZero (EventTime x) = false ∧ IsZero (StepEventTime x step) = false.
Proof.
  intros H. pose proof (EventTime_nonzero_aux x H) as Hx. split; [done|].
  unfold StepEventTime. destruct (x_Kind x), (x_Job x); try done;
    repeat destruct (String.eqb _ _); auto with gotime.
Qed.

(** ** Witnesses *)

Definition qstr (s : string) : string := String dquote (s +:+ String dquote "").

Definition ex_run_payload : string :=
  "{" +:+ qstr "workflow_run" +:+ ":{" +:+ qstr "id" +:+ ":11," +:+ qstr "run_attempt" +:+ ":1,"
  +:+ qstr "status" +:+ ":" +:+ qstr "completed" +:+ "," +:+ qstr "created_at" +:+ ":"
  +:+ qstr "2024-02-29T10:00:00+02:00" +:+ "}}".

Definition ex_run_envelope : Envelope :=
  mkEnvelope 1 "guid-2" "workflow_run" "completed" "" (UTC ex_time) 7 "octo/repo" "" 0 ex_run_payload.

Definition ex_run : Run :=
  mkRun 7 "octo/repo" 0 None "" 11 0 1 "completed" None
    (mkTime (unix_epoch_ns + 1709193600 * Second) 0) zero_time None "" None "" None "".

Definition ex_exec : Execution := mkExecution KindRun (Some ex_run) None ex_run_envelope.

Example Normalize_ex : Normalize ex_run_envelope = Ok ex_exec.
Proof. vm_compute. reflexivity. Qed.

Lemma Normalize_total_witness : in_int64 (e_RepositoryID ex_run_envelope) ∧ exec_wf ex_exec.
Proof.
  assert (in_int64 (e_RepositoryID ex_run_envelope)) as Hr by (split; vm_compute; congruence).
  split; [exact Hr|]. destruct (Normalize_total ex_run_envelope Hr) as [(x & H1 & _ & H2)|(e & H1 & _)].
  - rewrite Normalize_ex in H1. injection H1 as <-. exact H2.
  - rewrite Normalize_ex in H1. discriminate H1.
Defined.

Lemma ids_faithful_witness :
  entity_id (ETrace 7 11 1) = Some (firstn 16 (sha256 (bytes "antwatcher:trace:7:11:1"))) ∧
  bytes (id_preimage (ETrace 7 11 1)) ≠ bytes (id_preimage (ETrace 7 1 11)).
Proof.
  assert (∀ r i a, (Z.abs r < 100 ∧ Z.abs i < 100 ∧ Z.abs a < 100)%Z → entity_ok (ETrace r i a)) as Hok.
  { intros r i a H. split; [|done]. unfold entity_ids, in_int64, int64_min, int64_max. repeat constructor; lia. }
  destruct (ids_faithful (ETrace 7 11 1) (ETrace 7 1 11) (Hok 7 11 1 ltac:(lia)) (Hok 7 1 11 ltac:(lia))) as [H1 H2].
  split; [exact H1|]. intros H. apply H2 in H. discriminate H.
Defined.

Lemma EventTime_nonzero_witness :
  IsZero (EventTime ex_exec) = false.
Proof. apply (EventTime_nonzero ex_exec (mkStep 1 "" "" None None None)). vm_compute. reflexivity. Defined.
