(* ===== verification/Bus.v ===== *)
(** * [internal/bus]: the bus contract, capabilities and the missing-capability policy

    Start positions, consumer names and errors (bus.go), capabilities (capabilities.go), the
    policy that resolves a configuration against them (policy.go), the driver registry
    (registry.go), and the [Bus] interface as a typeclass with the laws its documentation
    states.  Go's integer enumerations are [Z], so that undefined values exist.

    A [context.Context] is only consulted for its error: an operation takes the value
    [ctx.Err()] has at each point where the code reads it. *)

From S2P Require Import Prelude.
From S2P Require Import Errors.
From S2P Require Import GoText.
From S2P Require Import GoNum.
From S2P Require Import Event.

Local Open Scope Z_scope.

(** ** bus.go *)

Definition StartPosition : Set := Z.
Definition Earliest : StartPosition := 1.
Definition Now : StartPosition := 2.
Definition startEarliest : string := "earliest".
Definition startNow : string := "now".

Definition ParseStartPosition (s : string) : result StartPosition :=
  if String.eqb s startEarliest then Ok Earliest
  else if String.eqb s startNow then Ok Now
  else Err (errorf "start position must be earliest or now").

(** [fmt.Sprintf("%s(%d)", name, v)] *)
Definition enum_default (name : string) (v : Z) : string := name +:+ "(" +:+ format_int v +:+ ")".

Definition StartPosition_String (p : StartPosition) : string :=
  if p =? Earliest then startEarliest else if p =? Now then startNow else enum_default "StartPosition" p.

Definition StartPosition_valid (p : StartPosition) : bool := (p =? Earliest) || (p =? Now).

(** The character set of [consumerNamePattern]. *)
Definition consumer_char (c : ascii) : bool :=
  let b := byte_of c in
  ((65 <=? b) && (b <=? 90)) || ((97 <=? b) && (b <=? 122)) || ((48 <=? b) && (b <=? 57))
  || (b =? 95) || (b =? 45).

Definition ValidateConsumerName (name : string) : option error :=
  if bool_decide (name = "") then Some (EWrap "empty" (esent ErrInvalidConsumerName))
  else if negb (string_forall consumer_char name) then Some (EWrap "must match" (esent ErrInvalidConsumerName))
  else None.

(** ** capabilities.go *)

Definition RetentionKind : Set := Z.
Definition RetentionNone : RetentionKind := 0.
Definition RetentionTime : RetentionKind := 1.
Definition RetentionSize : RetentionKind := 2.
Definition RetentionUntilAcked : RetentionKind := 3.

Definition RetentionKind_String (r : RetentionKind) : string :=
  if r =? RetentionNone then "none" else if r =? RetentionTime then "time"
  else if r =? RetentionSize then "size" else if r =? RetentionUntilAcked then "until_acked"
  else enum_default "RetentionKind" r.

Record Capabilities := mkCapabilities {
  DurablePublish : bool; DurableConsumers : bool; FanOut : bool; HistoricalReplay : bool;
  Deduplicates : bool; ReportsLag : bool; Retention : RetentionKind }.

(** ** policy.go *)

Definition Mode : Set := Z.
Definition ModeFail : Mode := 1.
Definition ModeDegrade : Mode := 2.
Definition OnMissingCapabilityFail : string := "fail".
Definition OnMissingCapabilityDegrade : string := "degrade".

Definition ParseMode (s : string) : result Mode :=
  if String.eqb s OnMissingCapabilityFail then Ok ModeFail
  else if String.eqb s OnMissingCapabilityDegrade then Ok ModeDegrade
  else Err (errorf "on_missing_capability must be fail or degrade").

Definition Mode_String (m : Mode) : string :=
  if m =? ModeFail then OnMissingCapabilityFail
  else if m =? ModeDegrade then OnMissingCapabilityDegrade else enum_default "Mode" m.

Definition Severity : Set := Z.
Definition SeverityWarning : Severity := 1.
Definition SeverityInfo : Severity := 2.

Definition Severity_String (s : Severity) : string :=
  if s =? SeverityWarning then "warning" else if s =? SeverityInfo then "info" else enum_default "Severity" s.

Record Warning := mkWarning { w_Capability : string; w_Severity : Severity; w_Message : string }.

Definition checkMode (mode : Mode) : option error :=
  if (mode =? ModeFail) || (mode =? ModeDegrade) then None else Some (errorf "invalid policy mode").

Definition missing (capability : string) : error := EWrap capability (esent ErrMissingCapability).

Definition warn_durable_publish : Warning :=
  mkWarning "DurablePublish" SeverityWarning
    "2xx does not mean durable: events accepted from GitHub can be lost on restart, dev only".
Definition warn_replay : Warning :=
  mkWarning "HistoricalReplay" SeverityWarning
    "start_from: earliest downgraded to now: the bus keeps no history".
Definition warn_durable_consumers : Warning :=
  mkWarning "DurableConsumers" SeverityWarning
    "consumer positions are lost on restart: the sink starts over from its start position".
Definition warn_dedup : Warning :=
  mkWarning "Deduplicates" SeverityInfo
    "the bus does not collapse duplicate deliveries; sinks are idempotent through deterministic IDs".

Definition ResolveIngress (caps : Capabilities) (mode : Mode) : result (list Warning) :=
  match checkMode mode with
  | Some e => Err e
  | None =>
      if DurablePublish caps then Ok []
      else if mode =? ModeFail then Err (missing "DurablePublish")
      else Ok [warn_durable_publish]
  end.

Definition ResolveConsumer (caps : Capabilities) (requested : StartPosition) (mode : Mode)
    : result (StartPosition * list Warning) :=
  match checkMode mode with
  | Some e => Err e
  | None =>
      if negb (StartPosition_valid requested) then Err (errorf "invalid start position") else
      if negb (FanOut caps) then Err (missing "FanOut") else
      let replay := (requested =? Earliest) && negb (HistoricalReplay caps) in
      if replay && (mode =? ModeFail) then Err (missing "HistoricalReplay") else
      let effective := if replay then Now else requested in
      let warnings := ((if replay then [warn_replay] else [])
        ++ (if negb (DurableConsumers caps) then [warn_durable_consumers] else [])
        ++ (if negb (Deduplicates caps) then [warn_dedup] else []))%list in
      Ok (effective, warnings)
  end.

(** ** registry.go

    A driver is a factory; [D] is what it needs besides its block ([B]).  [Register]
    panics on a misuse: [None]. *)

Section Registry.
Context {D B : Type}.

(** [Driver]: the factory and the describer, either of which may be nil. *)
Record Driver := mkDriver { d_Factory : option (string → string → result B); d_Describer : option D }.

Definition Registry_Register (r : gmap string Driver) (name : string) (d : Driver) : option (gmap string Driver) :=
  if bool_decide (name = "") then None
  else match d_Factory d, d_Describer d with
       | Some _, Some _ => match r !! name with Some _ => None | None => Some (<[name := d]> r) end
       | _, _ => None
       end.

Definition Registry_Names (r : gmap string Driver) : gset string := dom r.

Definition Registry_Describers (r : gmap string Driver) : gmap string D := omap d_Describer r.

(** [Open]: [block] is the driver's configuration block. *)
Definition Registry_Open (r : gmap string Driver) (driver topic : string) (blocks : string → string) : result B :=
  if bool_decide (driver = "") then Err (errorf "bus.driver is required")
  else if bool_decide (topic = "") then Err (errorf "bus.topic is required")
  else match r !! driver with
       | None => Err (errorf "unknown bus driver")
       | Some d =>
           match d_Factory d with
           | None => Err (errorf "nil factory")
           | Some f => match f (blocks driver) topic with Ok b => Ok b | Err e => Err (EWrap "open bus" e) end
           end
       end.
End Registry.
Arguments Driver : clear implicits.

(** ** The [Bus] interface *)

Class Bus (S Sub : Type) := {
  bus_topic : S → string;
  bus_capabilities : S → Capabilities;
  bus_closed : S → bool;
  bus_publish : S → option error → option Message → S * option error;
  bus_subscribe : S → option error → string → StartPosition → result Sub;
  bus_close : S → S * option error }.

(** What bus.go documents of every implementation, for messages that have a UUID and start
    positions that are one of the two; and that a driver declares its capabilities once. *)
Class BusLaws (S Sub : Type) `{Bus S Sub} : Prop := {
  publish_after_close s m :
    bus_closed s = true → m_UUID m ≠ "" → bus_publish s None (Some m) = (s, Some (esent ErrClosed));
  subscribe_after_close s name start :
    bus_closed s = true → ValidateConsumerName name = None → StartPosition_valid start = true →
    bus_subscribe s None name start = Err (esent ErrClosed);
  subscribe_name s ctx name start e :
    ValidateConsumerName name = Some e →
    ∃ e', bus_subscribe s ctx name start = Err e' ∧ errors_is e' ErrInvalidConsumerName = true;
  publish_ctx s e m : m_UUID m ≠ "" → bus_publish s (Some e) (Some m) = (s, Some e);
  close_closes s : bus_closed (fst (bus_close s)) = true;
  close_idempotent s : bus_closed s = true → bus_close s = (s, None);
  publish_topic s ctx m : bus_topic (fst (bus_publish s ctx m)) = bus_topic s;
  publish_capabilities s ctx m : bus_capabilities (fst (bus_publish s ctx m)) = bus_capabilities s }.

(** ** Properties *)

Lemma ValidateConsumerName_spec name :
  ValidateConsumerName name = None ↔ name ≠ "" ∧ string_forall consumer_char name = true.
Proof.
  unfold ValidateConsumerName. case_bool_decide; [split; [done|naive_solver]|].
  destruct (string_forall _ _); simpl; naive_solver.
Qed.

Lemma ValidateConsumerName_err name e :
  ValidateConsumerName name = Some e → errors_is e ErrInvalidConsumerName = true.
Proof. unfold ValidateConsumerName. break; done. Qed.

(** The consumer policy as its documentation promises.  A consumer is created exactly
    when the mode and position are valid, the bus fans out, and history is available or may
    be degraded; the effective position is the requested one except for "earliest" on a bus
    without history, which becomes "now"; each lost guarantee is reported by exactly its
    warning; a refusal for a missing capability says so. *)
Lemma ResolveConsumer_spec caps requested mode :
  let degraded := (requested =? Earliest) && negb (HistoricalReplay caps) in
  (mode = ModeFail ∨ mode = ModeDegrade) → (requested = Earliest ∨ requested = Now) →
  (FanOut caps = true ∧ (degraded = true → mode = ModeDegrade) →
     ∃ ws, ResolveConsumer caps requested mode = Ok (if degraded then Now else requested, ws) ∧
       (warn_replay ∈ ws ↔ degraded = true) ∧
       (warn_durable_consumers ∈ ws ↔ DurableConsumers caps = false) ∧
       (warn_dedup ∈ ws ↔ Deduplicates caps = false)) ∧
  (¬ (FanOut caps = true ∧ (degraded = true → mode = ModeDegrade)) →
     ∃ e, ResolveConsumer caps requested mode = Err e ∧ errors_is e ErrMissingCapability = true).
Proof.
  intros degraded Hm Hr. unfold ResolveConsumer, checkMode, StartPosition_valid.
  assert ((mode =? ModeFail) || (mode =? ModeDegrade) = true) as -> by (destruct Hm as [-> | ->]; done).
  assert ((requested =? Earliest) || (requested =? Now) = true) as -> by (destruct Hr as [-> | ->]; done).
  fold degraded. cbv zeta. cbn [negb].
  destruct (FanOut caps) eqn:EF; cbn [negb]; [|split; [by intros [? _]|intros _; by eexists]].
  destruct (degraded && (mode =? ModeFail)) eqn:ED.
  - split; [|intros _; by eexists]. intros [_ Hd]. apply andb_true_iff in ED as [-> Hf].
    specialize (Hd eq_refl). rewrite Hd in Hf. done.
  - split.
    + intros _. eexists. split; [done|].
      destruct degraded, (DurableConsumers caps), (Deduplicates caps); cbn [negb app];
        rewrite ?elem_of_cons, ?elem_of_nil; split_and!; split; intros Hw; try done;
        intuition discriminate.
    + intros Hn. exfalso. apply Hn. split; [done|]. intros ->. destruct Hm as [->| ->]; [|done].
      done.
Qed.

Definition ex_caps : Capabilities := mkCapabilities false false true false false false RetentionNone.

Lemma ResolveConsumer_spec_witness :
  ∃ ws, ResolveConsumer ex_caps Earliest ModeDegrade = Ok (Now, ws) ∧ warn_replay ∈ ws.
Proof.
  destruct (ResolveConsumer_spec ex_caps Earliest ModeDegrade (or_intror eq_refl) (or_introl eq_refl)) as [H _].
  destruct H as (ws & H1 & H2 & _); [split; reflexivity|]. exists ws. split; [exact H1|]. apply H2. reflexivity.
Defined.
