(* ===== verification/GoChannel.v ===== *)
(** * [internal/bus/gochannel]: the in-process bus driver

    The driver wraps Watermill's persistent GoChannel Pub/Sub, a library: what the driver
    relies on is that it keeps the messages handed to it ([gc_log], in order) and gives
    every subscription a stream that holds exactly those, in some order.  [ps_publish_error]
    is the error the library's [Publish] returns for a message, if any; it is a parameter. *)

From S2P Require Import Prelude.
From S2P Require Import Errors.
From S2P Require Import GoText.
From S2P Require Import GoNum.
From S2P Require Import Event.
From S2P Require Import Bus.

Local Open Scope Z_scope.

Definition seqKey : string := "_gochannel_seq".

Record GoChannelBus := mkGoChannelBus {
  gc_topic : string; gc_seq : Z; gc_closed : bool; gc_log : list Message }.

Record subscriber := mkSubscriber { sub_topic : string; sub_cutoff : Z }.

Definition New (topic : string) : GoChannelBus := mkGoChannelBus topic 0 false [].

(** [Open]: the driver block must be empty ([describe]), the topic must be set. *)
Definition Open (describe : option error) (topic : string) : result GoChannelBus :=
  match describe with
  | Some e => Err e
  | None => if bool_decide (topic = "") then Err (errorf "gochannel: topic is required") else Ok (New topic)
  end.

Definition gc_capabilities (b : GoChannelBus) : Capabilities :=
  mkCapabilities false false true true false false RetentionNone.

(** [msg.Copy()]: same UUID and payload, a fresh metadata map. *)
Definition Message_Copy (m : Message) : Message :=
  mkMessage (m_UUID m) (Some (default ∅ (m_Metadata m))) (m_Payload m).

Definition tag (seq : Z) (m : Message) : Message :=
  let c := Message_Copy m in
  mkMessage (m_UUID c) (Some (<[seqKey := format_uint seq]> (default ∅ (m_Metadata c)))) (m_Payload c).

Section Driver.
Variable ps_publish_error : Message → option error.

Definition gc_publish (b : GoChannelBus) (ctx : option error) (msg : option Message)
    : GoChannelBus * option error :=
  match msg with
  | None => (b, Some (errorf "gochannel: nil message"))
  | Some msg =>
      match ctx with
      | Some e => (b, Some e)
      | None =>
          if gc_closed b then (b, Some (esent ErrClosed))
          else
            let seq := wrapu64 (gc_seq b + 1) in
            let tagged := tag seq msg in
            match ps_publish_error tagged with
            | Some e => (mkGoChannelBus (gc_topic b) seq (gc_closed b) (gc_log b),
                         Some (EWrap "gochannel: publish" e))
            | None => (mkGoChannelBus (gc_topic b) seq (gc_closed b) (gc_log b ++ [tagged]), None)
            end
      end
  end.

Definition gc_subscribe (b : GoChannelBus) (ctx : option error) (consumer : string) (start : StartPosition)
    : result subscriber :=
  match ValidateConsumerName consumer with
  | Some e => Err (EWrap "gochannel" e)
  | None =>
      match ctx with
      | Some e => Err e
      | None =>
          if gc_closed b then Err (esent ErrClosed)
          else if start =? Earliest then Ok (mkSubscriber (gc_topic b) 0)
          else if start =? Now then Ok (mkSubscriber (gc_topic b) (gc_seq b))
          else Err (errorf "gochannel: invalid start position")
      end
  end.

(** [Close]; closing the library's Pub/Sub a first time does not fail. *)
Definition gc_close (b : GoChannelBus) : GoChannelBus * option error :=
  if gc_closed b then (b, None)
  else (mkGoChannelBus (gc_topic b) (gc_seq b) true (gc_log b), None).

#[export] Instance GoChannel_Bus : Bus GoChannelBus subscriber := {|
  bus_topic := gc_topic; bus_capabilities := gc_capabilities; bus_closed := gc_closed;
  bus_publish := gc_publish; bus_subscribe := gc_subscribe; bus_close := gc_close |}.

#[export] Instance GoChannel_BusLaws : BusLaws GoChannelBus subscriber.
Proof.
  constructor; simpl.
  - intros s m H _. by rewrite H.
  - intros s name start H Hn _. unfold gc_subscribe. by rewrite Hn, H.
  - intros s ctx name start e H. unfold gc_subscribe. rewrite H. eexists. split; [done|].
    exact (ValidateConsumerName_err _ _ H).
  - done.
  - intros s. unfold gc_close. by destruct (gc_closed s) eqn:E.
  - intros s H. unfold gc_close. by rewrite H.
  - intros s ctx m. unfold gc_publish. repeat case_match; done.
  - intros s ctx m. unfold gc_publish. repeat case_match; done.
Qed.

(** Publishing a sequence of messages, stopping at the first error. *)
Fixpoint publish_all (b : GoChannelBus) (l : list Message) : option GoChannelBus :=
  match l with
  | [] => Some b
  | m :: l => match gc_publish b None (Some m) with (b', None) => publish_all b' l | (_, Some _) => None end
  end.
End Driver.

(** ** The subscriber *)

(** [deliverable]: strips the sequence tag, and reports whether to deliver. *)
Definition deliverable (s : subscriber) (m : Message) : Message * bool :=
  match default ∅ (m_Metadata m) !! seqKey with
  | None => (m, true)
  | Some text =>
      let m' := mkMessage (m_UUID m) (delete seqKey <$> m_Metadata m) (m_Payload m) in
      match parse_uint text with
      | None => (m', true)
      | Some seq => (m', sub_cutoff s <? seq)
      end
  end.

(** [subscriber.Subscribe] on a topic. *)
Definition sub_subscribe (s : subscriber) (closed : bool) (topic : string) : result subscriber :=
  if negb (String.eqb topic (sub_topic s)) then Err (EWrap "gochannel" (esent ErrWrongTopic))
  else if closed then Err (errorf "gochannel: consumer is closed")
  else Ok s.

(** The forwarding goroutine: what reaches [out] of the messages of [in]. *)
Fixpoint forward (s : subscriber) (inp : list Message) : list Message :=
  match inp with
  | [] => []
  | m :: inp => let '(m', ok) := deliverable s m in if ok then m' :: forward s inp else forward s inp
  end.

(** ** Lemmas *)

Lemma deliverable_tag s seq m :
  in_uint64 seq → default ∅ (m_Metadata m) !! seqKey = None →
  deliverable s (tag seq m) = (Message_Copy m, sub_cutoff s <? seq).
Proof.
  intros Hs Hm. unfold deliverable, tag, Message_Copy. cbn [m_Metadata m_UUID m_Payload default from_option id].
  rewrite lookup_insert_eq, parse_uint_format by done. cbn [fmap option_fmap option_map].
  by rewrite delete_insert_id by done.
Qed.

Lemma forward_app s l1 l2 : forward s (l1 ++ l2) = (forward s l1 ++ forward s l2)%list.
Proof.
  induction l1 as [|m l1 IH]; [done|]. simpl. destruct (deliverable s m) as [m' []]; simpl; by rewrite IH.
Qed.

#[export] Instance forward_Proper s : Proper (Permutation ==> Permutation) (forward s).
Proof.
  intros l1 l2. induction 1 as [|x l1 l2 _ IH|x y l|]; simpl; [done|..].
  - destruct (deliverable s x) as [? []]; by rewrite IH.
  - destruct (deliverable s x) as [? []], (deliverable s y) as [? []]; try done. apply Permutation_swap.
  - by etrans.
Qed.

(** The messages the driver hands to the Pub/Sub from sequence [n] on. *)
Fixpoint tags (n : Z) (l : list Message) : list Message :=
  match l with [] => [] | m :: l => tag (n + 1) m :: tags (n + 1) l end.

Definition untagged (m : Message) : Prop := default ∅ (m_Metadata m) !! seqKey = None.

Lemma publish_all_log b l b' ps :
  publish_all ps b l = Some b' → 0 ≤ gc_seq b → gc_seq b + Z.of_nat (length l) < two64 →
  gc_log b' = (gc_log b ++ tags (gc_seq b) l)%list ∧ gc_seq b' = gc_seq b + Z.of_nat (length l).
Proof.
  revert b. induction l as [|m l IH]; intros b H Hpos Hlt.
  { simpl in *. simplify_eq. rewrite app_nil_r. split; [done|lia]. }
  cbn [publish_all] in H. cbn [length] in Hlt.
  unfold gc_publish in H. destruct (gc_closed b); [done|].
  rewrite wrapu64_id in H by (unfold in_uint64, two64 in *; lia).
  destruct (ps (tag (gc_seq b + 1) m)); [done|].
  apply IH in H as [H1 H2]; cbn [gc_seq gc_log] in *; [|lia|lia]. cbn [tags length].
  rewrite H1, H2, <- app_assoc. split; [done|lia].
Qed.

Lemma forward_tags s n l :
  Forall untagged l → 0 ≤ n → n + Z.of_nat (length l) < two64 →
  forward s (tags n l) = Message_Copy <$> drop (Z.to_nat (Z.min (Z.of_nat (length l)) (Z.max 0 (sub_cutoff s - n)))) l.
Proof.
  intros Hl. revert n. induction Hl as [|m l Hm Hl IH]; intros n Hn Hlt; cbn [length] in *; [by rewrite drop_nil|].
  cbn [tags forward]. rewrite deliverable_tag by (try done; unfold in_uint64, two64 in *; lia).
  rewrite IH by lia. destruct (sub_cutoff s <? n + 1) eqn:E; to_prop.
  - replace (Z.to_nat (Z.min _ (Z.max 0 (sub_cutoff s - (n + 1))))) with 0%nat by lia.
    by replace (Z.to_nat (Z.min _ (Z.max 0 (sub_cutoff s - n)))) with 0%nat by lia.
  - replace (Z.to_nat (Z.min (Z.of_nat (S (length l))) (Z.max 0 (sub_cutoff s - n))))
      with (S (Z.to_nat (Z.min (Z.of_nat (length l)) (Z.max 0 (sub_cutoff s - (n + 1)))))) by lia.
    done.
Qed.

(** ** Properties *)

(** Start positions on the in-process bus.  Messages [old] are published, the consumer is
    created, messages [new] are published; whatever order the Pub/Sub then streams its
    retained messages in, a consumer created at "now" gets exactly [new] and one created at
    "earliest" exactly [old] and [new], each once, with the internal sequence tag removed. *)
Lemma start_positions ps b0 old b1 consumer start sub new b2 inp :
  gc_log b0 = [] → gc_seq b0 = 0 → Forall untagged (old ++ new)%list →
  Z.of_nat (length old + length new) < two64 →
  publish_all ps b0 old = Some b1 →
  gc_subscribe b1 None consumer start = Ok sub →
  publish_all ps b1 new = Some b2 →
  inp ≡ₚ gc_log b2 →
  forward sub inp ≡ₚ (Message_Copy <$> (if start =? Now then new else (old ++ new)%list)).
Proof.
  intros Hlog Hseq Htag Hlt H1 Hsub H2 ->. apply Forall_app in Htag as [Ho Hn].
  apply publish_all_log in H1 as [L1 S1]; [|lia|lia]. rewrite Hlog, Hseq in L1. rewrite Hseq in S1.
  apply publish_all_log in H2 as [L2 S2]; [|lia|lia].
  rewrite L2, L1, S1, forward_app. cbn [app]. rewrite !forward_tags by (try done; lia).
  unfold gc_subscribe in Hsub. destruct (ValidateConsumerName consumer); [done|].
  destruct (gc_closed b1); [done|]. destruct (start =? Earliest) eqn:E; to_prop.
  - subst start. injection Hsub as <-. cbn [sub_cutoff]. rewrite <- fmap_app.
    replace (Z.to_nat (Z.min _ (Z.max 0 (0 - 0)))) with 0%nat by lia.
    replace (Z.to_nat (Z.min _ (Z.max 0 _))) with 0%nat by lia. by rewrite !drop_0.
  - destruct (start =? Now); [|done]. injection Hsub as <-. cbn [sub_cutoff]. rewrite S1.
    replace (Z.to_nat (Z.min _ (Z.max 0 (0 + Z.of_nat (length old) - 0)))) with (length old) by lia.
    replace (Z.to_nat (Z.min _ (Z.max 0 (_ - _)))) with 0%nat by lia.
    by rewrite drop_all, drop_0.
Qed.

Definition ex_m (uuid : string) : Message := mkMessage uuid (Some ∅) "{}".
Definition ex_b1 : GoChannelBus := mkGoChannelBus "t" 1 false [tag 1 (ex_m "a")].
Definition ex_b2 : GoChannelBus := mkGoChannelBus "t" 2 false [tag 1 (ex_m "a"); tag 2 (ex_m "b")].

Lemma start_positions_witness :
  forward (mkSubscriber "t" 1) [tag 2 (ex_m "b"); tag 1 (ex_m "a")] ≡ₚ [ex_m "b"].
Proof.
  refine (start_positions (λ _, None) (New "t") [ex_m "a"] ex_b1 "sink-x" Now (mkSubscriber "t" 1)
    [ex_m "b"] ex_b2 _ _ _ _ _ _ _ _ _).
  - reflexivity.
  - reflexivity.
  - repeat constructor.
  - reflexivity.
  - vm_compute. reflexivity.
  - vm_compute. reflexivity.
  - vm_compute. reflexivity.
  - apply Permutation_swap.
Defined.
