(* ===== verification/Conformance.v ===== *)
(** * [internal/bus/bustest/suite.go]: the conformance suite of bus drivers

    The suite is code that judges drivers, so it is modelled as the program it is: the calls of
    [testing.T] it makes ([require], [assert], [t.Fatal], [t.Cleanup]) over any broker under test,
    which is the class [Broker].  A message that arrives is a reference, since [Ack] and [Nack] go
    to it; a [select] with a deadline either takes an arrival, finds the channel closed or sees the
    deadline, which at the latest fires after [patience] arrivals.  [reference] is an example of a
    broker, for the witness. *)

From S2P Require Import Prelude.
From S2P Require Import Errors.
From S2P Require Import GoText.
From S2P Require Import GoNum.
From S2P Require Import Event.
From S2P Require Import Bus.

Local Open Scope Z_scope.

(** ** The broker under test *)

(** A received message: the pointer, and what it points to. *)
Record delivery := mkDelivery { dl_ref : nat; dl_msg : Message }.

(** What one [select] over a channel and a deadline saw. *)
Inductive arrival : Type := Arrived (d : delivery) | ChannelClosed | DeadlineFired.

(** [open], the methods of the buses and subscribers it leads to, the answers to messages, the
    outage hook, the clock and [watermill.NewUUID].  Buses, subscribers and channels are
    handles. *)
Class Broker (W : Type) := {
  br_open : W → W * option nat;
  br_Capabilities : W → nat → Capabilities;
  br_Topic : W → nat → string;
  br_Publish : W → nat → Message → W * option error;
  br_Subscribe : W → nat → string → StartPosition → W * result nat;
  br_Channel : W → nat → string → W * result nat;
  br_CloseSubscriber : W → nat → W * option error;
  br_Select : W → nat → Duration → W * arrival;
  br_Ack : W → nat → W * bool;
  br_Nack : W → nat → W * bool;
  br_Close : W → nat → W * option error;
  br_Lag : W → nat → option (string → W * result Z);
  br_Outage : W → W;
  br_Restore : W → W;
  br_Since : W → W → Duration;
  br_NewUUID : W → W * string }.

(** ** [testing.T] *)

Inductive cleanup : Set := CleanupBus (b : nat) | CleanupSubscriber (s : nat).

(** What a run saw, for the statements about it. *)
Inductive event : Type :=
  | Consuming (name : string) (ch : nat)         (* the channel of a consumer's subscriber *)
  | Published (m : Message) (e : option error)
  | Received (ch : nat) (m : Message)
  | OutageStarted
  | OutageEnded.

(** The failures reported, the cleanups with the last one first, the subscribers whose
    [closeSub] ran. *)
Record T := mkT {
  t_failures : list string; t_cleanups : list cleanup; t_closed : gset nat; t_history : list event }.

Definition newT : T := mkT [] [] ∅ [].

(** How a piece of a test ends: with a value, or by [t.FailNow]. *)
Inductive outcome (A : Type) : Type := Done (a : A) | Stopped.
Arguments Done {A} _.
Arguments Stopped {A}.

Section Suite.
Context {W : Type} `{Broker W}.
(** How many arrivals fit before a deadline, and how many messages [receiveAll] takes before the
    test binary itself times out. *)
Variable patience : nat.
(** The order in which a map of received messages is ranged over. *)
Variable range_order : list (string * delivery) → list (string * delivery).

Definition state : Type := W * T.
Definition test (A : Type) : Type := state → state * outcome A.

#[local] Instance test_ret : MRet test := λ A a s, (s, Done a).
#[local] Instance test_bind : MBind test := λ A B k m s,
  match m s with (s, Done a) => k a s | (s, Stopped) => (s, Stopped) end.

(** A call to the broker. *)
Definition call {A} (f : W → W * A) : test A := λ s, let '(w, a) := f (fst s) in ((w, snd s), Done a).
Definition look {A} (f : W → A) : test A := λ s, (s, Done (f (fst s))).

Definition Errorf (msg : string) : test unit := λ s,
  let t := snd s in ((fst s, mkT (t_failures t ++ [msg]) (t_cleanups t) (t_closed t) (t_history t)), Done tt).
Definition FailNow {A} : test A := λ s, (s, Stopped).
Definition Fatalf {A} (msg : string) : test A := Errorf msg ≫= λ _, FailNow.
Definition assert (b : bool) (msg : string) : test unit := if b then mret tt else Errorf msg.
Definition require (b : bool) (msg : string) : test unit := if b then mret tt else Fatalf msg.
Definition NoError (e : option error) (msg : string) : test unit :=
  require (match e with None => true | Some _ => false end) msg.
Definition IsError (e : option error) (msg : string) : test error :=
  match e with Some e => mret e | None => Fatalf msg end.
Definition err_result {A} (r : result A) : option error := match r with Ok _ => None | Err e => Some e end.

Definition Cleanup (c : cleanup) : test unit := λ s,
  let t := snd s in ((fst s, mkT (t_failures t) (c :: t_cleanups t) (t_closed t) (t_history t)), Done tt).
Definition note (e : event) : test unit := λ s,
  let t := snd s in ((fst s, mkT (t_failures t) (t_cleanups t) (t_closed t) (t_history t ++ [e])), Done tt).

(** A deferred call runs when the test stops, too. *)
Definition with_defer {A} (d : test unit) (m : test A) : test A := λ s,
  match m s with (s, Stopped) => (fst (d s), Stopped) | r => r end.

(** [require.Eventually], which calls the condition at most [n] times. *)
Fixpoint Eventually (n : nat) (cond : test bool) (msg : string) : test unit :=
  match n with
  | O => Fatalf msg
  | S n => b ← cond; if (b : bool) then mret tt else Eventually n cond msg
  end.

(** ** The helpers of the suite *)

Definition receiveTimeout : Duration := 30 * Second.
Definition quietWindow : Duration := 500 * Millisecond.
Definition metaRun : string := "bustest_run".
Definition metaN : string := "bustest_n".

Definition openBus : test nat :=
  b ← call br_open;
  match b with
  | None => Fatalf "open returned a nil bus"
  | Some b => Cleanup (CleanupBus b) ≫= λ _, mret b
  end.

Record run := mkRun { r_b : nat; r_id : string; r_n : Z }.

Definition newRun : test run :=
  b ← openBus; id ← call br_NewUUID; mret (mkRun b id 0).

(** A UUID has nothing that [%q] escapes. *)
Definition run_payload (id : string) (n : Z) : string :=
  "{" +:+ String dquote ("run" +:+ String dquote (":" +:+ String dquote (id +:+ String dquote ("," +:+ String dquote
    ("n" +:+ String dquote (":" +:+ format_int n +:+ "}")))))).

Definition meta (m : Message) : gmap string string := default ∅ (m_Metadata m).
Definition meta_get (k : string) (m : Message) : string := default "" (meta m !! k).
Definition meta_set (k v : string) (m : Message) : Message :=
  mkMessage (m_UUID m) (Some (<[k := v]> (meta m))) (m_Payload m).

(** [r.message()] counts in the run. *)
Definition message (r : run) : test (run * Message) :=
  let n := r_n r + 1 in
  uuid ← call br_NewUUID;
  mret (mkRun (r_b r) (r_id r) n,
    meta_set "event" "workflow_run" (meta_set metaN (format_int n) (meta_set metaRun (r_id r)
      (mkMessage uuid (Some ∅) (run_payload (r_id r) n))))).

Definition Publish_ (r : run) (m : Message) : test (option error) :=
  e ← call (λ w, br_Publish w (r_b r) m); _ ← note (Published m e); mret e.

Definition publish (r : run) (m : Message) : test unit :=
  e ← Publish_ r m; NoError e "publish".

Definition short_id (r : run) : string := String.substring 0 8 (r_id r).

(** The [sync.Once] of [closeSub]. *)
Definition closeSub (s : nat) : test unit := λ st,
  let '(w, t) := st in
  if decide (s ∈ t_closed t) then (st, Done tt)
  else
    let '(w, e) := br_CloseSubscriber w s in
    assert (match e with None => true | Some _ => false end) "closing subscriber"
      (w, mkT (t_failures t) (t_cleanups t) ({[s]} ∪ t_closed t) (t_history t)).

(** [subscribe]: the channel, and the subscriber [closeSub] closes. *)
Definition subscribe (r : run) (name : string) (from : StartPosition) : test (nat * nat) :=
  sub ← call (λ w, br_Subscribe w (r_b r) name from);
  match sub with
  | Err _ => Fatalf "subscribe"
  | Ok sub =>
      _ ← Cleanup (CleanupSubscriber sub);
      topic ← look (λ w, br_Topic w (r_b r));
      ch ← call (λ w, br_Channel w sub topic);
      match ch with
      | Err _ => Fatalf "subscriber.Subscribe"
      | Ok ch => _ ← note (Consuming name ch); mret (ch, sub)
      end
  end.

Definition consumer (r : run) (name : string) (from : StartPosition) : test (string * nat) :=
  let full := name +:+ "-" +:+ short_id r in
  '(ch, _) ← subscribe r full from; mret (full, ch).

Definition Select_ (ch : nat) (d : Duration) : test arrival :=
  a ← call (λ w, br_Select w ch d);
  match a with Arrived d => _ ← note (Received ch (dl_msg d)); mret a | _ => mret a end.

Definition Ack (d : delivery) : test bool := call (λ w, br_Ack w (dl_ref d)).
Definition Nack (d : delivery) : test bool := call (λ w, br_Nack w (dl_ref d)).

Definition of_run (r : run) (m : Message) : bool := String.eqb (meta_get metaRun m) (r_id r).

(** The loop of [receive] until its deadline. *)
Fixpoint receive_loop (r : run) (ch : nat) (n : nat) : test delivery :=
  match n with
  | O => Fatalf "no message"
  | S n =>
      a ← Select_ ch receiveTimeout;
      match a with
      | ChannelClosed => Fatalf "subscriber channel closed while waiting for a message"
      | DeadlineFired => Fatalf "no message"
      | Arrived d => if of_run r (dl_msg d) then mret d else (_ ← Ack d; receive_loop r ch n)
      end
  end.
Definition receive (r : run) (ch : nat) : test delivery := receive_loop r ch patience.

(** The loop of [receiveAll]; each [receive] has a deadline of its own. *)
Fixpoint receiveAll_loop (r : run) (ch : nat) (n : nat) (got : gmap string delivery) (fuel : nat)
    : test (gmap string delivery) :=
  if bool_decide (n ≤ size got)%nat then mret got
  else match fuel with
       | O => Fatalf "panic: test timed out"
       | S fuel =>
           d ← receive r ch;
           match got !! m_UUID (dl_msg d) with
           | Some _ => _ ← Ack d; receiveAll_loop r ch n got fuel
           | None => receiveAll_loop r ch n (<[m_UUID (dl_msg d) := d]> got) fuel
           end
       end.
Definition receiveAll (r : run) (ch : nat) (n : nat) : test (gmap string delivery) :=
  receiveAll_loop r ch n ∅ patience.

Fixpoint quiet_loop (r : run) (ch : nat) (why : string) (n : nat) : test unit :=
  match n with
  | O => mret tt
  | S n =>
      a ← Select_ ch quietWindow;
      match a with
      | ChannelClosed => Fatalf ("subscriber channel closed while expecting silence: " +:+ why)
      | DeadlineFired => mret tt
      | Arrived d =>
          if of_run r (dl_msg d) then (_ ← Ack d; Fatalf ("unexpected message: " +:+ why))
          else (_ ← Ack d; quiet_loop r ch why n)
      end
  end.
Definition expectQuiet (r : run) (ch : nat) (why : string) : test unit := quiet_loop r ch why patience.

Definition uuids (msgs : gmap string delivery) : gset string := dom msgs.

(** [for range n { msg := r.message(); want[msg.UUID] = ...; r.publish(msg) }] *)
Fixpoint publish_n (r : run) (n : nat) (want : gset string) : test (run * gset string) :=
  match n with
  | O => mret (r, want)
  | S n =>
      '(r, msg) ← message r;
      _ ← publish r msg;
      publish_n r n ({[m_UUID msg]} ∪ want)
  end.

(** [for _, msg := range got { require.True(t, msg.Ack()) }] *)
Fixpoint ack_each (l : list (string * delivery)) : test unit :=
  match l with
  | [] => mret tt
  | (_, d) :: l => ok ← Ack d; _ ← require ok "ack"; ack_each l
  end.
Definition ack_all (got : gmap string delivery) : test unit := ack_each (range_order (map_to_list got)).

(** ** The tests *)

Definition testPublishSubscribe : test unit :=
  r ← newRun;
  '(_, ch) ← consumer r "ps" Now;
  '(r, sent) ← message r;
  let sent := meta_set "repository" "octo/repo" (meta_set "action" "completed" sent) in
  _ ← publish r sent;
  got ← receive r ch;
  _ ← assert (String.eqb (m_UUID sent) (m_UUID (dl_msg got))) "UUID";
  _ ← assert (bool_decide (m_Metadata sent = m_Metadata (dl_msg got))) "metadata";
  _ ← assert (String.eqb (m_Payload sent) (m_Payload (dl_msg got))) "payload";
  ok ← Ack got;
  _ ← assert ok "ack";
  expectQuiet r ch "an acked message must not be redelivered".

Definition testNackRedelivers : test unit :=
  r ← newRun;
  '(_, ch) ← consumer r "nack" Now;
  '(r, sent) ← message r;
  _ ← publish r sent;
  first ← receive r ch;
  _ ← require (String.eqb (m_UUID sent) (m_UUID (dl_msg first))) "UUID";
  ok ← Nack first;
  _ ← require ok "nack";
  second ← receive r ch;
  _ ← assert (String.eqb (m_UUID sent) (m_UUID (dl_msg second))) "the nacked message must be redelivered";
  _ ← assert (String.eqb (m_Payload sent) (m_Payload (dl_msg second))) "redelivery keeps the payload";
  ok ← Ack second;
  _ ← assert ok "ack";
  expectQuiet r ch "after the ack nothing else is pending".

Definition testSubscriberBoundToTopic : test unit :=
  r ← newRun;
  sub ← call (λ w, br_Subscribe w (r_b r) ("bound-" +:+ short_id r) Now);
  match sub with
  | Err _ => Fatalf "subscribe"
  | Ok sub =>
      _ ← Cleanup (CleanupSubscriber sub);
      topic ← look (λ w, br_Topic w (r_b r));
      ch ← call (λ w, br_Channel w sub (topic +:+ ".other"));
      e ← IsError (err_result ch) "another topic";
      assert (errors_is e ErrWrongTopic) "ErrWrongTopic"
  end.

Fixpoint invalid_names (r : run) (names : list string) : test unit :=
  match names with
  | [] => mret tt
  | name :: names =>
      sub ← call (λ w, br_Subscribe w (r_b r) name Now);
      e ← IsError (err_result sub) "name";
      _ ← assert (errors_is e ErrInvalidConsumerName) "ErrInvalidConsumerName";
      invalid_names r names
  end.
Definition testInvalidConsumerName : test unit :=
  r ← newRun; invalid_names r [""; "with space"; "dots.are.bad"; "star*"].

Definition close_bus (r : run) (msg : string) : test unit :=
  e ← call (λ w, br_Close w (r_b r)); NoError e msg.

Definition testPublishAfterClose : test unit :=
  r ← newRun;
  _ ← close_bus r "close";
  '(r, msg) ← message r;
  e ← Publish_ r msg;
  e ← IsError e "publish after close";
  assert (errors_is e ErrClosed) "ErrClosed".

Definition testSubscribeAfterClose : test unit :=
  r ← newRun;
  _ ← close_bus r "close";
  sub ← call (λ w, br_Subscribe w (r_b r) ("late-" +:+ short_id r) Now);
  e ← IsError (err_result sub) "subscribe after close";
  assert (errors_is e ErrClosed) "ErrClosed".

Definition testCloseIdempotent : test unit :=
  r ← newRun; _ ← close_bus r "close"; close_bus r "second Close".

Definition testFanOut : test unit :=
  r ← newRun;
  '(_, a) ← consumer r "fan-a" Now;
  '(_, b) ← consumer r "fan-b" Now;
  '(r, want) ← publish_n r 5 ∅;
  gotA ← receiveAll r a 5;
  _ ← ack_all gotA;
  _ ← assert (bool_decide (want = uuids gotA)) "consumer a receives every message";
  gotB ← receiveAll r b 5;
  _ ← assert (bool_decide (want = uuids gotB)) "consumer b receives every message regardless of a";
  _ ← ack_all gotB;
  _ ← expectQuiet r a "a has acked everything";
  expectQuiet r b "b has acked everything".

Definition testHistoricalReplay : test unit :=
  r ← newRun;
  '(r, want) ← publish_n r 3 ∅;
  '(_, early) ← consumer r "replay-earliest" Earliest;
  got ← receiveAll r early 3;
  _ ← assert (bool_decide (want = uuids got)) "Earliest replays the history";
  _ ← ack_all got;
  _ ← expectQuiet r early "history delivered once";
  '(_, late) ← consumer r "replay-now" Now;
  _ ← expectQuiet r late "Now must not replay history";
  '(r, next) ← message r;
  _ ← publish r next;
  gotLate ← receive r late;
  _ ← assert (String.eqb (m_UUID next) (m_UUID (dl_msg gotLate))) "Now receives what is published afterwards";
  ok ← Ack gotLate;
  _ ← require ok "ack";
  gotEarly ← receive r early;
  _ ← assert (String.eqb (m_UUID next) (m_UUID (dl_msg gotEarly))) "Earliest keeps receiving new messages";
  ok ← Ack gotEarly;
  require ok "ack".

(** [got[uuid]] of a map: a missing entry is the nil pointer, and answering it panics. *)
Definition at_key (got : gmap string delivery) (uuid : string) : test delivery :=
  match got !! uuid with Some d => mret d | None => Fatalf "panic: nil message" end.

Definition testDurableConsumers : test unit :=
  r ← newRun;
  let name := "durable-" +:+ short_id r in
  '(ch, sub) ← subscribe r name Now;
  '(r, first) ← message r;
  '(r, second) ← message r;
  _ ← publish r first;
  _ ← publish r second;
  got ← receiveAll r ch 2;
  _ ← require (bool_decide (size got = 2%nat)) "two messages";
  d ← at_key got (m_UUID first);
  ok ← Ack d;
  _ ← require ok "ack the first";
  d ← at_key got (m_UUID second);
  ok ← Nack d;
  _ ← require ok "leave the second unacked";
  _ ← closeSub sub;
  _ ← close_bus r "close";
  b ← openBus;
  let r2 := mkRun b (r_id r) 0 in
  '(ch2, _) ← subscribe r2 name Earliest;
  redelivered ← receive r2 ch2;
  _ ← assert (String.eqb (m_UUID second) (m_UUID (dl_msg redelivered))) "only the unacked message is redelivered";
  ok ← Ack redelivered;
  _ ← require ok "ack";
  expectQuiet r2 ch2 "the acked message must not come back after a reopen".

Definition testDeduplicates : test unit :=
  r ← newRun;
  '(_, ch) ← consumer r "dedup" Now;
  '(r, msg) ← message r;
  _ ← publish r msg;
  _ ← publish r msg;
  got ← receive r ch;
  _ ← assert (String.eqb (m_UUID msg) (m_UUID (dl_msg got))) "UUID";
  ok ← Ack got;
  _ ← require ok "ack";
  expectQuiet r ch "a re-published UUID inside the dedup window is collapsed".

(** [lagOf] *)
Definition lagOf (r : run) (name : string) : test Z :=
  l ← (λ s : state, match br_Lag (fst s) (r_b r) with
                    | Some f => let '(w, a) := f name in ((w, snd s), Done a)
                    | None => (s, Done (Err (errorf "no reporter")))
                    end);
  match l with Ok n => mret n | Err _ => Fatalf "lag" end.

(** 30 seconds in ticks of 50 milliseconds; the text of the failure asks for the lag first. *)
Definition eventually_lag (r : run) (name : string) (n : Z) (msg : string) : test unit :=
  _ ← lagOf r name;
  Eventually 600 (l ← lagOf r name; mret (l =? n)) msg.

Definition testReportsLag : test unit :=
  r ← newRun;
  reporter ← look (λ w, br_Lag w (r_b r));
  _ ← require (match reporter with Some _ => true | None => false end) "driver does not implement bus.LagReporter";
  '(name, ch) ← consumer r "lag" Now;
  '(r, _) ← publish_n r 3 ∅;
  _ ← eventually_lag r name 3 "lag must count the unacked backlog";
  got ← receiveAll r ch 3;
  l ← lagOf r name;
  _ ← assert (l =? 3) "received but unacked messages still count";
  _ ← ack_all got;
  eventually_lag r name 0 "lag must drop after ack".

(** The publish that must not succeed while the broker is unreachable. *)
Definition publish_unreachable (r : run) : test run :=
  w ← look id;
  '(r, msg) ← message r;
  e ← Publish_ r msg;
  _ ← IsError e "publish must not report success while the broker is unreachable";
  w' ← look id;
  _ ← assert (br_Since w' w <? 10 * Second) "publish must give up by the ctx deadline";
  mret r.

Definition restore : test unit := _ ← call (λ w, (br_Restore w, tt)); note OutageEnded.

(** The condition polled after the outage; [r.n] counts through the polls. *)
Fixpoint publish_again (n : nat) (r : run) : test run :=
  match n with
  | O => Fatalf "publish must succeed again once the broker is back"
  | S n =>
      '(r, msg) ← message r;
      e ← Publish_ r msg;
      match e with None => mret r | Some _ => publish_again n r end
  end.

(** The replay of the history until everything stored was seen or the deadline fired. *)
Fixpoint replay_loop (r : run) (ch : nat) (stored : gset string) (n : nat) : test unit :=
  if bool_decide (stored = ∅) then mret tt
  else match n with
       | O => Fatalf "Publish returned nil before the outage, but the broker did not have the message after it"
       | S n =>
           a ← Select_ ch receiveTimeout;
           match a with
           | ChannelClosed => Fatalf "subscriber channel closed while replaying the history"
           | DeadlineFired =>
               Fatalf "Publish returned nil before the outage, but the broker did not have the message after it"
           | Arrived d =>
               _ ← Ack d;
               replay_loop r ch (if of_run r (dl_msg d) then stored ∖ {[m_UUID (dl_msg d)]} else stored) n
           end
       end.

Definition testDurablePublish : test unit :=
  r ← newRun;
  caps ← look (λ w, br_Capabilities w (r_b r));
  _ ← require (HistoricalReplay caps) "driver declares DurablePublish without HistoricalReplay";
  '(r, stored) ← publish_n r 3 ∅;
  _ ← call (λ w, (br_Outage w, tt));
  _ ← note OutageStarted;
  r ← with_defer restore (publish_unreachable r);
  _ ← restore;
  r ← publish_again 150 r;
  '(_, ch) ← consumer r "durable-publish" Earliest;
  replay_loop r ch stored patience.

(** ** [Run] *)

(** The cleanups of a test, the last one first. *)
Fixpoint run_cleanups (l : list cleanup) : test unit :=
  match l with
  | [] => mret tt
  | CleanupBus b :: l =>
      e ← call (λ w, br_Close w b);
      _ ← assert (match e with None => true | Some _ => false end) "closing the bus";
      run_cleanups l
  | CleanupSubscriber s :: l => _ ← closeSub s; run_cleanups l
  end.

(** [t.Run]: the broker afterwards, and what was reported.  A test that stopped has reported. *)
Definition run_test (w : W) (m : test unit) : W * T :=
  let '((w, t), _) := m (w, newT) in
  fst (run_cleanups (t_cleanups t) (w, t)).

(** The subtests a declaration asks for. *)
Definition suite (outage : bool) (caps : Capabilities) : list (string * test unit) :=
  ([("PublishSubscribe", testPublishSubscribe); ("NackRedelivers", testNackRedelivers);
    ("SubscriberBoundToTopic", testSubscriberBoundToTopic); ("InvalidConsumerName", testInvalidConsumerName);
    ("PublishAfterClose", testPublishAfterClose); ("SubscribeAfterClose", testSubscribeAfterClose);
    ("CloseIdempotent", testCloseIdempotent)]
   ++ (if FanOut caps then [("FanOut", testFanOut)] else [])
   ++ (if HistoricalReplay caps then [("HistoricalReplay", testHistoricalReplay)] else [])
   ++ (if DurableConsumers caps then [("DurableConsumers", testDurableConsumers)] else [])
   ++ (if Deduplicates caps then [("Deduplicates", testDeduplicates)] else [])
   ++ (if ReportsLag caps then [("ReportsLag", testReportsLag)] else [])
   ++ (if DurablePublish caps then
         [("DurablePublish", if outage then testDurablePublish
                             else Fatalf "driver declares DurablePublish but the test supplies no bustest.WithOutage hook")]
       else []))%list.

Fixpoint run_suite (w : W) (l : list (string * test unit)) : W * list (string * T) :=
  match l with
  | [] => (w, [])
  | (name, m) :: l =>
      let '(w, t) := run_test w m in
      let '(w, rs) := run_suite w l in (w, (name, t) :: rs)
  end.

(** [Run]: what the parent test and each subtest reported.  The bus whose capabilities are read
    stays open until the end. *)
Definition Run (outage : bool) (w : W) : list (string * T) :=
  match openBus (w, newT) with
  | ((w, t), Stopped) => [("", t)]
  | ((w, t), Done b) =>
      let '(w, rs) := run_suite w (suite outage (br_Capabilities w b)) in
      let '((_, t), _) := run_cleanups (t_cleanups t) (w, t) in
      ("", t) :: rs
  end.

(** Did [go test] pass, and if not, which tests failed? *)
Definition passed (t : T) : bool := bool_decide (t_failures t = []).
Definition failed (rs : list (string * T)) : list string := (λ x, x.1) <$> filter (λ x, passed x.2 = false) rs.
End Suite.

(** ** An example of a broker

    One broker shared by every bus opened on it.  A consumer is its queue of messages to deliver;
    the messages handed out and not answered yet are numbered. *)

Record refSub := mkRefSub { rs_bus : nat; rs_consumer : string; rs_closed : bool }.
Record flight := mkFlight { fl_consumer : string; fl_msg : Message; fl_answered : bool }.

Record reference := mkReference {
  rf_has : Capabilities;                          (* what it keeps *)
  rf_declares : Capabilities;                     (* what it says *)
  rf_log : list Message;
  rf_queues : gmap string (list Message);
  rf_subs : list refSub;
  rf_buses : list bool;                           (* closed? *)
  rf_flights : list flight;
  rf_down : bool;
  rf_uuids : Z }.

Definition new_reference (has declares : Capabilities) : reference :=
  mkReference has declares [] ∅ [] [] [] false 0.

Definition with_queues (w : reference) (log : list Message) (q : gmap string (list Message)) : reference :=
  mkReference (rf_has w) (rf_declares w) log q (rf_subs w) (rf_buses w) (rf_flights w) (rf_down w) (rf_uuids w).
Definition with_flights (w : reference) (q : gmap string (list Message)) (l : list flight) : reference :=
  mkReference (rf_has w) (rf_declares w) (rf_log w) q (rf_subs w) (rf_buses w) l (rf_down w) (rf_uuids w).
Definition with_subs (w : reference) (q : gmap string (list Message)) (l : list refSub) (f : list flight) : reference :=
  mkReference (rf_has w) (rf_declares w) (rf_log w) q l (rf_buses w) f (rf_down w) (rf_uuids w).
Definition with_buses (w : reference) (l : list bool) : reference :=
  mkReference (rf_has w) (rf_declares w) (rf_log w) (rf_queues w) (rf_subs w) l (rf_flights w) (rf_down w) (rf_uuids w).

Definition bus_is_closed (w : reference) (b : nat) : bool := default true (rf_buses w !! b).
Definition sub_is_open (w : reference) (s : refSub) : bool := negb (rs_closed s) && negb (bus_is_closed w (rs_bus s)).
Definition queue (w : reference) (c : string) : list Message := default [] (rf_queues w !! c).

Definition ref_publish (w : reference) (b : nat) (m : Message) : reference * option error :=
  if bus_is_closed w b then (w, Some (esent ErrClosed))
  else if rf_down w then (w, Some (esent CtxDeadlineExceeded))
  else if Deduplicates (rf_has w) && bool_decide (m_UUID m ∈ m_UUID <$> rf_log w) then (w, None)
  else
    let queues :=
      if FanOut (rf_has w) then (λ q, q ++ [m])%list <$> rf_queues w
      else match filter (λ s, sub_is_open w s = true) (rf_subs w) with
           | s :: _ => <[rs_consumer s := (queue w (rs_consumer s) ++ [m])%list]> (rf_queues w)
           | [] => rf_queues w
           end in
    (with_queues w (rf_log w ++ [m]) queues, None).

(** A consumer that is kept resumes; any other starts at its position. *)
Definition ref_subscribe (w : reference) (b : nat) (name : string) (from : StartPosition) : reference * result nat :=
  match ValidateConsumerName name with
  | Some e => (w, Err e)
  | None =>
      if bus_is_closed w b then (w, Err (esent ErrClosed))
      else
        let start := if (from =? Earliest) && HistoricalReplay (rf_has w) then rf_log w else [] in
        let q := if DurableConsumers (rf_has w) then default start (rf_queues w !! name) else start in
        (with_subs w (<[name := q]> (rf_queues w)) (rf_subs w ++ [mkRefSub b name false]) (rf_flights w),
         Ok (length (rf_subs w)))
  end.

Definition ref_channel (w : reference) (s : nat) (topic : string) : reference * result nat :=
  if String.eqb topic "events" then (w, Ok s) else (w, Err (EWrap "reference" (esent ErrWrongTopic))).

Definition ref_select (w : reference) (s : nat) (_ : Duration) : reference * arrival :=
  match rf_subs w !! s with
  | None => (w, ChannelClosed)
  | Some sub =>
      if negb (sub_is_open w sub) then (w, ChannelClosed)
      else match queue w (rs_consumer sub) with
           | [] => (w, DeadlineFired)
           | m :: q =>
               (with_flights w (<[rs_consumer sub := q]> (rf_queues w)) (rf_flights w ++ [mkFlight (rs_consumer sub) m false]),
                Arrived (mkDelivery (length (rf_flights w)) m))
           end
  end.

(** [Ack] drops the message, [Nack] puts it back in front; only the first answer counts. *)
Definition ref_answer (again : bool) (w : reference) (i : nat) : reference * bool :=
  match rf_flights w !! i with
  | Some (mkFlight c m false) =>
      (with_flights w (if again then <[c := m :: queue w c]> (rf_queues w) else rf_queues w)
         (<[i := mkFlight c m true]> (rf_flights w)), true)
  | _ => (w, false)
  end.

Definition unanswered (c : string) (w : reference) : list Message :=
  fl_msg <$> filter (λ f, fl_answered f = false ∧ fl_consumer f = c) (rf_flights w).

(** Closing a subscriber gives what it did not answer back to the consumer. *)
Definition ref_close_sub (w : reference) (s : nat) : reference * option error :=
  match rf_subs w !! s with
  | None => (w, None)
  | Some sub =>
      let c := rs_consumer sub in
      (with_subs w (<[c := (unanswered c w ++ queue w c)%list]> (rf_queues w)) (<[s := mkRefSub (rs_bus sub) c true]> (rf_subs w))
         ((λ f, if bool_decide (fl_consumer f = c) then mkFlight c (fl_msg f) true else f) <$> rf_flights w), None)
  end.

Definition ref_lag (w : reference) (_ : nat) : option (string → reference * result Z) :=
  if ReportsLag (rf_has w)
  then Some (λ c, (w, Ok (Z.of_nat (length (queue w c) + length (unanswered c w)))))
  else None.

(** A broker that stores nothing for good forgets its log and its queues when it goes down. *)
Definition ref_outage (w : reference) : reference :=
  let keep := DurablePublish (rf_has w) in
  mkReference (rf_has w) (rf_declares w) (if keep then rf_log w else []) (if keep then rf_queues w else (λ _, []) <$> rf_queues w)
    (rf_subs w) (rf_buses w) (rf_flights w) true (rf_uuids w).
Definition ref_restore (w : reference) : reference :=
  mkReference (rf_has w) (rf_declares w) (rf_log w) (rf_queues w) (rf_subs w) (rf_buses w) (rf_flights w) false (rf_uuids w).

Definition ref_uuid (w : reference) : reference * string :=
  (mkReference (rf_has w) (rf_declares w) (rf_log w) (rf_queues w) (rf_subs w) (rf_buses w) (rf_flights w) (rf_down w) (rf_uuids w + 1),
   "00000000-" +:+ format_int (rf_uuids w)).

#[export] Instance reference_Broker : Broker reference := {|
  br_open w := (with_buses w (rf_buses w ++ [false]), Some (length (rf_buses w)));
  br_Capabilities w _ := rf_declares w;
  br_Topic _ _ := "events";
  br_Publish := ref_publish;
  br_Subscribe := ref_subscribe;
  br_Channel := ref_channel;
  br_CloseSubscriber := ref_close_sub;
  br_Select := ref_select;
  br_Ack := ref_answer false;
  br_Nack := ref_answer true;
  br_Close w b := (with_buses w (<[b := true]> (rf_buses w)), None);
  br_Lag := ref_lag;
  br_Outage := ref_outage;
  br_Restore := ref_restore;
  br_Since w' w := if rf_down w then 5 * Second else 0;
  br_NewUUID := ref_uuid |}.

(** ** Lemmas: what a test that passed has seen *)

Section Logic.
Context {W : Type} `{Broker W}.

#[local] Existing Instances test_ret test_bind.

Definition hist (s : @state W) : list event := t_history (snd s).
Definition fails (s : @state W) : list string := t_failures (snd s).

(** From a history with [P], the test either reports something or ends with [Q]; what was reported
    stays reported. *)
Definition on_hist {A} (P : list event → Prop) (m : @test W A) (Q : A → list event → Prop) : Prop :=
  ∀ s, (fails s ≠ [] → fails (m s).1 ≠ []) ∧
       (P (hist s) → fails (m s).1 = [] → ∃ a, (m s).2 = Done a ∧ Q a (hist (m s).1)).

Lemma bind_hist {A B} P (m : @test W A) (k : A → @test W B) Q R :
  on_hist P m Q → (∀ a, on_hist (Q a) (k a) R) → on_hist P (m ≫= k) R.
Proof.
  intros Hm Hk s. specialize (Hm s) as [M1 M2]. unfold mbind, test_bind. destruct (m s) as [s' [a|]]; cbn [fst snd] in *.
  - destruct (Hk a s') as [K1 K2]. split; [auto|]. intros HP Hf.
    destruct M2 as (a' & [= <-] & Hq); [done| |by apply K2]. destruct (fails s') eqn:E; [done|]. by destruct K1.
  - split; [done|]. intros HP Hf. by destruct (M2 HP Hf) as (? & ? & _).
Qed.

Lemma ret_hist {A} (P : list event → Prop) (a : A) (Q : A → list event → Prop) : (∀ h, P h → Q a h) → on_hist P (mret a) Q.
Proof. intros HQ s. split; [done|]. intros HP _. exists a. split; [done|]. by apply HQ. Qed.

Lemma conseq_hist {A} P P' (m : @test W A) Q Q' :
  on_hist P' m Q' → (∀ h, P h → P' h) → (∀ a h, Q' a h → Q a h) → on_hist P m Q.
Proof. intros Hm HP HQ s. destruct (Hm s) as [M1 M2]. split; [done|]. intros Hs Hf. destruct (M2 (HP _ Hs) Hf) as (a & ? & ?). eauto. Qed.

Lemma post_hist {A} P (m : @test W A) Q Q' : on_hist P m Q' → (∀ a h, Q' a h → Q a h) → on_hist P m Q.
Proof. intros Hm HQ. by eapply conseq_hist. Qed.
Lemma pre_hist {A} P P' (m : @test W A) Q : on_hist P' m Q → (∀ h, P h → P' h) → on_hist P m Q.
Proof. intros Hm HP. by eapply conseq_hist. Qed.

Lemma ex_hist {A X} `{Inhabited X} (P : X → list event → Prop) (m : @test W A) Q :
  (∀ x, on_hist (P x) m Q) → on_hist (λ h, ∃ x, P x h) m Q.
Proof. intros Hm s. split; [apply (Hm inhabitant s)|]. intros [x Hx]. by apply (Hm x s). Qed.

Lemma frame_hist {A} (φ : Prop) P (m : @test W A) Q : on_hist P m Q → on_hist (λ h, φ ∧ P h) m (λ a h, φ ∧ Q a h).
Proof. intros Hm s. destruct (Hm s) as [M1 M2]. split; [done|]. intros [? HP] Hf. destruct (M2 HP Hf) as (a & ? & ?). eauto. Qed.

Lemma call_hist {A} P (f : W → W * A) : on_hist P (call f) (λ _, P).
Proof. intros [w t]. unfold call, fails, hist. cbn [fst snd]. destruct (f w). by eauto. Qed.
Lemma look_hist {A} P (f : W → A) : on_hist P (look f) (λ _, P).
Proof. intros s. split; [done|]. eauto. Qed.
Lemma cleanup_hist P c : on_hist P (Cleanup c) (λ _, P).
Proof. intros s. split; [done|]. intros HP _. by exists tt. Qed.
Lemma note_hist P e : on_hist P (note e) (λ _ h', ∃ h, P h ∧ h' = (h ++ [e])%list).
Proof. intros s. split; [done|]. intros HP _. exists tt. split; [done|]. by exists (hist s). Qed.
Lemma errorf_hist P msg Q : on_hist P (Errorf msg) Q.
Proof.
  intros s. unfold fails. cbn [Errorf fst snd t_failures]. assert (t_failures s.2 ++ [msg] ≠ [])%list by by destruct (t_failures s.2).
  by split.
Qed.
Lemma fatal_hist {A} P (Q : A → list event → Prop) msg : on_hist P (Fatalf msg) Q.
Proof. unfold Fatalf. eapply bind_hist; [apply (errorf_hist P msg (λ _ _, False))|]. intros []. intros s. by split. Qed.
Lemma require_hist P b msg : on_hist P (require b msg) (λ _ h, P h ∧ b = true).
Proof. destruct b; [apply ret_hist; by split|apply fatal_hist]. Qed.
Lemma assert_hist P b msg : on_hist P (assert b msg) (λ _ h, P h ∧ b = true).
Proof. destruct b; [apply ret_hist; by split|apply errorf_hist]. Qed.
Lemma iserror_hist P e msg : on_hist P (IsError e msg) (λ x h, P h ∧ e = Some x).
Proof. destruct e; [apply ret_hist; by split|apply fatal_hist]. Qed.
End Logic.

(** What later events keep. *)
Definition stable (P : list event → Prop) : Prop := ∀ h e, P h → P (h ++ [e])%list.
Definition since (h0 h : list event) : Prop := ∃ rest, h = (h0 ++ rest)%list.
(** A message of the run was received on the channel after [h0]. *)
Definition seen (h0 : list event) (id : string) (ch : nat) (u : string) (h : list event) : Prop :=
  ∃ rest m, h = (h0 ++ rest)%list ∧ Received ch m ∈ rest ∧ m_UUID m = u ∧ meta_get metaRun m = id.

Lemma since_stable h0 : stable (since h0).
Proof. intros h e (rest & ->). exists (rest ++ [e])%list. by rewrite app_assoc. Qed.
Lemma seen_stable h0 id ch u : stable (seen h0 id ch u).
Proof. intros h e (rest & m & -> & Hm & Hu). exists (rest ++ [e])%list, m. rewrite app_assoc, elem_of_app. auto. Qed.
Lemma stable_and P Q : stable P → stable Q → stable (λ h, P h ∧ Q h).
Proof. intros HP HQ h e []. auto. Qed.
Lemma stable_all (X : gset string) (P : string → list event → Prop) : (∀ u, stable (P u)) → stable (λ h, ∀ u, u ∈ X → P u h).
Proof. intros HP h e Ha u Hu. by apply HP, Ha. Qed.

Section Helpers.
Context {W : Type} `{Broker W}.
Variable patience : nat.
Variable range_order : list (string * delivery) → list (string * delivery).
#[local] Existing Instances test_ret test_bind.

Lemma openBus_hist P : on_hist P openBus (λ _, P).
Proof.
  eapply bind_hist; [apply call_hist|]. intros [b|]; [|apply fatal_hist].
  eapply bind_hist; [apply cleanup_hist|]. intros ?. by apply ret_hist.
Qed.

Lemma newRun_hist P : on_hist P newRun (λ _, P).
Proof.
  eapply bind_hist; [apply openBus_hist|]. intros b. eapply bind_hist; [apply call_hist|]. intros id. by apply ret_hist.
Qed.

Lemma message_hist P r : on_hist P (message r) (λ x h, P h ∧ r_id x.1 = r_id r).
Proof. eapply bind_hist; [apply call_hist|]. intros u. by apply ret_hist. Qed.

Lemma Publish_hist P r m : on_hist P (Publish_ r m) (λ e h', ∃ h, P h ∧ h' = (h ++ [Published m e])%list).
Proof.
  eapply bind_hist; [apply call_hist|]. intros e. eapply bind_hist; [apply note_hist|]. intros ?. by apply ret_hist.
Qed.

Lemma publish_hist P r m : on_hist P (publish r m) (λ _ h', ∃ h, P h ∧ h' = (h ++ [Published m None])%list).
Proof.
  eapply bind_hist; [apply Publish_hist|]. intros e. eapply post_hist; [apply require_hist|].
  intros _ h' ((h & ? & ->) & He). exists h. by destruct e.
Qed.

Lemma subscribe_hist P r name from :
  on_hist P (subscribe r name from) (λ x h', ∃ h, P h ∧ h' = (h ++ [Consuming name x.1])%list).
Proof.
  eapply bind_hist; [apply call_hist|]. intros [s|e]; [|apply fatal_hist]. eapply bind_hist; [apply cleanup_hist|]. intros ?.
  eapply bind_hist; [apply look_hist|]. intros t. eapply bind_hist; [apply call_hist|].
  intros [c|e]; [|apply fatal_hist]. eapply bind_hist; [apply note_hist|]. intros ?. by apply ret_hist.
Qed.

Lemma consumer_hist P r name from :
  on_hist P (consumer r name from) (λ x h', ∃ h, P h ∧ h' = (h ++ [Consuming x.1 x.2])%list ∧ x.1 = name +:+ "-" +:+ short_id r).
Proof. eapply bind_hist; [apply subscribe_hist|]. intros [ch s]. apply ret_hist. intros h' (h & ? & ->). by exists h. Qed.

Lemma Select_hist P ch d :
  on_hist P (Select_ ch d) (λ a h', ∃ h, P h ∧ h' = (h ++ match a with Arrived d => [Received ch (dl_msg d)] | _ => [] end)%list).
Proof.
  eapply bind_hist; [apply call_hist|]. intros [d0| |]; [|apply ret_hist; intros h0 Hh; exists h0; by rewrite app_nil_r..].
  eapply bind_hist; [apply note_hist|]. intros ?. by apply ret_hist.
Qed.

Lemma publish_n_hist h0 r n want :
  on_hist (λ h, h = h0) (publish_n r n want) (λ x h, r_id x.1 = r_id r ∧
    ∃ ms, h = (h0 ++ ((λ m, Published m None) <$> ms))%list ∧ length ms = n ∧ x.2 = list_to_set (m_UUID <$> ms) ∪ want).
Proof.
  revert h0 r want. induction n as [|n IH]; intros h0 r want; cbn [publish_n].
  - apply ret_hist. intros h ->. split; [done|]. exists []. rewrite app_nil_r. cbn. by rewrite (left_id_L ∅ (∪)).
  - eapply bind_hist; [apply message_hist|]. intros [r' m]. cbn [fst].
    eapply (bind_hist _ _ _ (λ _ h, h = (h0 ++ [Published m None])%list ∧ r_id r' = r_id r)).
    { eapply post_hist; [apply publish_hist|]. by intros _ h (h1 & [-> ?] & ->). }
    intros ? s. destruct (IH (h0 ++ [Published m None])%list r' ({[m_UUID m]} ∪ want) s) as [I1 I2]. split; [done|].
    intros [Hh Hr] Hf. destruct (I2 Hh Hf) as (x & Hx & Hid & ms & Hhist & Hl & Hw). exists x. split; [done|].
    split; [congruence|]. exists (m :: ms). rewrite Hhist, Hw, <- app_assoc. split_and!; [done|cbn; lia|]. cbn [fmap list_fmap list_to_set]. by rewrite (assoc_L (∪)), (comm_L (∪) {[m_UUID m]}).
Qed.

Lemma receive_hist P h0 r ch :
  stable P → on_hist (λ h, P h ∧ since h0 h) (receive patience r ch)
    (λ d h, (P h ∧ since h0 h) ∧ seen h0 (r_id r) ch (m_UUID (dl_msg d)) h).
Proof.
  intros HP. unfold receive. generalize patience. intros n. induction n as [|n IH]; cbn [receive_loop]; [apply fatal_hist|].
  eapply bind_hist; [apply Select_hist|]. intros [d| |]; [|apply fatal_hist..]. unfold of_run. destruct (String.eqb _ _) eqn:E.
  - apply ret_hist. intros h' (h & [Hh (rest & ->)] & ->). apply String.eqb_eq in E. split.
    + split; [by apply HP|]. apply since_stable. by exists rest.
    + exists (rest ++ [Received ch (dl_msg d)])%list, (dl_msg d). rewrite app_assoc, elem_of_app. split_and!; [done| |done..]. right. by left.
  - eapply bind_hist; [apply call_hist|]. intros ?. eapply pre_hist; [apply IH|].
    intros h' (h & [Hh Hs] & ->). split; [by apply HP|by apply since_stable].
Qed.

Lemma receiveAll_hist P h0 r ch n :
  stable P → on_hist (λ h, P h ∧ since h0 h) (receiveAll patience r ch n)
    (λ got h, (P h ∧ since h0 h) ∧ ∀ u, u ∈ uuids got → seen h0 (r_id r) ch u h).
Proof.
  intros HP. unfold receiveAll. generalize patience at 2. intros fuel.
  assert (∀ got, on_hist (λ h, (P h ∧ since h0 h) ∧ ∀ u, u ∈ uuids got → seen h0 (r_id r) ch u h) (receiveAll_loop patience r ch n got fuel)
    (λ got h, (P h ∧ since h0 h) ∧ ∀ u, u ∈ uuids got → seen h0 (r_id r) ch u h)) as Hloop.
  { induction fuel as [|fuel IH]; intros got; cbn [receiveAll_loop]; (case_bool_decide; [by apply ret_hist|]); [apply fatal_hist|].
    eapply bind_hist.
    { eapply pre_hist; [apply (receive_hist (λ h, P h ∧ ∀ u, u ∈ uuids got → seen h0 (r_id r) ch u h) h0)|].
      - apply stable_and; [done|]. apply stable_all. intros u. apply seen_stable.
      - by intros h [[? ?] ?]. }
    intros d. destruct (got !! m_UUID (dl_msg d)) as [d0|] eqn:E.
    - eapply bind_hist; [apply call_hist|]. intros ?. eapply pre_hist; [apply IH|]. by intros h [[[? ?] ?] ?].
    - eapply pre_hist; [apply IH|]. intros h [[[? Hg] ?] Hd]. split; [done|]. intros u. unfold uuids.
      rewrite dom_insert_L, elem_of_union, elem_of_singleton. intros [-> |Hu]; [done|by apply Hg]. }
  eapply pre_hist; [apply (Hloop ∅)|]. intros h ?. split; [done|]. intros u. unfold uuids. by rewrite dom_empty_L.
Qed.

Lemma ack_all_hist P got : on_hist P (ack_all range_order got) (λ _, P).
Proof.
  unfold ack_all. induction (range_order (map_to_list got)) as [|[u d] l IH]; cbn [ack_each]; [by apply ret_hist|].
  eapply bind_hist; [apply call_hist|]. intros ok. eapply bind_hist; [apply require_hist|]. intros ?.
  eapply pre_hist; [apply IH|by intros h []].
Qed.

Lemma quiet_hist P r ch why : stable P → on_hist P (expectQuiet patience r ch why) (λ _, P).
Proof.
  intros HP. unfold expectQuiet. generalize patience. intros n. induction n as [|n IH]; cbn [quiet_loop]; [by apply ret_hist|].
  eapply bind_hist; [apply Select_hist|]. intros [d| |]; [|apply fatal_hist|apply ret_hist]; cycle 1.
  - intros h' (h & Hh & ->). by rewrite app_nil_r.
  - destruct (of_run r (dl_msg d)).
    + eapply bind_hist; [apply call_hist|]. intros ?. apply fatal_hist.
    + eapply bind_hist; [apply call_hist|]. intros ?. eapply pre_hist; [apply IH|]. intros h' (h & Hh & ->). by apply HP.
Qed.
End Helpers.

(** What a passed subtest has seen.  Fan-out: two consumers of different names subscribed, then
    five messages the bus accepted, each received afterwards on the channel of either.  Durability: three messages the bus accepted, an outage during
    which a publish was refused, and each of the three received again after the outage. *)
Definition accepted (ms : list Message) : list event := (λ m, Published m None) <$> ms.

Definition fanned_out (h : list event) : Prop :=
  ∃ id na a nb b ms, let h0 := Consuming na a :: Consuming nb b :: accepted ms in
    na ≠ nb ∧ length ms = 5%nat ∧
    Forall (λ m, seen h0 id a (m_UUID m) h ∧ seen h0 id b (m_UUID m) h) ms.

Definition survived_outage (h : list event) : Prop :=
  ∃ id ch ms refused e mid, length ms = 3%nat ∧
    Forall (λ m, seen (accepted ms ++ OutageStarted :: Published refused (Some e) :: OutageEnded :: mid)%list id ch (m_UUID m) h) ms.

Section Proofs.
Context {W : Type} `{Broker W}.
Variable patience : nat.
Variable range_order : list (string * delivery) → list (string * delivery).
#[local] Existing Instances test_ret test_bind.

(** The messages of a run that every test starts with. *)
Definition published (h0 : list event) (n : nat) (want : gset string) (ms : list Message) (h : list event) : Prop :=
  length ms = n ∧ want = list_to_set (m_UUID <$> ms) ∧ h = (h0 ++ accepted ms)%list.

Definition got_all (h0 : list event) (id : string) (ch : nat) (X : gset string) (h : list event) : Prop :=
  ∀ u, u ∈ X → seen h0 id ch u h.

Lemma got_all_stable h0 id ch X : stable (got_all h0 id ch X).
Proof. apply stable_all. intros u. apply seen_stable. Qed.

Lemma got_all_msgs h0 id ch ms h : got_all h0 id ch (list_to_set (m_UUID <$> ms)) h → Forall (λ m, seen h0 id ch (m_UUID m) h) ms.
Proof. intros Hs. apply Forall_forall. intros m Hm. apply Hs, elem_of_list_to_set. by apply list_elem_of_fmap_2. Qed.

Lemma publish_all_hist {B} h0 r n (k : run * gset string → @test W B) Q :
  (∀ r' want ms, on_hist (λ h, published h0 n want ms h ∧ since (h0 ++ accepted ms) h) (k (r', want)) Q) →
  on_hist (λ h, h = h0) (publish_n r n ∅ ≫= k) Q.
Proof.
  intros Hk. eapply bind_hist; [apply publish_n_hist|]. intros [r' want].
  eapply pre_hist; [exact (ex_hist (λ ms h, published h0 n want ms h ∧ since (h0 ++ accepted ms) h) _ _ (Hk r' want))|].
  intros h (_ & ms & -> & Hl & Hw). exists ms. cbn [snd] in Hw. rewrite (right_id_L ∅ (∪)) in Hw. split; [done|]. exists []. by rewrite app_nil_r.
Qed.

(** The part of [testFanOut] after its messages were published. *)
Lemma fan_out_hist r na a nb b want ms :
  let h0 := [Consuming na a; Consuming nb b] in
  on_hist (W := W) (λ h, published h0 5 want ms h ∧ since (h0 ++ accepted ms) h)
    (gotA ← receiveAll patience r a 5;
     _ ← ack_all range_order gotA;
     _ ← assert (bool_decide (want = uuids gotA)) "consumer a receives every message";
     gotB ← receiveAll patience r b 5;
     _ ← assert (bool_decide (want = uuids gotB)) "consumer b receives every message regardless of a";
     _ ← ack_all range_order gotB;
     _ ← expectQuiet patience r a "a has acked everything";
     expectQuiet patience r b "b has acked everything")
    (λ _ h, na ≠ nb → fanned_out h).
Proof.
  intros h0. set (hp := (h0 ++ accepted ms)%list).
  set (Pa := λ h, (length ms = 5%nat ∧ want = list_to_set (m_UUID <$> ms)) ∧ got_all hp (r_id r) a want h).
  set (Pb := λ h, Pa h ∧ got_all hp (r_id r) b want h).
  assert (stable Pa) as HPa by (intros h e [? ?]; split; [done|by apply got_all_stable]).
  assert (stable Pb) as HPb by (apply stable_and; [done|apply got_all_stable]).
  eapply bind_hist.
  { eapply pre_hist; [apply (receiveAll_hist _ (λ _, length ms = 5%nat ∧ want = list_to_set (m_UUID <$> ms)) hp); by intros ? ?|].
    intros h ((? & ? & ?) & ?). done. }
  intros gotA. eapply bind_hist; [apply ack_all_hist|]. intros ?. eapply bind_hist; [apply assert_hist|]. intros ?.
  eapply bind_hist.
  { eapply pre_hist; [by apply (receiveAll_hist _ Pa hp)|]. intros h [[[? ?] Ha] Hw%bool_decide_eq_true].
    split; [|done]. split; [done|]. intros u Hu. apply Ha. by rewrite <- Hw. }
  intros gotB. eapply bind_hist; [apply assert_hist|]. intros ?. eapply bind_hist; [apply ack_all_hist|]. intros ?.
  eapply bind_hist. { eapply pre_hist; [by apply (quiet_hist _ Pb)|]. intros h [[[? ?] Hb] Hw%bool_decide_eq_true]. split; [done|]. intros u Hu. apply Hb. by rewrite <- Hw. }
  intros ?. eapply post_hist; [by apply quiet_hist|]. intros ? h [[[Hl ->] Ha] Hb] Hne. exists (r_id r), na, a, nb, b, ms. split_and!; [done..|].
  apply Forall_and. split; by apply got_all_msgs.
Qed.

Lemma testFanOut_hist : on_hist (λ h, h = []) (testFanOut patience range_order) (λ _, fanned_out).
Proof.
  eapply bind_hist; [apply newRun_hist|]. intros r. eapply bind_hist; [apply consumer_hist|]. intros [na a].
  eapply bind_hist; [apply consumer_hist|]. intros [nb b]. cbn [fst snd].
  eapply (pre_hist _ (λ h, na ≠ nb ∧ h = [Consuming na a; Consuming nb b])).
  2:{ intros h' (h & (h1 & -> & -> & ->) & -> & ->). by split. }
  eapply post_hist; [apply frame_hist, publish_all_hist; intros r' want ms; apply fan_out_hist|]. intros ? h [Hne HQ]. by apply HQ.
Qed.

Lemma with_defer_hist {A} P (d : @test W unit) (m : @test W A) Q Qd :
  on_hist P m Q → on_hist (λ _, True) d Qd → on_hist P (with_defer d m) Q.
Proof.
  intros Hm Hd s. destruct (Hm s) as [M1 M2]. unfold with_defer. destruct (m s) as [s' [a|]]; [by split|]. cbn [fst snd] in *.
  destruct (Hd s') as [D1 _]. split; [auto|]. intros HP Hf. destruct (fails s') eqn:E; [|by destruct D1].
  by destruct (M2 HP eq_refl) as (? & ? & _).
Qed.

Lemma restore_hist P : on_hist P (restore (W := W)) (λ _ h', ∃ h, P h ∧ h' = (h ++ [OutageEnded])%list).
Proof. eapply bind_hist; [apply call_hist|]. intros ?. apply note_hist. Qed.

Lemma publish_unreachable_hist P r :
  on_hist P (publish_unreachable (W := W) r) (λ r' h', r_id r' = r_id r ∧ ∃ h m e, P h ∧ h' = (h ++ [Published m (Some e)])%list).
Proof.
  eapply bind_hist; [apply look_hist|]. intros w. eapply bind_hist; [apply message_hist|]. intros [r' m].
  eapply bind_hist; [apply Publish_hist|]. intros e. eapply bind_hist; [apply iserror_hist|]. intros e'.
  eapply bind_hist; [apply look_hist|]. intros w'. eapply bind_hist; [apply assert_hist|]. intros ?. apply ret_hist.
  intros h' (((h & [HP Hr] & ->) & ->) & _). split; [done|]. by exists h, m, e'.
Qed.

Lemma publish_again_hist h0 n r :
  on_hist (since h0) (publish_again (W := W) n r) (λ r' h, r_id r' = r_id r ∧ since h0 h).
Proof.
  revert r. induction n as [|n IH]; intros r; cbn [publish_again]; [apply fatal_hist|].
  eapply bind_hist; [apply message_hist|]. intros [r' m]. eapply bind_hist; [apply Publish_hist|]. intros [e|].
  - intros s. destruct (IH r' s) as [I1 I2]. split; [done|]. intros (h & [Hh Hr] & Hs) Hf. cbn in Hr. rewrite <- Hr. apply I2; [|done].
    rewrite Hs. by apply since_stable.
  - apply ret_hist. intros h' (h & [Hh Hr] & ->). split; [done|by apply since_stable].
Qed.

Lemma replay_hist h0 r ch X stored n :
  on_hist (λ h, since h0 h ∧ ∀ u, u ∈ X → u ∈ stored ∨ seen h0 (r_id r) ch u h) (replay_loop (W := W) r ch stored n)
    (λ _ h, got_all h0 (r_id r) ch X h).
Proof.
  revert stored. induction n as [|n IH]; intros stored; cbn [replay_loop]; case_bool_decide as Hs.
  1,3: apply ret_hist; intros h [_ Ha] u Hu; destruct (Ha u Hu) as [Hin|]; [set_solver|done].
  { apply fatal_hist. }
  eapply bind_hist; [apply Select_hist|]. intros [d| |]; [|apply fatal_hist..].
  eapply bind_hist; [apply call_hist|]. intros ?. eapply pre_hist; [apply IH|]. intros h' (h & [[rest ->] Ha] & ->).
  split; [by apply since_stable; exists rest|]. intros u Hu. destruct (Ha u Hu) as [Hin|Hseen]; [|right; by apply seen_stable].
  unfold of_run. destruct (String.eqb _ _) eqn:E; [|by left]. apply String.eqb_eq in E.
  destruct (decide (u = m_UUID (dl_msg d))) as [-> |Hne]; [|left; set_solver]. right.
  exists (rest ++ [Received ch (dl_msg d)])%list, (dl_msg d). rewrite app_assoc, elem_of_app. split_and!; [done| |done..]. right. by left.
Qed.

#[local] Instance outage_inhabited : Inhabited (Message * error * list event) := populate (mkMessage "" None "", errorf "", []).

Definition outage_hist (ms : list Message) (x : Message * error * list event) : list event :=
  (accepted ms ++ OutageStarted :: Published x.1.1 (Some x.1.2) :: OutageEnded :: x.2)%list.

Lemma testDurablePublish_hist : on_hist (λ h, h = []) (testDurablePublish patience) (λ _, survived_outage).
Proof.
  eapply bind_hist; [apply newRun_hist|]. intros r. eapply bind_hist; [apply look_hist|]. intros caps.
  eapply bind_hist; [apply require_hist|]. intros ?. eapply (pre_hist _ (λ h, h = [])); [|by intros h [? _]]. apply publish_all_hist. intros r' want ms.
  eapply bind_hist; [apply call_hist|]. intros ?. eapply bind_hist; [apply note_hist|]. intros ?.
  eapply bind_hist; [eapply with_defer_hist; [apply publish_unreachable_hist|apply restore_hist]|]. intros r1.
  eapply bind_hist; [apply restore_hist|]. intros ?.
  set (P := λ h, ∃ x, (length ms = 3%nat ∧ want = list_to_set (m_UUID <$> ms)) ∧ h = outage_hist ms x).
  eapply (pre_hist _ P).
  2:{ intros h' (h & (_ & h1 & m & e & (h2 & ((? & ? & ->) & _) & ->) & ->) & ->). exists (m, e, []). split; [done|].
      unfold outage_hist. by rewrite <- !app_assoc. }
  apply ex_hist. intros [[m e] mid].
  eapply (bind_hist _ _ _ (λ _, P)).
  { intros s. destruct (publish_again_hist (outage_hist ms (m, e, mid)) 150 r1 s) as [I1 I2]. split; [done|]. intros [Hl Hs] Hf.
    destruct I2 as (r2 & Hr2 & _ & rest & Hrest); [exists []; by rewrite app_nil_r|done|]. exists r2. split; [done|].
    exists (m, e, mid ++ rest)%list. split; [done|]. rewrite Hrest. unfold outage_hist. cbn [fst snd]. by rewrite <- app_assoc. }
  intros r2. eapply (bind_hist _ _ _ (λ _, P)).
  { eapply post_hist; [apply consumer_hist|]. intros [name ch] h' (h & ([[m1 e1] mid1] & Hl & ->) & -> & _).
    exists (m1, e1, mid1 ++ [Consuming name ch])%list. split; [done|]. unfold outage_hist. cbn [fst snd]. by rewrite <- app_assoc. }
  intros [name ch]. apply ex_hist. intros [[m' e'] mid'].
  eapply post_hist; [eapply pre_hist; [apply frame_hist, (replay_hist (outage_hist ms (m', e', mid')) r2 ch want want)|]|].
  - intros h [Hl ->]. split; [exact Hl|]. split; [exists []; by rewrite app_nil_r|auto].
  - intros ? h [[Hl ->] Ha]. exists (r_id r2), ch, ms, m', e', mid'. split; [done|]. by apply got_all_msgs.
Qed.

Lemma closeSub_hist P s : on_hist P (closeSub (W := W) s) (λ _, P).
Proof.
  intros [w t]. unfold closeSub. destruct (decide _); [split; [done|]; by eauto|].
  destruct (br_CloseSubscriber w s) as [w' e].
  destruct (assert_hist P (match e with None => true | Some _ => false end) "closing subscriber"
    (w', mkT (t_failures t) (t_cleanups t) ({[s]} ∪ t_closed t) (t_history t))) as [A1 A2].
  split; [exact A1|]. intros HP Hf. destruct (A2 HP Hf) as (a & ? & ? & _). eauto.
Qed.

Lemma cleanups_hist P l : on_hist P (run_cleanups (W := W) l) (λ _, P).
Proof.
  induction l as [|[b|s] l IH]; cbn [run_cleanups]; [by apply ret_hist| |].
  - eapply bind_hist; [apply call_hist|]. intros e. eapply bind_hist; [apply assert_hist|]. intros ?.
    eapply pre_hist; [apply IH|by intros h []].
  - eapply bind_hist; [apply closeSub_hist|]. intros ?. apply IH.
Qed.

Lemma run_test_hist (w : W) m Q :
  on_hist (λ h, h = []) m (λ _, Q) → passed (run_test w m).2 = true → Q (t_history (run_test w m).2).
Proof.
  intros Hm Hp%bool_decide_eq_true. unfold run_test in *. destruct (Hm (w, newT)) as [_ M2]. destruct (m (w, newT)) as [[w' t] o].
  destruct (cleanups_hist Q (t_cleanups t) (w', t)) as [C1 C2].
  assert (t_failures t = []) as Ht by (destruct (t_failures t) eqn:E; [done|]; destruct C1; [unfold fails; cbn [snd]; by rewrite E|done]).
  destruct (M2 eq_refl Ht) as (a & _ & HQ). by destruct (C2 HQ Hp) as (? & _ & ?).
Qed.

Lemma run_suite_in (w : W) l name m : (name, m) ∈ l → ∃ w0, (name, (run_test w0 m).2) ∈ (run_suite w l).2.
Proof.
  revert w. induction l as [|[n m'] l IH]; intros w Hin; [by apply not_elem_of_nil in Hin|]. cbn [run_suite].
  destruct (run_test w m') as [w1 t] eqn:E. destruct (run_suite w1 l) as [w2 rs] eqn:E2. cbn [snd].
  apply elem_of_cons in Hin as [[= <- <-]|Hin]; [exists w; rewrite E; by left|].
  destruct (IH w1 Hin) as [w0 H0]. exists w0. rewrite E2 in H0. by right.
Qed.

(** The subtest a declaration asks for ran, and when nothing failed it saw what it looks for. *)
Lemma subtest_saw (w w' : W) b name m Q :
  br_open w = (w', Some b) → failed (Run patience range_order true w) = [] →
  (name, m) ∈ suite patience range_order true (br_Capabilities w' b) → on_hist (λ h, h = []) m (λ _, Q) →
  ∃ t, (name, t) ∈ Run patience range_order true w ∧ Q (t_history t).
Proof.
  intros Ho Hf Hin Hm. unfold Run, openBus, call, Cleanup in *. unfold mbind, test_bind, mret, test_ret in *. cbn [fst snd] in *.
  rewrite Ho in *. cbn [fst snd] in *. destruct (run_suite_in w' _ _ _ Hin) as [w0 H0]. destruct (run_suite w' _) as [w1 rs].
  cbn [snd] in H0. destruct (run_cleanups _ _) as [[w2 t2] o2]. exists (run_test w0 m).2. split; [by right|]. apply run_test_hist; [done|].
  unfold failed in Hf. apply fmap_nil_inv in Hf. destruct (passed (run_test w0 m).2) eqn:E; [done|]. exfalso.
  apply (not_elem_of_nil (name, (run_test w0 m).2)). rewrite <- Hf. apply list_elem_of_filter. split; [done|by right].
Qed.
End Proofs.

(** ** Properties *)

(** C14: what passing the suite proves of any driver at all.  When no subtest of [Run] failed, a
    driver that declares fan-out delivered five accepted messages to each of two consumers of
    different names, on its own channel, and one that declares durable publishing refused a publish during the outage and delivered after
    it all three messages it had accepted before: a publish that returns without storing, or
    during the outage, cannot pass. *)
Theorem passing_proves {W} `{Broker W} patience range_order (w w' : W) b :
  br_open w = (w', Some b) → failed (Run patience range_order true w) = [] →
  (FanOut (br_Capabilities w' b) = true →
     ∃ t, ("FanOut", t) ∈ Run patience range_order true w ∧ fanned_out (t_history t)) ∧
  (DurablePublish (br_Capabilities w' b) = true →
     ∃ t, ("DurablePublish", t) ∈ Run patience range_order true w ∧ survived_outage (t_history t)).
Proof.
  intros Ho Hf. split; intros Hc; (eapply subtest_saw; [done..| |]).
  - unfold suite. rewrite Hc. do 7 right. apply elem_of_app. left. by left.
  - apply testFanOut_hist.
  - unfold suite. rewrite Hc, !elem_of_app. do 6 right. by left.
  - apply testDurablePublish_hist.
Qed.

(** ** Witnesses *)

Definition everything : Capabilities := mkCapabilities true true true true true true RetentionTime.

Lemma passing_proves_witness :
  ∃ t, ("DurablePublish", t) ∈ Run 50 (λ l, l) true (new_reference everything everything) ∧ survived_outage (t_history t).
Proof.
  refine (proj2 (passing_proves 50 (λ l, l) (new_reference everything everything) _ _ eq_refl _) eq_refl). vm_compute. reflexivity.
Defined.
