(* ===== verification/Sink.v ===== *)
(** * [internal/sink]: destination classes and the driver registry

    [Class] and its spellings (sink.go), the registry of drivers and [Build] (registry.go).
    A built sink is a handle: its name, its class, what its [Close] returns, and an
    identity.  [build] reports which handles the factories created and which were closed,
    in order, so that leaks can be stated. *)

From S2P Require Import Prelude.
From S2P Require Import Errors.
From S2P Require Import GoText.
From S2P Require Import GoNum.
From S2P Require Import Bus.

Local Open Scope Z_scope.

Definition Class_ : Set := Z.
Definition ClassTrace : Class_ := 1.
Definition ClassLog : Class_ := 2.
Definition ClassAnalytics : Class_ := 3.
Definition ClassArchive : Class_ := 4.
Definition ClassForward : Class_ := 5.

Definition classTrace : string := "trace".
Definition classLog : string := "log".
Definition classAnalytics : string := "analytics".
Definition classArchive : string := "archive".
Definition classForward : string := "forward".

Definition Classes : list string := [classTrace; classLog; classAnalytics; classArchive; classForward].

Definition ParseClass (s : string) : result Class_ :=
  if String.eqb s classTrace then Ok ClassTrace
  else if String.eqb s classLog then Ok ClassLog
  else if String.eqb s classAnalytics then Ok ClassAnalytics
  else if String.eqb s classArchive then Ok ClassArchive
  else if String.eqb s classForward then Ok ClassForward
  else Err (errorf "unknown sink class").

Definition Class_String (c : Class_) : string :=
  if c =? ClassTrace then classTrace
  else if c =? ClassLog then classLog
  else if c =? ClassAnalytics then classAnalytics
  else if c =? ClassArchive then classArchive
  else if c =? ClassForward then classForward
  else enum_default "Class" c.

Definition Class_valid (c : Class_) : bool := (ClassTrace <=? c) && (c <=? ClassForward).

Definition ConsumerName (sinkName : string) : string := "sink-" +:+ sinkName.

(** ** Sinks and drivers *)

Record SinkHandle := mkSinkHandle {
  sk_id : Z; sk_Name : string; sk_Class : Class_; sk_Close : option error }.

Record Instance_ := mkInstance { i_Sink : SinkHandle; i_StartFrom : StartPosition; i_Driver : string }.

(** The part of [config.SinkConfig] that [Build] reads; [c_Block] names the driver block. *)
Record SinkConfig := mkSinkConfig {
  sc_Name : string; sc_Class : string; sc_Driver : string; sc_StartFrom : string; sc_Block : string }.

(** A factory returns a sink, no sink ([Ok None]), or an error. *)
Definition Factory : Type := string → string → result (option SinkHandle).

Record SinkDriver := mkSinkDriver { sd_Factory : option Factory; sd_Describer : option (string → result string) }.

(** [RegisterDriver]; [None] is a panic. *)
Definition RegisterDriver (r : gmap Z (gmap string SinkDriver)) (class : Class_) (name : string) (d : SinkDriver)
    : option (gmap Z (gmap string SinkDriver)) :=
  if negb (Class_valid class) then None
  else if bool_decide (name = "") then None
  else match sd_Factory d, sd_Describer d with
       | Some _, Some _ =>
           let byName := default ∅ (r !! class) in
           match byName !! name with
           | Some _ => None
           | None => Some (<[class := <[name := d]> byName]> r)
           end
       | _, _ => None
       end.

Definition Drivers (r : gmap Z (gmap string SinkDriver)) (class : Class_) : gset string :=
  dom (default ∅ (r !! class)).

(** What an operation of the registry did to sinks: created and closed ones. *)
Record effects := mkEffects { fx_created : list SinkHandle; fx_closed : list SinkHandle }.

Definition build (r : gmap Z (gmap string SinkDriver)) (cfg : SinkConfig) : result Instance_ * effects :=
  let fail e := (Err e, mkEffects [] []) in
  if bool_decide (sc_Name cfg = "") then fail (errorf "name is required") else
  match ValidateConsumerName (ConsumerName (sc_Name cfg)) with
  | Some e => fail e
  | None =>
  match ParseClass (sc_Class cfg) with
  | Err e => fail e
  | Ok class =>
  match ParseStartPosition (sc_StartFrom cfg) with
  | Err e => fail (EWrap "start_from" e)
  | Ok start =>
  if bool_decide (sc_Driver cfg = "") then fail (errorf "driver is required") else
  match default ∅ (r !! class) !! sc_Driver cfg with
  | None => fail (errorf "unknown driver")
  | Some d =>
  match sd_Factory d with
  | None => fail (errorf "nil factory")
  | Some f =>
  match f (sc_Name cfg) (sc_Block cfg) with
  | Err e => fail (EWrap "driver" e)
  | Ok None => fail (errorf "driver returned no sink")
  | Ok (Some s) =>
      if negb (String.eqb (sk_Name s) (sc_Name cfg)) || negb (sk_Class s =? class)
      then (Err (errorf "driver built another sink"), mkEffects [s] [s])
      else (Ok (mkInstance s start (sc_Driver cfg)), mkEffects [s] [])
  end end end end end end.

Definition closeAll (instances : list Instance_) : option error :=
  errors_join ((λ i, match sk_Close (i_Sink i) with
                     | Some e => Some (EWrap "close sink" e)
                     | None => None
                     end) <$> instances).

(** The loop of [Build]: [instances] are the ones built so far, [seen] their names. *)
Fixpoint build_loop (r : gmap Z (gmap string SinkDriver)) (cfgs : list SinkConfig)
    (instances : list Instance_) (seen : gset string) : result (list Instance_) * effects :=
  match cfgs with
  | [] => (Ok instances, mkEffects [] [])
  | cfg :: cfgs =>
      let '(inst, fx) := build r cfg in
      let '(inst, fx) :=
        match inst with
        | Ok i =>
            if bool_decide (sc_Name cfg ∈ seen)
            then (Err (errorf "duplicate sink name"), mkEffects (fx_created fx) (fx_closed fx ++ [i_Sink i]))
            else (Ok i, fx)
        | Err e => (Err e, fx)
        end in
      match inst with
      | Err e =>
          (Err (match closeAll instances with
                | Some e' => EJoin (EWrap "sinks" e) e'
                | None => EWrap "sinks" e
                end),
           mkEffects (fx_created fx) (fx_closed fx ++ (i_Sink <$> instances)))
      | Ok i =>
          let '(res, fx') := build_loop r cfgs (instances ++ [i]) ({[sc_Name cfg]} ∪ seen) in
          (res, mkEffects (fx_created fx ++ fx_created fx') (fx_closed fx ++ fx_closed fx'))
      end
  end%list.

Definition Build (r : gmap Z (gmap string SinkDriver)) (cfgs : list SinkConfig) : result (list Instance_) * effects :=
  build_loop r cfgs [] ∅.

(** ** Lemmas *)

Lemma ParseClass_valid s c : ParseClass s = Ok c → Class_valid c = true ∧ Class_String c = s.
Proof. unfold ParseClass. break; to_prop; subst; done. Qed.

(** An instance is what its configuration asks for. *)
Definition instance_of (cfg : SinkConfig) (i : Instance_) : Prop :=
  sk_Name (i_Sink i) = sc_Name cfg ∧ ParseClass (sc_Class cfg) = Ok (sk_Class (i_Sink i)) ∧
  ParseStartPosition (sc_StartFrom cfg) = Ok (i_StartFrom i) ∧ i_Driver i = sc_Driver cfg ∧
  ValidateConsumerName (ConsumerName (sc_Name cfg)) = None.

Lemma build_spec r cfg res fx :
  build r cfg = (res, fx) →
  match res with
  | Ok i => instance_of cfg i ∧ fx_created fx = [i_Sink i] ∧ fx_closed fx = []
  | Err _ => fx_closed fx = fx_created fx
  end.
Proof.
  unfold build. intros H.
  repeat (match type of H with context [match ?x with _ => _ end] => destruct x eqn:? end; simplify_eq/=; [done|]);
  repeat case_match; simplify_eq/=; try done. to_prop. by subst.
Qed.

Lemma build_loop_spec r cfgs instances seen res fx :
  build_loop r cfgs instances seen = (res, fx) →
  match res with
  | Ok l => ∃ l', l = (instances ++ l')%list ∧ Forall2 instance_of cfgs l' ∧
                  NoDup (sc_Name <$> cfgs) ∧ (∀ c, c ∈ cfgs → sc_Name c ∉ seen) ∧
                  fx_created fx = (i_Sink <$> l') ∧ fx_closed fx = []
  | Err _ => fx_closed fx ≡ₚ (fx_created fx ++ (i_Sink <$> instances))%list
  end.
Proof.
  revert instances seen res fx. induction cfgs as [|cfg cfgs IH]; intros instances seen res fx H; simpl in H.
  { injection H as <- <-. exists []. rewrite app_nil_r. split_and!; try done; [constructor|set_solver]. }
  destruct (build r cfg) as [inst fx0] eqn:E. apply build_spec in E. destruct inst as [i|e].
  - destruct E as (Hi & Hc & Hcl). case_bool_decide.
    + injection H as <- <-. cbn [fx_created fx_closed]. rewrite Hc, Hcl. done.
    + destruct (build_loop r cfgs (instances ++ [i]) _) as [res' fx'] eqn:E2. injection H as <- <-.
      apply IH in E2. cbn [fx_created fx_closed]. rewrite Hc, Hcl. destruct res' as [l|e'].
      * destruct E2 as (l' & -> & HF & HN & Hs & -> & ->). exists (i :: l').
        rewrite <- app_assoc. split_and!; try done.
        -- by constructor.
        -- rewrite fmap_cons. apply NoDup_cons. split; [|done]. intros (c & Hc1 & Hc2)%list_elem_of_fmap.
           apply Hs in Hc2. set_solver.
        -- intros c [->|Hc2]%elem_of_cons; [done|]. apply Hs in Hc2. set_solver.
      * cbn [app]. rewrite E2, fmap_app. simpl. solve_Permutation.
  - injection H as <- <-. cbn [fx_created fx_closed]. by rewrite E.
Qed.

(** ** Properties *)

(** [Build] is all or nothing.  On success there is one instance per entry, in order,
    each the sink, class, start position and driver its entry names, with names that are
    unique and valid consumer names, and nothing was closed.  On failure every sink any
    factory created has been closed exactly once. *)
Lemma Build_all_or_nothing r cfgs :
  let '(res, fx) := Build r cfgs in
  match res with
  | Ok l => Forall2 instance_of cfgs l ∧ NoDup (sc_Name <$> cfgs) ∧
            fx_created fx = (i_Sink <$> l) ∧ fx_closed fx = []
  | Err _ => fx_closed fx ≡ₚ fx_created fx
  end.
Proof.
  unfold Build. destruct (build_loop r cfgs [] ∅) as [res fx] eqn:E. apply build_loop_spec in E.
  destruct res as [l|e]; [|by rewrite app_nil_r in E].
  destruct E as (l' & -> & HF & HN & _ & Hc & Hcl). done.
Qed.
