(* ===== verification/Simulation.v ===== *)
(** * Forward simulation

    An implementation refines a specification when every step it takes is zero or more steps of
    the specification, along a relation between their states.  The section lifts such a
    diagram from steps to runs. *)

From S2P Require Import Prelude.

Section Simulation.
Context {C A : Type}.
Variables (cstep : relation C) (astep : relation A) (R : C → A → Prop).

Definition simulates : Prop :=
  ∀ c c' a, R c a → cstep c c' → ∃ a', rtc astep a a' ∧ R c' a'.

Lemma simulates_run : simulates → ∀ c c' a, R c a → rtc cstep c c' → ∃ a', rtc astep a a' ∧ R c' a'.
Proof.
  intros Hs c c' a Ha Hrun. revert a Ha. induction Hrun as [c|c c1 c' Hstep _ IH]; intros a Ha; [by exists a|].
  destruct (Hs c c1 a Ha Hstep) as (a1 & H1 & Ha1). destruct (IH a1 Ha1) as (a' & H2 & Ha').
  exists a'. split; [by etransitivity|done].
Qed.
End Simulation.
