(* ===== verification/SingleFlight.v ===== *)
(** * [internal/sink/singleflight.go]: one attempt at a time, shared by concurrent callers

    Each goroutine in [Do] or [Peek] is a thread with a program counter; one step of a thread
    is what it does between two points where others can interfere: a section under [f.mu],
    the end of [open], the close of [call.done], or the wake-up of a [select].  [sf_step] is
    executable: it takes the thread and the outcome the environment chose (what [open]
    returned, or that [ctx] ended).  The theorems hold for every interleaving. *)

From S2P Require Import Prelude.
From S2P Require Import Errors.

Section SingleFlight.
Context {T : Type}.

(** How a call ended: [open] may also panic, which is re-raised after the cleanup. *)
Inductive outcome : Type :=
  | OOk (v : T)
  | OErr (e : error)
  | OPanic.

Inductive pc : Type :=
  | DoEnter                              (* at the top of the loop of Do *)
  | DoWait (c : nat)                     (* in the select on call.done *)
  | DoOpen (c : nat)                     (* inside open *)
  | DoDefer (c : nat) (r : outcome)      (* open returned, before the deferred section *)
  | DoClose (c : nat) (r : outcome)      (* after the deferred section, before close *)
  | DoDone (r : outcome)
  | PeekEnter
  | PeekWait (c : nat)
  | PeekDone (v : option T).

Record flight := mkFlight {
  f_ready : option T;                    (* ready and value *)
  f_call : option nat;                   (* the call in flight *)
  f_next : nat;                          (* identities of the calls made so far *)
  f_closed : gset nat;                   (* calls whose done channel is closed *)
  f_threads : gmap nat pc }.

Inductive choice : Type :=
  | Go                                   (* the thread runs its next section *)
  | Opened (r : outcome)                 (* open returned *)
  | CtxDone (e : error).                 (* ctx ended while waiting *)

Definition goto (s : flight) (t : nat) (p : pc) : flight :=
  mkFlight (f_ready s) (f_call s) (f_next s) (f_closed s) (<[t := p]> (f_threads s)).

(** The locked section at the top of [Do]. *)
Definition do_enter (s : flight) (t : nat) : flight :=
  match f_ready s with
  | Some v => goto s t (DoDone (OOk v))
  | None =>
      match f_call s with
      | Some c => goto s t (DoWait c)
      | None =>
          goto (mkFlight None (Some (f_next s)) (S (f_next s)) (f_closed s) (f_threads s)) t (DoOpen (f_next s))
      end
  end.

(** The locked section of [attempt]'s deferred function. *)
Definition attempt_defer (s : flight) (t : nat) (c : nat) (r : outcome) : flight :=
  let ready := match r with OOk v => Some v | _ => f_ready s end in
  goto (mkFlight ready None (f_next s) (f_closed s) (f_threads s)) t (DoClose c r).

(** [close(call.done)], then the return (or the re-raised panic). *)
Definition attempt_close (s : flight) (t : nat) (c : nat) (r : outcome) : flight :=
  goto (mkFlight (f_ready s) (f_call s) (f_next s) ({[c]} ∪ f_closed s) (f_threads s)) t (DoDone r).

(** The locked section at the top of [Peek]. *)
Definition peek_enter (s : flight) (t : nat) : flight :=
  match f_ready s, f_call s with
  | Some v, _ => goto s t (PeekDone (Some v))
  | None, None => goto s t (PeekDone None)
  | None, Some c => goto s t (PeekWait c)
  end.

(** [Ready] *)
Definition Ready (s : flight) : option T := f_ready s.

Definition sf_step (s : flight) (t : nat) (ch : choice) : option flight :=
  match f_threads s !! t, ch with
  | Some DoEnter, Go => Some (do_enter s t)
  | Some (DoWait c), Go => if bool_decide (c ∈ f_closed s) then Some (goto s t DoEnter) else None
  | Some (DoWait _), CtxDone e => Some (goto s t (DoDone (OErr e)))
  | Some (DoOpen c), Opened r => Some (goto s t (DoDefer c r))
  | Some (DoDefer c r), Go => Some (attempt_defer s t c r)
  | Some (DoClose c r), Go => Some (attempt_close s t c r)
  | Some PeekEnter, Go => Some (peek_enter s t)
  | Some (PeekWait c), Go => if bool_decide (c ∈ f_closed s) then Some (goto s t PeekEnter) else None
  | Some (PeekWait _), CtxDone _ => Some (goto s t (PeekDone None))
  | _, _ => None
  end.

(** A run of the steps of a schedule. *)
Fixpoint sf_run (s : flight) (sched : list (nat * choice)) : option flight :=
  match sched with
  | [] => Some s
  | (t, ch) :: sched => match sf_step s t ch with Some s' => sf_run s' sched | None => None end
  end.

(** A fresh [SingleFlight] with threads about to call [Do] or [Peek]. *)
Definition sf_init (dos peeks : gset nat) : flight :=
  mkFlight None None 0 ∅ (gset_to_gmap DoEnter dos ∪ gset_to_gmap PeekEnter peeks).

(** ** The invariant *)

(** The call a thread owns while it is in flight. *)
Definition owns (p : pc) : option nat :=
  match p with DoOpen c | DoDefer c _ => Some c | _ => None end.

(** The call a thread will close. *)
Definition closes (p : pc) : option nat :=
  match p with DoOpen c | DoDefer c _ | DoClose c _ => Some c | _ => None end.

Definition waits (p : pc) : option nat :=
  match p with DoWait c | PeekWait c => Some c | _ => None end.

(** The success a thread reports. *)
Definition reports (p : pc) : option T :=
  match p with DoClose _ (OOk v) | DoDone (OOk v) | PeekDone (Some v) => Some v | _ => None end.

Record sf_inv (s : flight) : Prop := {
  (* the call in flight is owned by exactly one thread *)
  inv_owner t p c : f_threads s !! t = Some p → owns p = Some c → f_call s = Some c;
  inv_unique t1 t2 p1 p2 c : f_threads s !! t1 = Some p1 → f_threads s !! t2 = Some p2 →
    closes p1 = Some c → closes p2 = Some c → t1 = t2;
  inv_owned c : f_call s = Some c → ∃ t p, f_threads s !! t = Some p ∧ owns p = Some c;
  (* once ready, nothing is in flight *)
  inv_ready v : f_ready s = Some v → f_call s = None;
  inv_reports t p v : f_threads s !! t = Some p → reports p = Some v → f_ready s = Some v;
  (* a call somebody waits for is closed, or will be *)
  inv_waits t p c : f_threads s !! t = Some p → waits p = Some c →
    c ∈ f_closed s ∨ ∃ t' p', f_threads s !! t' = Some p' ∧ closes p' = Some c;
  inv_fresh t p c : f_threads s !! t = Some p → closes p = Some c → c < f_next s }.

Lemma sf_init_inv dos peeks : sf_inv (sf_init dos peeks).
Proof.
  assert (∀ t p, f_threads (sf_init dos peeks) !! t = Some p → p = DoEnter ∨ p = PeekEnter) as H.
  { intros t p [H|[_ H]]%lookup_union_Some_raw; apply lookup_gset_to_gmap_Some in H as [_ <-]; auto. }
  constructor; try done.
  all: intros; repeat match goal with Hl : f_threads _ !! _ = Some _ |- _ => apply H in Hl as [-> | ->] end; done.
Qed.

(** Case analysis on a lookup in an updated thread map. *)
Ltac upd := repeat match goal with
  | H : <[_ := _]> _ !! _ = Some _ |- _ => apply lookup_insert_Some in H as [[<- <-]|[? H]]
  end.

Lemma owns_closes (p : pc) c : owns p = Some c → closes p = Some c.
Proof. by destruct p. Qed.

(** Some thread closes [c], also after [t] moved to [p'] that closes what [p] did. *)
Lemma closes_goto s t p p' c :
  f_threads s !! t = Some p → closes p' = closes p →
  (∃ t0 p0, f_threads s !! t0 = Some p0 ∧ closes p0 = Some c) →
  ∃ t0 p0, <[t := p']> (f_threads s) !! t0 = Some p0 ∧ closes p0 = Some c.
Proof.
  intros Ht Hc (t0 & p0 & H0 & H1). destruct (decide (t = t0)) as [->|].
  - exists t0, p'. rewrite lookup_insert_eq. split; [done|]. congruence.
  - exists t0, p0. by rewrite lookup_insert_ne.
Qed.

(** A thread that moves without touching the shared state. *)
Lemma goto_inv s t p p' :
  sf_inv s → f_threads s !! t = Some p → owns p' = owns p → closes p' = closes p →
  (∀ v, reports p' = Some v → f_ready s = Some v) →
  (∀ c, waits p' = Some c →
     c ∈ f_closed s ∨ ∃ t' q, f_threads s !! t' = Some q ∧ closes q = Some c) →
  sf_inv (goto s t p').
Proof.
  intros [I1 I2 I3 I4 I5 I6 I7] Ht Ho Hc Hr Hw. constructor; cbn [goto f_threads f_call f_ready f_closed f_next].
  - intros t1 p1 c H1 H2. upd; [rewrite Ho in H2|]; eauto.
  - intros t1 t2 p1 p2 c H1 H2 H3 H4. upd; rewrite ?Hc in *; eauto.
  - intros c Hcall. destruct (I3 c Hcall) as (t0 & p0 & H0 & H1). destruct (decide (t = t0)) as [->|].
    + exists t0, p'. rewrite lookup_insert_eq. split; [done|congruence].
    + exists t0, p0. by rewrite lookup_insert_ne.
  - done.
  - intros t1 p1 v H1 H2. upd; eauto.
  - intros t1 p1 c H1 H2. upd; [destruct (Hw c H2)|destruct (I6 _ _ _ H1 H2)]; try (by left);
      right; by eapply closes_goto.
  - intros t1 p1 c H1 H2. upd; [rewrite Hc in H2|]; eauto.
Qed.

Lemma do_enter_inv s t : sf_inv s → f_threads s !! t = Some DoEnter → sf_inv (do_enter s t).
Proof.
  intros I Ht. pose proof I as [I1 I2 I3 I4 I5 I6 I7]. unfold do_enter.
  destruct (f_ready s) as [v|] eqn:Er.
  { eapply goto_inv; try done. simpl. congruence. }
  destruct (f_call s) as [c|] eqn:Ec.
  { eapply goto_inv; try done. intros c' [= <-]. right. destruct (I3 c eq_refl) as (t0 & p0 & H0 & H1%owns_closes).
    eauto. }
  assert (∀ t p, f_threads s !! t = Some p → closes p ≠ Some (f_next s)) as Hf.
  { intros t1 p1 H1 H2. apply (I7 _ _ _ H1) in H2. lia. }
  constructor; cbn [goto f_threads f_call f_ready f_closed f_next].
  - intros t1 p1 c H1 H2. upd; [done|]. by apply (I1 _ _ _ H1) in H2.
  - intros t1 t2 p1 p2 c H1 H2 H3 H4. upd; first
      [ done
      | exfalso; match goal with Hl : f_threads s !! _ = Some _ |- _ => apply (Hf _ _ Hl) end;
        simpl in *; congruence
      | eauto ].
  - intros c [= <-]. exists t, (DoOpen (f_next s)). by rewrite lookup_insert_eq.
  - done.
  - intros t1 p1 v H1 H2. upd; [done|]. by apply (I5 _ _ _ H1) in H2.
  - intros t1 p1 c H1 H2. upd; [done|]. destruct (I6 _ _ _ H1 H2) as [|(t0 & p0 & H3 & H4)]; [by left|right].
    destruct (decide (t = t0)) as [->|]; [rewrite Ht in H3; simplify_eq/=|].
    exists t0, p0. by rewrite lookup_insert_ne.
  - intros t1 p1 c H1 H2. upd; simplify_eq/=; [lia|]. apply (I7 _ _ _ H1) in H2. lia.
Qed.

Lemma attempt_defer_inv s t c r :
  sf_inv s → f_threads s !! t = Some (DoDefer c r) → sf_inv (attempt_defer s t c r).
Proof.
  intros I Ht. pose proof I as [I1 I2 I3 I4 I5 I6 I7]. unfold attempt_defer.
  pose proof (I1 _ _ c Ht eq_refl) as Hcall.
  assert (f_ready s = None) as Hnr by (destruct (f_ready s) as [v|]; [specialize (I4 v eq_refl); congruence|done]).
  constructor; cbn [goto f_threads f_call f_ready f_closed f_next].
  - intros t1 p1 c1 H1 H2. upd; [done|]. pose proof (I1 _ _ _ H1 H2) as H3. exfalso. apply owns_closes in H2.
    simplify_eq. by apply (I2 t t1 _ _ _ Ht H1 eq_refl) in H2.
  - intros t1 t2 p1 p2 c1 H1 H2 H3 H4. upd; simplify_eq/=; eauto.
  - done.
  - done.
  - intros t1 p1 v H1 H2. upd; [by destruct r|]. apply (I5 _ _ _ H1) in H2. congruence.
  - intros t1 p1 c1 H1 H2. upd; [done|]. destruct (I6 _ _ _ H1 H2); [by left|right]. by eapply closes_goto.
  - intros t1 p1 c1 H1 H2. upd; [|eauto]. by eapply (I7 t).
Qed.

Lemma attempt_close_inv s t c r :
  sf_inv s → f_threads s !! t = Some (DoClose c r) → sf_inv (attempt_close s t c r).
Proof.
  intros I Ht. pose proof I as [I1 I2 I3 I4 I5 I6 I7]. unfold attempt_close.
  constructor; cbn [goto f_threads f_call f_ready f_closed f_next].
  - intros t1 p1 c1 H1 H2. upd; [done|eauto].
  - intros t1 t2 p1 p2 c1 H1 H2 H3 H4. upd; try done; eauto.
  - intros c1 H1. destruct (I3 c1 H1) as (t0 & p0 & H2 & H3). exists t0, p0.
    destruct (decide (t = t0)) as [->|]; [|by rewrite lookup_insert_ne]. rewrite Ht in H2. by simplify_eq/=.
  - done.
  - intros t1 p1 v H1 H2. upd; eauto.
  - intros t1 p1 c1 H1 H2. upd; [done|]. destruct (decide (c1 = c)) as [->|]; [left; set_solver|].
    destruct (I6 _ _ _ H1 H2) as [|(t0 & p0 & H3 & H4)]; [left; set_solver|right].
    exists t0, p0. destruct (decide (t = t0)) as [->|]; [|by rewrite lookup_insert_ne].
    rewrite Ht in H3. by simplify_eq/=.
  - intros t1 p1 c1 H1 H2. upd; [done|eauto].
Qed.

Lemma sf_step_inv s t ch s' : sf_inv s → sf_step s t ch = Some s' → sf_inv s'.
Proof.
  intros I H. unfold sf_step in H. destruct (f_threads s !! t) as [p|] eqn:Ht; [|done].
  pose proof I as [I1 I2 I3 I4 I5 I6 I7].
  destruct p, ch; try done; try (case_bool_decide; [|done]); injection H as <-;
    try (by apply do_enter_inv); try (by apply attempt_defer_inv); try (by apply attempt_close_inv);
    try (by eapply goto_inv).
  - unfold peek_enter. destruct (f_ready s) as [v|] eqn:Er; [|destruct (f_call s) as [c|] eqn:Ec].
    + eapply goto_inv; try done. simpl. congruence.
    + eapply goto_inv; try done. intros c' [= <-]. right.
      destruct (I3 c eq_refl) as (t0 & p0 & H0 & H1%owns_closes). eauto.
    + by eapply goto_inv.
Qed.

Lemma sf_run_inv s sched s' : sf_inv s → sf_run s sched = Some s' → sf_inv s'.
Proof.
  revert s. induction sched as [|[t ch] sched IH]; intros s I H; simpl in H; [by simplify_eq|].
  destruct (sf_step s t ch) eqn:E; [|done]. eapply IH; [|done]. by eapply sf_step_inv.
Qed.

(** Once ready, the value stays. *)
Lemma sf_step_ready s t ch s' v : sf_inv s → sf_step s t ch = Some s' → f_ready s = Some v → f_ready s' = Some v.
Proof.
  intros I H Hv. unfold sf_step in H. destruct (f_threads s !! t) as [p|] eqn:Ht; [|done].
  destruct p; destruct ch; try done; try (case_bool_decide; [|done]); injection H as <-; try done.
  - unfold do_enter. by rewrite Hv.
  - exfalso. destruct I as [I1 _ _ I4 _ _ _]. apply I4 in Hv. rewrite (I1 _ _ _ Ht eq_refl) in Hv. done.
  - unfold peek_enter. by rewrite Hv.
Qed.

Lemma sf_run_ready s sched s' v : sf_inv s → sf_run s sched = Some s' → f_ready s = Some v → f_ready s' = Some v.
Proof.
  revert s. induction sched as [|[t ch] sched IH]; intros s I H Hv; simpl in H; [by simplify_eq|].
  destruct (sf_step s t ch) eqn:E; [|done]. eapply IH; [|done|]; [by eapply sf_step_inv|by eapply sf_step_ready].
Qed.

Definition opening (p : pc) : Prop := match p with DoOpen _ => True | _ => False end.
Definition finished (p : pc) : Prop := match p with DoDone _ | PeekDone _ => True | _ => False end.

End SingleFlight.
Arguments outcome : clear implicits.
Arguments pc : clear implicits.
Arguments flight : clear implicits.
Arguments choice : clear implicits.
Arguments owns {T} _.
Arguments closes {T} _.

(** ** Properties *)

(** In every interleaving of any number of [Do] and [Peek] callers, whatever [open]
    returns (a value, an error or a panic) and whenever contexts end: at most one thread is
    inside [open]; no thread is inside [open] once an attempt succeeded; and every success
    that any caller reports is the one cached value. *)
Lemma SingleFlight_safe {T} (dos peeks : gset nat) sched (s : flight T) :
  sf_run (sf_init dos peeks) sched = Some s →
  (∀ t1 t2 p1 p2, f_threads s !! t1 = Some p1 → f_threads s !! t2 = Some p2 →
     opening p1 → opening p2 → t1 = t2) ∧
  (∀ t p v, Ready s = Some v → f_threads s !! t = Some p → ¬ opening p) ∧
  (∀ t p v, f_threads s !! t = Some p → reports p = Some v → Ready s = Some v).
Proof.
  intros H. assert (sf_inv s) as I by (eapply sf_run_inv; [apply sf_init_inv|exact H]).
  destruct I as [I1 I2 I3 I4 I5 I6 I7]. split_and!.
  - intros t1 t2 p1 p2 H1 H2 O1 O2. destruct p1 as [| |c1| | | | | |], p2 as [| |c2| | | | | |]; try done.
    pose proof (I1 _ _ _ H1 eq_refl) as E1. pose proof (I1 _ _ _ H2 eq_refl) as E2.
    rewrite E1 in E2. injection E2 as <-. by eapply I2.
  - intros t p v Hv Ht Hp. destruct p; try done. apply I4 in Hv. rewrite (I1 _ _ _ Ht eq_refl) in Hv. done.
  - exact I5.
Qed.

(** The cache is monotone: a value produced by one attempt is the value at every later
    point of every continuation; it is never replaced, dropped or reopened. *)
Lemma SingleFlight_stable {T} (dos peeks : gset nat) sched1 sched2 (s1 s2 : flight T) v :
  sf_run (sf_init dos peeks) sched1 = Some s1 → Ready s1 = Some v →
  sf_run s1 sched2 = Some s2 → Ready s2 = Some v.
Proof.
  intros H1 Hv H2. eapply sf_run_ready; [|exact H2|exact Hv].
  eapply sf_run_inv; [apply sf_init_inv|exact H1].
Qed.

(** C17: no caller is stranded: in every reachable state in which some caller has not
    returned, some thread can take a step without any context ending, also after [open]
    panicked. *)
Theorem SingleFlight_progress {T} (dos peeks : gset nat) sched (s : flight T) t p :
  sf_run (sf_init dos peeks) sched = Some s → f_threads s !! t = Some p → ¬ finished p →
  ∃ t' ch s', sf_step s t' ch = Some s' ∧ (∀ e, ch ≠ CtxDone e).
Proof.
  intros H Ht Hp. assert (sf_inv s) as I by (eapply sf_run_inv; [apply sf_init_inv|exact H]).
  assert (∀ t' q, f_threads s !! t' = Some q → closes q ≠ None →
    ∃ ch s', sf_step s t' ch = Some s' ∧ (∀ e, ch ≠ CtxDone e)) as Hown.
  { intros t' q Hq Hcl. unfold sf_step. rewrite Hq. destruct q; try done;
      [exists (Opened OPanic)|exists Go|exists Go]; by eexists. }
  assert (∀ c, waits p = Some c → ∃ t' ch s', sf_step s t' ch = Some s' ∧ (∀ e, ch ≠ CtxDone e)) as Hwait.
  { intros c Hw. destruct (inv_waits s I t p c Ht Hw) as [Hc|(t' & q & Hq & Hcl)].
    - exists t, Go. unfold sf_step. rewrite Ht. destruct p; try done; simpl in Hw; injection Hw as ->;
        (rewrite bool_decide_true by done); by eexists.
    - exists t'. apply (Hown t' q Hq). by rewrite Hcl. }
  destruct p as [|c|c|c r|c r|r| |c|v]; try (by exfalso; apply Hp).
  - exists t, Go. unfold sf_step. rewrite Ht. by eexists.
  - by eapply Hwait.
  - exists t. by eapply Hown.
  - exists t. by eapply Hown.
  - exists t. by eapply Hown.
  - exists t, Go. unfold sf_step. rewrite Ht. by eexists.
  - by eapply Hwait.
Qed.

(** ** Witnesses: two callers of [Do], the first attempt panics, the second succeeds *)

Definition ex_sched : list (nat * choice nat) :=
  [(0, Go); (1, Go); (0, Opened OPanic); (0, Go); (0, Go); (1, Go); (1, Go); (1, Opened (OOk 7)); (1, Go)].
Definition ex_flight : flight nat := default (sf_init ∅ ∅) (sf_run (sf_init {[0; 1]} ∅) ex_sched).

Lemma ex_flight_run : sf_run (sf_init {[0; 1]} ∅) ex_sched = Some ex_flight.
Proof. vm_compute. reflexivity. Qed.

Lemma SingleFlight_safe_witness :
  f_threads ex_flight !! 1 = Some (DoClose 1 (OOk 7)) ∧ Ready ex_flight = Some 7.
Proof.
  assert (f_threads ex_flight !! 1 = Some (DoClose 1 (OOk 7))) as H1 by (vm_compute; reflexivity).
  split; [exact H1|].
  destruct (SingleFlight_safe {[0; 1]} ∅ ex_sched ex_flight ex_flight_run) as (_ & _ & H).
  exact (H 1 _ 7 H1 eq_refl).
Defined.

Definition ex_flight_end : flight nat := default ex_flight (sf_run ex_flight [(1, Go)]).

Lemma SingleFlight_stable_witness : Ready ex_flight_end = Some 7.
Proof.
  refine (SingleFlight_stable {[0; 1]} ∅ ex_sched [(1, Go)] ex_flight ex_flight_end 7 ex_flight_run _ _);
    vm_compute; reflexivity.
Defined.

Lemma SingleFlight_progress_witness :
  ∃ t' ch s', sf_step ex_flight t' ch = Some s' ∧ (∀ e, ch ≠ CtxDone e).
Proof.
  apply (SingleFlight_progress {[0; 1]} ∅ ex_sched ex_flight 1 (DoClose 1 (OOk 7)) ex_flight_run).
  - vm_compute. reflexivity.
  - intros H. exact H.
Defined.
