(* ===== verification/Once.v ===== *)
(** * What [sink.SingleFlight] promises: a cell that is filled once

    The abstract specification of [internal/sink/singleflight.go]: a cell that may be filled
    once, and callers that are answered one at a time, each in one atomic step.  The refinement
    theorem says that every interleaving of the machine of SingleFlight.v, with its mutex, its
    call channels and its waiting callers, is a sequence of such steps, each taken by a caller
    between its call and its return. *)

From S2P Require Import Prelude.
From S2P Require Import Errors.
From S2P Require Import Simulation.
From S2P Require Import SingleFlight.

(** ** The specification *)

Section Once.
Context {T : Type}.

(** What a call of [Do] or of [Peek] is answered. *)
Inductive response : Type :=
  | RDo (r : outcome T)
  | RPeek (v : option T).

Record once := mkOnce { o_cell : option T; o_resp : gmap nat response }.

Definition answer (o : once) (t : nat) (a : response) : once := mkOnce (o_cell o) (<[t := a]> (o_resp o)).

(** What an attempt leaves in the cell. *)
Definition fill (r : outcome T) : option T := match r with OOk v => Some v | _ => None end.

Inductive once_step : relation once :=
  | OnceHit o t v : o_resp o !! t = None → o_cell o = Some v → once_step o (answer o t (RDo (OOk v)))
  | OnceAttempt o t r : o_resp o !! t = None → o_cell o = None →
      once_step o (answer (mkOnce (fill r) (o_resp o)) t (RDo r))
  | OnceGiveUp o t e : o_resp o !! t = None → once_step o (answer o t (RDo (OErr e)))
  | OncePeek o t : o_resp o !! t = None → once_step o (answer o t (RPeek (o_cell o)))
  | OncePeekGiveUp o t : o_resp o !! t = None → once_step o (answer o t (RPeek None)).

(** ** The abstraction of a state of the machine *)

(** A caller is answered once its result can no longer change. *)
Definition response_of (p : pc T) : option response :=
  match p with
  | DoClose _ r | DoDone r => Some (RDo r)
  | PeekDone v => Some (RPeek v)
  | _ => None
  end.

Definition abs (s : flight T) : once := mkOnce (f_ready s) (omap response_of (f_threads s)).

(** ** Lemmas *)

Lemma omap_insert_quiet (m : gmap nat (pc T)) t p q :
  m !! t = Some q → response_of p = response_of q → omap response_of (<[t := p]> m) = omap response_of m.
Proof.
  intros Ht He. apply map_eq. intros i. rewrite !lookup_omap. destruct (decide (t = i)) as [->|].
  - rewrite lookup_insert_eq, Ht. exact He.
  - by rewrite lookup_insert_ne.
Qed.

Lemma omap_insert_answer (m : gmap nat (pc T)) t p a :
  response_of p = Some a → omap response_of (<[t := p]> m) = <[t := a]> (omap response_of m).
Proof. intros H. by apply omap_insert_Some. Qed.

(** A step that answers nobody and leaves the cell alone is no step of the specification. *)
Lemma abs_quiet s s' t p q :
  f_threads s !! t = Some q → response_of p = response_of q → f_ready s' = f_ready s →
  f_threads s' = <[t := p]> (f_threads s) → abs s' = abs s.
Proof. intros Ht Hr Hc Hm. unfold abs. rewrite Hc, Hm. f_equal. by eapply omap_insert_quiet. Qed.

Lemma abs_unanswered s t q : f_threads s !! t = Some q → response_of q = None → o_resp (abs s) !! t = None.
Proof. intros Ht Hq. unfold abs. cbn [o_resp]. by rewrite lookup_omap, Ht. Qed.

Definition sf_any (s s' : flight T) : Prop := ∃ t ch, sf_step s t ch = Some s'.

(** The simulation relation: a state that satisfies the invariant, and its abstraction. *)
Definition refines (s : flight T) (o : once) : Prop := sf_inv s ∧ o = abs s.

Lemma step_quiet s s' t p q :
  sf_inv s' → f_threads s !! t = Some q → f_threads s' = <[t := p]> (f_threads s) → f_ready s' = f_ready s →
  response_of p = response_of q → ∃ o, rtc once_step (abs s) o ∧ refines s' o.
Proof. intros I Ht Hm Hc Hr. exists (abs s'). split; [|done]. by rewrite (abs_quiet s s' t p q). Qed.

Lemma step_answer s s' t p a :
  sf_inv s' → f_threads s' = <[t := p]> (f_threads s) → response_of p = Some a →
  once_step (abs s) (answer (mkOnce (f_ready s') (o_resp (abs s))) t a) →
  ∃ o, rtc once_step (abs s) o ∧ refines s' o.
Proof.
  intros I Hm Hp Hs. exists (abs s'). split; [|done]. apply rtc_once.
  assert (abs s' = answer (mkOnce (f_ready s') (o_resp (abs s))) t a) as ->; [|done].
  unfold abs, answer. cbn [o_cell o_resp]. by rewrite Hm, (omap_insert_answer _ _ _ a).
Qed.

Ltac quiet := eapply step_quiet; [done|done|reflexivity|done|done].

Lemma sf_simulates : simulates sf_any once_step refines.
Proof.
  intros s s' o [I ->] (t & ch & H). pose proof (sf_step_inv s t ch s' I H) as I'.
  unfold sf_step in H. destruct (f_threads s !! t) as [p|] eqn:Ht; [|done].
  assert (response_of p = None → o_resp (abs s) !! t = None) as Hun by (by eapply abs_unanswered).
  destruct p as [|c|c|c r|c r|r| |c|v], ch as [|r'|e]; try done; try (case_bool_decide; [|done]); injection H as <-.
  - unfold do_enter in *. destruct (f_ready s) as [v|] eqn:Er; [|destruct (f_call s) as [c|] eqn:Ec].
    + eapply step_answer; [done|reflexivity|reflexivity|]. cbn [goto f_ready]. by apply OnceHit; [apply Hun|].
    + quiet.
    + quiet.
  - quiet.
  - eapply step_answer; [done|reflexivity|reflexivity|]. by apply OnceGiveUp, Hun.
  - quiet.
  - eapply step_answer; [done|reflexivity|reflexivity|]. unfold attempt_defer in *. cbn [goto f_ready] in *.
    assert (f_ready s = None) as Hn.
    { destruct (f_ready s) as [v|] eqn:E; [|done]. destruct I as [I1 _ _ I4 _ _ _].
      apply I4 in E. by rewrite (I1 _ _ _ Ht eq_refl) in E. }
    rewrite Hn. replace (match r with OOk v => Some v | _ => None end) with (fill r) by reflexivity.
    by apply OnceAttempt; [apply Hun|].
  - quiet.
  - unfold peek_enter in *. destruct (f_ready s) as [v|] eqn:Er; [|destruct (f_call s) as [c|] eqn:Ec].
    + eapply step_answer; [done|reflexivity|reflexivity|]. cbn [goto f_ready].
      assert (Some v = o_cell (abs s)) as -> by (by symmetry). by apply OncePeek, Hun.
    + quiet.
    + eapply step_answer; [done|reflexivity|reflexivity|]. cbn [goto f_ready].
      by apply OncePeekGiveUp, Hun.
  - quiet.
  - eapply step_answer; [done|reflexivity|reflexivity|]. by apply OncePeekGiveUp, Hun.
Qed.

Lemma sf_run_rtc s sched s' : sf_run s sched = Some s' → rtc sf_any s s'.
Proof.
  revert s. induction sched as [|[t ch] sched IH]; intros s H; simpl in H; [by injection H as ->|].
  destruct (sf_step s t ch) as [s1|] eqn:E; [|done]. eapply rtc_l; [by exists t, ch|]. by apply IH.
Qed.

Lemma abs_init dos peeks : abs (sf_init dos peeks) = mkOnce None ∅.
Proof.
  unfold abs, sf_init. cbn [f_ready f_threads]. f_equal. apply map_eq. intros i. rewrite lookup_omap, lookup_empty.
  destruct ((_ ∪ _) !! i) as [p|] eqn:E; [|done].
  apply lookup_union_Some_raw in E as [E|[_ E]]; by apply lookup_gset_to_gmap_Some in E as [_ <-].
Qed.

End Once.
Arguments once : clear implicits.

(** ** Properties *)

(** C11: the single-flight opener is a cell that is filled once.  Whatever the schedule, what the
    callers of [Do] and [Peek] have been answered is the result of answering them one after
    the other, each atomically: by the cell's value, by an attempt of their own made while the
    cell was empty (which fills it when it succeeds), or, for a caller whose context ended, by
    that error. *)
Theorem SingleFlight_refines_once {T} (dos peeks : gset nat) sched (s : flight T) :
  sf_run (sf_init dos peeks) sched = Some s → rtc once_step (mkOnce None ∅) (abs s).
Proof.
  intros H%sf_run_rtc. rewrite <- (abs_init dos peeks).
  destruct (simulates_run _ _ _ sf_simulates _ _ (abs (sf_init dos peeks)) (conj (sf_init_inv dos peeks) eq_refl) H)
    as (o & Ho & _ & ->). done.
Qed.

Lemma SingleFlight_refines_once_witness :
  rtc once_step (mkOnce None ∅) (abs ex_flight) ∧ o_cell (abs ex_flight) = Some 7.
Proof.
  split; [exact (SingleFlight_refines_once {[0; 1]} ∅ ex_sched ex_flight ex_flight_run)|vm_compute; reflexivity].
Defined.
