(* ===== verification/Lazy.v ===== *)
(** * A handle that is opened on first use, shared by its users and closed once

    The protocol common to the forward bus driver ([Publisher] of
    [internal/sink/forward/drivers/bus/driver.go]: [open], [Opened], [Close]) and to the
    BigQuery writer ([streamFor] and [Close] of
    [internal/sink/analytics/drivers/bigquery/writer.go]): a [closed] flag under a mutex and a
    [sink.SingleFlight], which is the machine of SingleFlight.v, stepped by [sf_step].  Users
    and closers are threads; a handle is the number of the open that produced it, and
    [lz_shut] is the sequence of handles whose [Close] has been called.  The theorems hold for
    every interleaving, whatever the opens return and whenever the users' contexts end. *)

From S2P Require Import Prelude.
From S2P Require Import Errors.
From S2P Require Import SingleFlight.

Section Lazy.
(** The error of a call on a closed owner: [bus.ErrClosed], or the writer's permanent error. *)
Variable errClosed : error.

Inductive upc : Type :=
  | UEnter                           (* a user, before it reads closed *)
  | URefused                         (* it returned errClosed *)
  | UDo                              (* inside Do, where the flight says; or returned from it *)
  | UHas (h : nat)                   (* in the open function: h was opened *)
  | UChecked (h : nat) (shut : bool) (* ... and closed was read *)
  | CEnter                           (* a closer, before its locked section *)
  | CNil                             (* it returned nil: already closed *)
  | CPeek                            (* inside Peek *)
  | CDone.                           (* returned after Peek *)

Record lazy := mkLazy {
  lz_flight : flight nat;
  lz_closed : bool;
  lz_pcs : gmap nat upc;
  lz_next : nat;                     (* handles opened so far *)
  lz_shut : list nat }.              (* handles whose Close was called, the last one first *)

Inductive lchoice : Type :=
  | LGo
  | LOpenOk                          (* the target was opened *)
  | LOpenErr (e : error)
  | LOpenPanic
  | LCtx (e : error).                (* the user's ctx ended *)

Definition at_pc (s : lazy) (t : nat) (u : upc) : lazy :=
  mkLazy (lz_flight s) (lz_closed s) (<[t := u]> (lz_pcs s)) (lz_next s) (lz_shut s).

Definition shut_handle (s : lazy) (h : nat) : lazy :=
  mkLazy (lz_flight s) (lz_closed s) (lz_pcs s) (lz_next s) (h :: lz_shut s).

(** The thread takes a step of the single flight. *)
Definition fly (s : lazy) (t : nat) (ch : choice nat) : option lazy :=
  f ← sf_step (lz_flight s) t ch; Some (mkLazy f (lz_closed s) (lz_pcs s) (lz_next s) (lz_shut s)).

(** [open] and [streamFor]: the check of [closed], [Do], and the open function passed to it. *)
Definition user_step (s : lazy) (t : nat) (u : upc) (ch : lchoice) : option lazy :=
  match u, ch with
  | UEnter, LGo => Some (at_pc s t (if lz_closed s then URefused else UDo))
  | UDo, LGo => fly s t Go
  | UDo, LCtx e => fly s t (CtxDone e)
  | UDo, LOpenErr e => fly s t (Opened (OErr e))
  | UDo, LOpenPanic => fly s t (Opened OPanic)
  | UDo, LOpenOk =>
      match f_threads (lz_flight s) !! t with
      | Some (DoOpen _) =>
          Some (at_pc (mkLazy (lz_flight s) (lz_closed s) (lz_pcs s) (S (lz_next s)) (lz_shut s)) t (UHas (lz_next s)))
      | _ => None
      end
  | UHas h, LGo => Some (at_pc s t (UChecked h (lz_closed s)))
  | UChecked h true, LGo => fly (at_pc (shut_handle s h) t UDo) t (Opened (OErr errClosed))
  | UChecked h false, LGo => fly (at_pc s t UDo) t (Opened (OOk h))
  | _, _ => None
  end.

(** [Close]: the locked section, [Peek] under a context that never ends, the handle's [Close]. *)
Definition closer_step (s : lazy) (t : nat) (u : upc) (ch : lchoice) : option lazy :=
  match u, ch with
  | CEnter, LGo =>
      Some (if lz_closed s then at_pc s t CNil
            else at_pc (mkLazy (lz_flight s) true (lz_pcs s) (lz_next s) (lz_shut s)) t CPeek)
  | CPeek, LGo =>
      match f_threads (lz_flight s) !! t with
      | Some (PeekDone (Some h)) => Some (at_pc (shut_handle s h) t CDone)
      | Some (PeekDone None) => Some (at_pc s t CDone)
      | _ => fly s t Go
      end
  | _, _ => None
  end.

Definition lz_step (s : lazy) (t : nat) (ch : lchoice) : option lazy :=
  match lz_pcs s !! t with
  | Some u => match u with
              | CEnter | CNil | CPeek | CDone => closer_step s t u ch
              | _ => user_step s t u ch
              end
  | None => None
  end.

Fixpoint lz_run (s : lazy) (sched : list (nat * lchoice)) : option lazy :=
  match sched with
  | [] => Some s
  | (t, ch) :: sched => s' ← lz_step s t ch; lz_run s' sched
  end.

(** A fresh owner; the users call [open], the closers call [Close]. *)
Definition lz_init (users closers : gset nat) : lazy :=
  mkLazy (sf_init users closers) false (gset_to_gmap UEnter users ∪ gset_to_gmap CEnter closers) 0 [].

(** [Opened] *)
Definition lz_opened (s : lazy) : bool := if lz_closed s then false else bool_decide (is_Some (Ready (lz_flight s))).

(** ** What a thread holds *)

Definition tview : Type := upc * pc nat.
Definition view (s : lazy) (t : nat) : option tview :=
  u ← lz_pcs s !! t; p ← f_threads (lz_flight s) !! t; Some (u, p).

(** The handle a thread opened and has neither closed nor handed to the single flight. *)
Definition hold (x : tview) : option nat :=
  match x with
  | (UHas h, _) | (UChecked h _, _) => Some h
  | (UDo, DoDefer _ (OOk h)) => Some h
  | _ => None
  end.

(** The handle a thread is going to hand to the single flight. *)
Definition commit (x : tview) : option nat :=
  match x with
  | (UChecked h false, _) => Some h
  | (UDo, DoDefer _ (OOk h)) => Some h
  | _ => None
  end.

Definition active (x : tview) : bool := match x with (CPeek, _) | (CDone, _) => true | _ => false end.
Definition isdone (x : tview) : bool := match x with (CDone, _) => true | _ => false end.
Definition sealed (x : tview) : bool := match x with (CDone, _) | (CPeek, PeekDone None) => true | _ => false end.

Definition is_do (p : pc nat) : bool := match p with PeekEnter | PeekWait _ | PeekDone _ => false | _ => true end.

(** The thread's two program counters agree. *)
Definition wf (x : tview) : Prop :=
  match x with
  | (UEnter, p) | (URefused, p) => p = DoEnter
  | (UDo, p) => is_do p = true
  | (UHas _, p) | (UChecked _ _, p) => ∃ c, p = DoOpen c
  | (CEnter, p) | (CNil, p) => p = PeekEnter
  | (CPeek, p) => is_do p = false
  | (CDone, p) => ∃ v, p = PeekDone v
  end.

Record lz_shape (s : lazy) : Prop := {
  sh_flight : sf_inv (lz_flight s);
  sh_wf t x : view s t = Some x → wf x;
  sh_dom t : is_Some (lz_pcs s !! t) ↔ is_Some (f_threads (lz_flight s) !! t) }.

Record lz_inv (s : lazy) : Prop := {
  lz_shaped : lz_shape s;
  lz_held t x h : view s t = Some x → hold x = Some h →
    h < lz_next s ∧ h ∉ lz_shut s ∧ f_ready (lz_flight s) ≠ Some h;
  lz_ready h : f_ready (lz_flight s) = Some h → h < lz_next s;
  lz_shut_lt h : h ∈ lz_shut s → h < lz_next s;
  lz_nodup : NoDup (lz_shut s);
  (* no handle is lost *)
  lz_account h : h < lz_next s →
    h ∈ lz_shut s ∨ f_ready (lz_flight s) = Some h ∨ ∃ t x, view s t = Some x ∧ hold x = Some h;
  lz_active t x : view s t = Some x → active x = true → lz_closed s = true;
  lz_active_one t1 t2 x1 x2 : view s t1 = Some x1 → view s t2 = Some x2 →
    active x1 = true → active x2 = true → t1 = t2;
  lz_shut_ready h : f_ready (lz_flight s) = Some h → h ∈ lz_shut s →
    ∃ t x, view s t = Some x ∧ isdone x = true;
  (* once the closer knows what there is to close, nothing new becomes ready *)
  lz_sealed t x : view s t = Some x → sealed x = true →
    (∀ t' x', view s t' = Some x' → commit x' = None) ∧
    (∀ h, f_ready (lz_flight s) = Some h → if isdone x then h ∈ lz_shut s else False) }.

(** ** What a step does, seen from its thread *)

Definition same (s s' : lazy) : Prop :=
  f_ready (lz_flight s') = f_ready (lz_flight s) ∧ lz_closed s' = lz_closed s ∧
  lz_next s' = lz_next s ∧ lz_shut s' = lz_shut s.

Inductive effect (s s' : lazy) (x x' : tview) : Prop :=
  | EQuiet : hold x' = hold x → commit x' = commit x → active x' = active x → sealed x' = sealed x →
      isdone x' = isdone x → same s s' → effect s s' x x'
  | EOpen : hold x' = Some (lz_next s) → hold x = None → commit x' = None → active x' = false → sealed x' = false →
      f_ready (lz_flight s') = f_ready (lz_flight s) → lz_closed s' = lz_closed s → lz_next s' = S (lz_next s) →
      lz_shut s' = lz_shut s → active x = false → effect s s' x x'
  | ECommit : lz_closed s = false → hold x' = hold x → active x' = false → active x = false → sealed x' = false →
      same s s' → effect s s' x x'
  | EShut h : hold x = Some h → hold x' = None → commit x' = None → active x' = false → active x = false →
      sealed x' = false → f_ready (lz_flight s') = f_ready (lz_flight s) → lz_closed s' = lz_closed s →
      lz_next s' = lz_next s → lz_shut s' = h :: lz_shut s → effect s s' x x'
  | EReady h : hold x = Some h → commit x = Some h → hold x' = None → commit x' = None → active x' = false →
      active x = false → sealed x' = false → f_ready (lz_flight s') = Some h → lz_closed s' = lz_closed s →
      lz_next s' = lz_next s → lz_shut s' = lz_shut s → effect s s' x x'
  | EMark : lz_closed s = false → lz_closed s' = true → hold x = None → hold x' = None → commit x' = None →
      sealed x' = false → f_ready (lz_flight s') = f_ready (lz_flight s) → lz_next s' = lz_next s →
      lz_shut s' = lz_shut s → effect s s' x x'
  | EMiss : f_ready (lz_flight s) = None → f_call (lz_flight s) = None → hold x = None → hold x' = None →
      commit x' = None → active x = true → isdone x = false → isdone x' = false → same s s' → effect s s' x x'
  | ENone : hold x = None → hold x' = None → commit x' = None → active x = true → sealed x = true →
      isdone x = false → isdone x' = true → same s s' → effect s s' x x'
  | EClose h : f_ready (lz_flight s) = Some h → hold x = None → hold x' = None → commit x' = None → active x = true →
      isdone x = false → isdone x' = true → f_ready (lz_flight s') = f_ready (lz_flight s) →
      lz_closed s' = lz_closed s → lz_next s' = lz_next s → lz_shut s' = h :: lz_shut s → effect s s' x x'.

Lemma view_Some s t x :
  view s t = Some x ↔ lz_pcs s !! t = Some x.1 ∧ f_threads (lz_flight s) !! t = Some x.2.
Proof.
  unfold view. destruct x as [u p], (lz_pcs s !! t) as [u'|], (f_threads (lz_flight s) !! t) as [p'|]; simpl; naive_solver.
Qed.

(** What a step of the flight does to the thread that takes it. *)
Inductive flown (f : flight nat) (p : pc nat) (ch : choice nat) (p' : pc nat) (ready' : option nat) : Prop :=
  | FReady c h : p = DoDefer c (OOk h) → p' = DoClose c (OOk h) → ready' = Some h → flown f p ch p' ready'
  | FOpened c r : p = DoOpen c → ch = Opened r → p' = DoDefer c r → ready' = f_ready f → flown f p ch p' ready'
  | FMiss : p = PeekEnter → p' = PeekDone None → f_ready f = None → f_call f = None → ready' = f_ready f →
      flown f p ch p' ready'
  | FQuiet : is_do p' = is_do p → (∀ c r, p ≠ DoDefer c (OOk r)) → (∀ c r, p' ≠ DoDefer c r) →
      (∀ c, p ≠ DoOpen c) → (p' ≠ PeekDone None ∨ ∃ e, ch = CtxDone e) → (∀ v, p ≠ PeekDone v) →
      ready' = f_ready f → flown f p ch p' ready'.

Lemma sf_step_flown f t ch f' :
  sf_step f t ch = Some f' →
  ∃ p p', f_threads f !! t = Some p ∧ f_threads f' = <[t := p']> (f_threads f) ∧ flown f p ch p' (f_ready f').
Proof.
  intros H. unfold sf_step in H. destruct (f_threads f !! t) as [p|] eqn:Ht; [|done]. exists p.
  destruct p as [|c|c|c r|c r|r| |c|v], ch as [|r'|e]; try done; try (case_bool_decide; [|done]); injection H as <-.
  - unfold do_enter. destruct (f_ready f) eqn:Er; [|destruct (f_call f)]; eexists; (split; [done|]); (split; [reflexivity|]);
      apply FQuiet; try done; by left.
  - eexists; split; [done|]; split; [reflexivity|]. apply FQuiet; try done. by left.
  - eexists; split; [done|]; split; [reflexivity|]. apply FQuiet; try done. by left.
  - eexists; split; [done|]; split; [reflexivity|]. by eapply FOpened.
  - eexists; split; [done|]; split; [reflexivity|]. destruct r as [v|e|]; [by eapply FReady|..];
      apply FQuiet; try done; by left.
  - eexists; split; [done|]; split; [reflexivity|]. apply FQuiet; try done. by left.
  - unfold peek_enter. destruct (f_ready f) eqn:Er; [|destruct (f_call f) eqn:Ec]; eexists; (split; [done|]);
      (split; [reflexivity|]); [apply FQuiet; try done; by left | apply FQuiet; try done; by left | by apply FMiss].
  - eexists; split; [done|]; split; [reflexivity|]. apply FQuiet; try done. by left.
  - eexists; split; [done|]; split; [reflexivity|]. apply FQuiet; try done. right. by eexists.
Qed.

(** The thread [t] alone moves, from [x] to [x']. *)
Definition moves (s s' : lazy) (t : nat) (x x' : tview) : Prop :=
  view s t = Some x ∧ view s' t = Some x' ∧ (∀ t', t' ≠ t → view s' t' = view s t') ∧
  sf_inv (lz_flight s') ∧ (∀ t', is_Some (lz_pcs s' !! t') ↔ is_Some (f_threads (lz_flight s') !! t')).

Lemma moves_pc s s' t u u' p :
  lz_shape s → view s t = Some (u, p) → lz_flight s' = lz_flight s → lz_pcs s' = <[t := u']> (lz_pcs s) →
  moves s s' t (u, p) (u', p).
Proof.
  intros [I _ D] Hx Hf Hp. pose proof (proj1 (view_Some _ _ _) Hx) as [H1 H2]. simpl in H1, H2. split_and!.
  - done.
  - apply view_Some. by rewrite Hf, Hp, lookup_insert_eq.
  - intros t' Hne. unfold view. by rewrite Hf, Hp, lookup_insert_ne.
  - by rewrite Hf.
  - intros t'. rewrite Hf, Hp. destruct (decide (t = t')) as [<-|]; [by rewrite lookup_insert_eq, H2|].
    by rewrite lookup_insert_ne.
Qed.

(** A step of the flight, after which the thread is at [u']. *)
Lemma moves_fly s s' t u u' p p' ch f' :
  lz_shape s → view s t = Some (u, p) → sf_step (lz_flight s) t ch = Some f' →
  lz_flight s' = f' → f_threads f' = <[t := p']> (f_threads (lz_flight s)) →
  lz_pcs s' = <[t := u']> (lz_pcs s) → moves s s' t (u, p) (u', p').
Proof.
  intros [I _ D] Hx Hs Hf Hth Hp. pose proof (proj1 (view_Some _ _ _) Hx) as [H1 H2]. simpl in H1, H2. split_and!.
  - done.
  - apply view_Some. by rewrite Hf, Hth, Hp, !lookup_insert_eq.
  - intros t' Hne. unfold view. by rewrite Hf, Hth, Hp, !lookup_insert_ne.
  - rewrite Hf. by eapply sf_step_inv.
  - intros t'. rewrite Hf, Hth, Hp. destruct (decide (t = t')) as [<-|]; [by rewrite !lookup_insert_eq|].
    by rewrite !lookup_insert_ne.
Qed.

Lemma pcs_same s t u : lz_pcs s !! t = Some u → lz_pcs s = <[t := u]> (lz_pcs s).
Proof. intros H. by rewrite insert_id. Qed.

(** A thread inside [Do] takes a step of the flight that is not the return of an open. *)
Lemma fly_do s t p ch s' :
  lz_shape s → view s t = Some (UDo, p) → fly s t ch = Some s' → (∀ v, ch ≠ Opened (OOk v)) →
  ∃ x', moves s s' t (UDo, p) x' ∧ wf x' ∧ effect s s' (UDo, p) x'.
Proof.
  intros Sh Hx H Hch. unfold fly in H. destruct (sf_step (lz_flight s) t ch) as [f'|] eqn:E; [|done].
  injection H as <-. pose proof (sf_step_flown _ _ _ _ E) as (p0 & p' & Ht & Hth & Hf).
  pose proof (proj1 (view_Some _ _ _) Hx) as [H1 H2]. simpl in H1, H2. rewrite H2 in Ht. injection Ht as <-.
  exists (UDo, p'). assert (is_do p = true) as Hdo by apply (sh_wf s Sh t _ Hx).
  split; [eapply moves_fly; [done|done|exact E|done|done|exact (pcs_same s t _ H1)]|].
  destruct Hf as [c h -> -> Hr|c r -> -> -> Hr| -> -> _ _ Hr|Hd N1 N2 N3 N4 N5 Hr].
  - split; [done|]. by eapply (EReady _ _ _ _ h).
  - split; [done|]. destruct r; [exfalso; by eapply Hch|apply EQuiet; done..].
  - done.
  - split; [simpl; by rewrite Hd|].
    assert (hold (UDo, p') = hold (UDo, p)) as Hh
      by (destruct p as [| | |c0 [| |]| | | | |], p' as [| | |c1 r1| | | | |]; try done; exfalso; first [by eapply N1|by eapply N2]).
    assert (commit (UDo, p') = commit (UDo, p)) as Hc
      by (destruct p as [| | |c0 [| |]| | | | |], p' as [| | |c1 r1| | | | |]; try done; exfalso; first [by eapply N1|by eapply N2]).
    by apply EQuiet.
Qed.

(** A thread inside [Peek] takes a step of the flight. *)
Lemma fly_peek s t p s' :
  lz_shape s → view s t = Some (CPeek, p) → fly s t Go = Some s' → (∀ v, p ≠ PeekDone v) →
  ∃ x', moves s s' t (CPeek, p) x' ∧ wf x' ∧ effect s s' (CPeek, p) x'.
Proof.
  intros Sh Hx H Hnp. unfold fly in H. destruct (sf_step (lz_flight s) t Go) as [f'|] eqn:E; [|done].
  injection H as <-. pose proof (sf_step_flown _ _ _ _ E) as (p0 & p' & Ht & Hth & Hf).
  pose proof (proj1 (view_Some _ _ _) Hx) as [H1 H2]. simpl in H1, H2. rewrite H2 in Ht. injection Ht as <-.
  exists (CPeek, p'). assert (is_do p = false) as Hdo by apply (sh_wf s Sh t _ Hx).
  split; [eapply moves_fly; [done|done|exact E|done|done|exact (pcs_same s t _ H1)]|].
  destruct Hf as [c h -> -> Hr|c r -> Hc -> Hr| -> -> Hr1 Hc1 Hr|Hd N1 N2 N3 N4 N5 Hr]; [done|done|..].
  - split; [done|]. by apply EMiss.
  - split; [simpl; by rewrite Hd|]. destruct N4 as [N4|[e N4]]; [|done].
    apply EQuiet; try done. destruct p as [| | | | | | | |v]; try done; [| |exfalso; by eapply Hnp];
      destruct p' as [| | | | | | | |[|]]; done.
Qed.

(** The return of the open function. *)
Lemma fly_return s s1 t u p r s' :
  lz_shape s → view s t = Some (u, p) → wf (UHas 0, p) → lz_flight s1 = lz_flight s →
  lz_pcs s1 = <[t := UDo]> (lz_pcs s) → fly s1 t (Opened r) = Some s' →
  ∃ c, moves s s' t (u, p) (UDo, DoDefer c r) ∧ f_ready (lz_flight s') = f_ready (lz_flight s) ∧
    lz_closed s' = lz_closed s1 ∧ lz_next s' = lz_next s1 ∧ lz_shut s' = lz_shut s1.
Proof.
  intros Sh Hx [c ->] Hf Hp H. unfold fly in H. rewrite Hf in H.
  pose proof (proj1 (view_Some _ _ _) Hx) as [H1 H2]. simpl in H1, H2.
  destruct (sf_step (lz_flight s) t (Opened r)) as [f'|] eqn:E; [|done]. injection H as <-.
  exists c. pose proof E as E1. unfold sf_step in E1. rewrite H2 in E1. injection E1 as <-.
  split; [eapply moves_fly; [done|done|exact E|done|reflexivity|done]|done].
Qed.

Lemma lz_step_effect s t ch s' :
  lz_shape s → lz_step s t ch = Some s' → ∃ x x', moves s s' t x x' ∧ wf x' ∧ effect s s' x x'.
Proof.
  intros Sh H. unfold lz_step in H. destruct (lz_pcs s !! t) as [u|] eqn:Hu; [|done].
  destruct (proj1 (sh_dom s Sh t) ltac:(by rewrite Hu)) as [p Hp].
  assert (view s t = Some (u, p)) as Hx by (by apply view_Some).
  pose proof (sh_wf s Sh t _ Hx) as Hwf. exists (u, p).
  destruct u as [| | |h|h sh| | | |], ch as [| |e| |e]; try done; try (by destruct sh); simpl in H.
  - injection H as <-. eexists; split; [by eapply moves_pc|]. simpl in Hwf. subst p.
    destruct (lz_closed s); (split; [done|]); by apply EQuiet.
  - by eapply fly_do.
  - rewrite Hp in H. destruct p as [| |c| | | | | |]; try done. injection H as <-. exists (UHas (lz_next s), DoOpen c).
    split; [by eapply moves_pc|]. split; [by eexists|]. by apply EOpen.
  - by eapply fly_do.
  - by eapply fly_do.
  - by eapply fly_do.
  - injection H as <-. eexists; split; [by eapply moves_pc|]. split; [done|].
    destruct (lz_closed s) eqn:Ec; [by apply EQuiet|by apply ECommit].
  - destruct sh.
    + destruct (fly_return s (at_pc (shut_handle s h) t UDo) t _ _ _ s' Sh Hx Hwf eq_refl eq_refl H) as (c & Hm & Hr & Hc & Hn & Hs).
      eexists; split; [exact Hm|]. split; [done|]. by apply (EShut _ _ _ _ h).
    + destruct (fly_return s (at_pc s t UDo) t _ _ _ s' Sh Hx Hwf eq_refl eq_refl H) as (c & Hm & Hr & Hc & Hn & Hs).
      eexists; split; [exact Hm|]. split; [done|]. by apply EQuiet.
  - simpl in Hwf. subst p. injection H as <-. destruct (lz_closed s) eqn:Ec.
    + eexists; split; [by eapply moves_pc|]. split; [done|]. by apply EQuiet.
    + eexists; split; [by eapply moves_pc|]. split; [done|]. by apply EMark.
  - rewrite Hp in H. destruct p as [| | | | | | | |v]; try done; try (by eapply fly_peek).
    destruct v as [h|]; injection H as <-; (eexists; split; [by eapply moves_pc|]); (split; [by eexists|]).
    + apply (EClose _ _ _ _ h); try done. by apply (inv_reports _ (sh_flight s Sh) t (PeekDone (Some h)) h).
    + by apply ENone.
Qed.

(** ** The invariant is preserved *)

Lemma moves_inv s s' t x x' t0 y :
  moves s s' t x x' → view s' t0 = Some y → (t0 = t ∧ y = x') ∨ (t0 ≠ t ∧ view s t0 = Some y).
Proof.
  intros (H1 & H2 & H3 & _) Hy. destruct (decide (t0 = t)) as [->|Hne].
  - left. split; congruence.
  - right. by rewrite <- H3.
Qed.

Lemma moves_other s s' t x x' t0 y : moves s s' t x x' → t0 ≠ t → view s t0 = Some y → view s' t0 = Some y.
Proof. intros (H1 & H2 & H3 & _) Hne Hy. by rewrite H3. Qed.

Lemma hold_owns x h : wf x → hold x = Some h → ∃ c, owns x.2 = Some c.
Proof.
  destruct x as [[] p]; simpl; try done; [|intros [c ->] _; by eexists|intros [c ->] _; by eexists].
  destruct p as [| | |c [| |]| | | | |]; try done. intros _ _. by eexists.
Qed.

Lemma one_holder s t1 t2 x1 x2 h1 h2 :
  lz_shape s → view s t1 = Some x1 → view s t2 = Some x2 → hold x1 = Some h1 → hold x2 = Some h2 → t1 = t2.
Proof.
  intros Sh V1 V2 H1 H2. destruct (hold_owns x1 h1 (sh_wf s Sh _ _ V1) H1) as [c1 O1].
  destruct (hold_owns x2 h2 (sh_wf s Sh _ _ V2) H2) as [c2 O2].
  apply view_Some in V1 as [_ T1]. apply view_Some in V2 as [_ T2]. pose proof (sh_flight s Sh) as I.
  pose proof (inv_owner _ I _ _ _ T1 O1) as E1. pose proof (inv_owner _ I _ _ _ T2 O2) as E2.
  rewrite E1 in E2. injection E2 as <-.
  exact (inv_unique _ I _ _ _ _ _ T1 T2 (owns_closes _ _ O1) (owns_closes _ _ O2)).
Qed.

Lemma commit_hold x h : commit x = Some h → hold x = Some h.
Proof. by destruct x as [[| | | |? []| | | |] []]. Qed.

(** Without a call in flight, nobody holds a handle. *)
Lemma no_call_hold s t x : lz_shape s → f_call (lz_flight s) = None → view s t = Some x → hold x = None.
Proof.
  intros Sh Hc V. destruct (hold x) as [h|] eqn:Hh; [|done]. exfalso.
  destruct (hold_owns x h (sh_wf s Sh _ _ V) Hh) as [c O]. apply view_Some in V as [_ T].
  pose proof (inv_owner _ (sh_flight s Sh) _ _ _ T O). congruence.
Qed.

Lemma no_call_commit s t x : lz_shape s → f_call (lz_flight s) = None → view s t = Some x → commit x = None.
Proof.
  intros Sh Hc V. destruct (commit x) as [h|] eqn:E; [|done]. apply commit_hold in E.
  rewrite (no_call_hold s t x Sh Hc V) in E. done.
Qed.

Lemma sealed_active x : sealed x = true → active x = true.
Proof. by destruct x as [[] []]. Qed.

(** Replace what [s'] shares with, or changes from, the old state. *)
Ltac new_state s' := repeat match goal with
  | H : same _ s' |- _ => destruct H as (? & ? & ? & ?)
  | H : f_ready (lz_flight s') = _ |- context [f_ready (lz_flight s')] => rewrite H
  | H : lz_closed s' = _ |- context [lz_closed s'] => rewrite H
  | H : lz_next s' = _ |- context [lz_next s'] => rewrite H
  | H : lz_shut s' = _ |- context [lz_shut s'] => rewrite H
  | H : f_ready (lz_flight s') = _, H' : context [f_ready (lz_flight s')] |- _ => rewrite H in H'
  | H : lz_next s' = _, H' : context [lz_next s'] |- _ => rewrite H in H'
  | H : lz_shut s' = _, H' : context [lz_shut s'] |- _ => rewrite H in H'
  end.

Section Preservation.
Variables (s s' : lazy) (t : nat) (x x' : tview).
Hypothesis Hinv : lz_inv s.
Hypothesis Hm : moves s s' t x x'.
Hypothesis Hwf : wf x'.
Hypothesis He : effect s s' x x'.

Lemma shape_pres : lz_shape s'.
Proof.
  destruct Hinv as [Sh _ _ _ _ _ _ _ _ _]. constructor.
  - apply Hm.
  - intros t0 y Hy. destruct (moves_inv _ _ _ _ _ _ _ Hm Hy) as [[_ ->]|[_ V]]; [done|]. by eapply sh_wf.
  - apply Hm.
Qed.

Lemma held_pres t0 y h : view s' t0 = Some y → hold y = Some h →
  h < lz_next s' ∧ h ∉ lz_shut s' ∧ f_ready (lz_flight s') ≠ Some h.
Proof.
  intros Hy Hh. pose proof (proj1 Hm) as Hx. pose proof (lz_shaped s Hinv) as Sh.
  assert (∀ t1 y1 h1 h2, t1 ≠ t → view s t1 = Some y1 → hold y1 = Some h1 → hold x = Some h2 → False) as Hone
    by (intros t1 y1 h1 h2 Hn V H1 H2; apply Hn; by eapply one_holder).
  destruct (moves_inv _ _ _ _ _ _ _ Hm Hy) as [[-> ->]|[Hne V]].
  - destruct He; try congruence; new_state s';
      try (apply (lz_held s Hinv t x h Hx); congruence).
    assert (h = lz_next s) as -> by congruence. split_and!; [lia|..].
    + intros HX%(lz_shut_lt s Hinv). lia.
    + intros HX%(lz_ready s Hinv). lia.
  - destruct (lz_held s Hinv t0 y h V Hh) as (A & B & C).
    destruct He; new_state s'; try done; split_and!; try done; try lia;
      try (by exfalso; eapply Hone).
    intros [<-|]%elem_of_cons; done.
Qed.

Lemma ready_pres h : f_ready (lz_flight s') = Some h → h < lz_next s'.
Proof.
  intros Hr. pose proof (lz_ready s Hinv h) as Ho.
  assert (∀ h0, hold x = Some h0 → h0 < lz_next s) as Hh by (intros h0 H; by apply (lz_held s Hinv t x h0 (proj1 Hm) H)).
  destruct He; new_state s'; rewrite ?Nat.lt_succ_r;
    try (apply Ho; congruence); [|].
  - apply Nat.lt_le_incl, Ho. congruence.
  - apply Hh. congruence.
Qed.

Lemma shut_lt_pres h : h ∈ lz_shut s' → h < lz_next s'.
Proof.
  intros Hr. pose proof (lz_shut_lt s Hinv h) as Ho. pose proof (lz_ready s Hinv) as Hrd.
  assert (∀ h0, hold x = Some h0 → h0 < lz_next s) as Hh by (intros h0 H; by apply (lz_held s Hinv t x h0 (proj1 Hm) H)).
  destruct He; new_state s'; try (by apply Ho).
  - specialize (Ho Hr). lia.
  - apply elem_of_cons in Hr as [->|Hr]; [by apply Hh|by apply Ho].
  - apply elem_of_cons in Hr as [->|Hr]; [by apply Hrd|by apply Ho].
Qed.

Lemma account_pres h : h < lz_next s' →
  h ∈ lz_shut s' ∨ f_ready (lz_flight s') = Some h ∨ ∃ t0 y, view s' t0 = Some y ∧ hold y = Some h.
Proof.
  intros Hr. pose proof (lz_account s Hinv h) as Ho. pose proof Hm as (Hx & Hx' & _).
  assert (∀ t0 y, view s t0 = Some y → hold y = Some h → hold x ≠ Some h ∨ hold x' = Some h →
    ∃ t0 y, view s' t0 = Some y ∧ hold y = Some h) as Hk.
  { intros t0 y V Hy Hc. destruct (decide (t0 = t)) as [->|Hne].
    - assert (y = x) as -> by congruence. destruct Hc as [|Hc]; [done|]. by exists t, x'.
    - exists t0, y. split; [by eapply moves_other|done]. }
  destruct He; new_state s'.
  2:{ destruct (decide (h = lz_next s)) as [->|]; [right; right; by exists t, x'|].
      destruct Ho as [|[|(t0 & y & V & Hy)]]; [lia|by left|by right; left|]. right. right. eapply Hk; [done..|left; congruence]. }
  3:{ destruct Ho as [|[|(t0 & y & V & Hy)]]; [done|left; set_solver|by right; left|].
      destruct (decide (h = h0)) as [->|]; [left; set_solver|]. right. right. eapply Hk; [done..|left; congruence]. }
  3:{ destruct (decide (h = h0)) as [->|]; [by right; left|].
      destruct Ho as [|[Hrd|(t0 & y & V & Hy)]]; [done|by left|..].
      - exfalso. pose proof (inv_ready _ (sh_flight s (lz_shaped s Hinv)) h Hrd) as Hc.
        by rewrite (no_call_hold s t x (lz_shaped s Hinv) Hc Hx) in H.
      - right. right. eapply Hk; [done..|left; congruence]. }
  all: destruct Ho as [|[|(t0 & y & V & Hy)]]; [done|left; set_solver|by right; left|right; right].
  all: destruct (decide (hold x = Some h)); [eapply Hk; [done..|right; congruence]|eapply Hk; [done..|by left]].
Qed.

Lemma nodup_pres : NoDup (lz_shut s').
Proof.
  pose proof (lz_nodup s Hinv) as Ho. pose proof Hm as (Hx & _).
  destruct He; new_state s'; try done; apply NoDup_cons_2; try done.
  - by apply (lz_held s Hinv t x h Hx).
  - intros Hin. destruct (lz_shut_ready s Hinv h) as (t0 & y & V & Hd); [done..|].
    assert (active y = true) as Ha by (by destruct y as [[] ?]).
    assert (t0 = t) as -> by (by eapply (lz_active_one s Hinv t0 t y x)). congruence.
Qed.

Lemma active_pres t0 y : view s' t0 = Some y → active y = true → lz_closed s' = true.
Proof.
  intros Hy Ha. pose proof (lz_active s Hinv) as Ho. pose proof (proj1 Hm) as Hx.
  destruct (moves_inv _ _ _ _ _ _ _ Hm Hy) as [[-> ->]|[Hne V]]; destruct He; new_state s'; try congruence;
    try (by eapply Ho); by eapply (Ho t x); [|congruence].
Qed.

Lemma active_new t0 y : view s t0 = Some y → active y = true → active x' = true → t0 = t.
Proof.
  intros V Ha Hx'. pose proof (proj1 Hm) as Hx. pose proof (lz_active s Hinv t0 y V Ha) as Hc.
  destruct He; try congruence; eapply (lz_active_one s Hinv t0 t y x); congruence.
Qed.

Lemma active_one_pres t1 t2 x1 x2 : view s' t1 = Some x1 → view s' t2 = Some x2 →
  active x1 = true → active x2 = true → t1 = t2.
Proof.
  intros V1 V2 A1 A2.
  destruct (moves_inv _ _ _ _ _ _ _ Hm V1) as [[-> ->]|[N1 W1]], (moves_inv _ _ _ _ _ _ _ Hm V2) as [[-> ->]|[N2 W2]].
  - done.
  - symmetry. by eapply active_new.
  - by eapply active_new.
  - by eapply (lz_active_one s Hinv t1 t2 x1 x2).
Qed.

(** A closer that has returned stays returned. *)
Lemma done_stays t0 y : view s t0 = Some y → isdone y = true → ∃ y', view s' t0 = Some y' ∧ isdone y' = true.
Proof.
  intros V Hd. destruct (decide (t0 = t)) as [->|Hne]; [|exists y; split; [by eapply moves_other|done]].
  pose proof Hm as (Hx & Hx' & _). assert (y = x) as -> by congruence. exists x'. split; [done|].
  assert (active x = true) as Ha by (by destruct x as [[] ?]).
  assert (sealed x = true) as Hs by (by destruct x as [[] ?]).
  assert (hold x = None) as Hh by (by destruct x as [[] ?]).
  pose proof (lz_active s Hinv t x Hx Ha). destruct He; congruence.
Qed.

Lemma shut_ready_pres h : f_ready (lz_flight s') = Some h → h ∈ lz_shut s' →
  ∃ t0 y, view s' t0 = Some y ∧ isdone y = true.
Proof.
  intros Hr Hs. pose proof (lz_shut_ready s Hinv h) as Ho. pose proof Hm as (Hx & Hx' & _).
  assert (f_ready (lz_flight s) = Some h → h ∈ lz_shut s → ∃ t0 y, view s' t0 = Some y ∧ isdone y = true) as Hk.
  { intros H1 H2. destruct (Ho H1 H2) as (t0 & y & V & Hd). exists t0. by eapply done_stays. }
  destruct He; new_state s'; try (apply Hk; congruence).
  - apply elem_of_cons in Hs as [->|Hs]; [|apply Hk; congruence].
    exfalso. destruct (lz_held s Hinv t x h0 Hx H) as (_ & _ & Hn). congruence.
  - exfalso. assert (h0 = h) as -> by congruence. by destruct (lz_held s Hinv t x h Hx H) as (_ & Hn & _).
  - by exists t, x'.
Qed.

Lemma sealed_pres t0 y : view s' t0 = Some y → sealed y = true →
  (∀ t' y', view s' t' = Some y' → commit y' = None) ∧
  (∀ h, f_ready (lz_flight s') = Some h → if isdone y then h ∈ lz_shut s' else False).
Proof.
  intros Hy Hs. pose proof (sealed_active y Hs) as Ha. pose proof Hm as (Hx & Hx' & _).
  pose proof (lz_shaped s Hinv) as Sh.
  (* the commits of the other threads are those of the old state *)
  assert ((∀ t' y', view s t' = Some y' → commit y' = None) → commit x' = None →
    ∀ t' y', view s' t' = Some y' → commit y' = None) as Hk.
  { intros H1 H2 t' y' V'. destruct (moves_inv _ _ _ _ _ _ _ Hm V') as [[-> ->]|[_ V]]; [done|by eapply H1]. }
  assert (f_call (lz_flight s) = None → ∀ t' y', view s t' = Some y' → commit y' = None) as Hc
    by (intros Hn t' y' V; by eapply no_call_commit).
  destruct (moves_inv _ _ _ _ _ _ _ Hm Hy) as [[-> ->]|[Hne V]].
  - destruct He; try congruence; new_state s'.
    + destruct (lz_sealed s Hinv t x Hx ltac:(congruence)) as [A B]. split; [apply Hk; [done|]; rewrite H0; by eapply A|].
      intros h Hr. rewrite H3. apply B. congruence.
    + split; [by apply Hk, H3; apply Hc|]. intros h' Hr. congruence.
    + destruct (lz_sealed s Hinv t x Hx ltac:(congruence)) as [A B]. split; [by apply Hk|].
      intros h Hr. apply B in Hr. by rewrite H4 in Hr.
    + split; [apply Hk; [|done]; apply Hc; by apply (inv_ready _ (sh_flight s Sh) h)|]. intros h' Hr.
      assert (h' = h) as -> by congruence. rewrite H5. set_solver.
  - destruct (lz_sealed s Hinv t0 y V Hs) as [A B]. pose proof (lz_active s Hinv t0 y V Ha) as Hcl.
    pose proof (A t x Hx) as Hcm. assert (commit x' = None) as Hcx by (destruct He; congruence).
    split; [by apply Hk|]. intros h' Hr.
    assert (f_ready (lz_flight s) = Some h') as Hr' by (destruct He; new_state s'; congruence).
    assert (lz_shut s' = lz_shut s ∨ ∃ h, lz_shut s' = h :: lz_shut s) as Hsh
      by (destruct He; new_state s'; eauto).
    specialize (B h' Hr'). destruct (isdone y); [|done]. destruct Hsh as [->|[h ->]]; [done|by right].
Qed.

End Preservation.

Lemma lz_step_inv s t ch s' : lz_inv s → lz_step s t ch = Some s' → lz_inv s'.
Proof.
  intros I H. destruct (lz_step_effect s t ch s' (lz_shaped s I) H) as (x & x' & Hm & Hw & He). constructor.
  - by eapply shape_pres.
  - by eapply held_pres.
  - by eapply ready_pres.
  - by eapply shut_lt_pres.
  - by eapply nodup_pres.
  - by eapply account_pres.
  - by eapply active_pres.
  - by eapply active_one_pres.
  - by eapply shut_ready_pres.
  - by eapply sealed_pres.
Qed.

Lemma lz_run_inv s sched s' : lz_inv s → lz_run s sched = Some s' → lz_inv s'.
Proof.
  revert s. induction sched as [|[t ch] sched IH]; intros s I H; simpl in H; [by injection H as <-|].
  destruct (lz_step s t ch) as [s1|] eqn:E; [|done]. by eapply IH, H; eapply lz_step_inv.
Qed.

Lemma lz_init_view users closers t x : users ## closers → view (lz_init users closers) t = Some x →
  x = (UEnter, DoEnter) ∨ x = (CEnter, PeekEnter).
Proof.
  intros Hd [H1 H2]%view_Some. simpl in *.
  apply lookup_union_Some_raw in H1 as [H1|[H1' H1]]; apply lookup_union_Some_raw in H2 as [H2|[H2' H2]];
    apply lookup_gset_to_gmap_Some in H1 as [? E1]; apply lookup_gset_to_gmap_Some in H2 as [? E2];
    destruct x; simpl in *; subst; auto; exfalso; set_solver.
Qed.

Lemma lz_init_inv users closers : users ## closers → lz_inv (lz_init users closers).
Proof.
  intros Hd. pose proof (lz_init_view users closers) as Hv.
  assert (lz_shape (lz_init users closers)) as Sh.
  { constructor.
    - apply sf_init_inv.
    - intros t x V. by destruct (Hv t x Hd V) as [-> | ->].
    - intros t. simpl. rewrite <- !elem_of_dom, !dom_union_L, !dom_gset_to_gmap. done. }
  constructor; try done; simpl; try lia; try (by constructor); try set_solver.
  all: intros; repeat match goal with V : view _ _ = Some _ |- _ => apply (Hv _ _ Hd) in V as [-> | ->] end; done.
Qed.

End Lazy.

(** ** Properties *)

(** Whatever the interleaving of users and closers, the outcomes of the opens and the ends
    of the users' contexts: no handle is closed twice, only handles that were opened are closed,
    and all users that were given a handle were given the same one. *)
Lemma Lazy_closed_once errClosed users closers sched s :
  users ## closers → lz_run errClosed (lz_init users closers) sched = Some s →
  NoDup (lz_shut s) ∧ (∀ h, h ∈ lz_shut s → h < lz_next s) ∧
  (∀ t1 t2 h1 h2, view s t1 = Some (UDo, DoDone (OOk h1)) → view s t2 = Some (UDo, DoDone (OOk h2)) → h1 = h2).
Proof.
  intros Hd H. pose proof (lz_run_inv errClosed _ _ _ (lz_init_inv users closers Hd) H) as I.
  split; [apply (lz_nodup s I)|]. split; [apply (lz_shut_lt s I)|].
  intros t1 t2 h1 h2 [_ V1]%view_Some [_ V2]%view_Some. pose proof (sh_flight s (lz_shaped s I)) as F.
  pose proof (inv_reports _ F _ _ h1 V1 eq_refl) as R1. pose proof (inv_reports _ F _ _ h2 V2 eq_refl) as R2. congruence.
Qed.

(** C29: nothing leaks.  Once a [Close] that did the closing has returned, every handle ever
    opened has been closed, except one that a user opened concurrently and is still inside the
    open function, which closes it before returning. *)
Theorem Lazy_no_leak errClosed users closers sched s t p h :
  users ## closers → lz_run errClosed (lz_init users closers) sched = Some s →
  view s t = Some (CDone, p) → h < lz_next s →
  lz_closed s = true ∧
  (h ∈ lz_shut s ∨ ∃ t' c, view s t' = Some (UHas h, DoOpen c) ∨ view s t' = Some (UChecked h true, DoOpen c)).
Proof.
  intros Hd H V Hh. pose proof (lz_run_inv errClosed _ _ _ (lz_init_inv users closers Hd) H) as I.
  pose proof (lz_active s I t _ V eq_refl) as Hc. split; [done|].
  destruct (lz_sealed s I t _ V eq_refl) as [A B].
  destruct (lz_account s I h Hh) as [?|[Hr|(t' & x & V' & Hx)]]; [by left|left; by apply (B h)|right].
  exists t'. pose proof (sh_wf s (lz_shaped s I) _ _ V') as Hw. pose proof (A _ _ V') as Hcm.
  destruct x as [[| | |h'|h' []| | | |] q]; try done.
  - destruct q as [| | |c [| |]| | | | |]; try done.
  - destruct Hw as [c ->]. injection Hx as ->. exists c. by left.
  - destruct Hw as [c ->]. injection Hx as ->. exists c. by right.
Qed.

(** A thread has returned. *)
Definition returned (x : tview) : Prop :=
  match x with (URefused, _) | (CNil, _) | (CDone, _) | (UDo, DoDone _) => True | _ => False end.

Definition can_step (errClosed : error) (s : lazy) (t : nat) : Prop :=
  ∃ ch s', lz_step errClosed s t ch = Some s' ∧ ∀ e, ch ≠ LCtx e.

Lemma fly_can s t ch : is_Some (sf_step (lz_flight s) t ch) → is_Some (fly s t ch).
Proof. intros [f Hf]. unfold fly. rewrite Hf. by eexists. Qed.

(** A thread that owns a call can move: it is opening, or about to end its attempt. *)
Lemma closes_can errClosed s t x c : lz_shape s → view s t = Some x → closes x.2 = Some c → can_step errClosed s t.
Proof.
  intros Sh V Hc. pose proof (sh_wf s Sh _ _ V) as Hw. apply view_Some in V as [V1 V2]. unfold can_step, lz_step.
  rewrite V1. destruct x as [u p]; simpl in *.
  destruct u as [| | |h|h []| | | |]; simpl in *; try (by (subst p || destruct Hw as [? ->])).
  - destruct p as [| |c'|c' r|c' r| | | |]; try done; simpl.
    + exists LOpenPanic. edestruct (fly_can s t (Opened OPanic)) as [s' Hs]; [unfold sf_step; rewrite V2; by eexists|].
      exists s'. by split.
    + exists LGo. edestruct (fly_can s t Go) as [s' Hs]; [unfold sf_step; rewrite V2; by eexists|]. exists s'. by split.
    + exists LGo. edestruct (fly_can s t Go) as [s' Hs]; [unfold sf_step; rewrite V2; by eexists|]. exists s'. by split.
  - exists LGo. eexists. by split.
  - exists LGo. destruct Hw as [c' ->]. unfold fly, sf_step. simpl. rewrite V2. eexists. by split.
  - exists LGo. destruct Hw as [c' ->]. unfold fly, sf_step. simpl. rewrite V2. eexists. by split.
  - by destruct p.
Qed.

(** Nobody is stranded: while some user or closer has not returned, some thread can take a
    step without any context ending; [Close], whose [Peek] runs under a context that never
    ends, therefore never waits for an open that nobody finishes. *)
Lemma Lazy_progress errClosed users closers sched s t x :
  users ## closers → lz_run errClosed (lz_init users closers) sched = Some s →
  view s t = Some x → ¬ returned x → ∃ t', can_step errClosed s t'.
Proof.
  intros Hd H V Hx. pose proof (lz_shaped s (lz_run_inv errClosed _ _ _ (lz_init_inv users closers Hd) H)) as Sh.
  pose proof (sh_wf s Sh _ _ V) as Hw. pose proof (proj1 (view_Some _ _ _) V) as [V1 V2].
  destruct (closes x.2) as [c|] eqn:Hc; [exists t; by eapply closes_can|].
  assert (∀ c, waits x.2 = Some c →
    c ∈ f_closed (lz_flight s) ∨ ∃ t', can_step errClosed s t') as Hwait.
  { intros c Hwc. destruct (inv_waits _ (sh_flight s Sh) t _ c V2 Hwc) as [|(t' & q & Hq & Hcl)]; [by left|right].
    destruct (proj2 (sh_dom s Sh t') ltac:(by rewrite Hq)) as [u' Hu']. exists t'.
    eapply (closes_can _ _ _ (u', q) c Sh); [by apply view_Some|done]. }
  assert (∀ s', lz_step errClosed s t LGo = Some s' → ∃ t', can_step errClosed s t') as Hgo
    by (intros s' Hs; exists t, LGo, s'; by split).
  unfold lz_step in Hgo. rewrite V1 in Hgo. destruct x as [u p]; simpl in *.
  destruct u as [| | |h|h []| | | |]; simpl in *; try done; try (by eapply Hgo); try (by destruct Hw as [c ->]).
  - destruct p as [|c|c|c r|c r|r| |c|v]; try done.
    + unfold fly, sf_step in Hgo. rewrite V2 in Hgo. by eapply Hgo.
    + destruct (Hwait c eq_refl) as [Hin|]; [|done]. unfold fly, sf_step in Hgo. rewrite V2 in Hgo.
      rewrite bool_decide_true in Hgo by done. by eapply Hgo.
  - rewrite V2 in Hgo. destruct p as [| | | | | | |c|[h|]]; try done; try (by eapply Hgo).
    + unfold fly, sf_step in Hgo. rewrite V2 in Hgo. by eapply Hgo.
    + destruct (Hwait c eq_refl) as [Hin|]; [|done]. unfold fly, sf_step in Hgo. rewrite V2 in Hgo.
      rewrite bool_decide_true in Hgo by done. by eapply Hgo.
Qed.

(** A call after [Close] has marked the owner closed is refused, and opens nothing. *)
Lemma Lazy_refused errClosed s t ch s' :
  lz_closed s = true → lz_pcs s !! t = Some UEnter → lz_step errClosed s t ch = Some s' →
  lz_pcs s' !! t = Some URefused ∧ lz_next s' = lz_next s ∧ lz_opened s' = false.
Proof.
  intros Hc Hu H. unfold lz_step in H. rewrite Hu in H. destruct ch; try done. simpl in H. rewrite Hc in H.
  injection H as <-. unfold lz_opened. simpl. by rewrite lookup_insert_eq, Hc.
Qed.

(** ** Witnesses: [Close] runs while the target is being opened *)

Definition lz_ex_sched : list (nat * lchoice) :=
  [(0, LGo); (0, LGo); (1, LGo); (1, LGo); (0, LOpenOk); (0, LGo); (0, LGo); (0, LGo); (0, LGo);
   (1, LGo); (1, LGo); (1, LGo)].
Definition lz_ex_err : error := esent ErrClosed.
Definition lz_ex (n : nat) : lazy :=
  default (lz_init ∅ ∅) (lz_run lz_ex_err (lz_init {[0]} {[1]}) (take n lz_ex_sched)).

Lemma lz_ex_run n : n ≤ 12 → lz_run lz_ex_err (lz_init {[0]} {[1]}) (take n lz_ex_sched) = Some (lz_ex n).
Proof. intros H. do 13 (destruct n as [|n]; [vm_compute; reflexivity|]). lia. Qed.

Lemma Lazy_closed_once_witness : NoDup (lz_shut (lz_ex 12)) ∧ lz_shut (lz_ex 12) = [0].
Proof.
  split; [|vm_compute; reflexivity].
  apply (Lazy_closed_once lz_ex_err {[0]} {[1]} (take 12 lz_ex_sched)); [set_solver|apply lz_ex_run; lia].
Defined.

Lemma Lazy_no_leak_witness :
  lz_closed (lz_ex 12) = true ∧
  (0 ∈ lz_shut (lz_ex 12) ∨ ∃ t' c, view (lz_ex 12) t' = Some (UHas 0, DoOpen c) ∨
    view (lz_ex 12) t' = Some (UChecked 0 true, DoOpen c)).
Proof.
  apply (Lazy_no_leak lz_ex_err {[0]} {[1]} (take 12 lz_ex_sched) (lz_ex 12) 1 (PeekDone None) 0);
    [set_solver|apply lz_ex_run; lia|vm_compute; reflexivity|vm_compute; lia].
Defined.

Lemma Lazy_progress_witness : ∃ t', can_step lz_ex_err (lz_ex 4) t'.
Proof.
  apply (Lazy_progress lz_ex_err {[0]} {[1]} (take 4 lz_ex_sched) (lz_ex 4) 1 (CPeek, PeekWait 0));
    [set_solver|apply lz_ex_run; lia|vm_compute; reflexivity|intros H; exact H].
Defined.
