(* ===== verification/Router.v ===== *)
(** * [internal/sink]: the stalled set and the router that delivers to sinks

    [Module Stalled] is stalled.go with the two gauges it keeps in step; the rest is
    router.go: the handler of one sink ([handle], [succeeded], [stall], [status]) and the
    construction and closing of the router over any [Bus].  A sink is the error its
    [Process] returns for the envelope; each reading of the clock is an argument.  The
    reason of a stalled entry is the error itself (its text is not rendered). *)

From S2P Require Import Prelude.
From S2P Require Import Errors.
From S2P Require Import GoText.
From S2P Require Import GoTime.
From S2P Require Import Event.
From S2P Require Import Bus.
From S2P Require Import GoChannel.
From S2P Require Import Sink.

Local Open Scope Z_scope.

Module Stalled.
Definition stalledLogEvery : Z := 10.
Definition maxStalledEntries : Z := 1000.

Record StalledInfo := mkStalledInfo {
  si_Reason : error; si_FirstSeen : Time; si_LastSeen : Time; si_Attempts : Z }.

Record StalledEntry := mkStalledEntry { se_UUID : string; se_Info : StalledInfo }.

(** [g_stalled] and [g_messages] are the gauges of the sink. *)
Record stalledSet := mkStalledSet {
  st_entries : gmap string StalledInfo; st_untracked : Z; g_stalled : bool; g_messages : Z }.

Definition msize (m : gmap string StalledInfo) : Z := Z.of_nat (size m).

Definition publish (s : stalledSet) : stalledSet :=
  let n := msize (st_entries s) in
  mkStalledSet (st_entries s) (st_untracked s) (0 <? n) n.

Definition newStalledSet : stalledSet := publish (mkStalledSet ∅ 0 false 0).

Definition log_now (attempts : Z) : bool := (attempts =? 1) || (Z.rem attempts stalledLogEvery =? 0).

(** The new set, the attempt count, and whether to log at error level. *)
Definition record (s : stalledSet) (uuid : string) (reason : error) (now : Time) : stalledSet * (Z * bool) :=
  match st_entries s !! uuid with
  | None =>
      if maxStalledEntries <=? msize (st_entries s) then
        let u := st_untracked s + 1 in
        (mkStalledSet (st_entries s) u (g_stalled s) (g_messages s), (1, log_now u))
      else
        let info := mkStalledInfo reason now now 1 in
        (publish (mkStalledSet (<[uuid := info]> (st_entries s)) (st_untracked s) (g_stalled s) (g_messages s)),
         (1, log_now 1))
  | Some info =>
      let info := mkStalledInfo reason (si_FirstSeen info) now (si_Attempts info + 1) in
      (publish (mkStalledSet (<[uuid := info]> (st_entries s)) (st_untracked s) (g_stalled s) (g_messages s)),
       (si_Attempts info, log_now (si_Attempts info)))
  end.

Definition clear (s : stalledSet) (uuid : string) : stalledSet * bool :=
  match st_entries s !! uuid with
  | None => (s, false)
  | Some _ =>
      (publish (mkStalledSet (delete uuid (st_entries s)) (st_untracked s) (g_stalled s) (g_messages s)), true)
  end.

(** The order of [/status]: first occurrence, then UUID. *)
Definition entry_le (a b : StalledEntry) : Prop :=
  t_ns (si_FirstSeen (se_Info a)) < t_ns (si_FirstSeen (se_Info b))
  ∨ t_ns (si_FirstSeen (se_Info a)) = t_ns (si_FirstSeen (se_Info b)) ∧ String.leb (se_UUID a) (se_UUID b) = true.

#[export] Instance entry_le_dec a b : Decision (entry_le a b).
Proof. unfold entry_le. apply _. Defined.

Definition list_entries (s : stalledSet) : list StalledEntry :=
  merge_sort entry_le ((λ p, mkStalledEntry (fst p) (snd p)) <$> map_to_list (st_entries s)).

Record stalled_wf (s : stalledSet) : Prop := {
  st_bound : msize (st_entries s) ≤ maxStalledEntries;
  st_gauge_messages : g_messages s = msize (st_entries s);
  st_gauge_stalled : g_stalled s = (0 <? msize (st_entries s));
  st_attempts u i : st_entries s !! u = Some i → 1 ≤ si_Attempts i }.

Lemma msize_insert_new m u i : m !! u = None → msize (<[u := i]> m) = msize m + 1.
Proof. intros H. unfold msize. rewrite map_size_insert_None by done. lia. Qed.

Lemma msize_insert_old m u i j : m !! u = Some j → msize (<[u := i]> m) = msize m.
Proof. intros H. unfold msize. rewrite map_size_insert, H. done. Qed.

Lemma newStalledSet_wf : stalled_wf newStalledSet.
Proof. by constructor. Qed.

Lemma record_wf s u r t : stalled_wf s → stalled_wf (fst (record s u r t)).
Proof.
  intros [H1 H2 H3 H4]. unfold record. destruct (st_entries s !! u) as [i|] eqn:E.
  - constructor; cbn [publish st_entries g_messages g_stalled fst]; try done.
    + by rewrite (msize_insert_old _ _ _ _ E).
    + intros u' i' Hi. apply lookup_insert_Some in Hi as [[<- <-]|[_ Hi]]; [|by eapply H4].
      cbn. apply H4 in E. lia.
  - destruct (maxStalledEntries <=? _) eqn:Em; to_prop; [by constructor|].
    constructor; cbn [publish st_entries g_messages g_stalled fst]; try done.
    + rewrite msize_insert_new by done. lia.
    + intros u' i' Hi. apply lookup_insert_Some in Hi as [[<- <-]|[_ Hi]]; [done|by eapply H4].
Qed.

Lemma clear_wf s u : stalled_wf s → stalled_wf (fst (clear s u)).
Proof.
  intros [H1 H2 H3 H4]. unfold clear. destruct (st_entries s !! u) as [i|] eqn:E; [|by constructor].
  constructor; cbn [publish st_entries g_messages g_stalled fst]; try done.
  - unfold msize in *. rewrite map_size_delete, E. lia.
  - intros u' i' Hi. apply lookup_delete_Some in Hi as [_ Hi]. by eapply H4.
Qed.

Lemma clear_lookup s u u' :
  st_entries (fst (clear s u)) !! u' = if bool_decide (u = u') then None else st_entries s !! u'.
Proof.
  unfold clear. destruct (st_entries s !! u) as [i|] eqn:E; cbn [publish fst st_entries].
  - case_bool_decide; subst; [by rewrite lookup_delete_eq|by rewrite lookup_delete_ne].
  - case_bool_decide; by subst.
Qed.

Lemma record_other s u r t u' :
  u ≠ u' → st_entries (fst (record s u r t)) !! u' = st_entries s !! u'.
Proof.
  intros Hne. unfold record. destruct (st_entries s !! u); [|destruct (_ <=? _)]; cbn [publish fst st_entries];
    by rewrite ?lookup_insert_ne.
Qed.

#[export] Instance entry_le_total : Total entry_le.
Proof.
  intros a b. unfold entry_le. destruct (Z.lt_trichotomy (t_ns (si_FirstSeen (se_Info a))) (t_ns (si_FirstSeen (se_Info b)))) as [H|[H|H]];
    [by left; left| |by right; left].
  destruct (String.leb_total (se_UUID a) (se_UUID b)) as [H1|H1]; [by left; right|right; right]. done.
Qed.

#[export] Instance entry_le_trans : Transitive entry_le.
Proof.
  intros a b c [H1|[H1 H2]] [H3|[H3 H4]]; [left; lia|left; lia|left; lia|right]. split; [lia|].
  by eapply string_leb_trans.
Qed.
End Stalled.

Import Stalled.

(** ** The handler of one sink *)

(** The counters of [antwatcher_sink_events_total], by result. *)
Record sinkMetrics := mkSinkMetrics {
  sm_ok : Z; sm_error : Z; sm_permanent : Z; sm_skipped : Z;
  sm_observations : list Duration;          (* antwatcher_sink_process_seconds *)
  sm_last_success : Z }.                    (* antwatcher_sink_last_success_timestamp, in ns *)

Inductive sinkResult : Set := SinkOK | SinkError | SinkPermanent | SinkSkipped.

Definition count (m : sinkMetrics) (r : sinkResult) : sinkMetrics :=
  let d r' := match r, r' with
              | SinkOK, SinkOK | SinkError, SinkError
              | SinkPermanent, SinkPermanent | SinkSkipped, SinkSkipped => 1
              | _, _ => 0
              end in
  mkSinkMetrics (sm_ok m + d SinkOK) (sm_error m + d SinkError) (sm_permanent m + d SinkPermanent)
    (sm_skipped m + d SinkSkipped) (sm_observations m) (sm_last_success m).

Record handler := mkHandler {
  h_inst : Instance_;
  h_consumer : string;
  h_effective : StartPosition;
  h_warnings : list Warning;
  h_processTimeout : Duration;
  h_metrics : sinkMetrics;
  h_stalled : stalledSet;
  h_lastSuccess : Time }.

Definition with_state (h : handler) (m : sinkMetrics) (st : stalledSet) (last : Time) : handler :=
  mkHandler (h_inst h) (h_consumer h) (h_effective h) (h_warnings h) (h_processTimeout h) m st last.

(** [initMetrics] creates every series at zero. *)
Definition initMetrics : sinkMetrics := mkSinkMetrics 0 0 0 0 [] 0.

Definition succeeded (h : handler) (uuid : string) (r : sinkResult) (now : Time) : handler :=
  let m := count (h_metrics h) r in
  let m := mkSinkMetrics (sm_ok m) (sm_error m) (sm_permanent m) (sm_skipped m) (sm_observations m) (UnixNano now) in
  with_state h m (fst (clear (h_stalled h) uuid)) now.

(** [stall] returns the error it was given. *)
Definition stall (h : handler) (uuid : string) (e : error) (now : Time) : handler * error :=
  (with_state h (count (h_metrics h) SinkPermanent) (fst (record (h_stalled h) uuid e now)) (h_lastSuccess h), e).

(** The clock readings of one call: before and after [Process], and when recording. *)
Record clock := mkClock { c_start : Time; c_end : Time; c_now : Time }.

Definition observe (m : sinkMetrics) (d : Duration) : sinkMetrics :=
  mkSinkMetrics (sm_ok m) (sm_error m) (sm_permanent m) (sm_skipped m) (sm_observations m ++ [d]) (sm_last_success m).

(** [handle]: [None] acks the message, an error Nacks it. *)
Definition handle (process : Envelope → option error) (h : handler) (c : clock) (msg : Message)
    : handler * option error :=
  match FromMessage (Some msg) with
  | Err e =>
      let '(h, e) := stall h (m_UUID msg) (permanent (EWrap "decode message" e)) (c_now c) in (h, Some e)
  | Ok env =>
      let err := process env in
      let h := with_state h (observe (h_metrics h) (Sub (c_end c) (c_start c))) (h_stalled h) (h_lastSuccess h) in
      match err with
      | None => (succeeded h (m_UUID msg) SinkOK (c_now c), None)
      | Some e =>
          if errors_is e ErrSkipped then (succeeded h (m_UUID msg) SinkSkipped (c_now c), None)
          else if IsPermanent e then
            let '(h, e) := stall h (m_UUID msg) e (c_now c) in (h, Some e)
          else (with_state h (count (h_metrics h) SinkError) (h_stalled h) (h_lastSuccess h), Some e)
      end
  end.

Record SinkStatus := mkSinkStatus {
  ss_Name : string; ss_Class : Class_; ss_Driver : string; ss_Consumer : string;
  ss_Requested : StartPosition; ss_Effective : StartPosition; ss_Warnings : list Warning;
  ss_LastSuccess : option Time; ss_Stalled : list StalledEntry }.

Definition status (h : handler) : SinkStatus :=
  mkSinkStatus (sk_Name (i_Sink (h_inst h))) (sk_Class (i_Sink (h_inst h))) (i_Driver (h_inst h)) (h_consumer h)
    (i_StartFrom (h_inst h)) (h_effective h) (h_warnings h)
    (if IsZero (h_lastSuccess h) then None else Some (h_lastSuccess h))
    (list_entries (h_stalled h)).

(** ** The router, over any bus *)

Record RouterConfig := mkRouterConfig { rc_ProcessTimeout : Duration; rc_CloseTimeout : Duration }.

Section Router.
Context {S Sub : Type} `{Bus S Sub}.
(** What closing a consumer returns. *)
Variable sub_close : Sub → option error.

Record bound := mkBound { b_handler : handler; b_sub : Sub }.

Definition bind (b : S) (cfg : RouterConfig) (mode : Mode) (inst : Instance_) : result bound :=
  (let name := sk_Name (i_Sink inst) in
   match ResolveConsumer (bus_capabilities b) (i_StartFrom inst) mode with
   | Err e => Err (EWrap "sink" e)
   | Ok (effective, warnings) =>
       let consumer := ConsumerName name in
       match bus_subscribe b None consumer effective with
       | Err e => Err (EWrap "create consumer" e)
       | Ok sub =>
           Ok (mkBound (mkHandler inst consumer effective warnings (rc_ProcessTimeout cfg) initMetrics
                          newStalledSet zero_time) sub)
       end
   end)%go.

Definition closeSubscribers (l : list bound) : option error :=
  errors_join ((λ x, match sub_close (b_sub x) with
                     | Some e => Some (EWrap "close consumer" e)
                     | None => None
                     end) <$> l).

(** The loop of [BuildRouter]; the second component lists the consumers closed. *)
Fixpoint bind_all (b : S) (cfg : RouterConfig) (mode : Mode) (done : list bound) (insts : list Instance_)
    : result (list bound) * list Sub :=
  match insts with
  | [] => (Ok done, [])
  | inst :: insts =>
      match bind b cfg mode inst with
      | Err e => (Err e, b_sub <$> done)
      | Ok x => bind_all b cfg mode (done ++ [x])%list insts
      end
  end.

Definition BuildRouter (b : option S) (metrics : bool) (cfg : RouterConfig) (mode : Mode)
    (insts : list Instance_) : result (list bound) * list Sub :=
  match b with
  | None => (Err (errorf "sink: router needs a bus"), [])
  | Some b =>
      if negb metrics then (Err (errorf "sink: router needs metrics"), [])
      else if rc_ProcessTimeout cfg <=? 0 then (Err (errorf "router.process_timeout must be > 0"), [])
      else if rc_CloseTimeout cfg <=? 0 then (Err (errorf "router.close_timeout must be > 0"), [])
      else bind_all b cfg mode [] insts
  end.

(** [Close]: idempotent through [closeOnce]; [running] is the error of closing the
    Watermill router when it runs. *)
Definition Router_Close (closed : option (option error)) (running : option (option error)) (l : list bound)
    : option error :=
  match closed with
  | Some e => e
  | None =>
      errors_join [match running with
                   | Some (Some e) => Some (EWrap "sink: close router" e)
                   | _ => None
                   end; closeSubscribers l]
  end.

Definition Consumers (l : list bound) : list string := (λ x, h_consumer (b_handler x)) <$> l.
Definition Router_Status (l : list bound) : list SinkStatus := (λ x, status (b_handler x)) <$> l.

Definition bound_to (b : S) (mode : Mode) (inst : Instance_) (x : bound) : Prop :=
  let h := b_handler x in
  h_inst h = inst ∧ h_consumer h = ConsumerName (sk_Name (i_Sink inst)) ∧
  ResolveConsumer (bus_capabilities b) (i_StartFrom inst) mode = Ok (h_effective h, h_warnings h) ∧
  bus_subscribe b None (h_consumer h) (h_effective h) = Ok (b_sub x).

Lemma bind_spec b cfg mode inst x : bind b cfg mode inst = Ok x → bound_to b mode inst x.
Proof.
  unfold bind, bound_to. destruct (ResolveConsumer _ _ _) as [[eff ws]|e] eqn:E; [|done].
  destruct (bus_subscribe _ _ _ _) eqn:E2; [|done]. by intros [= <-].
Qed.

Lemma bind_all_spec b cfg mode done insts res closed :
  bind_all b cfg mode done insts = (res, closed) →
  match res with
  | Ok l => ∃ l', l = (done ++ l')%list ∧ Forall2 (bound_to b mode) insts l' ∧ closed = []
  | Err _ => ∃ l' pre inst post, closed = (b_sub <$> (done ++ l'))%list ∧ insts = (pre ++ inst :: post)%list ∧
      Forall2 (bound_to b mode) pre l' ∧ ∃ e, bind b cfg mode inst = Err e
  end.
Proof.
  revert done. induction insts as [|inst insts IH]; intros done Hb; simpl in Hb.
  { injection Hb as <- <-. exists []. rewrite app_nil_r. split_and!; constructor. }
  destruct (bind b cfg mode inst) as [x|e] eqn:E.
  - apply IH in Hb. apply bind_spec in E. destruct res as [l|e].
    + destruct Hb as (l' & -> & HF & ->). exists (x :: l'). rewrite <- app_assoc. split_and!; try done. by constructor.
    + destruct Hb as (l' & pre & i & post & -> & -> & HF & He). exists (x :: l'), (inst :: pre), i, post.
      rewrite <- app_assoc. split_and!; try done. by constructor.
  - injection Hb as <- <-. exists [], [], inst, insts. rewrite app_nil_r. split_and!; try done. by eexists.
Qed.
End Router.
Arguments bound : clear implicits.

(** ** Sequences of deliveries to one sink *)

(** A delivery: the message, what the sink answers, and the clock. *)
Record delivery := mkDelivery { dl_msg : Message; dl_process : Envelope → option error; dl_clock : clock }.

Fixpoint deliver (h : handler) (l : list delivery) : handler :=
  match l with
  | [] => h
  | d :: l => deliver (fst (handle (dl_process d) h (dl_clock d) (dl_msg d))) l
  end.

(** What the sink decided about a message, from the decoded envelope. *)
Inductive verdict : Set := Processed | Skipped | StalledV (e : error) | Retry (e : error).

Definition verdict_of (process : Envelope → option error) (msg : Message) : verdict :=
  match FromMessage (Some msg) with
  | Err e => StalledV (permanent (EWrap "decode message" e))
  | Ok env =>
      match process env with
      | None => Processed
      | Some e => if errors_is e ErrSkipped then Skipped else if IsPermanent e then StalledV e else Retry e
      end
  end.

Lemma handle_wf p h c msg : stalled_wf (h_stalled h) → stalled_wf (h_stalled (fst (handle p h c msg))).
Proof.
  intros Hw. unfold handle, succeeded, stall.
  destruct (FromMessage _); [destruct (p _) as [e|]; [destruct (errors_is _ _); [|destruct (IsPermanent e)]|]|];
    cbn [fst with_state h_stalled]; try done; auto using clear_wf, record_wf.
Qed.

Lemma deliver_wf l h : stalled_wf (h_stalled h) → stalled_wf (h_stalled (deliver h l)).
Proof. revert h. induction l; intros h Hw; simpl; [done|]. by apply IHl, handle_wf. Qed.

(** ** Properties *)

(** C5: the delivery semantics of a sink.  A message is acked exactly when the sink processed
    or skipped it; then its stalled entry is gone and the last success is now.  A permanent
    failure, or a message that does not decode, is Nacked, counted as permanent and recorded
    as stalled; any other failure is Nacked and changes no stalled entry.  Entries of other
    messages never change, and exactly one counter moves, by one. *)
Theorem handle_spec p h c msg :
  let '(h', err) := handle p h c msg in
  let m := h_metrics h in let m' := h_metrics h' in
  (∀ u, u ≠ m_UUID msg → st_entries (h_stalled h') !! u = st_entries (h_stalled h) !! u) ∧
  match verdict_of p msg with
  | Processed => err = None ∧ st_entries (h_stalled h') !! m_UUID msg = None ∧ h_lastSuccess h' = c_now c ∧
      (sm_ok m', sm_error m', sm_permanent m', sm_skipped m') = (sm_ok m + 1, sm_error m, sm_permanent m, sm_skipped m)
  | Skipped => err = None ∧ st_entries (h_stalled h') !! m_UUID msg = None ∧ h_lastSuccess h' = c_now c ∧
      (sm_ok m', sm_error m', sm_permanent m', sm_skipped m') = (sm_ok m, sm_error m, sm_permanent m, sm_skipped m + 1)
  | StalledV e => err = Some e ∧ IsPermanent e = true ∧ h_lastSuccess h' = h_lastSuccess h ∧
      h_stalled h' = fst (record (h_stalled h) (m_UUID msg) e (c_now c)) ∧
      (sm_ok m', sm_error m', sm_permanent m', sm_skipped m') = (sm_ok m, sm_error m, sm_permanent m + 1, sm_skipped m)
  | Retry e => err = Some e ∧ IsPermanent e = false ∧ h_lastSuccess h' = h_lastSuccess h ∧
      h_stalled h' = h_stalled h ∧
      (sm_ok m', sm_error m', sm_permanent m', sm_skipped m') = (sm_ok m, sm_error m + 1, sm_permanent m, sm_skipped m)
  end.
Proof.
  unfold handle, verdict_of, succeeded, stall.
  assert (∀ u, u ≠ m_UUID msg → st_entries (fst (clear (h_stalled h) (m_UUID msg))) !! u = st_entries (h_stalled h) !! u) as Hcl.
  { intros u Hu. rewrite clear_lookup, bool_decide_false by congruence. done. }
  assert (st_entries (fst (clear (h_stalled h) (m_UUID msg))) !! m_UUID msg = None) as Hcl'.
  { rewrite clear_lookup. by rewrite bool_decide_true. }
  destruct (FromMessage _) as [env|e]; [destruct (p env) as [e|];
    [destruct (errors_is e ErrSkipped); [|destruct (IsPermanent e) eqn:Ep]|]|];
    cbn [with_state h_stalled h_metrics h_lastSuccess count observe sm_ok sm_error sm_permanent sm_skipped];
    rewrite ?Z.add_0_r; (split; [intros u Hu; first [by apply Hcl|done|by apply record_other]|]);
    split_and!; try done; auto with goerr.
Qed.

(** C22: whatever sequence of messages a sink receives and however they end, its stalled set
    never holds more than [maxStalledEntries] messages, its two gauges agree with it, every
    entry counts at least one attempt, and [/status] lists exactly its entries, ordered by
    first occurrence and then UUID. *)
Theorem stalled_bounded h l :
  stalled_wf (h_stalled h) →
  let s := h_stalled (deliver h l) in
  stalled_wf s ∧
  StronglySorted entry_le (list_entries s) ∧
  list_entries s ≡ₚ ((λ p, mkStalledEntry (fst p) (snd p)) <$> map_to_list (st_entries s)).
Proof.
  intros Hw s. assert (stalled_wf s) as Hs by by apply deliver_wf.
  split_and!; [done| |apply merge_sort_Permutation].
  apply (StronglySorted_merge_sort entry_le).
Qed.

(** [BuildRouter] binds every sink to a consumer of its own, in order, at the position the
    consumer policy resolved, or fails with the consumers it had created closed, each once. *)
Lemma BuildRouter_all_or_nothing {S Sub} `{Bus S Sub} (b : S) cfg mode insts res closed :
  BuildRouter (Some b) true cfg mode insts = (res, closed) →
  match res with
  | Ok l => Forall2 (bound_to b mode) insts l ∧ closed = [] ∧
            Consumers l = (λ i, ConsumerName (sk_Name (i_Sink i))) <$> insts ∧
            0 < rc_ProcessTimeout cfg ∧ 0 < rc_CloseTimeout cfg
  | Err _ => closed = [] ∨
      ∃ l pre inst post, closed = (b_sub <$> l) ∧ insts = (pre ++ inst :: post)%list ∧
        Forall2 (bound_to b mode) pre l ∧ ∃ e, bind b cfg mode inst = Err e
  end.
Proof.
  unfold BuildRouter. cbn [negb]. destruct (_ <=? 0) eqn:E1; [intros [= <- <-]; by left|].
  destruct (rc_CloseTimeout cfg <=? 0) eqn:E2; [intros [= <- <-]; by left|]. to_prop.
  intros Hb%bind_all_spec. destruct res as [l|e]; [|right].
  - destruct Hb as (l' & -> & HF & ->). cbn [app]. split_and!; try done.
    clear -HF. induction HF as [|i x insts l (_ & Hx & _) _ IH]; [done|]. unfold Consumers in *. rewrite !fmap_cons. by f_equal.
  - destruct Hb as (l' & pre & inst & post & -> & -> & HF & He). by exists l', pre, inst, post.
Qed.

(** ** Witnesses *)

Definition ex_handle : SinkHandle := mkSinkHandle 1 "a" ClassLog None.
Definition ex_inst : Instance_ := mkInstance ex_handle Now "stdout".
Definition ex_handler : handler :=
  mkHandler ex_inst "sink-a" Now [] Minute initMetrics newStalledSet zero_time.
Definition ex_clock : clock := mkClock zero_time zero_time zero_time.

Lemma stalled_bounded_witness :
  stalled_wf (h_stalled (deliver ex_handler [mkDelivery (mkMessage "u" None "") (λ _, None) ex_clock])).
Proof. apply (stalled_bounded ex_handler); apply newStalledSet_wf. Defined.

#[export] Instance ex_Bus : Bus GoChannelBus GoChannel.subscriber := GoChannel_Bus (λ _, None).
Definition ex_bus : GoChannelBus := New "topic".
Definition ex_config : RouterConfig := mkRouterConfig Minute Second.

Lemma BuildRouter_all_or_nothing_witness :
  match fst (BuildRouter (Some ex_bus) true ex_config ModeDegrade [ex_inst]) with
  | Ok l => Consumers l = ["sink-a"]
  | Err _ => False
  end.
Proof.
  pose proof (BuildRouter_all_or_nothing ex_bus ex_config ModeDegrade [ex_inst]
    (fst (BuildRouter (Some ex_bus) true ex_config ModeDegrade [ex_inst]))
    (snd (BuildRouter (Some ex_bus) true ex_config ModeDegrade [ex_inst]))) as H.
  vm_compute in H |- *. specialize (H eq_refl). destruct H as (_ & _ & H & _). exact H.
Defined.
