(* ===== verification/WmLog.v ===== *)
(** * [internal/sink/wmlog.go]: the log lines of Watermill's router through [log/slog]

    A logger is the attributes it carries; a call is the line it hands to the handler of [slog].
    What a field holds is opaque, and so is Watermill's error of a recovered panic: [panicked]
    is whether [errors.As] finds one. *)

From S2P Require Import Prelude.
From S2P Require Import Errors.

Local Open Scope Z_scope.

Definition LevelDebug : Z := -4.
Definition LevelInfo : Z := 0.
Definition LevelWarn : Z := 4.
Definition LevelError : Z := 8.

Definition levelTrace : Z := LevelDebug - 4.
Definition handlerErrorMessage : string := "Handler returned error".

Section WmLog.
Context {V : Type}.
Variable panicked : error → bool.
(** The order in which a map is ranged over. *)
Variable range : gmap string V → list (string * V).
Context (range_perm : ∀ m, range m ≡ₚ map_to_list m).

Inductive value : Type := VField (v : V) | VErr (e : option error) | VText (s : string).
Definition attr : Type := string * value.

(** A [*slog.Logger], and a line of it: the level, the message, and the attributes with those of
    the logger first. *)
Record Logger := mkLogger { lg_attrs : list attr }.
Record line := mkLine { li_level : Z; li_msg : string; li_attrs : list attr }.

Definition slog_With (l : Logger) (attrs : list attr) : Logger := mkLogger (lg_attrs l ++ attrs).

Definition attrs (fields : gmap string V) : list attr := (λ kv, (fst kv, VField (snd kv))) <$> range fields.

Definition newWatermillLogger (l : Logger) : Logger := slog_With l [("component", VText "watermill")].

Definition log (w : Logger) (level : Z) (msg : string) (a : list attr) : line := mkLine level msg (lg_attrs w ++ a).

Definition Error (w : Logger) (msg : string) (err : option error) (fields : gmap string V) : line :=
  let level := if bool_decide (msg = handlerErrorMessage) && negb (match err with Some e => panicked e | None => false end)
               then LevelDebug else LevelError in
  log w level msg (attrs fields ++ [("err", VErr err)]).

Definition Info (w : Logger) (msg : string) (fields : gmap string V) : line := log w LevelInfo msg (attrs fields).
Definition Debug (w : Logger) (msg : string) (fields : gmap string V) : line := log w LevelDebug msg (attrs fields).
Definition Trace (w : Logger) (msg : string) (fields : gmap string V) : line := log w levelTrace msg (attrs fields).

Definition With (w : Logger) (fields : gmap string V) : Logger := slog_With w (attrs fields).

(** The handler of [slog] prints the lines from some level on. *)
Definition printed (threshold : Z) (l : line) : bool := threshold <=? li_level l.

(** ** Lemmas *)

Lemma elem_of_attrs k v fields : (k, VField v) ∈ attrs fields ↔ fields !! k = Some v.
Proof using range_perm.
  unfold attrs. rewrite list_elem_of_fmap. split.
  - intros ([k' v'] & [= -> ->] & H). by rewrite range_perm, elem_of_map_to_list in H.
  - intros H. exists (k, v). by rewrite range_perm, elem_of_map_to_list.
Qed.

(** An error line is demoted exactly when it repeats what the sink's handler has logged: at the
    level of errors a handler sees every other error, and every recovered panic. *)
Lemma Error_printed w msg err fields threshold :
  LevelDebug < threshold ≤ LevelError →
  printed threshold (Error w msg err fields) = true ↔
  msg ≠ handlerErrorMessage ∨ ∃ e, err = Some e ∧ panicked e = true.
Proof.
  unfold printed, Error, LevelDebug, LevelError, log. cbn [li_level]. intros Ht. split.
  - intros H. case_bool_decide as Hm; [right|by left].
    destruct err as [e|]; cbn [negb andb] in H; [destruct (panicked e) eqn:Ep; [by exists e|]|]; cbn in H; to_prop; lia.
  - intros [Hm|(e & -> & Hp)].
    + rewrite bool_decide_false by done. cbn. lia.
    + rewrite Hp, andb_false_r. lia.
Qed.

(** Nothing of an error line is dropped: its error, its fields, those added before. *)
Lemma Error_complete w before msg err fields :
  let l := Error (With w before) msg err fields in
  ("err", VErr err) ∈ li_attrs l ∧
  (∀ k v, before !! k = Some v ∨ fields !! k = Some v → (k, VField v) ∈ li_attrs l) ∧ lg_attrs w `prefix_of` li_attrs l.
Proof using range_perm.
  cbn. split_and!; [set_solver| |by rewrite <- !app_assoc; eexists].
  intros k v [H|H]; apply elem_of_attrs in H; set_solver.
Qed.

(** With the default level nothing of Watermill's own debugging is printed. *)
Lemma Trace_quiet w msg fields threshold : LevelDebug ≤ threshold → printed threshold (Trace w msg fields) = false.
Proof. unfold printed, Trace, levelTrace, LevelDebug. cbn. lia. Qed.
End WmLog.

Example Error_ex :
  li_level (Error (λ _, false) (λ _ : gmap string nat, []) (mkLogger []) handlerErrorMessage (Some (errorf "nack")) ∅) = LevelDebug ∧
  li_level (Error (λ _, true) (λ _ : gmap string nat, []) (mkLogger []) handlerErrorMessage (Some (errorf "panic")) ∅) = LevelError.
Proof. done. Qed.
