(* ===== verification/Receiver.v ===== *)
(** * [internal/receiver/handler.go]: the webhook ingress

    [serveWebhook] over any [Bus]: the body read, the signature check (over the concrete
    HMAC-SHA256), ping, the envelope, the publish and the answer.  What the environment
    decides is an argument: how reading the body ended, the clock, the error of the publish
    context when [Publish] looks at it, and whether its deadline had passed afterwards.  The
    result holds the bus after the call, the response, and the one sample of
    [antwatcher_webhooks_total]. *)

From S2P Require Import Prelude.
From S2P Require Import Errors.
From S2P Require Import GoText.
From S2P Require Import GoNum.
From S2P Require Import GoTime.
From S2P Require Import GoSha.
From S2P Require Import Event.
From S2P Require Import Bus.
From S2P Require Import GoChannel.

Local Open Scope Z_scope.

Definition HeaderSignature : string := "X-Hub-Signature-256".
Definition signaturePrefix : string := "sha256=".
Definition EventPing : string := "ping".
Definition unknownEvent : string := "unknown".

(** [verifySignature]; [hmac.Equal] is equality of the two byte strings. *)
Definition verifySignature (secret header body : string) : bool :=
  if bool_decide (secret = "") || negb (HasPrefix header signaturePrefix) then false
  else match hex_decode (TrimPrefix header signaturePrefix) with
       | None => false
       | Some got => bool_decide (got = hmac_sha256 (bytes secret) (bytes body))
       end.

Definition Sign (secret body : string) : string :=
  signaturePrefix +:+ hex_encode (hmac_sha256 (bytes secret) (bytes body)).

(** The results of [antwatcher_webhooks_total]. *)
Inductive webhookResult : Set :=
  | WebhookPublished | WebhookPing | WebhookRejectedSignature | WebhookBadRequest
  | WebhookPublishFailed | WebhookPublishTimeout.

Definition labelEvent (eventName : string) : string :=
  if bool_decide (eventName = "") then unknownEvent else eventName.

(** A response: the status code and the string fields of the JSON body. *)
Record response := mkResponse { rs_code : Z; rs_body : list (string * string) }.

Definition writeError (code : Z) (msg guid : string) : response :=
  mkResponse code (("error", msg) :: (if bool_decide (guid = "") then [] else [("delivery", guid)])).

(** How [io.ReadAll] over [http.MaxBytesReader] ended. *)
Inductive readResult : Set := ReadOk (body : string) | ReadTooLarge | ReadFailed (e : error).

Definition read_body (limit : Z) (body : string) (fault : option error) : readResult :=
  match fault with
  | Some e => ReadFailed e
  | None => if limit <? slen body then ReadTooLarge else ReadOk body
  end.

Definition event_error_text (e : error) : string :=
  if errors_is e ErrMissingDelivery then "missing X-GitHub-Delivery header"
  else if errors_is e ErrMissingEvent then "missing X-GitHub-Event header"
  else "payload is not a JSON object".

Section Receiver.
Context {S Sub : Type} `{Bus S Sub}.

(** The context of one publish: its error when [Publish] reads it, and whether its deadline
    had passed when [Publish] returned. *)
Record publishCtx := mkPublishCtx { pc_err : option error; pc_deadline : bool }.

Record served := mkServed { sv_bus : S; sv_resp : response; sv_sample : string * webhookResult }.

Definition serveWebhook (secret : string) (b : S) (read : readResult) (hdr : Header) (start : Time)
    (ctx : publishCtx) : served :=
  match read with
  | ReadTooLarge =>
      mkServed b (writeError 413 "body exceeds max_body_bytes" "") (unknownEvent, WebhookBadRequest)
  | ReadFailed _ => mkServed b (writeError 400 "read body" "") (unknownEvent, WebhookBadRequest)
  | ReadOk body =>
      if negb (verifySignature secret (header_get hdr HeaderSignature) body) then
        mkServed b (writeError 401 ("invalid or missing " +:+ HeaderSignature) "")
          (unknownEvent, WebhookRejectedSignature)
      else
      let guid := TrimSpace (header_get hdr HeaderDelivery) in
      let eventName := TrimSpace (header_get hdr HeaderEvent) in
      if String.eqb eventName EventPing then
        mkServed b (mkResponse 200 [("delivery", guid); ("ping", "true")]) (EventPing, WebhookPing)
      else
      match FromWebhook hdr body start with
      | Err e => mkServed b (writeError 400 (event_error_text e) guid) (labelEvent eventName, WebhookBadRequest)
      | Ok env =>
          let '(b', err) := bus_publish b (pc_err ctx) (Some (ToMessage env)) in
          match err with
          | Some e =>
              let result := if errors_is e CtxDeadlineExceeded || pc_deadline ctx
                            then WebhookPublishTimeout else WebhookPublishFailed in
              mkServed b' (writeError 503 "publish failed" (e_DeliveryGUID env)) (e_Event env, result)
          | None => mkServed b' (mkResponse 200 [("delivery", e_DeliveryGUID env)]) (e_Event env, WebhookPublished)
          end
      end
  end.

Definition is_2xx (r : response) : Prop := 200 ≤ rs_code r < 300.

(** A request whose body was read and carries a valid signature. *)
Definition authenticated (secret : string) (read : readResult) (hdr : Header) (body : string) : Prop :=
  read = ReadOk body ∧ verifySignature secret (header_get hdr HeaderSignature) body = true.

(** Case analysis of the handler. *)
Lemma serveWebhook_cases secret b read hdr start ctx :
  let r := serveWebhook secret b read hdr start ctx in
  let guid := TrimSpace (header_get hdr HeaderDelivery) in
  (sv_bus r = b ∧ ¬ is_2xx (sv_resp r) ∧ snd (sv_sample r) ∈ [WebhookBadRequest; WebhookRejectedSignature]) ∨
  (∃ body, authenticated secret read hdr body ∧ TrimSpace (header_get hdr HeaderEvent) = EventPing ∧
     sv_bus r = b ∧ is_2xx (sv_resp r) ∧ snd (sv_sample r) = WebhookPing) ∨
  (∃ body env err, authenticated secret read hdr body ∧ FromWebhook hdr body start = Ok env ∧
     bus_publish b (pc_err ctx) (Some (ToMessage env)) = (sv_bus r, err) ∧
     match err with
     | None => is_2xx (sv_resp r) ∧ sv_sample r = (e_Event env, WebhookPublished)
     | Some _ => rs_code (sv_resp r) = 503 ∧
                 snd (sv_sample r) ∈ [WebhookPublishFailed; WebhookPublishTimeout]
     end).
Proof.
  unfold serveWebhook, is_2xx. cbv zeta.
  destruct read as [body| |e]; [|left; split_and!; [done|simpl; lia|set_solver]..].
  destruct (verifySignature _ _ _) eqn:Ev; cbn [negb]; [|left; split_and!; [done|simpl; lia|set_solver]].
  assert (authenticated secret (ReadOk body) hdr body) as Ha by done.
  destruct (String.eqb _ EventPing) eqn:Ep; to_prop.
  { right; left. exists body. split_and!; try done. }
  destruct (FromWebhook hdr body start) as [env|e] eqn:Ef; [|left; split_and!; [done|simpl; lia|set_solver]].
  right; right. exists body, env. destruct (bus_publish _ _ _) as [b' err] eqn:Eb.
  exists err. destruct err as [e|]; cbn [sv_bus sv_resp sv_sample]; (split_and!; try done); simpl.
  destruct (_ || _); set_solver.
Qed.
End Receiver.
Arguments served : clear implicits.

(** ** Lemmas *)

Lemma verifySignature_spec secret header body :
  verifySignature secret header body = true ↔
  secret ≠ "" ∧ ∃ h, header = signaturePrefix +:+ h ∧
    hex_decode h = Some (hmac_sha256 (bytes secret) (bytes body)).
Proof.
  unfold verifySignature, TrimPrefix, HasPrefix. case_bool_decide; cbn [orb]; [naive_solver|].
  destruct (strip_prefix signaturePrefix header) as [h|] eqn:E; cbn [negb default from_option id].
  - apply strip_prefix_Some in E as ->. split.
    + destruct (hex_decode h) as [got|] eqn:E; [|done]. intros Hg. to_prop. subst. split; [done|]. by exists h.
    + intros (_ & h' & Heq & Hh). assert (h' = h) as ->.
      { pose proof (strip_prefix_app signaturePrefix h) as E1. rewrite Heq, strip_prefix_app in E1. congruence. }
      rewrite Hh. by apply bool_decide_eq_true.
  - split; [done|]. intros (_ & h & -> & _). by rewrite strip_prefix_app in E.
Qed.

(** ** Properties *)

(** C4: what a webhook answer means.  A 2xx is given only to a request that carries a valid
    signature over the body that was read, and that is either a ping, which publishes
    nothing, or a delivery whose message (built from its headers and that body) the bus
    accepted.  The bus is only ever touched for an authenticated, well-formed delivery, by
    that one publish, and when the publish fails the answer is 503. *)
Theorem webhook_2xx_sound {S Sub} `{Bus S Sub} secret (b : S) read hdr start ctx :
  let r := serveWebhook secret b read hdr start ctx in
  (is_2xx (sv_resp r) →
     ∃ body, authenticated secret read hdr body ∧
       (TrimSpace (header_get hdr HeaderEvent) = EventPing ∧ sv_bus r = b ∨
        ∃ env, FromWebhook hdr body start = Ok env ∧
          bus_publish b (pc_err ctx) (Some (ToMessage env)) = (sv_bus r, None))) ∧
  (sv_bus r ≠ b →
     ∃ body env err, authenticated secret read hdr body ∧ FromWebhook hdr body start = Ok env ∧
       bus_publish b (pc_err ctx) (Some (ToMessage env)) = (sv_bus r, err) ∧
       (err ≠ None → rs_code (sv_resp r) = 503)).
Proof.
  intros r. pose proof (serveWebhook_cases secret b read hdr start ctx) as Hc. cbv zeta in Hc. fold r in Hc.
  destruct Hc as [(H1 & H2 & H3)|[(body & H1 & H2 & H3 & H4 & H5)|(body & env & err & H1 & H2 & H3 & H4)]].
  - split; [done|]. by rewrite H1.
  - split; [|by rewrite H3]. intros _. exists body. split; [done|]. by left.
  - split.
    + intros Hc. destruct err as [e|]; [destruct H4 as [H4 _]; unfold is_2xx in Hc; lia|].
      exists body. split; [done|]. right. by exists env.
    + intros _. exists body, env, err. split_and!; try done. by destruct err as [e|]; [intros _; apply H4|].
Qed.

(** C33: the signature check accepts exactly the headers that are ["sha256="] followed by a
    hexadecimal spelling (either case) of the HMAC-SHA256 of the body under the secret, and
    never with an empty secret; the signature GitHub computes is accepted. *)
Theorem verifySignature_exact secret header body :
  (verifySignature secret header body = true ↔
   secret ≠ "" ∧ ∃ h, header = signaturePrefix +:+ h ∧
     hex_decode h = Some (hmac_sha256 (bytes secret) (bytes body))) ∧
  verifySignature secret (Sign secret body) body = negb (bool_decide (secret = "")).
Proof.
  split; [apply verifySignature_spec|]. case_bool_decide as Hs; cbn [negb].
  - by rewrite Hs.
  - apply verifySignature_spec. split; [done|]. eexists. split; [done|].
    apply hex_decode_encode. apply hmac_ok.
Qed.

(** A request that is not authenticated leaves the bus untouched and is answered with a
    client error under the fixed label, so that an attacker cannot create metric series. *)
Lemma webhook_unauthenticated {S Sub} `{Bus S Sub} secret (b : S) read hdr start ctx :
  (∀ body, ¬ authenticated secret read hdr body) →
  let r := serveWebhook secret b read hdr start ctx in
  sv_bus r = b ∧ 400 ≤ rs_code (sv_resp r) < 500 ∧ fst (sv_sample r) = unknownEvent.
Proof.
  intros Hn r. subst r. unfold serveWebhook. destruct read as [body| |e]; try (split_and!; try done; simpl; lia).
  destruct (verifySignature _ _ _) eqn:E; [|split_and!; try done; simpl; lia].
  exfalso. by apply (Hn body).
Qed.

Lemma webhook_unauthenticated_witness :
  (∀ body, ¬ authenticated "s3cret" (ReadOk "{}") ∅ body) ∧
  rs_code (sv_resp (serveWebhook (H := GoChannel_Bus (λ _, None)) "s3cret" (New "t") (ReadOk "{}") ∅ zero_time
    (mkPublishCtx None false))) < 500.
Proof.
  assert (∀ body, ¬ authenticated "s3cret" (ReadOk "{}") ∅ body) as Hn.
  { intros body [_ Hv]. vm_compute in Hv. discriminate Hv. }
  split; [exact Hn|].
  apply (webhook_unauthenticated (H := GoChannel_Bus (λ _, None)) "s3cret" (New "t") (ReadOk "{}") ∅ zero_time
    (mkPublishCtx None false) Hn).
Defined.
