(* ===== verification/GhClient.v ===== *)
(** * [internal/ghclient]: listing, redelivering and discovering webhook deliveries

    The go-github calls are parameters: a page of deliveries for a cursor, a page of hooks
    for a page number, the answer to a redelivery request.  [net/url] is a parameter of
    hook discovery ([url_parse], [url_string]).  The wait of a rate limit is the value the
    library error carries. *)

From S2P Require Import Prelude.
From S2P Require Import Errors.
From S2P Require Import GoText.
From S2P Require Import GoNum.
From S2P Require Import GoTime.

Local Open Scope Z_scope.

Definition PerPage : Z := 100.
Definition maxPages : nat := 500.

Record Target := mkTarget { tg_Owner : string; tg_Repo : string; tg_Org : string; tg_HookID : Z }.

Definition IsOrg (t : Target) : bool := negb (bool_decide (tg_Org t = "")).

(** [TargetFromConfig] of the repo, org and hook_id fields. *)
Definition TargetFromConfig (repo org : string) (hookID : Z) : result Target :=
  let finish t := if Bool.eqb (IsOrg t) (negb (bool_decide (tg_Repo t = "")))
                  then Err (errorf "ghclient: target needs exactly one of repo or org") else Ok t in
  if bool_decide (repo = "") then finish (mkTarget "" "" org hookID)
  else
    let '(owner, name, ok) := Cut repo "/"%char in
    if negb ok || bool_decide (owner = "") || bool_decide (name = "") || contains_char "/"%char name
    then Err (errorf "ghclient: repo must be owner/name")
    else finish (mkTarget owner name org hookID).

Definition Target_Name (t : Target) : string :=
  if IsOrg t then "org:" +:+ tg_Org t else tg_Owner t +:+ "/" +:+ tg_Repo t.

Definition Target_String (t : Target) : string :=
  if tg_HookID t =? 0 then Target_Name t else Target_Name t +:+ "#" +:+ format_int (tg_HookID t).

Record Delivery := mkDelivery {
  d_ID : Z; d_GUID : string; d_DeliveredAt : Time; d_StatusCode : Z;
  d_Redelivery : bool; d_Event : string; d_Action : string }.

#[export] Instance Delivery_eq_dec : EqDecision Delivery.
Proof. solve_decision. Defined.

Definition Succeeded (d : Delivery) : bool := (200 <=? d_StatusCode d) && (d_StatusCode d <=? 299).

Definition IsRateLimited (e : error) : bool :=
  match errors_as (λ e, match e with ERateLimited _ _ => Some tt | _ => None end) e with
  | Some _ => true
  | None => false
  end.

(** [classify]; the leaf of a primary limit carries the time until the reset, if any. *)
Definition classify (e : error) : error :=
  match errors_as (λ e, match e with ELeaf (LGithubRateLimit r) => Some r | _ => None end) e with
  | Some reset => ERateLimited (match reset with Some d => Z.max d 0 | None => 0 end) e
  | None =>
      match errors_as (λ e, match e with ELeaf (LGithubAbuse d) => Some d | _ => None end) e with
      | Some d => ERateLimited (Z.max d 0) e
      | None => e
      end
  end.

(** ** [ListDeliveries] *)

Section ListDeliveries.
(** The page GitHub answers for a cursor, with the next cursor. *)
Variable listPage : string → result (list Delivery * string).

(** The items of one page: [inl] when an attempt older than [since] ends the listing. *)
Fixpoint take_page (since : Time) (items out : list Delivery) : list Delivery + list Delivery :=
  match items with
  | [] => inr out
  | d :: items => if Before (d_DeliveredAt d) since then inl out else take_page since items (out ++ [d])%list
  end.

Fixpoint list_loop (pages : nat) (since : Time) (cursor : string) (out : list Delivery) : result (list Delivery) :=
  match pages with
  | O => Err (errorf "ghclient: pagination did not end")
  | S n =>
      match listPage cursor with
      | Err e => Err (EWrap "ghclient: list deliveries" (classify e))
      | Ok (items, next) =>
          match take_page since items out with
          | inl out => Ok out
          | inr out =>
              if bool_decide (items = []) || bool_decide (next = "") || String.eqb next cursor then Ok out
              else list_loop n since next out
          end
      end
  end.

Definition ListDeliveries (target : Target) (since : Time) : result (list Delivery) :=
  if tg_HookID target =? 0 then Err (errorf "ghclient: hook id is unknown")
  else list_loop maxPages since "" [].

(** What GitHub lists from [cursor] on: the items of the pages until the last one. *)
Inductive listing : string → list Delivery → Prop :=
  | listing_last cursor items next :
      listPage cursor = Ok (items, next) →
      items = [] ∨ next = "" ∨ next = cursor → listing cursor items
  | listing_next cursor items next rest :
      listPage cursor = Ok (items, next) →
      items ≠ [] → next ≠ "" → next ≠ cursor → listing next rest → listing cursor (items ++ rest).
End ListDeliveries.

(** ** [Redeliver]; [call] is the answer of go-github. *)

Definition Redeliver (target : Target) (call : option error) : option error :=
  if tg_HookID target =? 0 then Some (errorf "ghclient: hook id is unknown")
  else match call with
       | None => None
       | Some e =>
           match errors_as (λ e, match e with ELeaf LGithubAccepted => Some tt | _ => None end) e with
           | Some _ => None
           | None => Some (EWrap "ghclient: redeliver" (classify e))
           end
       end.

(** ** [DiscoverHookID] *)

Section Discover.
(** A parsed URL; [u_Rest] is what comes after the path. *)
Record URL := mkURL {
  u_Scheme : string; u_Host : string; u_Path : string; u_RawPath : string; u_Fragment : string; u_Rest : string }.

Variable url_parse : string → result URL.
Variable url_string : URL → string.

Definition normalizeURL (raw : string) : result string :=
  match url_parse (TrimSpace raw) with
  | Err e => Err e
  | Ok u =>
      if bool_decide (u_Scheme u = "") || bool_decide (u_Host u = "") then Err (errorf "not an absolute url")
      else Ok (url_string (mkURL (ToLower (u_Scheme u)) (ToLower (u_Host u)) (TrimSuffix (u_Path u) "/") "" "" (u_Rest u)))
  end.

(** A hook: its id and its configured URL. *)
Variable listHooks : Z → result (list (Z * string) * Z).

Definition hook_matches (want : string) (h : Z * string) : bool :=
  match normalizeURL (snd h) with Ok got => String.eqb got want | Err _ => false end.

(** The pages of hooks: the matching ids, and whether the listing ended. *)
Fixpoint discover_loop (pages : nat) (want : string) (page : Z) (matches : list Z) : result (list Z * bool) :=
  match pages with
  | O => Ok (matches, false)
  | S n =>
      match listHooks page with
      | Err e => Err (EWrap "ghclient: discover hook" (classify e))
      | Ok (hooks, next) =>
          let matches := (matches ++ (fst <$> filter (λ h, hook_matches want h = true) hooks))%list in
          if (next =? 0) || (next =? page) then Ok (matches, true) else discover_loop n want next matches
      end
  end.

Definition DiscoverHookID (webhookURL : string) : result Z :=
  match normalizeURL webhookURL with
  | Err e => Err (EWrap "webhook url" e)
  | Ok want =>
      match discover_loop maxPages want 0 [] with
      | Err e => Err e
      | Ok (matches, ended) =>
          if negb ended && bool_decide (matches = []) then Err (errorf "ghclient: pagination did not end")
          else match matches with
               | [] => Err (EWrap "ghclient: discover hook" (esent ErrHookNotFound))
               | [id] => Ok id
               | _ => Err (EWrap "ghclient: discover hook" (ELeaf (LHookAmbiguous matches)))
               end
      end
  end.
End Discover.

(** ** Lemmas *)

Definition recent (since : Time) (d : Delivery) : Prop := Before (d_DeliveredAt d) since = false.

#[export] Instance recent_dec since d : Decision (recent since d).
Proof. unfold recent. apply _. Defined.

(** The longest prefix of attempts that are not older than [since]. *)
Fixpoint take_recent (since : Time) (l : list Delivery) : list Delivery :=
  match l with
  | [] => []
  | d :: l => if Before (d_DeliveredAt d) since then [] else d :: take_recent since l
  end.

Lemma take_page_spec since items out :
  take_page since items out =
  if forallb (λ d, negb (Before (d_DeliveredAt d) since)) items
  then inr (out ++ items)%list else inl (out ++ take_recent since items)%list.
Proof.
  revert out. induction items as [|d items IH]; intros out; simpl; [by rewrite app_nil_r|].
  destruct (Before _ _); simpl; [by rewrite app_nil_r|]. rewrite IH, <- !app_assoc. done.
Qed.

Lemma take_recent_app_all since l1 l2 :
  forallb (λ d, negb (Before (d_DeliveredAt d) since)) l1 = true →
  take_recent since (l1 ++ l2) = (l1 ++ take_recent since l2)%list.
Proof.
  induction l1 as [|d l1 IH]; simpl; [done|]. destruct (Before _ _); simpl; [done|]. intros H. by rewrite IH.
Qed.

Lemma take_recent_app_stop since l1 l2 :
  forallb (λ d, negb (Before (d_DeliveredAt d) since)) l1 = false →
  take_recent since (l1 ++ l2) = take_recent since l1.
Proof.
  induction l1 as [|d l1 IH]; simpl; [done|]. destruct (Before _ _); simpl; [done|]. intros H. by rewrite IH.
Qed.

Lemma take_recent_all since l :
  forallb (λ d, negb (Before (d_DeliveredAt d) since)) l = true → take_recent since l = l.
Proof. intros H. pose proof (take_recent_app_all since l [] H) as E. by rewrite !app_nil_r in E. Qed.

(** Deliveries in reverse chronological order, as GitHub lists them. *)
Definition newest_first (l : list Delivery) : Prop :=
  StronglySorted (λ a b, t_ns (d_DeliveredAt b) ≤ t_ns (d_DeliveredAt a)) l.

Lemma take_recent_filter since l : newest_first l → take_recent since l = filter (recent since) l.
Proof.
  induction 1 as [|d l _ IH HF]; cbn [take_recent]; [done|]. rewrite filter_cons.
  destruct (decide (recent since d)) as [Hr|Hr].
  - unfold recent in Hr. by rewrite Hr, IH.
  - unfold recent in Hr. apply not_false_is_true in Hr. rewrite Hr. symmetry. rewrite Forall_forall in HF.
    destruct (filter (recent since) l) as [|x l'] eqn:Ef; [done|].
    assert (x ∈ filter (recent since) l) as Hx by (rewrite Ef; left).
    apply list_elem_of_filter in Hx as [Hx1 Hx2%HF]. unfold recent, Before in *. to_prop. lia.
Qed.

Lemma list_loop_spec listPage n since cursor out all :
  listing listPage cursor all →
  list_loop listPage n since cursor out = Ok (out ++ take_recent since all)%list ∨
  ∃ e, list_loop listPage n since cursor out = Err e.
Proof.
  revert cursor out all. induction n as [|n IH]; intros cursor out all Hl; simpl; [right; by eexists|].
  destruct Hl as [cursor items next Hp Hend|cursor items next rest Hp Hi Hn Hc Hl]; rewrite Hp, take_page_spec;
    destruct (forallb _ items) eqn:E.
  - assert (bool_decide (items = []) || bool_decide (next = "") || String.eqb next cursor = true) as ->.
    { rewrite !orb_true_iff, !bool_decide_eq_true, String.eqb_eq. naive_solver. }
    left. by rewrite take_recent_all.
  - by left.
  - rewrite !bool_decide_false by done. rewrite (proj2 (String.eqb_neq _ _)) by done. cbn [orb].
    rewrite take_recent_app_all by done. destruct (IH next (out ++ items)%list rest Hl) as [->|[e ->]]; [left|right; by eexists].
    by rewrite app_assoc.
  - left. by rewrite take_recent_app_stop.
Qed.

(** The number of pages of a listing. *)
Inductive listing_pages (listPage : string → result (list Delivery * string)) : string → nat → Prop :=
  | lp_last cursor items next :
      listPage cursor = Ok (items, next) → items = [] ∨ next = "" ∨ next = cursor → listing_pages listPage cursor 1
  | lp_next cursor items next n :
      listPage cursor = Ok (items, next) → listing_pages listPage next n → listing_pages listPage cursor (S n).

Lemma list_loop_total listPage n k since cursor out :
  listing_pages listPage cursor k → (k ≤ n)%nat → ∃ l, list_loop listPage n since cursor out = Ok l.
Proof.
  intros Hk. revert n out. induction Hk as [cursor items next Hp Hend|cursor items next k Hp _ IH]; intros n out Hn;
    (destruct n as [|n]; [lia|]); simpl; rewrite Hp, take_page_spec; destruct (forallb _ items); try by eexists.
  - assert (bool_decide (items = []) || bool_decide (next = "") || String.eqb next cursor = true) as ->.
    { rewrite !orb_true_iff, !bool_decide_eq_true, String.eqb_eq. naive_solver. }
    by eexists.
  - destruct (_ || _); [by eexists|]. apply IH. lia.
Qed.

(** A hook whose log is [all], seen through pages of which any may fail. *)
Inductive shows (listPage : string → result (list Delivery * string)) : string → list Delivery → Prop :=
  | shows_failed cursor all e : listPage cursor = Err e → shows listPage cursor all
  | shows_last cursor items next :
      listPage cursor = Ok (items, next) → items = [] ∨ next = "" ∨ next = cursor → shows listPage cursor items
  | shows_next cursor items next rest :
      listPage cursor = Ok (items, next) → items ≠ [] → next ≠ "" → next ≠ cursor → shows listPage next rest →
      shows listPage cursor (items ++ rest).

Lemma list_loop_shows listPage n since cursor out all l :
  shows listPage cursor all → list_loop listPage n since cursor out = Ok l → l = (out ++ take_recent since all)%list.
Proof.
  revert cursor out all. induction n as [|n IH]; intros cursor out all Hs; cbn [list_loop]; [done|].
  destruct Hs as [cursor all e Hp|cursor items next Hp Hend|cursor items next rest Hp Hi Hn Hc Hs]; rewrite Hp; [done|..];
    rewrite take_page_spec; destruct (forallb _ items) eqn:E.
  - assert (bool_decide (items = []) || bool_decide (next = "") || String.eqb next cursor = true) as ->.
    { rewrite !orb_true_iff, !bool_decide_eq_true, String.eqb_eq. naive_solver. }
    intros [= <-]. by rewrite take_recent_all.
  - by intros [= <-].
  - rewrite !bool_decide_false by done. rewrite (proj2 (String.eqb_neq _ _)) by done. cbn [orb].
    intros Hl. apply (IH _ _ _ Hs) in Hl as ->. by rewrite take_recent_app_all, app_assoc.
  - intros [= <-]. by rewrite take_recent_app_stop.
Qed.

(** Whatever a listing returns is what it should: pages that fail can only make it fail. *)
Lemma ListDeliveries_shows listPage target since all ds :
  shows listPage "" all → newest_first all → ListDeliveries listPage target since = Ok ds → ds = filter (recent since) all.
Proof.
  intros Hs Hn. unfold ListDeliveries. destruct (_ =? 0); [done|]. intros H%(list_loop_shows _ _ _ _ _ all); [|done].
  subst ds. by apply take_recent_filter.
Qed.

(** ** Properties *)

(** [ListDeliveries] returns every attempt of the hook that is not older than [since], in
    listing order and nothing else, when GitHub lists newest first over at most [maxPages]
    pages; so early termination of the pagination loses nothing. *)
Lemma ListDeliveries_complete listPage target since all k :
  tg_HookID target ≠ 0 → listing listPage "" all → newest_first all →
  listing_pages listPage "" k → (k ≤ maxPages)%nat →
  ListDeliveries listPage target since = Ok (filter (recent since) all).
Proof.
  intros Ht Hl Hs Hk Hle. unfold ListDeliveries. rewrite (proj2 (Z.eqb_neq _ _)) by done.
  destruct (list_loop_spec listPage maxPages since "" [] all Hl) as [->|[e He]].
  - f_equal. by apply take_recent_filter.
  - destruct (list_loop_total listPage maxPages k since "" [] Hk Hle) as [l Hl']. congruence.
Qed.

Definition ex_delivery (id ns : Z) : Delivery := mkDelivery id "g" (mkTime ns 0) 500 false "push" "".
Definition ex_page (cursor : string) : result (list Delivery * string) :=
  if String.eqb cursor "" then Ok ([ex_delivery 3 30; ex_delivery 2 20], "next")
  else Ok ([ex_delivery 1 10], "").

Lemma ListDeliveries_complete_witness :
  ListDeliveries ex_page (mkTarget "o" "r" "" 7) (mkTime 20 0) = Ok [ex_delivery 3 30; ex_delivery 2 20].
Proof.
  refine (ListDeliveries_complete ex_page (mkTarget "o" "r" "" 7) (mkTime 20 0)
    [ex_delivery 3 30; ex_delivery 2 20; ex_delivery 1 10] 2 _ _ _ _ _).
  - discriminate.
  - apply (listing_next ex_page "" [ex_delivery 3 30; ex_delivery 2 20] "next" [ex_delivery 1 10]); try done.
    apply (listing_last ex_page "next" [ex_delivery 1 10] ""); [done|]. right. by left.
  - repeat constructor; simpl; lia.
  - apply (lp_next ex_page "" [ex_delivery 3 30; ex_delivery 2 20] "next" 1); [done|].
    apply (lp_last ex_page "next" [ex_delivery 1 10] ""); [done|]. right. by left.
  - unfold maxPages. lia.
Defined.
