(* ===== verification/Recovery.v ===== *)
(** * [internal/recovery]: the loop that asks GitHub to redeliver missed webhooks

    [group] (decide.go); [New], [scan], [merge], [redeliver], [finish], [Status] and
    [OptionsFromConfig] (recovery.go).  Go ranges over maps in an unspecified order: [merge]
    folds over the map, which the lemmas show to be order-independent, and the request
    loop takes the list of candidates the sort produced, so that its theorems hold for
    every order the unstable sort may leave.  The GitHub client and the error of the context
    are arguments; the text of a degraded reason is the error itself. *)

From S2P Require Import Prelude.
From S2P Require Import Errors.
From S2P Require Import GoText.
From S2P Require Import GoNum.
From S2P Require Import GoTime.
From S2P Require Import GhClient.

Local Open Scope Z_scope.

(** ** [group] *)

Record attempts := mkAttempts { a_latestID : Z; a_latestAt : Time; a_succeeded : bool }.

Definition zero_attempts : attempts := mkAttempts 0 zero_time false.

Definition group_step (out : gmap string attempts) (d : Delivery) : gmap string attempts :=
  if bool_decide (d_GUID d = "") then out
  else
    let a := default zero_attempts (out !! d_GUID d) in
    let a := if Succeeded d then mkAttempts (a_latestID a) (a_latestAt a) true else a in
    let a :=
      if (a_latestID a =? 0) || After (d_DeliveredAt d) (a_latestAt a)
         || (Equal (d_DeliveredAt d) (a_latestAt a) && (a_latestID a <? d_ID d))
      then mkAttempts (d_ID d) (d_DeliveredAt d) (a_succeeded a) else a in
    <[d_GUID d := a]> out.

Definition group (deliveries : list Delivery) : gmap string attempts :=
  fold_left group_step deliveries ∅.

(** ** Options *)

Definition DefaultRedeliverDelay : Duration := 200 * Millisecond.
Definition MaxLookback : Duration := 72 * Hour.

(** [o_Client]: whether a client is set.  Logger and metrics are not modelled. *)
Record Options := mkOptions {
  o_Client : bool; o_Targets : list Target; o_WebhookURL : string; o_AuthType : string;
  o_Interval : Duration; o_Lookback : Duration; o_Overlap : Duration; o_Grace : Duration;
  o_MaxPerScan : Z; o_RedeliverDelay : Duration }.

(** The recovery block of the configuration; a target is its repo, org and hook id. *)
Record RecoveryConfig := mkRecoveryConfig {
  rcf_Targets : list (string * string * Z); rcf_AuthType : string; rcf_Interval : Duration;
  rcf_Lookback : Duration; rcf_Overlap : Duration; rcf_Grace : Duration; rcf_MaxPerScan : Z }.

Fixpoint targets_from_config (l : list (string * string * Z)) : result (list Target) :=
  match l with
  | [] => Ok []
  | (repo, org, hook) :: l =>
      match TargetFromConfig repo org hook with
      | Err e => Err (EWrap "recovery.targets" e)
      | Ok t => match targets_from_config l with Ok ts => Ok (t :: ts) | Err e => Err e end
      end
  end.

Definition OptionsFromConfig (cfg : RecoveryConfig) (webhookURL : string) : result Options :=
  match targets_from_config (rcf_Targets cfg) with
  | Err e => Err e
  | Ok targets =>
      Ok (mkOptions false targets webhookURL (rcf_AuthType cfg) (rcf_Interval cfg) (rcf_Lookback cfg)
            (rcf_Overlap cfg) (rcf_Grace cfg) (rcf_MaxPerScan cfg) DefaultRedeliverDelay)
  end.

Record pendingInfo := mkPendingInfo {
  p_latestDeliveryID : Z; p_latestAt : Time; p_requestedAt : Time }.
Definition zero_pending : pendingInfo := mkPendingInfo 0 zero_time zero_time.

Inductive scanResult : Set := NoScan | ScanOK | ScanError | ScanRateLimited.

Record targetState := mkTargetState {
  ts_target : Target; ts_lastScan : Time; ts_pending : gmap string pendingInfo;
  ts_degraded : option error; ts_redelivered : Z; ts_lastResult : scanResult; ts_scanned : bool }.

(** [New]: every problem is collected. *)
Definition problem (b : bool) (text : string) : list error := if b then [errorf text] else [].

Definition target_problems (webhookURL : string) (t : Target) : list error :=
  let has_repo := negb (bool_decide (tg_Repo t = "")) in
  (problem (Bool.eqb (IsOrg t) has_repo || (has_repo && bool_decide (tg_Owner t = "")))
     "recovery: targets: exactly one of repo or org is required"
   ++ problem ((tg_HookID t =? 0) && bool_decide (webhookURL = ""))
     "recovery: targets: hook_id is not set and server.public_url is empty")%list.

Definition New (opts : Options) : result (list targetState) :=
  let errs :=
    (problem (negb (o_Client opts)) "recovery: client is required"
     ++ problem (bool_decide (o_Targets opts = [])) "recovery: at least one target is required"
     ++ (o_Targets opts ≫= target_problems (o_WebhookURL opts))
     ++ problem (o_Interval opts <=? 0) "recovery: interval must be > 0"
     ++ problem ((o_Lookback opts <=? 0) || (MaxLookback <? o_Lookback opts)) "recovery: lookback out of range"
     ++ problem (o_Overlap opts <? 0) "recovery: overlap must be >= 0"
     ++ problem (o_Grace opts <? 0) "recovery: grace must be >= 0"
     ++ problem (o_MaxPerScan opts <=? 0) "recovery: max_per_scan must be > 0"
     ++ problem (o_RedeliverDelay opts <? 0) "recovery: redeliver delay must be >= 0")%list in
  match join_problems errs with
  | Some e => Err e
  | None => Ok ((λ t, mkTargetState t zero_time ∅ None 0 NoScan false) <$> o_Targets opts)
  end.

(** ** [merge] *)

Definition merge_one (guid : string) (a : attempts) (pending : gmap string pendingInfo) : gmap string pendingInfo :=
  if a_succeeded a then delete guid pending
  else
    let p := default zero_pending (pending !! guid) in
    let p := if negb (a_latestID a =? p_latestDeliveryID p)
             then mkPendingInfo (a_latestID a) (a_latestAt a) (p_requestedAt p) else p in
    <[guid := p]> pending.

Definition merge_groups (g : gmap string attempts) (pending : gmap string pendingInfo) : gmap string pendingInfo :=
  map_fold merge_one pending g.

Definition within (horizon : Time) (kv : string * pendingInfo) : Prop := Before (p_latestAt (snd kv)) horizon = false.

#[export] Instance within_dec h kv : Decision (within h kv).
Proof. unfold within. apply _. Defined.

Definition merge (lookback : Duration) (pending : gmap string pendingInfo) (deliveries : list Delivery) (now : Time)
    : gmap string pendingInfo :=
  filter (within (Add now (- lookback))) (merge_groups (group deliveries) pending).

(** ** [redeliver] *)

Definition is_due (grace : Duration) (now : Time) (p : pendingInfo) : bool :=
  if Sub now (p_latestAt p) <? grace then false
  else if negb (IsZero (p_requestedAt p)) && (Sub now (p_requestedAt p) <? grace) then false
  else true.

Definition due_of (grace : Duration) (now : Time) (pending : gmap string pendingInfo) : list (string * pendingInfo) :=
  filter (λ kv, is_due grace now (snd kv) = true) (map_to_list pending).

(** The sort order: the least recently requested first (never requested is the zero time),
    then the oldest attempt, then the id. *)
Definition due_lt (a b : pendingInfo) : bool :=
  if negb (Equal (p_requestedAt a) (p_requestedAt b)) then Before (p_requestedAt a) (p_requestedAt b)
  else if negb (Equal (p_latestAt a) (p_latestAt b)) then Before (p_latestAt a) (p_latestAt b)
  else p_latestDeliveryID a <? p_latestDeliveryID b.

(** A slice [sort.Slice] may leave: no element is less than an earlier one. *)
Definition sorted_due (l : list (string * pendingInfo)) : Prop :=
  StronglySorted (λ x y, due_lt (snd y) (snd x) = false) l.

Definition cap (max : Z) (l : list (string * pendingInfo)) : list (string * pendingInfo) :=
  if max <? Z.of_nat (length l) then firstn (Z.to_nat max) l else l.

(** The environment of one request: the pause before it, the answer, and [ctx.Err()] after. *)
Record requestEnv := mkRequestEnv { re_sleep : option error; re_answer : option error; re_ctx : option error }.

(** The state the loop changes, and the ids it asked GitHub for, in order. *)
Record redeliverState := mkRedeliverState {
  rd_pending : gmap string pendingInfo; rd_count : Z; rd_requested : list Z }.

Definition mark_requested (now : Time) (guid : string) (s : redeliverState) : redeliverState :=
  let pending := match rd_pending s !! guid with
                 | Some p => <[guid := mkPendingInfo (p_latestDeliveryID p) (p_latestAt p) now]> (rd_pending s)
                 | None => rd_pending s
                 end in
  mkRedeliverState pending (rd_count s + 1) (rd_requested s).

Definition resultOf (e : error) : scanResult := if IsRateLimited e then ScanRateLimited else ScanError.

Section Redeliver.
Variable delay : Duration.
Variable env : nat → requestEnv.
Variable now : Time.

Fixpoint redeliver_loop (n : nat) (cs : list (string * pendingInfo)) (firstErr : option error)
    (s : redeliverState) : redeliverState * (scanResult * option error) :=
  match cs with
  | [] => match firstErr with
          | Some e => (s, (ScanError, Some e))
          | None => (s, (ScanOK, None))
          end
  | (guid, info) :: cs =>
      match (if (0 <? Z.of_nat n) && (0 <? delay) then re_sleep (env n) else None) with
      | Some _ => (s, (ScanError, Some (errorf "interrupted")))
      | None =>
          let s := mkRedeliverState (rd_pending s) (rd_count s) (rd_requested s ++ [p_latestDeliveryID info])%list in
          match re_answer (env n) with
          | None => redeliver_loop (S n) cs firstErr (mark_requested now guid s)
          | Some e =>
              if IsRateLimited e || (match re_ctx (env n) with Some _ => true | None => false end)
              then (s, (resultOf e, Some (EWrap "redeliver" e)))
              else redeliver_loop (S n) cs
                     (match firstErr with Some e' => Some e' | None => Some (EWrap "redeliver" e) end) s
          end
      end
  end.
End Redeliver.

(** [sorted]: what [sort.Slice] left of the due candidates. *)
Definition redeliver (opts : Options) (env : nat → requestEnv) (st : targetState) (now : Time)
    (sorted : list (string * pendingInfo)) : targetState * (scanResult * option error) * list Z :=
  let '(s, out) := redeliver_loop (o_RedeliverDelay opts) env now 0 (cap (o_MaxPerScan opts) sorted) None
                     (mkRedeliverState (ts_pending st) (ts_redelivered st) []) in
  (mkTargetState (ts_target st) (ts_lastScan st) (rd_pending s) (ts_degraded st) (rd_count s)
     (ts_lastResult st) (ts_scanned st), out, rd_requested s).

(** ** [finish] and [scan] *)

Definition finish (ctx : option error) (st : targetState) (result : scanResult) (reason : option error) : targetState :=
  match ctx with
  | Some _ => st
  | None => mkTargetState (ts_target st) (ts_lastScan st) (ts_pending st) reason (ts_redelivered st) result (ts_scanned st)
  end.

(** The start of the window of a scan. *)
Definition window (opts : Options) (st : targetState) (now : Time) : Time :=
  let since := Add now (- o_Lookback opts) in
  if ts_scanned st then
    let inc := Add (ts_lastScan st) (- o_Overlap opts) in if After inc since then inc else since
  else since.

Definition with_hook (st : targetState) (id : Z) : targetState :=
  let t := ts_target st in
  mkTargetState (mkTarget (tg_Owner t) (tg_Repo t) (tg_Org t) id) (ts_lastScan st) (ts_pending st) (ts_degraded st)
    (ts_redelivered st) (ts_lastResult st) (ts_scanned st).

(** What GitHub and the context answer during one scan; [se_sort] is the order in which
    [sort.Slice] leaves the due candidates. *)
Record scanEnv := mkScanEnv {
  se_discover : result Z;
  se_list : Target → Time → result (list Delivery);
  se_sort : list (string * pendingInfo) → list (string * pendingInfo);
  se_requests : nat → requestEnv;
  se_ctx : option error }.

(** The new state, and the ids of the redeliveries requested. *)
Definition scan (opts : Options) (env : scanEnv) (now : Time) (st : targetState) : targetState * list Z :=
  let found := if tg_HookID (ts_target st) =? 0
               then match se_discover env with Ok id => Ok (with_hook st id) | Err e => Err e end
               else Ok st in
  match found with
  | Err e => (finish (se_ctx env) st ScanError (Some (EWrap "hook discovery" e)), [])
  | Ok st =>
      match se_list env (ts_target st) (window opts st now) with
      | Err e => (finish (se_ctx env) st (resultOf e) (Some (EWrap "list deliveries" e)), [])
      | Ok deliveries =>
          let pending := merge (o_Lookback opts) (ts_pending st) deliveries now in
          let st := mkTargetState (ts_target st) now pending (ts_degraded st) (ts_redelivered st) (ts_lastResult st) true in
          let '(st, (result, reason), ids) :=
            redeliver opts (se_requests env) st now (se_sort env (due_of (o_Grace opts) now pending)) in
          (finish (se_ctx env) st result reason, ids)
      end
  end.

(** [ScanAll]: every target in configuration order, unless the context ended. *)
Fixpoint ScanAll (opts : Options) (env : nat → scanEnv) (clock : nat → Time) (ctx : nat → option error) (i : nat)
    (l : list targetState) : list targetState :=
  match l with
  | [] => []
  | st :: l' =>
      match ctx i with
      | Some _ => st :: l'
      | None => fst (scan opts (env i) (clock i) st) :: ScanAll opts env clock ctx (S i) l'
      end
  end.

Record TargetStatus := mkTargetStatus {
  tst_Target : string; tst_HookID : Z; tst_Degraded : bool; tst_Reason : option error;
  tst_LastScan : option Time; tst_LastResult : scanResult; tst_Pending : Z; tst_Redeliveries : Z }.

Definition target_status (st : targetState) : TargetStatus :=
  mkTargetStatus (Target_Name (ts_target st)) (tg_HookID (ts_target st))
    (match ts_degraded st with Some _ => true | None => false end) (ts_degraded st)
    (if ts_scanned st then Some (ts_lastScan st) else None) (ts_lastResult st)
    (Z.of_nat (size (ts_pending st))) (ts_redelivered st).

Definition Status (l : list targetState) : list TargetStatus := target_status <$> l.

(** ** Lemmas: [group] *)

(** The attempts of a GUID. *)
Definition of_guid (g : string) (l : list Delivery) : list Delivery := filter (λ d, d_GUID d = g) l.

(** [d'] is at most as recent as [d]: the order of the latest attempt. *)
Definition later_eq (d' d : Delivery) : Prop :=
  t_ns (d_DeliveredAt d') < t_ns (d_DeliveredAt d)
  ∨ t_ns (d_DeliveredAt d') = t_ns (d_DeliveredAt d) ∧ d_ID d' ≤ d_ID d.

Definition summary (l : list Delivery) (a : attempts) : Prop :=
  a_succeeded a = existsb Succeeded l ∧
  ∃ d, d ∈ l ∧ a_latestID a = d_ID d ∧ a_latestAt a = d_DeliveredAt d ∧ Forall (λ d', later_eq d' d) l.

Definition group_ok (l : list Delivery) (m : gmap string attempts) : Prop :=
  ∀ g, g ≠ "" → match m !! g with None => of_guid g l = [] | Some a => summary (of_guid g l) a end.

Lemma later_eq_trans a b c : later_eq a b → later_eq b c → later_eq a c.
Proof. unfold later_eq. lia. Qed.

Lemma summary_single d : summary [d] (mkAttempts (d_ID d) (d_DeliveredAt d) (Succeeded d)).
Proof.
  split; [simpl; by rewrite orb_false_r|]. exists d. split_and!; try done; [left|].
  apply Forall_singleton. unfold later_eq. lia.
Qed.

Lemma summary_snoc l a d :
  Forall (λ d, 0 < d_ID d) l → summary l a →
  summary (l ++ [d])
    (let a := if Succeeded d then mkAttempts (a_latestID a) (a_latestAt a) true else a in
     if (a_latestID a =? 0) || After (d_DeliveredAt d) (a_latestAt a)
        || (Equal (d_DeliveredAt d) (a_latestAt a) && (a_latestID a <? d_ID d))
     then mkAttempts (d_ID d) (d_DeliveredAt d) (a_succeeded a) else a).
Proof.
  intros Hpos [Hs (x & Hx & Hid & Hat & Hmax)].
  assert (0 < d_ID x) as Hxp by (rewrite Forall_forall in Hpos; by apply Hpos).
  set (a1 := if Succeeded d then _ else a).
  assert (a_latestID a1 = d_ID x ∧ a_latestAt a1 = d_DeliveredAt x ∧
          a_succeeded a1 = existsb Succeeded (l ++ [d])) as (H1 & H2 & H3).
  { rewrite existsb_app, <- Hs. simpl. rewrite orb_false_r. subst a1.
    destruct (Succeeded d); simpl; rewrite ?orb_true_r, ?orb_false_r; done. }
  cbv zeta. rewrite H1, H2. rewrite (proj2 (Z.eqb_neq _ _)) by lia. cbn [orb].
  destruct (After _ _ || _) eqn:E.
  - split; [done|]. exists d. split_and!; try done; [set_solver|]. unfold After, Equal in E.
    assert (later_eq x d) as Hxd.
    { unfold later_eq. apply orb_true_iff in E as [E|E]; to_prop; lia. }
    apply Forall_app. split; [|apply Forall_singleton; unfold later_eq; lia].
    eapply Forall_impl; [exact Hmax|]. intros y Hy. exact (later_eq_trans _ _ _ Hy Hxd).
  - split; [done|]. exists x. split_and!; try done; [set_solver|]. apply Forall_app. split; [done|].
    apply Forall_singleton. unfold After, Equal in E. apply orb_false_iff in E as [E1 E2]. to_prop. unfold later_eq.
    destruct E2 as [E2|E2]; to_prop; lia.
Qed.

Lemma of_guid_snoc g l d : of_guid g (l ++ [d]) = if decide (d_GUID d = g) then (of_guid g l ++ [d])%list else of_guid g l.
Proof. unfold of_guid. rewrite filter_app, filter_cons, filter_nil. destruct (decide _); [done|by rewrite app_nil_r]. Qed.

Lemma group_step_ok l m d :
  Forall (λ d, 0 < d_ID d) (l ++ [d]) → group_ok l m → group_ok (l ++ [d]) (group_step m d).
Proof.
  intros [Hpos Hd]%Forall_app Hok g Hg. unfold group_step. rewrite of_guid_snoc.
  case_bool_decide as He; [rewrite decide_False by congruence; exact (Hok g Hg)|].
  destruct (decide (d_GUID d = g)) as [->|Hne]; [|rewrite lookup_insert_ne by done; exact (Hok g Hg)].
  rewrite lookup_insert_eq. specialize (Hok g Hg).
  assert (Forall (λ d, 0 < d_ID d) (of_guid g l)) as Hpos' by by apply Forall_filter_keep.
  destruct (m !! g) as [a|]; cbn [default from_option id].
  - by apply summary_snoc.
  - rewrite Hok. cbn [app]. pose proof (summary_single d) as Hs. unfold zero_attempts.
    destruct (Succeeded d); cbn [a_latestID a_latestAt a_succeeded Z.eqb orb]; exact Hs.
Qed.

Lemma fold_group_ok l1 l2 m :
  Forall (λ d, 0 < d_ID d) (l1 ++ l2) → group_ok l1 m → group_ok (l1 ++ l2) (fold_left group_step l2 m).
Proof.
  revert l1 m. induction l2 as [|d l2 IH]; intros l1 m Hpos Hok; simpl; [by rewrite app_nil_r|].
  replace (l1 ++ d :: l2)%list with ((l1 ++ [d]) ++ l2)%list in Hpos |- * by (by rewrite <- app_assoc).
  apply IH; [done|]. apply group_step_ok; [|done]. by apply Forall_app in Hpos as [? _].
Qed.

Lemma group_spec l : Forall (λ d, 0 < d_ID d) l → group_ok l (group l).
Proof.
  intros H. apply (fold_group_ok [] l ∅ H). intros g _. by rewrite lookup_empty.
Qed.

(** ** Lemmas: [merge] *)

Definition refresh (a : attempts) (p : pendingInfo) : pendingInfo :=
  if negb (a_latestID a =? p_latestDeliveryID p) then mkPendingInfo (a_latestID a) (a_latestAt a) (p_requestedAt p) else p.

(** The fold over the groups acts on every GUID separately, whatever its order. *)
Lemma merge_groups_lookup g pending k :
  merge_groups g pending !! k =
  match g !! k with
  | None => pending !! k
  | Some a => if a_succeeded a then None else Some (refresh a (default zero_pending (pending !! k)))
  end.
Proof.
  unfold merge_groups. revert g. apply (map_fold_weak_ind (λ r m, r !! k = match m !! k with
    | None => pending !! k
    | Some a => if a_succeeded a then None else Some (refresh a (default zero_pending (pending !! k))) end)).
  { by rewrite lookup_empty. }
  intros i a m r Hi IH. unfold merge_one. destruct (decide (i = k)) as [->|Hne].
  - rewrite lookup_insert_eq. rewrite Hi in IH. destruct (a_succeeded a); [by rewrite lookup_delete_eq|].
    rewrite lookup_insert_eq, IH. done.
  - rewrite lookup_insert_ne by done. destruct (a_succeeded a); [by rewrite lookup_delete_ne|by rewrite lookup_insert_ne].
Qed.

Lemma merge_lookup lookback pending ds now k p :
  merge lookback pending ds now !! k = Some p ↔
  merge_groups (group ds) pending !! k = Some p ∧ Before (p_latestAt p) (Add now (- lookback)) = false.
Proof. unfold merge. rewrite map_lookup_filter_Some. done. Qed.

(** ** Lemmas: [redeliver] *)

(** The loop requests the ids of a prefix of the candidates, and all of them unless it was
    interrupted or rate limited. *)
Lemma redeliver_loop_requests delay env now n cs fe s :
  let '(s', (res, reason)) := redeliver_loop delay env now n cs fe s in
  ∃ k, (k ≤ length cs)%nat ∧
    rd_requested s' = (rd_requested s ++ ((λ c : string * pendingInfo, p_latestDeliveryID (snd c)) <$> firstn k cs))%list ∧
    (reason = None → k = length cs ∧ res = ScanOK).
Proof.
  revert n fe s. induction cs as [|[guid info] cs IH]; intros n fe s; cbn [redeliver_loop].
  - destruct fe; exists 0%nat; cbn [firstn fmap list_fmap rd_requested]; rewrite app_nil_r; naive_solver.
  - destruct (if (0 <? Z.of_nat n) && (0 <? delay) then re_sleep (env n) else None) as [e|].
    { exists 0%nat. cbn [firstn fmap list_fmap]. rewrite app_nil_r. split_and!; [lia|done|done]. }
    destruct (re_answer (env n)) as [e|]; [destruct (_ || _)|].
    + exists 1%nat. cbn [length]. split_and!; [lia|done|done].
    + match goal with |- context [redeliver_loop _ _ _ (S n) cs ?f ?s1] => specialize (IH (S n) f s1) end.
      destruct (redeliver_loop _ _ _ _ _ _ _) as [s' [res reason]]. destruct IH as (k & Hk & Hr & Hn).
      exists (S k). cbn [length firstn rd_requested] in *. rewrite Hr, fmap_cons, <- app_assoc.
      split_and!; [lia|done|]. intros H. destruct (Hn H) as [-> ->]. done.
    + match goal with |- context [redeliver_loop _ _ _ (S n) cs ?f ?s1] => specialize (IH (S n) f s1) end.
      destruct (redeliver_loop _ _ _ _ _ _ _) as [s' [res reason]]. destruct IH as (k & Hk & Hr & Hn).
      exists (S k). cbn [length firstn rd_requested mark_requested] in *. rewrite Hr, fmap_cons, <- app_assoc.
      split_and!; [lia|done|]. intros H. destruct (Hn H) as [-> ->]. done.
Qed.

Lemma cap_prefix max (l : list (string * pendingInfo)) : 0 ≤ max → ∃ n, cap max l = firstn n l ∧ Z.of_nat (length (cap max l)) ≤ max.
Proof.
  intros Hm. unfold cap. destruct (max <? _) eqn:E; to_prop.
  - exists (Z.to_nat max). split; [done|]. rewrite length_firstn. lia.
  - exists (length l). by rewrite firstn_all.
Qed.

(** Every element of a strongly sorted list is related to every later one. *)
Lemma sorted_split {A} (R : A → A → Prop) l n a b :
  StronglySorted R l → a ∈ firstn n l → b ∈ skipn n l → R a b.
Proof.
  intros Hs. revert n. induction Hs as [|x l Hs IH HF]; intros n Ha Hb; [by rewrite firstn_nil in Ha; set_solver|].
  destruct n as [|n]; cbn [firstn skipn] in *; [set_solver|].
  apply elem_of_cons in Ha as [->|Ha]; [|by eapply IH].
  rewrite Forall_forall in HF. apply HF. rewrite <- (firstn_skipn n l). set_solver.
Qed.

(** Listing failures change neither the window nor the pending set. *)
Lemma finish_window ctx st r reason :
  ts_lastScan (finish ctx st r reason) = ts_lastScan st ∧ ts_scanned (finish ctx st r reason) = ts_scanned st ∧
  ts_pending (finish ctx st r reason) = ts_pending st.
Proof. by destruct ctx. Qed.

Lemma redeliver_window opts env st now sorted :
  let st' := fst (fst (redeliver opts env st now sorted)) in
  ts_lastScan st' = ts_lastScan st ∧ ts_scanned st' = ts_scanned st.
Proof. unfold redeliver. by destruct (redeliver_loop _ _ _ _ _ _ _) as [s out]. Qed.

(** What a merge leaves under a GUID. *)
Lemma merge_at lookback pending ds now g :
  Forall (λ d, 0 < d_ID d) ds → g ≠ "" →
  let m := merge lookback pending ds now in
  let keep p := if Before (p_latestAt p) (Add now (- lookback)) then None else Some p in
  (existsb Succeeded (of_guid g ds) = true → m !! g = None) ∧
  (of_guid g ds = [] → m !! g = (pending !! g) ≫= keep) ∧
  (of_guid g ds ≠ [] → existsb Succeeded (of_guid g ds) = false →
     ∃ d, d ∈ of_guid g ds ∧ Forall (λ d', later_eq d' d) (of_guid g ds) ∧
       m !! g = keep (refresh (mkAttempts (d_ID d) (d_DeliveredAt d) false) (default zero_pending (pending !! g)))).
Proof.
  intros Hpos Hg m keep. pose proof (group_spec ds Hpos g Hg) as Hs.
  assert (m !! g = merge_groups (group ds) pending !! g ≫= keep) as Hm.
  { apply option_eq. intros p. subst m. rewrite merge_lookup, bind_Some. split.
    - intros [H1 H2]. exists p. split; [done|]. subst keep. simpl. by rewrite H2.
    - intros (q & H1 & H2). subst keep. simpl in H2. destruct (Before _ _) eqn:E; simplify_eq. done. }
  rewrite Hm, merge_groups_lookup. clear Hm m. destruct (group ds !! g) as [a|] eqn:E.
  - destruct Hs as (Hsucc & d & Hd & Hid & Hat & Hmax). rewrite <- Hsucc. split_and!.
    + by intros ->.
    + intros Hn. rewrite Hn in Hd. set_solver.
    + intros _ Hf. exists d. rewrite Hf. split_and!; try done. simpl. by rewrite <- Hid, <- Hat.
  - rewrite Hs. split_and!; done.
Qed.

(** One scan asks GitHub for at most [MaxPerScan] redeliveries, each for the latest attempt
    of a pending GUID that is past its grace and was not requested within it, most urgent
    first: no due GUID that was left out is before one that was asked for (never requested,
    then least recently requested, then oldest).  Without an error nothing due is left out
    beyond the cap.  This holds for every order the unstable sort may produce. *)
Lemma redeliver_bounded opts env st now sorted st' out ids :
  0 ≤ o_MaxPerScan opts → sorted ≡ₚ due_of (o_Grace opts) now (ts_pending st) → sorted_due sorted →
  redeliver opts env st now sorted = (st', out, ids) →
  ∃ k, Z.of_nat k ≤ o_MaxPerScan opts ∧
    ids = (λ c : string * pendingInfo, p_latestDeliveryID (snd c)) <$> firstn k sorted ∧
    (∀ c, c ∈ firstn k sorted → ts_pending st !! fst c = Some (snd c) ∧ is_due (o_Grace opts) now (snd c) = true) ∧
    (∀ a b, a ∈ firstn k sorted → b ∈ skipn k sorted → due_lt (snd b) (snd a) = false) ∧
    (snd out = None → Z.of_nat k = Z.min (o_MaxPerScan opts) (Z.of_nat (length sorted))).
Proof.
  intros Hmax Hperm Hsort Hr. unfold redeliver in Hr.
  pose proof (redeliver_loop_requests (o_RedeliverDelay opts) env now 0 (cap (o_MaxPerScan opts) sorted) None
    (mkRedeliverState (ts_pending st) (ts_redelivered st) [])) as Hl.
  destruct (redeliver_loop _ _ _ _ _ _ _) as [s [res reason]]. destruct Hl as (k & Hk & Hids & Hall).
  injection Hr as <- <- <-. cbn [rd_requested app] in Hids.
  destruct (cap_prefix (o_MaxPerScan opts) sorted Hmax) as (n & Hn & Hlen).
  assert (length (cap (o_MaxPerScan opts) sorted) ≤ length sorted)%nat as Hle.
  { rewrite Hn, length_firstn. lia. }
  assert (firstn k (cap (o_MaxPerScan opts) sorted) = firstn k sorted) as Hpre.
  { rewrite Hn, firstn_firstn. f_equal. rewrite Hn, length_firstn in Hk. lia. }
  exists k. split_and!.
  - lia.
  - by rewrite Hids, Hpre.
  - intros c Hc. assert (c ∈ sorted) as Hin by (rewrite <- (firstn_skipn k sorted); set_solver).
    rewrite Hperm in Hin. unfold due_of in Hin. apply list_elem_of_filter in Hin as [Hd Hin]. destruct c.
    by apply elem_of_map_to_list in Hin.
  - intros a b. exact (sorted_split _ sorted k a b Hsort).
  - intros Hnone. destruct (Hall Hnone) as [-> _]. unfold cap in *. destruct (_ <? _) eqn:E; to_prop; [|lia].
    rewrite length_firstn. lia.
Qed.

(** Scans leave no gap.  The window of a scan always reaches back to the time of the last
    listing that succeeded, or to the lookback, whichever is later, and never beyond the
    lookback; only a listing that succeeded advances that time, and a failed one leaves the
    pending set as it was. *)
Lemma scan_window opts env now st :
  0 ≤ o_Overlap opts →
  let w := window opts st now in
  t_ns now - o_Lookback opts ≤ t_ns w ∧
  (ts_scanned st = true → t_ns w ≤ Z.max (t_ns (ts_lastScan st)) (t_ns now - o_Lookback opts)) ∧
  (ts_scanned st = false → t_ns w = t_ns now - o_Lookback opts) ∧
  let st' := fst (scan opts env now st) in
  (ts_scanned st' = true ∧ ts_lastScan st' = now) ∨
  (ts_scanned st' = ts_scanned st ∧ ts_lastScan st' = ts_lastScan st ∧ ts_pending st' = ts_pending st).
Proof.
  intros Hov w. split_and!.
  - subst w. unfold window, After, Add. destruct (ts_scanned st); [|simpl; lia].
    cbv zeta. case_match; to_prop; simpl in *; lia.
  - intros Hs. subst w. unfold window, After, Add. rewrite Hs. cbv zeta. case_match; to_prop; simpl in *; lia.
  - intros Hs. subst w. unfold window, Add. by rewrite Hs.
  - unfold scan.
    destruct (if tg_HookID (ts_target st) =? 0 then _ else _) as [st1|e] eqn:E;
      [|right; cbn [fst]; destruct (finish_window (se_ctx env) st ScanError (Some (EWrap "hook discovery" e)))
          as (F1 & F2 & F3); by rewrite F1, F2, F3].
    assert (ts_scanned st1 = ts_scanned st ∧ ts_lastScan st1 = ts_lastScan st ∧ ts_pending st1 = ts_pending st) as (H1 & H2 & H3).
    { destruct (_ =? 0); [destruct (se_discover env)|]; simplify_eq; done. }
    destruct (se_list env _ _) as [ds|e]; [left|right; cbn [fst]].
    + match goal with |- context [redeliver ?a ?b ?c ?d ?e] => pose proof (redeliver_window a b c d e) as [K1 K2];
        destruct (redeliver a b c d e) as [[st2 [r reason]] ids] end.
      cbn [fst ts_lastScan ts_scanned] in *. destruct (finish_window (se_ctx env) st2 r reason) as (F1 & F2 & _). by rewrite F1, F2.
    + destruct (finish_window (se_ctx env) st1 (resultOf e) (Some (EWrap "list deliveries" e))) as (F1 & F2 & F3).
      by rewrite F1, F2, F3.
Qed.

(** ** Witnesses *)

Definition ex_attempt (id ns status : Z) : Delivery := mkDelivery id "guid" (mkTime ns 0) status false "push" "".
Definition ex_attempts : list Delivery := [ex_attempt 2 (200 * Hour) 503; ex_attempt 1 (199 * Hour) 503].
Definition ex_opts : Options :=
  mkOptions true [mkTarget "o" "r" "" 7] "" "token" Minute (72 * Hour) Minute Minute 1 0.
Definition ex_now : Time := mkTime (201 * Hour) 0.
Definition ex_pending : gmap string pendingInfo := merge (72 * Hour) ∅ ex_attempts ex_now.
Definition ex_state : targetState := mkTargetState (mkTarget "o" "r" "" 7) ex_now ex_pending None 0 ScanOK true.
Definition ex_request (n : nat) : requestEnv := mkRequestEnv None None None.
Definition ex_due : list (string * pendingInfo) := [("guid", mkPendingInfo 2 (mkTime (200 * Hour) 0) zero_time)].

Lemma merge_at_witness : ex_pending !! "guid" = Some (mkPendingInfo 2 (mkTime (200 * Hour) 0) zero_time).
Proof.
  assert (Forall (λ d, 0 < d_ID d) ex_attempts) as Hp by (repeat constructor; simpl; lia).
  destruct (merge_at (72 * Hour) ∅ ex_attempts ex_now "guid" Hp ltac:(discriminate)) as (_ & _ & H).
  destruct (H ltac:(discriminate) ltac:(reflexivity)) as (d & Hd & Hmax & Hm).
  unfold ex_pending. rewrite Hm.
  assert (d = ex_attempt 2 (200 * Hour) 503) as ->; [|vm_compute; reflexivity].
  apply Forall_cons in Hmax as [Hmax _]. cbn in Hd.
  apply elem_of_cons in Hd as [->|Hd]; [reflexivity|]. apply elem_of_cons in Hd as [->|Hd].
  - unfold later_eq in Hmax. cbn in Hmax. unfold Hour in Hmax. exfalso. lia.
  - apply elem_of_nil in Hd. contradiction.
Defined.

Lemma redeliver_bounded_witness :
  ∃ k, Z.of_nat k ≤ 1 ∧ snd (redeliver ex_opts ex_request ex_state ex_now ex_due)
       = (λ c : string * pendingInfo, p_latestDeliveryID (snd c)) <$> firstn k ex_due.
Proof.
  destruct (redeliver ex_opts ex_request ex_state ex_now ex_due) as [[st' out] ids] eqn:E.
  destruct (redeliver_bounded ex_opts ex_request ex_state ex_now ex_due st' out ids) as (k & H1 & H2 & _).
  - discriminate.
  - vm_compute. reflexivity.
  - repeat constructor.
  - exact E.
  - exists k. split; [exact H1|exact H2].
Defined.

Lemma scan_window_witness :
  t_ns (window ex_opts ex_state (mkTime (202 * Hour) 0)) ≤ t_ns ex_now.
Proof.
  destruct (scan_window ex_opts (mkScanEnv (Ok 1) (λ _ _, Ok []) id ex_request None) (mkTime (202 * Hour) 0) ex_state)
    as (_ & H & _); [discriminate|]. pose proof (H eq_refl) as H1. cbn in H1 |- *. unfold Hour, Minute in *. lia.
Defined.
