(* ===== verification/RecoveryRun.v ===== *)
(** * [Run] of [internal/recovery/recovery.go]: what the loop guarantees over many scans

    [Run] scans every target at once and again on every tick until its context ends.  A round
    is what the environment does during one [ScanAll].  The theorems are about any number of
    scans of one target, of which any may fail: what is tracked is compared with the attempts
    GitHub has made, and no delivery is starved by the cap on requests. *)

From S2P Require Import Prelude.
From S2P Require Import Errors.
From S2P Require Import GoText.
From S2P Require Import GoNum.
From S2P Require Import GoTime.
From S2P Require Import GhClient.
From S2P Require Import Recovery.

Local Open Scope Z_scope.

(** ** [Run] *)

(** One [ScanAll]: the answers and the clock of the scan of each target, and [ctx.Err()] before it. *)
Record round := mkRound { rn_env : nat → scanEnv; rn_clock : nat → Time; rn_ctx : nat → option error }.

Definition scan_round (opts : Options) (l : list targetState) (r : round) : list targetState :=
  ScanAll opts (rn_env r) (rn_clock r) (rn_ctx r) 0 l.

(** [ticks]: the rounds started by the ticker before the context was seen to have ended. *)
Definition Run (opts : Options) (first : round) (ticks : list round) (l : list targetState) : list targetState * option error :=
  (fold_left (scan_round opts) ticks (scan_round opts l first), None).

(** The scans of target [i] in a sequence of rounds: those whose context had not ended before it. *)
Definition reaches (i : nat) (r : round) : bool :=
  forallb (λ j, match rn_ctx r j with None => true | Some _ => false end) (seq 0 (S i)).

Definition scans_of (i : nat) (rounds : list round) : list (scanEnv * Time) :=
  (λ r, (rn_env r i, rn_clock r i)) <$> filter (λ r, reaches i r = true) rounds.

(** One target through its scans, with the redeliveries it asked for. *)
Fixpoint scans (opts : Options) (ers : list (scanEnv * Time)) (st : targetState) : targetState * list Z :=
  match ers with
  | [] => (st, [])
  | (env, now) :: ers =>
      let '(st, ids) := scan opts env now st in
      let '(st, ids') := scans opts ers st in (st, ids ++ ids')%list
  end.

(** ** What GitHub has done, and what the loop has seen of it *)

(** The attempts in the log of a hook: positive ids that identify them. *)
Definition log_ok (log : list Delivery) : Prop :=
  Forall (λ d, 0 < d_ID d) log ∧ ∀ d d', d ∈ log → d' ∈ log → d_ID d = d_ID d' → d = d'.

(** A listing since [since] of a log: what the client returns ([ListDeliveries_shows]). *)
Definition lists (log : list Delivery) (since : Time) (ds : list Delivery) : Prop :=
  ∀ d, d ∈ ds ↔ d ∈ log ∧ Before (d_DeliveredAt d) since = false.

(** The deliveries a scan of [st] gets to see, if it gets so far. *)
Definition listed (opts : Options) (env : scanEnv) (now : Time) (st : targetState) : option (list Delivery) :=
  let found := if tg_HookID (ts_target st) =? 0
               then match se_discover env with Ok id => Some (with_hook st id) | Err _ => None end
               else Some st in
  match found with
  | None => None
  | Some st => match se_list env (ts_target st) (window opts st now) with Ok ds => Some ds | Err _ => None end
  end.

(** The states of a target while its hook's log grows; [seen] is the log as it was when it was
    last listed.  An attempt shows up in the log at most [Overlap] after it was made. *)
Inductive watched (opts : Options) : list Delivery → list Delivery → targetState → Prop :=
  | watched_new t log : watched opts [] log (mkTargetState t zero_time ∅ None 0 NoScan false)
  | watched_log seen log log' st :
      watched opts seen log st → log ⊆ log' →
      (∀ d, d ∈ log' → d ∉ log → ts_scanned st = true →
            Before (d_DeliveredAt d) (Add (ts_lastScan st) (- o_Overlap opts)) = false) →
      watched opts seen log' st
  | watched_scan seen log st env now :
      watched opts seen log st → log_ok log →
      (ts_scanned st = true → t_ns (ts_lastScan st) ≤ t_ns now) →
      (∀ ds, listed opts env now st = Some ds → lists log (window opts st now) ds) →
      (∀ l, se_sort env l ≡ₚ l) →
      watched opts (match listed opts env now st with Some _ => log | None => seen end) log
        (fst (scan opts env now st)).

(** [d] is the newest attempt of [g] in the log. *)
Definition newest (g : string) (log : list Delivery) (d : Delivery) : Prop :=
  d ∈ of_guid g log ∧ Forall (λ d', later_eq d' d) (of_guid g log).

(** The attempts that can still be redelivered at [now]. *)
Definition in_lookback (opts : Options) (now : Time) (d : Delivery) : Prop :=
  Before (d_DeliveredAt d) (Add now (- o_Lookback opts)) = false.

(** What is remembered is the newest attempt of its GUID, which failed; and a GUID of which
    every attempt failed is remembered while its newest attempt can be redelivered. *)
Definition tracked (opts : Options) (log : list Delivery) (now : Time) (pending : gmap string pendingInfo) : Prop :=
  (∀ g p, pending !! g = Some p → g ≠ "" ∧ ∃ d, newest g log d ∧ Succeeded d = false ∧ in_lookback opts now d ∧
     p_latestDeliveryID p = d_ID d ∧ p_latestAt p = d_DeliveredAt d) ∧
  (∀ g d, g ≠ "" → newest g log d → existsb Succeeded (of_guid g log) = false → in_lookback opts now d →
     is_Some (pending !! g)).

(** Whether a scan at [now] that listed [ds] remembers [g]: if it lists no attempt of [g], as
    before, while the attempt remembered can be redelivered; otherwise when every attempt of [g] it
    lists failed. *)
Definition remembers (opts : Options) (ds : list Delivery) (now : Time) (pending : gmap string pendingInfo) (g : string) : Prop :=
  match of_guid g ds with
  | [] => ∃ p, pending !! g = Some p ∧ Before (p_latestAt p) (Add now (- o_Lookback opts)) = false
  | l => existsb Succeeded l = false
  end.

(** ** [Run], target by target *)

Lemma ScanAll_lookup opts env clock ctx k l i :
  ScanAll opts env clock ctx k l !! i =
  (λ st, if forallb (λ j, match ctx j with None => true | Some _ => false end) (seq k (S i))
         then fst (scan opts (env (k + i)%nat) (clock (k + i)%nat) st) else st) <$> l !! i.
Proof.
  revert k i. induction l as [|st l IH]; intros k i; [done|]. cbn [ScanAll]. destruct i as [|i].
  - cbn. destruct (ctx k); cbn; by rewrite ?Nat.add_0_r.
  - change (seq k (S (S i))) with (k :: seq (S k) (S i)). cbn [forallb].
    replace (k + S i)%nat with (S k + i)%nat by lia.
    destruct (ctx k); [cbn; by destruct (l !! i)|]. apply IH.
Qed.

Lemma fst_scans_cons opts env now ers st :
  fst (scans opts ((env, now) :: ers) st) = fst (scans opts ers (fst (scan opts env now st))).
Proof. cbn [scans]. destruct (scan opts env now st) as [st' ids]. cbn [fst]. by destruct (scans opts ers st'). Qed.

Lemma rounds_lookup opts rounds l i :
  fold_left (scan_round opts) rounds l !! i = (λ st, fst (scans opts (scans_of i rounds) st)) <$> l !! i.
Proof.
  revert l. induction rounds as [|r rounds IH]; intros l; cbn [fold_left].
  { cbn. by destruct (l !! i). }
  rewrite IH. unfold scan_round at 1. rewrite ScanAll_lookup. destruct (l !! i) as [st|]; [|done]. cbn [fmap option_fmap option_map].
  f_equal. unfold scans_of, reaches. rewrite filter_cons. destruct (decide _) as [E|E].
  - rewrite fmap_cons, fst_scans_cons. by rewrite E.
  - apply not_true_is_false in E. by rewrite E.
Qed.

(** ** One scan, by cases *)

Lemma scan_unlisted opts env now st :
  listed opts env now st = None →
  let st' := fst (scan opts env now st) in
  ts_scanned st' = ts_scanned st ∧ ts_lastScan st' = ts_lastScan st ∧ ts_pending st' = ts_pending st ∧
  snd (scan opts env now st) = [].
Proof.
  unfold listed, scan. destruct (_ =? 0).
  - destruct (se_discover env) as [id|e]; cbn [fst snd].
    + destruct (se_list env _ _) as [ds|e]; [done|]. intros _. cbn [fst snd].
      match goal with |- context [finish ?a ?b ?c ?d] => destruct (finish_window a b c d) as (-> & -> & ->) end. done.
    + intros _. match goal with |- context [finish ?a ?b ?c ?d] => destruct (finish_window a b c d) as (-> & -> & ->) end. done.
  - destruct (se_list env _ _) as [ds|e]; [done|]. intros _. cbn [fst snd].
    match goal with |- context [finish ?a ?b ?c ?d] => destruct (finish_window a b c d) as (-> & -> & ->) end. done.
Qed.


Lemma finish_redelivered ctx st r reason : ts_redelivered (finish ctx st r reason) = ts_redelivered st.
Proof. by destruct ctx. Qed.

(** The state of a target after the listing of a scan, before the requests. *)
Lemma scan_listed_count opts env now st ds :
  listed opts env now st = Some ds →
  ∃ st1, ts_pending st1 = merge (o_Lookback opts) (ts_pending st) ds now ∧ ts_redelivered st1 = ts_redelivered st ∧
    let due := se_sort env (due_of (o_Grace opts) now (ts_pending st1)) in
    let '(st2, _, ids) := redeliver opts (se_requests env) st1 now due in
    let st' := fst (scan opts env now st) in
    (ts_scanned st' = true ∧ ts_lastScan st' = now ∧ ts_pending st' = ts_pending st2 ∧ snd (scan opts env now st) = ids) ∧
    ts_redelivered st' = ts_redelivered st2.
Proof.
  unfold listed, scan. intros H.
  assert (∃ st0, (if tg_HookID (ts_target st) =? 0
          then match se_discover env with Ok id => Ok (with_hook st id) | Err e => Err e end else Ok st) = Ok st0
    ∧ ts_pending st0 = ts_pending st ∧ ts_redelivered st0 = ts_redelivered st
    ∧ se_list env (ts_target st0) (window opts st0 now) = Ok ds) as (st0 & -> & Hp & Hc & ->).
  { destruct (_ =? 0); [destruct (se_discover env); [|done]|];
      match type of H with context [se_list ?a ?b ?c] => destruct (se_list a b c) eqn:E end; simplify_eq; eauto. }
  exists (mkTargetState (ts_target st0) now (merge (o_Lookback opts) (ts_pending st0) ds now) (ts_degraded st0)
            (ts_redelivered st0) (ts_lastResult st0) true).
  split; [cbn; by rewrite Hp|]. split; [done|]. cbv zeta. cbn [ts_pending].
  match goal with |- context [redeliver ?a ?b ?c ?d ?e] => pose proof (redeliver_window a b c d e) as [K1 K2];
    destruct (redeliver a b c d e) as [[st2 [r reason]] ids] end.
  cbn [fst snd ts_lastScan ts_scanned] in *.
  destruct (finish_window (se_ctx env) st2 r reason) as (F1 & F2 & F3). by rewrite F1, F2, F3, finish_redelivered.
Qed.

Lemma scan_listed opts env now st ds :
  listed opts env now st = Some ds →
  ∃ st1, ts_pending st1 = merge (o_Lookback opts) (ts_pending st) ds now ∧
    let due := se_sort env (due_of (o_Grace opts) now (ts_pending st1)) in
    let '(st2, _, ids) := redeliver opts (se_requests env) st1 now due in
    let st' := fst (scan opts env now st) in
    ts_scanned st' = true ∧ ts_lastScan st' = now ∧ ts_pending st' = ts_pending st2 ∧
    snd (scan opts env now st) = ids.
Proof.
  intros (st1 & Hp & _ & H)%scan_listed_count. exists st1. split; [done|]. cbv zeta in *.
  destruct (redeliver _ _ _ _ _) as [[st2 out] ids]. by destruct H as [H _].
Qed.

(** ** What the requests do to the memory *)

Definition same_attempt (p q : pendingInfo) : Prop :=
  p_latestDeliveryID p = p_latestDeliveryID q ∧ p_latestAt p = p_latestAt q.

Lemma mark_requested_lookup now g s x :
  rd_pending (mark_requested now g s) !! x =
  (if decide (g = x) then (λ p, mkPendingInfo (p_latestDeliveryID p) (p_latestAt p) now) <$> rd_pending s !! x
   else rd_pending s !! x).
Proof.
  unfold mark_requested. cbn [rd_pending]. destruct (decide (g = x)) as [->|Hne].
  - destruct (rd_pending s !! x) eqn:E; [by rewrite lookup_insert_eq|done].
  - destruct (rd_pending s !! g); [by rewrite lookup_insert_ne|done].
Qed.

#[export] Instance same_attempt_preorder : PreOrder same_attempt.
Proof. split; [by split|]. intros p q r [] []. split; congruence. Qed.

#[export] Instance same_attempts_preorder : PreOrder (option_Forall2 same_attempt).
Proof.
  split; [by intros [p|]; constructor|]. intros ? ? ? [p q H|] H2; inversion H2; simplify_eq; constructor. by etrans.
Qed.

Lemma redeliver_loop_attempts delay env now n cs fe s x :
  option_Forall2 same_attempt (rd_pending (fst (redeliver_loop delay env now n cs fe s)) !! x) (rd_pending s !! x).
Proof.
  revert n fe s. induction cs as [|[g info] cs IH]; intros n fe s; cbn [redeliver_loop].
  { destruct fe; reflexivity. }
  match goal with |- context [match (if ?b then ?u else None) with _ => _ end] => destruct (if b then u else None) end; [reflexivity|].
  destruct (re_answer (env n)); [destruct (_ || _); [reflexivity|etrans; [apply IH|reflexivity]]|].
  etrans; [apply IH|]. rewrite mark_requested_lookup. cbn [rd_pending].
  destruct (decide _); [|reflexivity]. destruct (rd_pending s !! x); repeat constructor.
Qed.

(** When every request is accepted, the requested GUIDs carry the time of the scan. *)
Lemma redeliver_loop_marks delay env now n cs s x :
  (∀ k, re_sleep (env k) = None ∧ re_answer (env k) = None) →
  let '(s', out) := redeliver_loop delay env now n cs None s in
  snd out = None ∧
  rd_pending s' !! x =
  (if decide (x ∈ cs.*1) then (λ p, mkPendingInfo (p_latestDeliveryID p) (p_latestAt p) now) <$> rd_pending s !! x
   else rd_pending s !! x).
Proof.
  intros Hok. revert n s. induction cs as [|[g info] cs IH]; intros n s; cbn [redeliver_loop]; [done|].
  destruct (Hok n) as [-> ->]. assert ((if (0 <? Z.of_nat n) && (0 <? delay) then None else None : option error) = None) as ->
    by (by destruct (_ && _)).
  match goal with |- context [redeliver_loop _ _ _ (S n) cs None ?s1] => specialize (IH (S n) s1) end.
  destruct (redeliver_loop _ _ _ _ _ _ _) as [s' out]. destruct IH as [Ho ->]. split; [done|].
  rewrite mark_requested_lookup. cbn [rd_pending fmap list_fmap fst].
  destruct (decide (g = x)) as [->|Hne]; [rewrite (decide_True (P := x ∈ x :: _)) by set_solver|].
  - destruct (decide _); [|done]. by destruct (rd_pending s !! x).
  - destruct (decide (x ∈ cs.*1)), (decide (x ∈ g :: cs.*1)); set_solver.
Qed.



(** The memory after a scan: that of the merge, up to the times of the requests. *)
Lemma scan_attempts opts env now st ds g :
  listed opts env now st = Some ds →
  option_Forall2 same_attempt (ts_pending (fst (scan opts env now st)) !! g)
    (merge (o_Lookback opts) (ts_pending st) ds now !! g).
Proof.
  intros (st1 & Hp & H)%scan_listed. cbv zeta in H. rewrite <- Hp. unfold redeliver in H.
  match type of H with context [redeliver_loop ?a ?b ?c ?d ?e ?f ?s] =>
    pose proof (redeliver_loop_attempts a b c d e f s g) as Hl; destruct (redeliver_loop a b c d e f s) as [s' out] end.
  destruct H as (_ & _ & -> & _). exact Hl.
Qed.

(** ** Tracking *)

Lemma elem_of_guid g log d : d ∈ of_guid g log ↔ d ∈ log ∧ d_GUID d = g.
Proof. unfold of_guid. rewrite list_elem_of_filter. tauto. Qed.

Lemma newest_unique g log d d' : log_ok log → newest g log d → newest g log d' → d = d'.
Proof.
  intros [_ Hid] [H1 H2] [H3 H4]. rewrite Forall_forall in H2, H4. pose proof (H2 _ H3) as A. pose proof (H4 _ H1) as B.
  apply elem_of_guid in H1 as [H1 _], H3 as [H3 _]. apply Hid; [done..|]. unfold later_eq in *. lia.
Qed.

Lemma log_ok_subset log log' : log ⊆ log' → log_ok log' → log_ok log.
Proof.
  intros Hs [Hp Hid]. split; [|by eauto]. rewrite Forall_forall in Hp |- *. eauto.
Qed.

Lemma existsb_Succeeded_false l : existsb Succeeded l = false ↔ ∀ d, d ∈ l → Succeeded d = false.
Proof.
  split.
  - intros H d Hd. destruct (Succeeded d) eqn:E; [|done].
    assert (existsb Succeeded l = true) by (apply existsb_exists; exists d; by rewrite <- list_elem_of_In). congruence.
  - intros H. apply not_true_is_false. intros (d & Hd & E)%existsb_exists. apply list_elem_of_In in Hd.
    rewrite (H d Hd) in E. done.
Qed.

Lemma group_no_empty ds : group ds !! "" = None.
Proof.
  unfold group. rewrite <- fold_left_rev_right. induction (rev ds) as [|d l IH]; [done|]. cbn [fold_right].
  unfold group_step at 1. case_bool_decide; [done|]. by rewrite lookup_insert_ne.
Qed.

Lemma merge_no_empty lookback pending ds now : pending !! "" = None → merge lookback pending ds now !! "" = None.
Proof.
  intros H. unfold merge. apply map_lookup_filter_None. left. by rewrite merge_groups_lookup, group_no_empty.
Qed.

(** What a merge is given: the log, what was seen of it before, and the part listed now. *)
Section MergeTracked.
Context (opts : Options) (seen log ds : list Delivery) (last now : Time) (pending : gmap string pendingInfo).
Context (Hok : log_ok log) (Hsub : seen ⊆ log) (Hds : ds ⊆ log).
Context (Hlast : t_ns last ≤ t_ns now).
(** What is not listed was seen, or is too old; and it is older than what is listed. *)
Context (Hrest : ∀ d, d ∈ log → d ∉ ds → d ∈ seen ∨ Before (d_DeliveredAt d) (Add now (- o_Lookback opts)) = true).
Context (Hcut : ∀ d d', d ∈ log → d ∉ ds → d' ∈ ds → t_ns (d_DeliveredAt d) < t_ns (d_DeliveredAt d')).
Context (Htracked : tracked opts seen last pending).

Lemma newest_listed g d : of_guid g ds ≠ [] → newest g ds d ↔ newest g log d.
Proof.
  intros Hne. destruct (of_guid g ds) as [|d0 l] eqn:El; [done|].
  assert (d0 ∈ of_guid g ds) as Hd0 by (rewrite El; set_solver). clear l El Hne. apply elem_of_guid in Hd0 as [Hd0 Hg0].
  split; intros [H1 H2]; rewrite Forall_forall in H2; apply elem_of_guid in H1 as [H1 Hg].
  - split; [apply elem_of_guid; auto|]. rewrite Forall_forall. intros d' [Hd' Hg']%elem_of_guid.
    destruct (decide (d' ∈ ds)) as [Hin|Hout]; [apply H2, elem_of_guid; done|].
    left. by apply (Hcut d' d).
  - assert (d ∈ ds) as Hin.
    { destruct (decide (d ∈ ds)) as [|Hout]; [done|]. pose proof (Hcut d d0 H1 Hout Hd0).
      pose proof (H2 d0 ltac:(apply elem_of_guid; auto)) as Hl. unfold later_eq in Hl. lia. }
    split; [by apply elem_of_guid|]. rewrite Forall_forall. intros d' [Hd' Hg']%elem_of_guid.
    apply H2, elem_of_guid. auto.
Qed.

Lemma newest_unlisted g d : of_guid g ds = [] → newest g seen d → in_lookback opts now d → newest g log d.
Proof.
  intros Hn [H1 H2] Hd. rewrite Forall_forall in H2. apply elem_of_guid in H1 as [H1 Hg].
  split; [apply elem_of_guid; auto|]. rewrite Forall_forall. intros d' [Hd' Hg']%elem_of_guid.
  destruct (Hrest d' Hd') as [Hs|Hold].
  - intros Hin. assert (d' ∈ of_guid g ds) as Hx by (by apply elem_of_guid). rewrite Hn in Hx. set_solver.
  - apply H2. by apply elem_of_guid.
  - left. unfold in_lookback, Before in *. to_prop. lia.
Qed.

Lemma newest_seen g d : of_guid g ds = [] → newest g log d → in_lookback opts now d → newest g seen d.
Proof.
  intros Hn [H1 H2] Hd. rewrite Forall_forall in H2. apply elem_of_guid in H1 as [H1 Hg].
  destruct (Hrest d H1) as [Hs|Hold].
  - intros Hin. assert (d ∈ of_guid g ds) as Hx by (by apply elem_of_guid). rewrite Hn in Hx. set_solver.
  - split; [by apply elem_of_guid|]. rewrite Forall_forall. intros d' [Hd' Hg']%elem_of_guid.
    apply H2, elem_of_guid. auto.
  - unfold in_lookback in *. congruence.
Qed.

Lemma in_lookback_earlier d : in_lookback opts now d → in_lookback opts last d.
Proof. clear - Hlast. unfold in_lookback, Before. intros. to_prop. cbn in *. lia. Qed.

(** The entry a failing listing leaves, when it is kept. *)
Lemma refresh_newest g d :
  newest g log d →
  let p := refresh (mkAttempts (d_ID d) (d_DeliveredAt d) false) (default zero_pending (pending !! g)) in
  p_latestDeliveryID p = d_ID d ∧ p_latestAt p = d_DeliveredAt d.
Proof.
  intros Hd. unfold refresh. cbn [a_latestID a_latestAt]. destruct (negb _) eqn:E; [done|]. to_prop.
  destruct (pending !! g) as [q|] eqn:Eq; simpl in *.
  - destruct (proj1 Htracked g q Eq) as (_ & d0 & [H1 _] & _ & _ & Hid & Hat). split; [done|]. rewrite Hat. f_equal.
    apply elem_of_guid in H1 as [H1 _]. destruct Hd as [[Hd _]%elem_of_guid _].
    apply (proj2 Hok); [by apply Hsub|done|congruence].
  - destruct Hd as [[Hd _]%elem_of_guid _]. destruct Hok as [Hp _]. rewrite Forall_forall in Hp. specialize (Hp d Hd). lia.
Qed.

Lemma merge_tracked : tracked opts log now (merge (o_Lookback opts) pending ds now).
Proof.
  assert (Forall (λ d, 0 < d_ID d) ds) as Hpos by exact (proj1 (log_ok_subset ds log Hds Hok)).
  assert (pending !! "" = None) as He.
  { destruct (pending !! "") as [p|] eqn:E; [|done]. by destruct (proj1 Htracked "" p E). }
  split.
  - intros g p Hp. destruct (decide (g = "")) as [->|Hg]; [by rewrite merge_no_empty in Hp|]. split; [done|].
    destruct (merge_at (o_Lookback opts) pending ds now g Hpos Hg) as (M1 & M2 & M3).
    destruct (decide (of_guid g ds = [])) as [En|En]; [|destruct (existsb Succeeded (of_guid g ds)) eqn:Es].
    + rewrite (M2 En), bind_Some in Hp. destruct Hp as (q & Hq & Hk). destruct (Before _ _) eqn:Eb; simplify_eq.
      destruct (proj1 Htracked g p Hq) as (_ & d & Hd & Hf & _ & Hid & Hat).
      assert (in_lookback opts now d) as Hlb by (unfold in_lookback; by rewrite <- Hat).
      exists d. split_and!; try done. by apply newest_unlisted.
    + by rewrite M1 in Hp.
    + destruct (M3 En eq_refl) as (d & Hd & Hmax & Hm). rewrite Hm in Hp. destruct (Before _ _) eqn:Eb; simplify_eq.
      assert (newest g log d) as Hn by (apply newest_listed; [done|by split]).
      destruct (refresh_newest g d Hn) as [K1 K2]. exists d.
      split_and!; try done; [by apply (proj1 (existsb_Succeeded_false _) Es)|]. unfold in_lookback. by rewrite <- K2.
  - intros g d Hg Hd Hf Hlb.
    destruct (merge_at (o_Lookback opts) pending ds now g Hpos Hg) as (M1 & M2 & M3).
    assert (existsb Succeeded (of_guid g ds) = false) as Es.
    { rewrite existsb_Succeeded_false in Hf |- *. intros d' [H1 H2]%elem_of_guid. apply Hf, elem_of_guid. auto. }
    destruct (decide (of_guid g ds = [])) as [En|En].
    + rewrite (M2 En). pose proof (newest_seen g d En Hd Hlb) as Hs.
      destruct (proj2 Htracked g d Hg Hs) as [p Hp].
      { rewrite existsb_Succeeded_false in Hf |- *. intros d' [H1 H2]%elem_of_guid. apply Hf, elem_of_guid. auto. }
      { by apply in_lookback_earlier. }
      rewrite Hp. cbn [mbind option_bind]. destruct (proj1 Htracked g p Hp) as (_ & d0 & Hd0 & _ & _ & _ & Hat).
      rewrite (newest_unique g seen d0 d (log_ok_subset _ _ Hsub Hok) Hd0 Hs) in Hat. rewrite Hat, Hlb. eauto.
    + destruct (M3 En Es) as (d1 & Hd1 & Hmax & ->).
      assert (newest g log d1) as Hn by (apply newest_listed; [done|by split]).
      rewrite (newest_unique g log d1 d Hok Hn Hd). destruct (refresh_newest g d Hd) as [_ ->]. rewrite Hlb. eauto.
Qed.

(** Which GUIDs the merge leaves, when all that is listed can still be redelivered. *)
Lemma merge_remembers g :
  (∀ d, d ∈ ds → in_lookback opts now d) → g ≠ "" →
  is_Some (merge (o_Lookback opts) pending ds now !! g) ↔ remembers opts ds now pending g.
Proof.
  intros Hin Hg. assert (Forall (λ d, 0 < d_ID d) ds) as Hpos by exact (proj1 (log_ok_subset ds log Hds Hok)).
  destruct (merge_at (o_Lookback opts) pending ds now g Hpos Hg) as (M1 & M2 & M3). unfold remembers.
  destruct (of_guid g ds) as [|d0 l] eqn:El.
  - rewrite (M2 eq_refl). split.
    + intros [p (q & Hq & Hk)%bind_Some]. exists q. split; [done|]. by destruct (Before _ _).
    + intros (p & -> & Hb). cbn. rewrite Hb. by eexists.
  - rewrite <- El in *. split; intros H.
    + destruct (existsb Succeeded (of_guid g ds)) eqn:Es; [|done]. rewrite M1 in H by done. by destruct H.
    + destruct (M3 ltac:(by rewrite El) H) as (d & Hd & Hmax & ->).
      assert (newest g log d) as Hn by (apply newest_listed; [by rewrite El|by split]).
      destruct (refresh_newest g d Hn) as [_ ->]. apply elem_of_guid in Hd as [Hd _]. rewrite (Hin d Hd). by eexists.
Qed.
End MergeTracked.

Lemma tracked_attempts opts log now m m' :
  (∀ g, option_Forall2 same_attempt (m' !! g) (m !! g)) → tracked opts log now m → tracked opts log now m'.
Proof.
  intros Hs [T1 T2]. split.
  - intros g p Hp. specialize (Hs g). rewrite Hp in Hs. inversion Hs as [? q [K1 K2] E1 E2|]; subst.
    destruct (T1 g q) as (Hg & d & H); [done|]. split; [done|]. exists d. rewrite K1, K2. done.
  - intros g d Hg Hd Hf Hl. destruct (T2 g d Hg Hd Hf Hl) as [q Hq]. specialize (Hs g). rewrite Hq in Hs.
    inversion Hs; eauto.
Qed.

(** The invariant of a watched target. *)
Definition watch_inv (opts : Options) (seen log : list Delivery) (st : targetState) : Prop :=
  seen ⊆ log ∧
  (ts_scanned st = false → seen = [] ∧ ts_pending st = ∅) ∧
  (ts_scanned st = true → ∀ d, d ∈ log → d ∉ seen →
     Before (d_DeliveredAt d) (Add (ts_lastScan st) (- o_Overlap opts)) = false) ∧
  tracked opts seen (ts_lastScan st) (ts_pending st).

Lemma tracked_nothing opts now : tracked opts [] now ∅.
Proof. split; [done|]. intros g d _ [H _]. set_solver. Qed.

Lemma lists_split opts seen log st now ds :
  0 ≤ o_Overlap opts → watch_inv opts seen log st → lists log (window opts st now) ds →
  ds ⊆ log ∧
  (∀ d, d ∈ log → d ∉ ds → d ∈ seen ∨ Before (d_DeliveredAt d) (Add now (- o_Lookback opts)) = true) ∧
  (∀ d d', d ∈ log → d ∉ ds → d' ∈ ds → t_ns (d_DeliveredAt d) < t_ns (d_DeliveredAt d')).
Proof.
  intros Hov (Hsub & Hnew & Hlate & _) Hl.
  assert (∀ d, d ∈ log → d ∉ ds → t_ns (d_DeliveredAt d) < t_ns (window opts st now)) as Hout.
  { intros d Hd Hn. destruct (Before (d_DeliveredAt d) (window opts st now)) eqn:E; [unfold Before in E; to_prop; lia|].
    destruct Hn. apply Hl. auto. }
  split_and!.
  - intros d Hd. by apply Hl.
  - intros d Hd Hn. destruct (decide (d ∈ seen)) as [|Hs]; [auto|right]. specialize (Hout d Hd Hn).
    unfold window in Hout. destruct (ts_scanned st) eqn:E; [|unfold Before; cbn in *; by apply Z.ltb_lt].
    specialize (Hlate eq_refl d Hd Hs). unfold Before, After in *. cbv zeta in Hout.
    destruct (_ <? _) eqn:Ew in Hout; to_prop; cbn in *; [lia|]. by apply Z.ltb_lt.
  - intros d d' Hd Hn Hd'. specialize (Hout d Hd Hn). apply Hl in Hd' as [_ Hb]. unfold Before in Hb. to_prop. lia.
Qed.

(** The memory between the merge of a scan and its requests. *)
Lemma merged_tracked opts seen log st env now ds :
  0 ≤ o_Overlap opts → log_ok log → watch_inv opts seen log st →
  (ts_scanned st = true → t_ns (ts_lastScan st) ≤ t_ns now) →
  listed opts env now st = Some ds → lists log (window opts st now) ds →
  tracked opts log now (merge (o_Lookback opts) (ts_pending st) ds now).
Proof.
  intros Hov Hok Hinv Hlast Hds Hl. destruct (lists_split opts seen log st now ds Hov Hinv Hl) as (L1 & L2 & L3).
  destruct Hinv as (Hsub & Hnew & _ & Htr). destruct (ts_scanned st) eqn:E.
  - eapply (merge_tracked opts seen log ds (ts_lastScan st) now); auto.
  - destruct (Hnew eq_refl) as [-> ->]. eapply (merge_tracked opts [] log ds now now); auto using tracked_nothing. lia.
Qed.

Lemma scan_tracks opts seen log st env now ds :
  0 ≤ o_Overlap opts → log_ok log → watch_inv opts seen log st →
  (ts_scanned st = true → t_ns (ts_lastScan st) ≤ t_ns now) →
  listed opts env now st = Some ds → lists log (window opts st now) ds →
  watch_inv opts log log (fst (scan opts env now st)).
Proof.
  intros Hov Hok Hinv Hlast Hds Hl. pose proof (merged_tracked _ _ _ _ _ _ _ Hov Hok Hinv Hlast Hds Hl) as Ht.
  pose proof Hds as (st1 & _ & H)%scan_listed. cbv zeta in H. destruct (redeliver _ _ _ _ _) as [[st2 out] ids].
  destruct H as (S1 & S2 & _). split_and!; [done|by rewrite S1|set_solver|]. rewrite S2.
  eapply tracked_attempts; [intros g; by apply (scan_attempts opts env now st ds g)|done].
Qed.

Lemma watched_inv opts seen log st : 0 ≤ o_Overlap opts → watched opts seen log st → watch_inv opts seen log st.
Proof.
  intros Hov. induction 1 as [t log|seen log log' st _ IH Hsub Hlate|seen log st env now _ IH Hok Hlast Hl Hperm].
  - split_and!; [set_solver|done|done|apply tracked_nothing].
  - destruct IH as (I1 & I2 & I3 & I4). split_and!; [set_solver|done| |done].
    intros Hs d Hd Hn. destruct (decide (d ∈ log)); auto.
  - destruct (listed opts env now st) as [ds|] eqn:E; [eapply scan_tracks; eauto|].
    destruct (scan_unlisted _ _ _ _ E) as (S1 & S2 & S3 & _). unfold watch_inv. by rewrite S1, S2, S3.
Qed.

Lemma elem_of_firstn {A} (x : A) n l : x ∈ firstn n l → x ∈ l.
Proof. intros H. rewrite <- (firstn_skipn n l). set_solver. Qed.

(** The attempts a scan asks GitHub to repeat are remembered after its merge. *)
Lemma scan_requests opts env now st id :
  (∀ l, se_sort env l ≡ₚ l) → id ∈ snd (scan opts env now st) →
  ∃ ds g p, listed opts env now st = Some ds ∧ merge (o_Lookback opts) (ts_pending st) ds now !! g = Some p ∧
    p_latestDeliveryID p = id ∧ is_due (o_Grace opts) now p = true.
Proof.
  intros Hperm Hid. destruct (listed opts env now st) as [ds|] eqn:E.
  2: { destruct (scan_unlisted _ _ _ _ E) as (_ & _ & _ & H). rewrite H in Hid. set_solver. }
  pose proof E as (st1 & Hp & H)%scan_listed. cbv zeta in H. unfold redeliver in H.
  match type of H with context [redeliver_loop ?a ?b ?c ?d ?e ?f ?s] =>
    pose proof (redeliver_loop_requests a b c d e f s) as Hr; destruct (redeliver_loop a b c d e f s) as [s' [res reason]] end.
  destruct H as (_ & _ & _ & H). rewrite H in Hid. destruct Hr as (k & _ & Hr & _). rewrite Hr in Hid. cbn in Hid.
  apply list_elem_of_fmap in Hid as ([g p] & -> & Hin). exists ds, g, p. split; [done|].
  assert ((g, p) ∈ se_sort env (due_of (o_Grace opts) now (ts_pending st1))) as Hd.
  { apply elem_of_firstn in Hin. unfold cap in Hin. destruct (_ <? _); [by apply elem_of_firstn in Hin|done]. }
  rewrite Hperm in Hd. unfold due_of in Hd. apply list_elem_of_filter in Hd as [Hd Hm].
  apply elem_of_map_to_list in Hm. rewrite Hp in Hm. done.
Qed.

(** ** Fairness under the cap *)











Lemma elem_of_due grace now pending g p :
  (g, p) ∈ due_of grace now pending ↔ pending !! g = Some p ∧ is_due grace now p = true.
Proof. unfold due_of. rewrite list_elem_of_filter, elem_of_map_to_list. cbn. tauto. Qed.

(** The first [k] candidates when more than [k] are due: distinct, due, and marked afterwards. *)
Lemma redeliver_capped opts env st now sorted st' out ids :
  (∀ k, re_sleep (env k) = None ∧ re_answer (env k) = None) → 0 ≤ o_MaxPerScan opts →
  redeliver opts env st now sorted = (st', out, ids) →
  let cs := cap (o_MaxPerScan opts) sorted in
  ids = (λ c : string * pendingInfo, p_latestDeliveryID (snd c)) <$> cs ∧
  ∀ x, ts_pending st' !! x =
    (if decide (x ∈ cs.*1) then (λ p, mkPendingInfo (p_latestDeliveryID p) (p_latestAt p) now) <$> ts_pending st !! x
     else ts_pending st !! x).
Proof.
  intros Hok Hmax Hr cs. unfold redeliver in Hr. fold cs in Hr.
  set (s0 := mkRedeliverState (ts_pending st) (ts_redelivered st) []) in Hr.
  pose proof (redeliver_loop_requests (o_RedeliverDelay opts) env now 0 cs None s0) as Hq.
  pose proof (λ x, redeliver_loop_marks (o_RedeliverDelay opts) env now 0 cs s0 x Hok) as Hm.
  destruct (redeliver_loop _ _ _ _ _ _ _) as [s [res reason]]. injection Hr as <- <- <-. split.
  - destruct Hq as (k & _ & -> & Hk). destruct (Hm "") as [Hn _]. destruct (Hk Hn) as [-> _]. by rewrite firstn_all.
  - intros x. cbn [ts_pending]. destruct (Hm x) as [_ Hx]. exact Hx.
Qed.

(** An attempt a scan asks GitHub to repeat is the newest of its GUID in the log; it failed, can
    still be redelivered and is past its grace; and no attempt of the GUID in the scan's window
    succeeded. *)
Lemma scan_asks opts seen log st env now id :
  0 ≤ o_Overlap opts → watch_inv opts seen log st → log_ok log →
  (ts_scanned st = true → t_ns (ts_lastScan st) ≤ t_ns now) →
  (∀ ds, listed opts env now st = Some ds → lists log (window opts st now) ds) → (∀ l, se_sort env l ≡ₚ l) →
  id ∈ snd (scan opts env now st) →
  ∃ g d, newest g log d ∧ d_ID d = id ∧ Succeeded d = false ∧ in_lookback opts now d ∧
    o_Grace opts ≤ Sub now (d_DeliveredAt d) ∧
    ∀ d', d' ∈ of_guid g log → Before (d_DeliveredAt d') (window opts st now) = false → Succeeded d' = false.
Proof.
  intros Hov Hinv Hok Hlast Hl Hperm Hid.
  destruct (scan_requests opts env now st id Hperm Hid) as (ds & g & p & Hds & Hp & Hpid & Hdue).
  pose proof (merged_tracked opts seen log st env now ds Hov Hok Hinv Hlast Hds (Hl ds Hds)) as [T _].
  destruct (T g p Hp) as (Hg & d & Hd & Hf & Hlb & Hid' & Hat). exists g, d. split_and!; try done; [congruence|..].
  { unfold is_due in Hdue. rewrite Hat in Hdue. destruct (_ <? _) eqn:E in Hdue; to_prop; [done|lia]. }
  assert (Forall (λ d, 0 < d_ID d) ds) as Hpos.
  { apply Forall_forall. intros x [Hx _]%(Hl ds Hds). exact (proj1 (Forall_forall _ _) (proj1 Hok) x Hx). }
  destruct (merge_at (o_Lookback opts) (ts_pending st) ds now g Hpos Hg) as (M1 & _).
  intros d' [Hd1 Hd2]%elem_of_guid Hb. destruct (existsb Succeeded (of_guid g ds)) eqn:Es; [by rewrite M1 in Hp|].
  apply (proj1 (existsb_Succeeded_false _) Es), elem_of_guid. split; [|done]. by apply (Hl ds Hds).
Qed.

(** What a scan that listed remembers, and what it asks for: the listing decides. *)
Lemma window_lookback opts st now d : Before (d_DeliveredAt d) (window opts st now) = false → in_lookback opts now d.
Proof.
  unfold window, in_lookback. destruct (ts_scanned st); [|done]. cbv zeta. destruct (After _ _) eqn:E; [|done].
  unfold Before, After in *. to_prop. rewrite !Z.ltb_ge. lia.
Qed.

Lemma scan_remembers opts seen log st env now ds g :
  0 ≤ o_Overlap opts → watch_inv opts seen log st → log_ok log →
  (ts_scanned st = true → t_ns (ts_lastScan st) ≤ t_ns now) →
  listed opts env now st = Some ds → lists log (window opts st now) ds → g ≠ "" →
  is_Some (ts_pending (fst (scan opts env now st)) !! g) ↔ remembers opts ds now (ts_pending st) g.
Proof.
  intros Hov Hinv Hok Hlast Hds Hl Hg. destruct (lists_split opts seen log st now ds Hov Hinv Hl) as (L1 & L2 & L3).
  assert (∀ d, d ∈ ds → in_lookback opts now d) as Hin by (intros d [_ Hd]%Hl; by eapply window_lookback).
  transitivity (is_Some (merge (o_Lookback opts) (ts_pending st) ds now !! g)).
  { pose proof (scan_attempts opts env now st ds g Hds) as Ha. destruct Ha as [p q _|]; [split; intros _; by eexists|done]. }
  destruct Hinv as (Hsub & Hnew & _ & Htr). destruct (ts_scanned st) eqn:E.
  - eapply (merge_remembers opts seen log ds (ts_lastScan st) now); auto.
  - destruct (Hnew eq_refl) as [-> ->]. eapply (merge_remembers opts [] log ds now now); auto using tracked_nothing. lia.
Qed.

(** *** What was asked for *)

(** A GUID that carries the time of a request was asked for, now or before. *)
Lemma redeliver_loop_marked delay env now n cs fe s x p :
  let s' := fst (redeliver_loop delay env now n cs fe s) in
  rd_pending s' !! x = Some p →
  rd_pending s !! x = Some p ∨ ∃ info, (x, info) ∈ cs ∧ p_latestDeliveryID info ∈ rd_requested s'.
Proof.
  cbv zeta. revert n fe s. induction cs as [|[g info] cs IH]; intros n fe s; cbn [redeliver_loop]; [destruct fe; by left|].
  match goal with |- context [match (if ?b then ?u else None) with _ => _ end] => destruct (if b then u else None) end; [by left|].
  destruct (re_answer (env n)) as [e|]; [destruct (_ || _); [by left|]|].
  - intros H. apply IH in H as [H|(i & Hi & H)]; [by left|right]. exists i. split; [by right|done].
  - match goal with |- context [redeliver_loop _ _ _ (S n) cs ?f ?s1] =>
      pose proof (redeliver_loop_requests delay env now (S n) cs f s1) as Hq; specialize (IH (S n) f s1) end.
    intros H. destruct (decide (g = x)) as [->|Hne].
    + right. exists info. split; [by left|]. destruct (redeliver_loop _ _ _ _ _ _ _) as [s' [r o]].
      destruct Hq as (k & _ & Hq & _). cbn [fst]. rewrite Hq. cbn. set_solver.
    + apply IH in H as [H|(i & Hi & H)]; [left|right; exists i; split; [by right|done]].
      rewrite mark_requested_lookup in H. by rewrite decide_False in H.
Qed.

Lemma cap_in max l c : c ∈ cap max l → c ∈ l.
Proof. unfold cap. destruct (_ <? _); [apply elem_of_firstn|done]. Qed.

Lemma scan_marked opts env now st ds g p :
  listed opts env now st = Some ds → (∀ l, se_sort env l ≡ₚ l) →
  ts_pending (fst (scan opts env now st)) !! g = Some p →
  let m := merge (o_Lookback opts) (ts_pending st) ds now in
  m !! g = Some p ∨ ∃ info, m !! g = Some info ∧ p_latestDeliveryID info ∈ snd (scan opts env now st).
Proof.
  intros (st1 & Hp & H)%scan_listed Hperm. cbv zeta in H |- *. unfold redeliver in H.
  match type of H with context [redeliver_loop ?a ?b ?c ?d ?e ?f ?s] =>
    pose proof (redeliver_loop_marked a b c d e f s g p) as Hm; destruct (redeliver_loop a b c d e f s) as [s' [r o]] end.
  destruct H as (_ & _ & -> & ->). cbn [ts_pending fst rd_pending] in *. intros [H|(info & Hi & H)]%Hm; rewrite <- Hp; [by left|right].
  exists info. split; [|done]. apply cap_in in Hi. rewrite Hperm in Hi. by apply elem_of_due in Hi as [].
Qed.

(** A merge makes up no request. *)
Lemma merge_requested lookback pending ds now g p :
  Forall (λ d, 0 < d_ID d) ds → g ≠ "" →
  merge lookback pending ds now !! g = Some p → IsZero (p_requestedAt p) = false →
  ∃ q, pending !! g = Some q ∧ p_requestedAt q = p_requestedAt p.
Proof.
  intros Hpos Hg Hp Hz. destruct (merge_at lookback pending ds now g Hpos Hg) as (M1 & M2 & M3).
  destruct (decide (of_guid g ds = [])) as [En|En]; [|destruct (existsb Succeeded (of_guid g ds)) eqn:Es].
  - rewrite (M2 En), bind_Some in Hp. destruct Hp as (q & Hq & Hk). destruct (Before _ _); simplify_eq. eauto.
  - by rewrite M1 in Hp.
  - destruct (M3 En eq_refl) as (d & _ & _ & Hm). rewrite Hm in Hp. destruct (Before _ _); [done|]. injection Hp as <-.
    assert (p_requestedAt (refresh (mkAttempts (d_ID d) (d_DeliveredAt d) false) (default zero_pending (pending !! g)))
            = p_requestedAt (default zero_pending (pending !! g))) as E by (unfold refresh; by destruct (negb _)).
    rewrite E in Hz |- *. destruct (pending !! g) as [q|]; [by exists q|]. by vm_compute in Hz.
Qed.

(** A scan whose requests go well asks for everything that is due, up to the cap. *)
Lemma scan_asks_due opts env now st ds g p :
  listed opts env now st = Some ds → (∀ l, se_sort env l ≡ₚ l) →
  (∀ k, re_sleep (se_requests env k) = None ∧ re_answer (se_requests env k) = None) →
  let due := due_of (o_Grace opts) now (merge (o_Lookback opts) (ts_pending st) ds now) in
  Z.of_nat (length due) ≤ o_MaxPerScan opts → (g, p) ∈ due → p_latestDeliveryID p ∈ snd (scan opts env now st).
Proof.
  intros (st1 & Hp & H)%scan_listed Hperm Hok due Hlen Hin. cbv zeta in H. rewrite Hp in H. fold due in H.
  destruct (redeliver _ _ _ _ _) as [[st2 out] ids] eqn:Er. destruct H as (_ & _ & _ & ->).
  assert (0 ≤ o_MaxPerScan opts) as Hmax by lia. destruct (redeliver_capped _ _ _ _ _ _ _ _ Hok Hmax Er) as [-> _].
  assert ((g, p) ∈ cap (o_MaxPerScan opts) (se_sort env due)) as Hc.
  { unfold cap. rewrite Hperm, (proj2 (Z.ltb_ge _ _)) by done. by rewrite Hperm. }
  by apply (list_elem_of_fmap_2 (λ c : string * pendingInfo, p_latestDeliveryID (snd c))) in Hc.
Qed.






(** ** Properties *)

(** C12: after any number of scans, whichever of them failed and however many requests did, the
    memory of a target agrees with GitHub's log as it was last listed.  A remembered GUID is one
    whose newest attempt failed and can still be redelivered, and is remembered with that attempt; a
    GUID of which every attempt failed is remembered for as long as its newest attempt can be
    redelivered.  The next scan forgets nothing if it cannot list; otherwise it remembers exactly the
    GUIDs whose attempts in its window all failed - one success in the window is enough to forget one,
    whatever came after it - and, of those without an attempt in the window, the ones remembered that
    can still be redelivered.  What it asks for is the newest attempt of its GUID, failed, past its
    grace, and of a GUID without a success in the window.  A success before the window does not
    count: [success_forgotten]. *)
Theorem tracking opts seen log st :
  0 ≤ o_Overlap opts → watched opts seen log st →
  tracked opts seen (ts_lastScan st) (ts_pending st) ∧
  ∀ env now,
    log_ok log → (ts_scanned st = true → t_ns (ts_lastScan st) ≤ t_ns now) →
    (∀ ds, listed opts env now st = Some ds → lists log (window opts st now) ds) → (∀ l, se_sort env l ≡ₚ l) →
    let st' := fst (scan opts env now st) in
    let ids := snd (scan opts env now st) in
    match listed opts env now st with
    | None => ts_pending st' = ts_pending st ∧ ids = []
    | Some ds =>
        (∀ g, g ≠ "" → is_Some (ts_pending st' !! g) ↔ remembers opts ds now (ts_pending st) g) ∧
        ∀ id, id ∈ ids → ∃ g d, newest g log d ∧ d_ID d = id ∧ Succeeded d = false ∧ in_lookback opts now d ∧
          o_Grace opts ≤ Sub now (d_DeliveredAt d) ∧
          ∀ d', d' ∈ of_guid g log → Before (d_DeliveredAt d') (window opts st now) = false → Succeeded d' = false
    end.
Proof.
  intros Hov Hw. pose proof (watched_inv opts seen log st Hov Hw) as Hinv. split; [apply Hinv|].
  intros env now Hok Hlast Hl Hperm. destruct (listed opts env now st) as [ds|] eqn:Eds.
  - pose proof (λ g, scan_remembers opts seen log st env now ds g Hov Hinv Hok Hlast Eds (Hl ds eq_refl)) as Hr.
    pose proof (λ id, scan_asks opts seen log st env now id Hov Hinv Hok Hlast ltac:(rewrite Eds; exact Hl) Hperm) as Ha.
    by split.
  - destruct (scan_unlisted _ _ _ _ Eds) as (_ & _ & S3 & S4). by split.
Qed.


(** ** Witnesses *)

Definition ex_at (id ns : Z) (guid : string) : Delivery := mkDelivery id guid (mkTime ns 0) 503 false "push" "".
Definition ex_log : list Delivery := [ex_at 1 (198 * Hour) "a"; ex_at 2 (199 * Hour) "b"].
(** An insertion sort by urgency, for [sort.Slice]. *)
Fixpoint ex_insert (c : string * pendingInfo) (l : list (string * pendingInfo)) : list (string * pendingInfo) :=
  match l with
  | [] => [c]
  | c' :: l => if due_lt (snd c') (snd c) then c' :: ex_insert c l else c :: c' :: l
  end.
Definition ex_sort (l : list (string * pendingInfo)) : list (string * pendingInfo) := foldr ex_insert [] l.
Definition ex_env (ds : list Delivery) : scanEnv :=
  mkScanEnv (Ok 1) (λ _ _, Ok ds) ex_sort (λ _, mkRequestEnv None None None) None.
Definition ex_down : scanEnv :=
  mkScanEnv (Ok 1) (λ _ _, Err (errorf "unreachable")) ex_sort (λ _, mkRequestEnv None None None) None.
Definition ex_slow : scanEnv :=
  mkScanEnv (Ok 1) (λ _ _, Ok ex_log) ex_sort (λ _, mkRequestEnv None (Some (errorf "502")) None) None.
Definition ex_fresh : targetState := mkTargetState (mkTarget "o" "r" "" 7) zero_time ∅ None 0 NoScan false.
Definition ex_first : targetState := fst (scan ex_opts ex_slow (mkTime (201 * Hour) 0) ex_fresh).

Lemma due_lt_cut a b c : due_lt a b = true → due_lt c b = false → due_lt a c = true.
Proof.
  unfold due_lt, Equal, Before. intros H1 H2.
  repeat match goal with
         | H : context [negb ?b] |- _ => destruct b eqn:?; cbn [negb] in H
         | H : context [if ?b then _ else _] |- _ => destruct b eqn:?
         end; to_prop;
  repeat match goal with |- context [?x =? ?y] => destruct (Z.eqb_spec x y); cbn [negb] end;
  rewrite ?Z.ltb_lt; lia.
Qed.

Lemma due_lt_asym a b : due_lt a b = true → due_lt b a = false.
Proof.
  unfold due_lt, Equal, Before. rewrite (Z.eqb_sym (t_ns (p_requestedAt b))), (Z.eqb_sym (t_ns (p_latestAt b))).
  repeat match goal with |- context [?x =? ?y] => destruct (Z.eqb_spec x y); cbn [negb] end;
  rewrite ?Z.ltb_lt, ?Z.ltb_ge; lia.
Qed.

Lemma ex_insert_ok c l : sorted_due l → ex_insert c l ≡ₚ c :: l ∧ sorted_due (ex_insert c l).
Proof.
  induction l as [|c' l IH]; intros Hs; cbn [ex_insert]; [repeat constructor|].
  inversion Hs as [|? ? Hs' HF]; subst. destruct (due_lt (snd c') (snd c)) eqn:E.
  - destruct (IH Hs') as [Hp Ho]. split; [rewrite Hp; constructor|]. constructor; [done|].
    rewrite Forall_forall in HF |- *. intros x Hx. rewrite Hp in Hx. apply elem_of_cons in Hx as [->|Hx]; [by apply due_lt_asym|auto].
  - split; [done|]. constructor; [done|]. constructor; [done|]. rewrite Forall_forall in HF |- *. intros x Hx.
    specialize (HF x Hx). destruct (due_lt (snd x) (snd c)) eqn:E2; [|done].
    cbn in HF. by rewrite (due_lt_cut _ _ _ E2 E) in HF.
Qed.

Lemma ex_sort_ok l : ex_sort l ≡ₚ l ∧ sorted_due (ex_sort l).
Proof.
  induction l as [|c l [IH1 IH2]]; [repeat constructor|]. cbn. destruct (ex_insert_ok c (ex_sort l) IH2) as [H1 H2].
  split; [|done]. by rewrite H1, IH1.
Qed.

Lemma ex_log_ok : log_ok ex_log.
Proof.
  split; [repeat constructor|]. intros d d' H1 H2. unfold ex_log in *.
  rewrite !elem_of_cons, elem_of_nil in H1, H2. destruct H1 as [->|[->|[]]], H2 as [->|[->|[]]]; cbn; done.
Qed.

(** The hook was listed once, and GitHub refused every request. *)
Lemma ex_watched : watched ex_opts ex_log ex_log ex_first.
Proof.
  apply (watched_scan ex_opts [] ex_log ex_fresh ex_slow (mkTime (201 * Hour) 0)); [constructor|apply ex_log_ok|done| |].
  - intros ds [= <-] d. split; [|tauto]. intros Hd. split; [done|]. unfold ex_log in Hd.
    rewrite !elem_of_cons, elem_of_nil in Hd. destruct Hd as [->|[->|[]]]; vm_compute; reflexivity.
  - intros l. apply ex_sort_ok.
Qed.

Lemma ex_quiet ds : listed ex_opts (ex_env []) (mkTime (202 * Hour) 0) ex_first = Some ds →
  lists ex_log (window ex_opts ex_first (mkTime (202 * Hour) 0)) ds.
Proof.
  assert (listed ex_opts (ex_env []) (mkTime (202 * Hour) 0) ex_first = Some []) as -> by (vm_compute; reflexivity).
  intros E d. injection E as <-. split; [by intros ?%elem_of_nil|]. intros [Hd Hb]. exfalso. revert Hb.
  unfold ex_log in Hd. rewrite !elem_of_cons, elem_of_nil in Hd. destruct Hd as [->|[->|[]]]; vm_compute; done.
Qed.

Lemma tracking_witness :
  ts_pending ex_first !! "b" = Some (mkPendingInfo 2 (mkTime (199 * Hour) 0) zero_time) ∧
  tracked ex_opts ex_log (ts_lastScan ex_first) (ts_pending ex_first) ∧
  ∃ g d, newest g ex_log d ∧ d_ID d = 1.
Proof.
  destruct (tracking ex_opts ex_log ex_log ex_first ltac:(discriminate) ex_watched) as [H1 H2].
  split; [vm_compute; reflexivity|]. split; [exact H1|].
  assert (listed ex_opts (ex_env []) (mkTime (202 * Hour) 0) ex_first = Some []) as El by (vm_compute; reflexivity).
  pose proof (H2 (ex_env []) (mkTime (202 * Hour) 0) ex_log_ok) as H3. cbv zeta in H3. rewrite El in H3.
  destruct H3 as [_ H3].
  - intros _. apply Z.leb_le. vm_compute. reflexivity.
  - rewrite <- El. exact ex_quiet.
  - intros l. apply ex_sort_ok.
  - destruct (H3 1) as (g & d & Hd & Hid & _); [apply list_elem_of_In; vm_compute; left; reflexivity|].
    exists g, d. split; [exact Hd|exact Hid].
Defined.

(** An attempt that succeeded before the window does not count: an event that was received is
    remembered, and asked for again, after a later attempt of it failed. *)
Definition ex_received : Delivery := mkDelivery 1 "a" (mkTime (198 * Hour) 0) 200 false "push" "".
Lemma success_forgotten :
  let '(st, ids) := scans ex_opts [(ex_env [ex_received], mkTime (199 * Hour) 0); (ex_env [ex_at 2 (201 * Hour) "a"], mkTime (204 * Hour) 0)] ex_fresh in
  Succeeded ex_received = true ∧ ts_pending st !! "a" ≠ None ∧ ids = [2].
Proof. vm_compute. split_and!; done. Qed.





(** What no cap can help: with one request per scan, a delivery whose requests GitHub refuses stays
    the most urgent, and the other one is given up after three days without having been asked for. *)
Definition ex_refused (ds : list Delivery) : scanEnv :=
  mkScanEnv (Ok 1) (λ _ _, Ok ds) ex_sort (λ _, mkRequestEnv None (Some (errorf "422")) None) None.
Definition ex_both : list Delivery := [ex_at 1 (199 * Hour) "a"; ex_at 2 (199 * Hour) "b"].
Definition ex_hourly : list (scanEnv * Time) :=
  (ex_refused ex_both, mkTime (200 * Hour) 0) :: map (λ k, (ex_refused [], mkTime ((200 + Z.of_nat k) * Hour) 0)) (seq 1 72).

Lemma refused_starves :
  let '(st, ids) := scans ex_opts ex_hourly ex_fresh in
  ts_pending (fst (scans ex_opts (firstn 72 ex_hourly) ex_fresh)) !! "b" ≠ None ∧ ts_pending st = ∅ ∧ forallb (Z.eqb 1) ids = true.
Proof. vm_compute. split_and!; done. Qed.
