(* ===== verification/Metrics.v ===== *)
(** * [internal/metrics/metrics.go]: the metric families and what the components record

    The families of [Metrics] with their labels, [New] over a Prometheus registry, and the
    recordings of the webhook receiver, the sinks, the recovery loop, the exporters and the bus as
    operations on series.  The client library is the class [Registry] with the laws its
    documentation states; a panic of the library is [None].  Durations and the times of successes are
    recorded here in nanoseconds, which the code divides to seconds. *)

From S2P Require Import Prelude.
From S2P Require Import Errors.
From S2P Require Import GoText.
From S2P Require Import GoTime.
From S2P Require Import GoJson.
From S2P Require Import Event.
From S2P Require Import Sink.
From S2P Require Import Router.
From S2P Require Import Receiver.
From S2P Require Import GhClient.
From S2P Require Import Recovery.
Import Stalled.

Local Open Scope Z_scope.

(** ** The families *)

Definition Namespace : string := "antwatcher".

Inductive metricKind : Set := Counter | Gauge | Histogram.

Record Family := mkFamily {
  fm_Kind : metricKind; fm_Name : string; fm_Help : string; fm_labels : list string;
  fm_Buckets : list Duration }.

Definition fqName (f : Family) : string := Namespace +:+ "_" +:+ fm_Name f.

(** The fields of [Metrics] but the registry. *)
Inductive field : Set :=
  | BuildInfo | WebhooksTotal | WebhookPublishSeconds | WebhooksInflight | BusConnected | BusConsumerLag
  | SinkEventsTotal | SinkProcessSeconds | SinkLastSuccessTimestamp | SinkStalled | SinkStalledMessages
  | OTLPRejectedTotal | RecoveryScansTotal | RecoveryRedeliveriesTotal | RecoveryPending | RecoveryDegraded
  | RecoveryLastScanTimestampSec.

#[export] Instance field_eq_dec : EqDecision field.
Proof. solve_decision. Defined.

Definition family (f : field) : Family :=
  match f with
  | BuildInfo => mkFamily Gauge "build_info" "Build information of the running antwatcher; always 1." ["version"; "commit"] []
  | WebhooksTotal =>
      mkFamily Counter "webhooks_total" "Webhook deliveries received by event type and outcome." ["event"; "result"] []
  | WebhookPublishSeconds =>
      mkFamily Histogram "webhook_publish_seconds" "Time spent in Bus.Publish for one webhook delivery." []
        ((λ n, n * Millisecond) <$> [5; 10; 25; 50; 100; 250; 500; 1000; 2500; 5000; 10000])
  | WebhooksInflight => mkFamily Gauge "webhooks_inflight" "Webhook requests currently being handled." [] []
  | BusConnected =>
      mkFamily Gauge "bus_connected" "1 while the bus driver reports a live broker connection, 0 otherwise." [] []
  | BusConsumerLag =>
      mkFamily Gauge "bus_consumer_lag"
        "Messages the consumer has not acknowledged yet (pending on the broker plus in flight); last value polled." ["consumer"] []
  | SinkEventsTotal =>
      mkFamily Counter "sink_events_total" "Events processed per sink by result: ok, error (retryable), permanent, skipped."
        ["sink"; "class"; "result"] []
  | SinkProcessSeconds =>
      mkFamily Histogram "sink_process_seconds" "Duration of one sink.Process call." ["sink"; "class"]
        ((λ n, n * Millisecond) <$> [10; 50; 100; 250; 500; 1000; 2500; 5000; 10000; 30000; 60000])
  | SinkLastSuccessTimestamp =>
      mkFamily Gauge "sink_last_success_timestamp_seconds"
        "Unix time of the last event the sink processed successfully; 0 until the first success." ["sink"] []
  | SinkStalled =>
      mkFamily Gauge "sink_stalled" "1 while at least one message is stalled on a permanent error for the sink." ["sink"] []
  | SinkStalledMessages =>
      mkFamily Gauge "sink_stalled_messages" "Number of distinct messages currently stalled for the sink." ["sink"] []
  | OTLPRejectedTotal =>
      mkFamily Counter "otlp_rejected_total"
        "Spans or log records rejected by an OTLP partial-success response; not retried by protocol rule." ["signal"] []
  | RecoveryScansTotal =>
      mkFamily Counter "recovery_scans_total" "Webhook delivery scans per recovery target by result." ["target"; "result"] []
  | RecoveryRedeliveriesTotal =>
      mkFamily Counter "recovery_redeliveries_total" "Redeliveries requested from GitHub per recovery target." ["target"] []
  | RecoveryPending =>
      mkFamily Gauge "recovery_pending" "Delivery GUIDs without a successful attempt tracked per recovery target." ["target"] []
  | RecoveryDegraded =>
      mkFamily Gauge "recovery_degraded"
        "1 while the recovery target cannot be scanned (auth, API, rate limit, hook discovery)." ["target"] []
  | RecoveryLastScanTimestampSec =>
      mkFamily Gauge "recovery_last_scan_timestamp_seconds" "Unix time of the last completed scan per recovery target."
        ["target"] []
  end.

(** In the order [New] registers them. *)
Definition fields : list field :=
  [BuildInfo; WebhooksTotal; WebhookPublishSeconds; WebhooksInflight; BusConnected; BusConsumerLag; SinkEventsTotal;
   SinkProcessSeconds; SinkLastSuccessTimestamp; SinkStalled; SinkStalledMessages; OTLPRejectedTotal; RecoveryScansTotal;
   RecoveryRedeliveriesTotal; RecoveryPending; RecoveryDegraded; RecoveryLastScanTimestampSec].

(** ** The client library *)

Inductive metric : Type := Value (v : Z) | Observations (l : list Duration).

(** A method of a series, after [WithLabelValues] found it; [Touch] is finding it only, [Remove]
    is [DeleteLabelValues]. *)
Inductive update : Type := Touch | Add (n : Z) | Set_ (v : Z) | Observe (d : Duration) | Remove.

#[export] Instance update_eq_dec : EqDecision update.
Proof. solve_decision. Defined.

Definition initial (k : metricKind) : metric := match k with Histogram => Observations [] | _ => Value 0 end.

(** What a method leaves of a series; [None] when the series has no such method, or panics. *)
Definition apply_update (k : metricKind) (u : update) (m : option metric) : option (option metric) :=
  let m' := default (initial k) m in
  match k, u, m' with
  | _, Remove, _ => Some None
  | _, Touch, _ => Some (Some m')
  | Counter, Add n, Value v => if n <? 0 then None else Some (Some (Value (v + n)))
  | Gauge, Add n, Value v => Some (Some (Value (v + n)))
  | Gauge, Set_ x, _ => Some (Some (Value x))
  | Histogram, Observe d, Observations l => Some (Some (Observations (l ++ [d])))
  | _, _, _ => None
  end.

(** Names as the library accepts them. *)
Definition name_char (c : ascii) : bool :=
  let b := byte_of c in
  ((97 <=? b) && (b <=? 122)) || ((65 <=? b) && (b <=? 90)) || ((48 <=? b) && (b <=? 57)) || (b =? 95).
Definition valid_name (s : string) : bool :=
  string_forall name_char s && match s with String c _ => negb ((48 <=? byte_of c) && (byte_of c <=? 57)) | _ => false end.
Definition valid_family (f : Family) : bool :=
  valid_name (fqName f) && forallb (λ l, valid_name l && negb (HasPrefix l "__")) (fm_labels f) && bool_decide (NoDup (fm_labels f))
  && bool_decide (StronglySorted Z.lt (fm_Buckets f)).

Class Registry (R : Type) := {
  reg_family : R → string → option Family;
  reg_series : R → string → list string → option metric;
  reg_register : R → Family → option R;
  reg_update : R → string → list string → update → option R }.

(** Registering a well-formed family under a new name succeeds, and creates the one series of a
    family without labels.  A method called through as many valid label values as there are labels
    does not panic, when the series has it, and touches no other series; asking for a series by a
    label value that is not UTF-8 panics. *)
Class RegistryLaws (R : Type) `{Registry R} : Prop := {
  register_ok r f : valid_family f = true → reg_family r (fqName f) = None →
    ∃ r', reg_register r f = Some r' ∧
      (∀ n, reg_family r' n = if decide (n = fqName f) then Some f else reg_family r n) ∧
      (∀ n lvs, reg_series r' n lvs = if decide (n = fqName f)
         then (if decide (fm_labels f = [] ∧ lvs = []) then Some (initial (fm_Kind f)) else None) else reg_series r n lvs);
  update_ok r f lvs u m : reg_family r (fqName f) = Some f → length lvs = length (fm_labels f) →
    Forall (λ v, ValidString v = true) lvs → apply_update (fm_Kind f) u (reg_series r (fqName f) lvs) = Some m →
    ∃ r', reg_update r (fqName f) lvs u = Some r' ∧
      (∀ n, reg_family r' n = reg_family r n) ∧
      (∀ n lvs', reg_series r' n lvs' = if decide (n = fqName f ∧ lvs' = lvs) then m else reg_series r n lvs');
  update_invalid r f lvs u : reg_family r (fqName f) = Some f → Exists (λ v, ValidString v = false) lvs → u ≠ Remove →
    reg_update r (fqName f) lvs u = None }.

(** ** Recordings *)

(** One call: the field, the label values, the method. *)
Definition op : Type := field * list string * update.

Section Metrics.
Context {R : Type} `{Registry R}.

Definition apply_op (r : R) (o : op) : option R := let '(f, lvs, u) := o in reg_update r (fqName (family f)) lvs u.

Fixpoint apply_ops (r : R) (l : list op) : option R :=
  match l with [] => Some r | o :: l => r ← apply_op r o; apply_ops r l end.

Fixpoint register_all (r : R) (l : list field) : option R :=
  match l with [] => Some r | f :: l => r ← reg_register r (family f); register_all r l end.

(** [New] over a registry that has the collectors of the runtime and the process. *)
Definition New (r : R) (version commit : string) : option R :=
  r ← register_all r fields; apply_op r (BuildInfo, [version; commit], Set_ 1).
End Metrics.

(** *** The receiver *)

Definition webhook_label (r : webhookResult) : string :=
  match r with
  | WebhookPublished => "published" | WebhookPing => "ping" | WebhookRejectedSignature => "rejected_signature"
  | WebhookBadRequest => "bad_request" | WebhookPublishFailed => "publish_failed" | WebhookPublishTimeout => "publish_timeout"
  end.

(** What [serveWebhook] records: the gauge up, the latency of the publish if there was one, the
    sample, and the gauge down. *)
Definition webhook_ops (sample : string * webhookResult) (latency : Duration) : list op :=
  ((WebhooksInflight, [], Add 1)
   :: match sample.2 with
      | WebhookPublished | WebhookPublishFailed | WebhookPublishTimeout => [(WebhookPublishSeconds, [], Observe latency)]
      | _ => []
      end
   ++ [(WebhooksTotal, [sample.1; webhook_label sample.2], Add 1); (WebhooksInflight, [], Add (-1))])%list.

(** *** The sinks *)

Definition sink_label (r : sinkResult) : string :=
  match r with SinkOK => "ok" | SinkError => "error" | SinkPermanent => "permanent" | SinkSkipped => "skipped" end.

Definition h_name (h : handler) : string := sk_Name (i_Sink (h_inst h)).
Definition h_class (h : handler) : string := Class_String (sk_Class (i_Sink (h_inst h))).

(** [stalledSet.publish] *)
Definition publish_ops (name : string) (s : stalledSet) : list op :=
  [(SinkStalled, [name], Set_ (if 0 <? msize (st_entries s) then 1 else 0));
   (SinkStalledMessages, [name], Set_ (msize (st_entries s)))].

Definition init_ops (h : handler) : list op :=
  (((λ r, (SinkEventsTotal, [h_name h; h_class h; sink_label r], Touch)) <$> [SinkOK; SinkError; SinkPermanent; SinkSkipped])
   ++ [(SinkProcessSeconds, [h_name h; h_class h], Touch); (SinkLastSuccessTimestamp, [h_name h], Touch)])%list.

(** A new handler: [newStalledSet] publishes, then [initMetrics]. *)
Definition new_handler_ops (h : handler) : list op := (publish_ops (h_name h) newStalledSet ++ init_ops h)%list.

Definition count_op (h : handler) (r : sinkResult) : op := (SinkEventsTotal, [h_name h; h_class h; sink_label r], Add 1).

(** [record] publishes unless the set is full, [clear] when there was an entry. *)
Definition record_ops (h : handler) (uuid : string) (e : error) (now : Time) : list op :=
  match st_entries (h_stalled h) !! uuid with
  | None => if maxStalledEntries <=? msize (st_entries (h_stalled h)) then []
            else publish_ops (h_name h) (fst (record (h_stalled h) uuid e now))
  | Some _ => publish_ops (h_name h) (fst (record (h_stalled h) uuid e now))
  end.

Definition stall_ops (h : handler) (uuid : string) (e : error) (now : Time) : list op :=
  count_op h SinkPermanent :: record_ops h uuid e now.

Definition succeeded_ops (h : handler) (uuid : string) (r : sinkResult) (now : Time) : list op :=
  (count_op h r :: (SinkLastSuccessTimestamp, [h_name h], Set_ (UnixNano now))
   :: match st_entries (h_stalled h) !! uuid with
      | None => []
      | Some _ => publish_ops (h_name h) (fst (clear (h_stalled h) uuid))
      end)%list.

(** [handle] *)
Definition handle_ops (process : Envelope → option error) (h : handler) (c : clock) (msg : Message) : list op :=
  match FromMessage (Some msg) with
  | Err e => stall_ops h (m_UUID msg) (permanent (EWrap "decode message" e)) (c_now c)
  | Ok env =>
      (SinkProcessSeconds, [h_name h; h_class h], Observe (Sub (c_end c) (c_start c)))
      :: match process env with
         | None => succeeded_ops h (m_UUID msg) SinkOK (c_now c)
         | Some e =>
             if errors_is e ErrSkipped then succeeded_ops h (m_UUID msg) SinkSkipped (c_now c)
             else if IsPermanent e then stall_ops h (m_UUID msg) e (c_now c)
             else [count_op h SinkError]
         end
  end.

(** *** The exporters, the recovery loop, the lag poller and the bus *)

Definition rejected_ops (signal : string) (n : Z) : list op := [(OTLPRejectedTotal, [signal], Add n)].

Definition scan_label (r : scanResult) : string :=
  match r with NoScan => "" | ScanOK => "ok" | ScanError => "error" | ScanRateLimited => "rate_limited" end.

(** [finish], on the state it leaves. *)
Definition finish_ops (ctx : option error) (st : targetState) : list op :=
  match ctx with
  | Some _ => []
  | None =>
      let name := Target_Name (ts_target st) in
      [(RecoveryScansTotal, [name; scan_label (ts_lastResult st)], Add 1);
       (RecoveryPending, [name], Set_ (Z.of_nat (size (ts_pending st))));
       (RecoveryDegraded, [name], Set_ (match ts_degraded st with Some _ => 1 | None => 0 end))]
  end.

(** [scan]: its result, the requests GitHub accepted, and the time of a scan that was listed. *)
Definition scan_ops (opts : Options) (env : scanEnv) (now : Time) (st : targetState) : list op :=
  let st' := fst (scan opts env now st) in
  let name := Target_Name (ts_target st') in
  let found := if tg_HookID (ts_target st) =? 0
               then match se_discover env with Ok id => Some (with_hook st id) | Err _ => None end else Some st in
  (match found with
   | None => []
   | Some st1 =>
       match se_list env (ts_target st1) (window opts st1 now) with
       | Err _ => []
       | Ok _ => (RecoveryLastScanTimestampSec, [name], Set_ ((t_ns now - unix_epoch_ns) / Second))
                 :: repeat (RecoveryRedeliveriesTotal, [name], Add 1) (Z.to_nat (ts_redelivered st' - ts_redelivered st))
       end
   end ++ finish_ops (se_ctx env) st')%list.

Definition lag_ops (consumer : string) (lag : Z) : list op := [(BusConsumerLag, [consumer], Set_ lag)].
Definition unregister_ops (consumer : string) : list op := [(BusConsumerLag, [consumer], Remove)].
Definition connected_ops (connected : bool) : list op := [(BusConnected, [], Set_ (if connected then 1 else 0))].

(** An exporter counts what a collector rejects of a request it answered with success, if anything. *)
Definition export_ops (signal : string) (n : Z) : list op := if 0 <? n then rejected_ops signal n else [].
Definition signal_label (traces : bool) : string := if traces then "traces" else "logs".

(** One occasion on which a component other than a sink's handler records something. *)
Inductive recording : Type :=
  | Webhook (sample : string * webhookResult) (latency : Duration)
  | Scanned (opts : Options) (env : scanEnv) (now : Time) (st : targetState)
  | Sampled (consumer : string) (lag : Z)
  | Unregistered (consumer : string)
  | BusConnection (connected : bool)
  | Exported (traces : bool) (rejected : Z).

Definition recorded (e : recording) : list op :=
  match e with
  | Webhook sample latency => webhook_ops sample latency
  | Scanned opts env now st => scan_ops opts env now st
  | Sampled consumer lag => lag_ops consumer lag
  | Unregistered consumer => unregister_ops consumer
  | BusConnection connected => connected_ops connected
  | Exported traces n => export_ops (signal_label traces) n
  end.

(** The one label value of it that is not a constant of the program. *)
Definition outside (e : recording) : string :=
  match e with
  | Webhook sample _ => sample.1
  | Scanned opts env now st => Target_Name (ts_target (fst (scan opts env now st)))
  | Sampled consumer _ | Unregistered consumer => consumer
  | BusConnection _ | Exported _ _ => ""
  end.

(** ** Operations that do not panic, and what they leave *)

Definition permits (k : metricKind) (u : update) : bool :=
  match k, u with
  | _, (Touch | Remove) => true
  | Counter, Add n => 0 <=? n
  | Gauge, (Add _ | Set_ _) => true
  | Histogram, Observe _ => true
  | _, _ => false
  end.

Definition op_ok (o : op) : Prop :=
  let '(f, lvs, u) := o in
  length lvs = length (fm_labels (family f)) ∧ Forall (λ v, ValidString v = true) lvs ∧ permits (fm_Kind (family f)) u = true.

Definition typed (k : metricKind) (m : metric) : bool :=
  match k, m with Histogram, Observations _ => true | (Counter | Gauge), Value _ => true | _, _ => false end.

(** What a method that fits leaves. *)
Definition effect (k : metricKind) (u : update) (m : option metric) : option metric :=
  default m (apply_update k u m).

(** The value of one series after a history of operations. *)
Fixpoint replay (l : list op) (f : field) (lvs : list string) (m : option metric) : option metric :=
  match l with
  | [] => m
  | (f', lvs', u) :: l =>
      replay l f lvs (if bool_decide (f' = f ∧ lvs' = lvs) then effect (fm_Kind (family f)) u m else m)
  end.

Lemma fqName_inj f g : fqName (family f) = fqName (family g) → f = g.
Proof. destruct f, g; intros H; try reflexivity; vm_compute in H; discriminate H. Qed.

Lemma apply_update_typed k u m : permits k u = true → (∀ m', m = Some m' → typed k m' = true) →
  ∃ m', apply_update k u m = Some m' ∧ ∀ x, m' = Some x → typed k x = true.
Proof.
  intros Hp Ht. assert (typed k (default (initial k) m) = true) as Hd.
  { destruct m as [x|]; [by apply Ht|by destruct k]. }
  unfold apply_update. destruct k, u as [|n|v|d|]; try discriminate Hp; destruct (default _ m) as [x|x]; try discriminate Hd;
    try (eexists; split; [reflexivity|]; intros y [= <-]; reflexivity); try (eexists; split; [reflexivity|]; done).
  cbn in Hp. apply Z.leb_le in Hp. destruct (n <? 0) eqn:E; [to_prop; lia|]. eexists. split; [reflexivity|]. by intros y [= <-].
Qed.

(** ** The sinks of a running service

    Deliveries to the sinks and what else is recorded, in the order it happens. *)

Inductive activity : Type := Handled (i : nat) (d : delivery) | Elsewhere (e : recording).

Definition of_sink (f : field) : bool :=
  match f with
  | SinkEventsTotal | SinkProcessSeconds | SinkLastSuccessTimestamp | SinkStalled | SinkStalledMessages => true
  | _ => false
  end.

Definition elsewhere_utf8 (a : activity) : Prop :=
  match a with Handled _ _ => True | Elsewhere e => ValidString (outside e) = true end.

(** The handlers after an activity, and what it records. *)
Definition act (hs : list handler) (a : activity) : list handler * list op :=
  match a with
  | Elsewhere e => (hs, recorded e)
  | Handled i d =>
      match hs !! i with
      | None => (hs, [])
      | Some h => (<[i := fst (handle (dl_process d) h (dl_clock d) (dl_msg d))]> hs,
                   handle_ops (dl_process d) h (dl_clock d) (dl_msg d))
      end
  end.

Fixpoint act_all (hs : list handler) (l : list activity) : list handler * list op :=
  match l with
  | [] => (hs, [])
  | a :: l => let '(hs, ops) := act hs a in let '(hs', ops') := act_all hs l in (hs', (ops ++ ops')%list)
  end.

(** What the other components record is well formed, if the label value from outside is UTF-8. *)
Definition plain_op (o : op) : Prop := op_ok o ∧ of_sink o.1.1 = false.

Lemma webhook_ops_ok sample latency : ValidString sample.1 = true → Forall plain_op (webhook_ops sample latency).
Proof.
  intros Hv. unfold webhook_ops. destruct sample as [event []]; cbn [fst snd webhook_label app] in *; by repeat constructor.
Qed.

Lemma scan_ops_ok opts env now st : ValidString (Target_Name (ts_target (fst (scan opts env now st)))) = true →
  Forall plain_op (scan_ops opts env now st).
Proof.
  intros Hv. unfold scan_ops.
  assert (∀ st', ValidString (Target_Name (ts_target st')) = true → Forall plain_op (finish_ops (se_ctx env) st')) as Hfin.
  { intros st' Hv'. unfold finish_ops. destruct (se_ctx env); [constructor|].
    repeat (constructor; [repeat split; try done; repeat (constructor; try done); by destruct (ts_lastResult st')|]). constructor. }
  apply Forall_app. split; [|by apply Hfin]. destruct (if _ =? 0 then _ else _) as [st1|]; [|constructor].
  destruct (se_list env _ _); [|constructor]. constructor; [repeat split; by repeat constructor|].
  apply Forall_forall. intros o Ho. apply list_elem_of_In, repeat_spec in Ho as ->. repeat split; by repeat constructor.
Qed.

Lemma recorded_ok e : ValidString (outside e) = true → Forall plain_op (recorded e).
Proof.
  destruct e as [sample latency|opts env now st|consumer lag|consumer|connected|traces n]; cbn [outside recorded]; intros Hv.
  - by apply webhook_ops_ok.
  - by apply scan_ops_ok.
  - by repeat constructor.
  - by repeat constructor.
  - by repeat constructor.
  - unfold export_ops. destruct (0 <? n) eqn:E; [|constructor]. constructor; [|constructor].
    split; [|done]. split; [done|]. split; [by destruct traces; repeat constructor|]. cbn. apply Z.leb_le. lia.
Qed.

(** The value a series of a sink should have. *)
Definition sm_count (m : sinkMetrics) (r : sinkResult) : Z :=
  match r with SinkOK => sm_ok m | SinkError => sm_error m | SinkPermanent => sm_permanent m | SinkSkipped => sm_skipped m end.

Definition series : Type := field → list string → option metric.

Definition own_series (name class : string) (m : sinkMetrics) (stalled : bool) (messages : Z) : list (field * list string * metric) :=
  (((λ r, (SinkEventsTotal, [name; class; sink_label r], Value (sm_count m r))) <$> [SinkOK; SinkError; SinkPermanent; SinkSkipped])
   ++ [(SinkProcessSeconds, [name; class], Observations (sm_observations m));
       (SinkLastSuccessTimestamp, [name], Value (sm_last_success m));
       (SinkStalled, [name], Value (if stalled then 1 else 0));
       (SinkStalledMessages, [name], Value messages)])%list.

Definition shows_all (S : series) (l : list (field * list string * metric)) : Prop := Forall (λ x, S x.1.1 x.1.2 = Some x.2) l.

(** The registry shows what the handler keeps. *)
Definition shows (S : series) (h : handler) : Prop :=
  shows_all S (own_series (h_name h) (h_class h) (h_metrics h) (g_stalled (h_stalled h)) (g_messages (h_stalled h))).

Definition after (l : list op) (S : series) : series := λ f lvs, replay l f lvs (S f lvs).

Definition label_ok (h : handler) : Prop := ValidString (h_name h) = true ∧ Class_valid (sk_Class (i_Sink (h_inst h))) = true.

Lemma replay_app l l' f lvs m : replay (l ++ l') f lvs m = replay l' f lvs (replay l f lvs m).
Proof. revert m. induction l as [|[[f' lvs'] u] l IH]; intros m; [done|]. apply IH. Qed.

Lemma replay_skip l f lvs m : Forall (λ o, o.1 ≠ (f, lvs)) l → replay l f lvs m = m.
Proof.
  revert m. induction l as [|[[f' lvs'] u] l IH]; intros m Hl; [done|]. apply Forall_cons in Hl as [Ho Hl]. cbn [replay].
  rewrite bool_decide_false by (intros [-> ->]; by apply Ho). by apply IH.
Qed.

Ltac show_series :=
  unfold shows_all, own_series, after; cbn [fmap list_fmap app]; intros HS;
  repeat (apply Forall_cons in HS as [? HS]); cbn [fst snd sink_label sm_count] in *;
  repeat (constructor; cbn [fst snd replay sink_label];
    [repeat (first [rewrite bool_decide_true by done | rewrite bool_decide_false by (cbn [sink_label]; intros [Hf Hl]; first [discriminate Hf | discriminate Hl])]);
     repeat match goal with H : ?S _ _ = Some _ |- _ => rewrite H end; cbn; rewrite ?Z.add_0_r; try reflexivity|]); try constructor.

Lemma shows_count S name class m gs gm r : shows_all S (own_series name class m gs gm) →
  shows_all (after [(SinkEventsTotal, [name; class; sink_label r], Add 1)] S) (own_series name class (count m r) gs gm).
Proof. destruct r; show_series. Qed.

Lemma shows_observe S name class m gs gm d : shows_all S (own_series name class m gs gm) →
  shows_all (after [(SinkProcessSeconds, [name; class], Observe d)] S) (own_series name class (observe m d) gs gm).
Proof. show_series. Qed.

Lemma shows_success S name class m gs gm t : shows_all S (own_series name class m gs gm) →
  shows_all (after [(SinkLastSuccessTimestamp, [name], Set_ t)] S)
    (own_series name class (mkSinkMetrics (sm_ok m) (sm_error m) (sm_permanent m) (sm_skipped m) (sm_observations m) t) gs gm).
Proof. show_series. Qed.

Lemma shows_publish S name class m gs gm s : shows_all S (own_series name class m gs gm) →
  shows_all (after (publish_ops name s) S) (own_series name class m (0 <? msize (st_entries s)) (msize (st_entries s))).
Proof. unfold publish_ops. show_series. Qed.

Lemma shows_clear S h m u : shows_all S (own_series (h_name h) (h_class h) m (g_stalled (h_stalled h)) (g_messages (h_stalled h))) →
  shows_all (after (match st_entries (h_stalled h) !! u with
                    | None => []
                    | Some _ => publish_ops (h_name h) (fst (clear (h_stalled h) u)) end) S)
    (own_series (h_name h) (h_class h) m (g_stalled (fst (clear (h_stalled h) u))) (g_messages (fst (clear (h_stalled h) u)))).
Proof.
  intros HS. unfold clear. destruct (st_entries (h_stalled h) !! u) as [i|]; [|exact HS]. by eapply (shows_publish _ _ _ m).
Qed.

Lemma shows_record S h m u e t : shows_all S (own_series (h_name h) (h_class h) m (g_stalled (h_stalled h)) (g_messages (h_stalled h))) →
  shows_all (after (record_ops h u e t) S)
    (own_series (h_name h) (h_class h) m (g_stalled (fst (record (h_stalled h) u e t))) (g_messages (fst (record (h_stalled h) u e t)))).
Proof.
  intros HS. unfold record_ops, record. destruct (st_entries (h_stalled h) !! u) as [i|]; [by eapply (shows_publish _ _ _ m)|].
  destruct (_ <=? _); [exact HS|]. by eapply (shows_publish _ _ _ m).
Qed.

Lemma shows_succeeded S h u r t : shows S h → shows (after (succeeded_ops h u r t) S) (succeeded h u r t).
Proof.
  intros HS. refine (shows_clear (after [(SinkLastSuccessTimestamp, [h_name h], Set_ (UnixNano t))] (after [count_op h r] S)) h _ u _).
  apply shows_success, shows_count, HS.
Qed.

Lemma shows_stall S h u e t : shows S h → shows (after (stall_ops h u e t) S) (fst (stall h u e t)).
Proof. intros HS. refine (shows_record (after [count_op h SinkPermanent] S) h _ u e t _). apply shows_count, HS. Qed.

Lemma shows_handle S h p c msg : shows S h → shows (after (handle_ops p h c msg) S) (fst (handle p h c msg)).
Proof.
  intros HS. unfold handle_ops, handle. destruct (FromMessage (Some msg)) as [env|e]; [|by apply (shows_stall S h)].
  set (h1 := with_state h (observe (h_metrics h) (Sub (c_end c) (c_start c))) (h_stalled h) (h_lastSuccess h)).
  set (S1 := after [(SinkProcessSeconds, [h_name h; h_class h], Observe (Sub (c_end c) (c_start c)))] S).
  assert (shows S1 h1) as H1 by by apply shows_observe.
  destruct (p env) as [e|]; [|by apply (shows_succeeded S1 h1)].
  destruct (errors_is e ErrSkipped); [by apply (shows_succeeded S1 h1)|]. destruct (IsPermanent e); [by apply (shows_stall S1 h1)|].
  by apply (shows_count S1).
Qed.

(** The identity of a handler does not change, and each message moves one counter. *)
Lemma handle_inst p h c msg : h_inst (fst (handle p h c msg)) = h_inst h.
Proof. unfold handle, stall, succeeded. by repeat case_match. Qed.

Definition total (h : handler) : Z :=
  sm_ok (h_metrics h) + sm_error (h_metrics h) + sm_permanent (h_metrics h) + sm_skipped (h_metrics h).

Lemma handle_total p h c msg : total (fst (handle p h c msg)) = total h + 1.
Proof.
  unfold handle, total. destruct (FromMessage _) as [env|e]; [destruct (p env) as [e|]; [destruct (errors_is _ _); [|destruct (IsPermanent e)]|]|];
    cbn [fst stall succeeded with_state h_metrics count observe sm_ok sm_error sm_permanent sm_skipped]; lia.
Qed.

Definition to_sink (i : nat) (a : activity) : bool := match a with Handled j _ => Nat.eqb i j | Elsewhere _ => false end.
Definition handled (i : nat) (l : list activity) : Z := Z.of_nat (length (filter (λ a, to_sink i a = true) l)).

Lemma act_inst hs a : h_inst <$> (act hs a).1 = h_inst <$> hs.
Proof.
  destruct a as [i d|l]; [|done]. cbn [act]. destruct (hs !! i) as [h|] eqn:E; [|done]. cbn [fst].
  rewrite list_fmap_insert, handle_inst. apply list_insert_id. by rewrite list_lookup_fmap, E.
Qed.

Lemma act_total hs a i h' : (act hs a).1 !! i = Some h' →
  ∃ h, hs !! i = Some h ∧ total h' = total h + (if to_sink i a then 1 else 0).
Proof.
  destruct a as [j d|l]; cbn [act to_sink]; [|intros E; exists h'; split; [done|lia]].
  destruct (hs !! j) as [h|] eqn:Ej; cbn [fst]; intros E.
  - destruct (decide (j = i)) as [-> |Hne].
    + rewrite list_lookup_insert_eq in E by (by eapply lookup_lt_Some). injection E as <-. exists h. rewrite handle_total, Nat.eqb_refl. done.
    + rewrite list_lookup_insert_ne in E by done. exists h'. split; [done|]. destruct (Nat.eqb_spec i j); [congruence|lia].
  - exists h'. split; [done|]. destruct (Nat.eqb_spec i j); [congruence|lia].
Qed.

(** What a sink records carries its name. *)
Definition named (h : handler) (o : op) : Prop := of_sink o.1.1 = true ∧ head o.1.2 = Some (h_name h).

Lemma publish_named h s : Forall (named h) (publish_ops (h_name h) s).
Proof. by repeat constructor. Qed.

Lemma record_named h u e t : Forall (named h) (record_ops h u e t).
Proof. unfold record_ops. repeat case_match; try apply publish_named. constructor. Qed.

Lemma succeeded_named h u r t : Forall (named h) (succeeded_ops h u r t).
Proof. unfold succeeded_ops. do 2 (constructor; [done|]). case_match; [apply publish_named|constructor]. Qed.

Lemma handle_named p h c msg : Forall (named h) (handle_ops p h c msg).
Proof.
  unfold handle_ops, stall_ops. destruct (FromMessage _) as [env|e].
  - constructor; [done|]. destruct (p env) as [e|]; [|apply succeeded_named].
    destruct (errors_is e _); [apply succeeded_named|]. destruct (IsPermanent e); (constructor; [done|]); [apply record_named|constructor].
  - constructor; [done|apply record_named].
Qed.

Lemma class_valid_string c : Class_valid c = true → ValidString (Class_String c) = true.
Proof.
  unfold Class_valid. intros Hc. to_prop. unfold ClassTrace, ClassForward in *.
  assert (c = 1 ∨ c = 2 ∨ c = 3 ∨ c = 4 ∨ c = 5) as [-> |[-> |[-> |[-> | ->]]]] by lia; reflexivity.
Qed.

Lemma publish_op_ok h s : label_ok h → Forall op_ok (publish_ops (h_name h) s).
Proof. intros [Hn _]. repeat constructor; done. Qed.

Lemma record_op_ok h u e t : label_ok h → Forall op_ok (record_ops h u e t).
Proof. intros Hl. unfold record_ops. repeat case_match; try (by apply publish_op_ok). constructor. Qed.

Lemma count_op_ok h r : label_ok h → op_ok (count_op h r).
Proof.
  intros [Hn Hc]. split; [done|]. split; [|done]. repeat (constructor; [done|]). constructor; [by apply class_valid_string|].
  constructor; [by destruct r|constructor].
Qed.

Lemma succeeded_op_ok h u r t : label_ok h → Forall op_ok (succeeded_ops h u r t).
Proof.
  intros Hl. constructor; [by apply count_op_ok|]. constructor; [split; [done|]; split; [|done]; destruct Hl; by repeat constructor|].
  case_match; [by apply publish_op_ok|constructor].
Qed.

Lemma handle_op_ok p h c msg : label_ok h → Forall op_ok (handle_ops p h c msg).
Proof.
  intros Hl. unfold handle_ops, stall_ops. destruct (FromMessage _) as [env|e].
  - constructor.
    { split; [done|]. split; [|done]. destruct Hl as [? ?%class_valid_string]. by repeat constructor. }
    destruct (p env) as [e|]; [|by apply succeeded_op_ok]. destruct (errors_is e _); [by apply succeeded_op_ok|].
    destruct (IsPermanent e); (constructor; [by apply count_op_ok|]); [by apply record_op_ok|constructor].
  - constructor; [by apply count_op_ok|by apply record_op_ok].
Qed.

Section Exact.
Context {R : Type} `{RegistryLaws R}.

(** The registry of a service: every family under its name, every series of its kind. *)
Record metered (r : R) : Prop := {
  mt_family f : reg_family r (fqName (family f)) = Some (family f);
  mt_typed f lvs m : reg_series r (fqName (family f)) lvs = Some m → typed (fm_Kind (family f)) m = true }.

Lemma apply_op_exact r f lvs u : metered r → op_ok (f, lvs, u) →
  ∃ r', apply_op r (f, lvs, u) = Some r' ∧ metered r' ∧
    ∀ g lvs', reg_series r' (fqName (family g)) lvs' =
      if bool_decide (f = g ∧ lvs = lvs') then effect (fm_Kind (family g)) u (reg_series r (fqName (family g)) lvs')
      else reg_series r (fqName (family g)) lvs'.
Proof.
  intros [Hf Ht] (Hl & Hv & Hp).
  destruct (apply_update_typed (fm_Kind (family f)) u (reg_series r (fqName (family f)) lvs) Hp) as (m & Hm & Hmt); [apply Ht|].
  destruct (update_ok r (family f) lvs u m (Hf f) Hl Hv Hm) as (r' & Hr & Hfam & Hser). exists r'. split; [done|].
  assert (∀ g lvs', reg_series r' (fqName (family g)) lvs' =
      if bool_decide (f = g ∧ lvs = lvs') then effect (fm_Kind (family g)) u (reg_series r (fqName (family g)) lvs')
      else reg_series r (fqName (family g)) lvs') as Hs.
  { intros g lvs'. rewrite Hser. case_bool_decide as Hb.
    - destruct Hb as [<- <-]. rewrite decide_True by done. unfold effect. by rewrite Hm.
    - rewrite decide_False; [done|]. intros [Hq ->]. apply fqName_inj in Hq. subst. by apply Hb. }
  split; [|exact Hs]. split.
  - intros g. by rewrite Hfam.
  - intros g lvs' x. rewrite Hs. case_bool_decide as Hb; [|apply Ht]. destruct Hb as [<- <-]. unfold effect. rewrite Hm. apply Hmt.
Qed.

Lemma apply_ops_exact l : ∀ r, metered r → Forall op_ok l →
  ∃ r', apply_ops r l = Some r' ∧ metered r' ∧
    ∀ f lvs, reg_series r' (fqName (family f)) lvs = replay l f lvs (reg_series r (fqName (family f)) lvs).
Proof.
  induction l as [|[[f lvs] u] l IH]; intros r Hm Hl; [by exists r|]. apply Forall_cons in Hl as [Ho Hl].
  destruct (apply_op_exact r f lvs u Hm Ho) as (r1 & H1 & Hm1 & Hs1). destruct (IH r1 Hm1 Hl) as (r2 & H2 & Hm2 & Hs2).
  exists r2. cbn [apply_ops]. rewrite H1. split; [exact H2|]. split; [done|]. intros g lvs'. cbn [replay]. by rewrite Hs2, Hs1.
Qed.

(** [New] registers every family once. *)
Lemma register_all_ok l : ∀ r, NoDup l → (∀ f, f ∈ l → reg_family r (fqName (family f)) = None) →
  ∃ r', register_all r l = Some r' ∧
    (∀ f, f ∈ l → reg_family r' (fqName (family f)) = Some (family f)) ∧
    (∀ f, f ∉ l → reg_family r' (fqName (family f)) = reg_family r (fqName (family f)) ∧
       ∀ lvs, reg_series r' (fqName (family f)) lvs = reg_series r (fqName (family f)) lvs) ∧
    (∀ f lvs, f ∈ l → reg_series r' (fqName (family f)) lvs =
       if decide (fm_labels (family f) = [] ∧ lvs = []) then Some (initial (fm_Kind (family f))) else None).
Proof.
  induction l as [|f l IH]; intros r Hnd Hn.
  { exists r. split; [done|]. split; [by intros f Hf%not_elem_of_nil|]. split; [done|]. by intros f lvs Hf%not_elem_of_nil. }
  apply NoDup_cons in Hnd as [Hf Hnd]. destruct (register_ok r (family f)) as (r1 & H1 & Hfam & Hser); [by destruct f|apply Hn; by left|].
  assert (∀ g, g ≠ f → fqName (family g) ≠ fqName (family f)) as Hne by (intros g Hg Hq; by apply fqName_inj in Hq).
  destruct (IH r1 Hnd) as (r2 & H2 & I1 & I2 & I3).
  { intros g Hg. rewrite Hfam, decide_False; [apply Hn; by right|]. apply Hne. by intros ->. }
  exists r2. cbn [register_all]. rewrite H1. split; [exact H2|]. destruct (I2 f Hf) as [Jf Js]. split_and!.
  - intros g [-> |Hg]%elem_of_cons; [|by apply I1]. by rewrite Jf, Hfam, decide_True.
  - intros g [Hgf Hg]%not_elem_of_cons. destruct (I2 g Hg) as [K1 K2]. split; [by rewrite K1, Hfam, decide_False by auto|].
    intros lvs. by rewrite K2, Hser, decide_False by auto.
  - intros g lvs [-> |Hg]%elem_of_cons; [|by apply I3]. by rewrite Js, Hser, decide_True.
Qed.

Lemma New_metered r version commit :
  (∀ f, reg_family r (fqName (family f)) = None) → ValidString version = true → ValidString commit = true →
  ∃ r', New r version commit = Some r' ∧ metered r' ∧
    reg_series r' (fqName (family BuildInfo)) [version; commit] = Some (Value 1) ∧
    ∀ f lvs, f ≠ BuildInfo → reg_series r' (fqName (family f)) lvs =
       if decide (fm_labels (family f) = [] ∧ lvs = []) then Some (initial (fm_Kind (family f))) else None.
Proof.
  intros Hn Hv Hc. destruct (register_all_ok fields r) as (r1 & H1 & Hfam & _ & Hser); [apply (bool_decide_unpack _); vm_compute; exact I|done|].
  assert (∀ f, f ∈ fields) as Hall by (intros f; apply (bool_decide_unpack _); by destruct f).
  assert (metered r1) as Hm.
  { split; [auto|]. intros f lvs m. rewrite Hser by done. case_decide; [|done]. intros [= <-]. by destruct f. }
  destruct (apply_op_exact r1 BuildInfo [version; commit] (Set_ 1) Hm) as (r2 & H2 & Hm2 & Hs2).
  { split; [done|]. split; [by repeat constructor|done]. }
  exists r2. unfold New. rewrite H1. split; [exact H2|]. split; [done|]. split.
  - rewrite Hs2, bool_decide_true by done. by rewrite Hser by done.
  - intros f lvs Hf. rewrite Hs2, bool_decide_false by (intros []; congruence). by apply Hser.
Qed.

(** A webhook whose event name is not UTF-8 cannot be counted. *)
Lemma webhook_panics r sample latency : metered r → ValidString sample.1 = false → apply_ops r (webhook_ops sample latency) = None.
Proof.
  intros Hm Hv. unfold webhook_ops. cbn [apply_ops].
  destruct (apply_op_exact r WebhooksInflight [] (Add 1) Hm) as (r1 & -> & Hm1 & _); [split; [done|]; split; [apply Forall_nil_2|done]|].
  cbn [mbind option_bind].
  assert (∀ r2 l, metered r2 → apply_ops r2 ((WebhooksTotal, [sample.1; webhook_label sample.2], Add 1) :: l) = None) as Hpanic.
  { intros r2 l Hm2. cbn [apply_ops apply_op]. rewrite update_invalid; [done|by apply mt_family|by constructor|done]. }
  destruct sample as [event []]; cbn [fst snd app] in *; try by apply Hpanic.
  all: cbn [apply_ops]; destruct (apply_op_exact r1 WebhookPublishSeconds [] (Observe latency) Hm1) as (r2 & -> & Hm2 & _);
    [split; [done|]; split; [apply Forall_nil_2|done]|]; cbn [mbind option_bind]; exact (Hpanic r2 [(WebhooksInflight, [], Add (-1))] Hm2).
Qed.
End Exact.

(** ** The registry of a running service *)

Section Service.
Context {R : Type} `{RegistryLaws R}.

Definition series_of (r : R) : series := λ f lvs, reg_series r (fqName (family f)) lvs.

Lemma shows_ext S S' h : (∀ f lvs, S' f lvs = S f lvs) → shows S h → shows S' h.
Proof. intros He HS. unfold shows, shows_all in *. eapply Forall_impl; [exact HS|]. intros x Hx. by rewrite He. Qed.

(** Operations on other sinks, or not of a sink, leave what a handler shows. *)
Lemma shows_skip S h l : Forall (λ o, of_sink o.1.1 = true → head o.1.2 ≠ Some (h_name h)) l → shows S h → shows (after l S) h.
Proof.
  intros Hl HS. unfold shows, shows_all in *. apply Forall_forall. intros [[f lvs] m] Hx. unfold after. cbn [fst snd].
  rewrite replay_skip; [by apply (proj1 (Forall_forall _ _) HS _ Hx)|]. eapply Forall_impl; [exact Hl|]. intros o Ho Heq.
  destruct o as [[f' lvs'] u]. cbn [fst] in *. injection Heq as -> ->.
  unfold own_series in Hx. cbn [fmap list_fmap app] in Hx.
  repeat (apply elem_of_cons in Hx as [[= -> -> _]|Hx]; [by apply Ho|]). by apply not_elem_of_nil in Hx.
Qed.

Lemma shows_named h h' o : h_name h ≠ h_name h' → named h o → of_sink o.1.1 = true → head o.1.2 ≠ Some (h_name h').
Proof. intros Hne [_ Hn] _. rewrite Hn. congruence. Qed.

Definition names_ok (hs : list handler) : Prop := NoDup (h_name <$> hs) ∧ Forall label_ok hs.

Lemma names_ok_act hs a : names_ok hs → names_ok (act hs a).1.
Proof.
  intros [Hn Hl]. pose proof (act_inst hs a) as Hi. split.
  - replace (h_name <$> (act hs a).1) with (h_name <$> hs); [done|].
    change (h_name) with ((λ i : Instance_, sk_Name (i_Sink i)) ∘ h_inst). by rewrite !list_fmap_compose, Hi.
  - apply Forall_forall. intros h' Hh'. assert (h_inst h' ∈ h_inst <$> hs) as Hin by (rewrite <- Hi; by apply list_elem_of_fmap_2).
    apply list_elem_of_fmap in Hin as (h & Heq & Hh). apply (proj1 (Forall_forall _ _) Hl) in Hh. unfold label_ok, h_name in *. by rewrite Heq.
Qed.

Lemma act_ops_ok hs a : names_ok hs → elsewhere_utf8 a → Forall op_ok (act hs a).2.
Proof.
  intros [_ Hl] Ha. destruct a as [i d|l]; cbn [act].
  - destruct (hs !! i) as [h|] eqn:E; [|constructor]. apply handle_op_ok. by eapply (proj1 (Forall_forall _ _) Hl), list_elem_of_lookup_2.
  - eapply Forall_impl; [by apply recorded_ok|]. by intros o [? _].
Qed.

Lemma act_shows S hs a : names_ok hs → elsewhere_utf8 a → Forall (shows S) hs → Forall (shows (after (act hs a).2 S)) (act hs a).1.
Proof.
  intros [Hn Hl] Ha HS. destruct a as [i d|l]; cbn [act].
  - destruct (hs !! i) as [h|] eqn:E; [|exact HS]. cbn [fst snd]. apply Forall_lookup. intros j h' Hj.
    destruct (decide (i = j)) as [<-|Hne].
    + rewrite list_lookup_insert_eq in Hj by (by eapply lookup_lt_Some). injection Hj as <-. apply shows_handle.
      by eapply (proj1 (Forall_lookup _ _) HS).
    + rewrite list_lookup_insert_ne in Hj by done. apply shows_skip; [|by eapply (proj1 (Forall_lookup _ _) HS)].
      eapply Forall_impl; [apply handle_named|]. intros o. apply shows_named. intros Heq. apply Hne.
      eapply (NoDup_lookup (h_name <$> hs)); [done| |]; rewrite list_lookup_fmap; [by rewrite E|by rewrite Hj, Heq].
  - cbn [fst snd]. eapply Forall_impl; [exact HS|]. intros h Hh. apply shows_skip; [|done].
    eapply Forall_impl; [by apply recorded_ok|]. intros o [_ Ho]. by rewrite Ho.
Qed.

Lemma act_all_shows l : ∀ S hs, names_ok hs → Forall elsewhere_utf8 l → Forall (shows S) hs →
  Forall op_ok (act_all hs l).2 ∧ Forall (shows (after (act_all hs l).2 S)) (act_all hs l).1.
Proof.
  induction l as [|a l IH]; intros S hs Hn Hl HS; [by split; [constructor|]|]. apply Forall_cons in Hl as [Ha Hl].
  pose proof (act_shows S hs a Hn Ha HS) as H1. pose proof (act_ops_ok hs a Hn Ha) as H2. pose proof (names_ok_act hs a Hn) as H3.
  cbn [act_all]. destruct (act hs a) as [hs1 ops]. cbn [fst snd] in *. destruct (IH _ _ H3 Hl H1) as [H4 H5].
  destruct (act_all hs1 l) as [hs2 ops']. cbn [fst snd] in *. split; [by apply Forall_app|].
  eapply Forall_impl; [exact H5|]. intros h Hh. eapply shows_ext; [|exact Hh]. intros f lvs. unfold after. apply replay_app.
Qed.

Lemma act_all_total l : ∀ hs i h', (act_all hs l).1 !! i = Some h' → ∃ h, hs !! i = Some h ∧ total h' = total h + handled i l.
Proof.
  induction l as [|a l IH]; intros hs i h' E; [exists h'; split; [done|unfold handled; cbn; lia]|]. cbn [act_all] in E.
  pose proof (act_total hs a i) as Ht. destruct (act hs a) as [hs1 ops]. specialize (IH hs1 i h').
  destruct (act_all hs1 l) as [hs2 ops']. cbn [fst] in *. destruct (IH E) as (h1 & E1 & T1). destruct (Ht h1 E1) as (h & E2 & T2).
  exists h. split; [done|]. unfold handled in *. rewrite filter_cons. destruct (to_sink i a); [rewrite decide_True by done|rewrite decide_False by done];
    cbn [length]; lia.
Qed.

(** A handler as [bind] makes it. *)
Definition fresh (h : handler) : Prop := h_metrics h = initMetrics ∧ h_stalled h = newStalledSet.

Lemma new_handler_ok h : label_ok h → Forall op_ok (new_handler_ops h).
Proof.
  intros Hl. unfold new_handler_ops, init_ops. rewrite !Forall_app. split; [by apply publish_op_ok|]. destruct Hl as [Hn Hc%class_valid_string].
  split; repeat constructor; done.
Qed.

Lemma new_handler_named h : Forall (named h) (new_handler_ops h).
Proof. unfold new_handler_ops, init_ops. rewrite !Forall_app. split; [apply publish_named|]. split; by repeat constructor. Qed.

Lemma new_handler_shows S h : fresh h → (∀ f lvs, of_sink f = true → head lvs = Some (h_name h) → S f lvs = None) →
  shows (after (new_handler_ops h) S) h.
Proof.
  intros [Hm Hs] HS. unfold shows, shows_all, own_series. rewrite Hm, Hs. cbn [fmap list_fmap app sink_label sm_count].
  repeat (constructor; cbn [fst snd];
    [unfold after; rewrite HS by done; unfold new_handler_ops, publish_ops, init_ops; cbn [fmap list_fmap app replay sink_label];
     repeat (first [rewrite bool_decide_true by done
                   | rewrite bool_decide_false by (intros [Hf Hl]; first [discriminate Hf | discriminate Hl])]); reflexivity|]).
  constructor.
Qed.

Lemma new_handlers_show hs : ∀ S, NoDup (h_name <$> hs) → Forall fresh hs →
  (∀ f lvs h, h ∈ hs → of_sink f = true → head lvs = Some (h_name h) → S f lvs = None) →
  Forall (shows (after (hs ≫= new_handler_ops) S)) hs.
Proof.
  induction hs as [|h hs IH]; intros S Hn Hf HS; [constructor|]. rewrite fmap_cons in Hn. apply NoDup_cons in Hn as [Hh Hn].
  apply Forall_cons in Hf as [Hfh Hf]. rewrite bind_cons.
  assert (∀ f lvs, after (new_handler_ops h ++ (hs ≫= new_handler_ops)) S f lvs = after (hs ≫= new_handler_ops) (after (new_handler_ops h) S) f lvs) as He.
  { intros f lvs. apply replay_app. }
  constructor.
  - eapply shows_ext; [exact He|]. apply shows_skip.
    + apply Forall_forall. intros o Ho Hof. apply list_elem_of_bind in Ho as (h' & Ho & Hh').
      apply (proj1 (Forall_forall _ _) (new_handler_named h')) in Ho as [_ ->]. intros [= Heq]. apply Hh. rewrite <- Heq. by apply list_elem_of_fmap_2.
    + apply new_handler_shows; [done|]. intros f lvs. apply HS. by left.
  - eapply Forall_impl; [apply (IH (after (new_handler_ops h) S)); [done..|]|].
    + intros f lvs h' Hh' Hof Hlv. unfold after. rewrite replay_skip; [eapply HS; [by right|done..]|].
      eapply Forall_impl; [apply new_handler_named|]. intros o [_ Ho] Heq. rewrite Heq in Ho. cbn [snd] in Ho. apply Hh.
      apply list_elem_of_fmap. exists h'. split; [congruence|done].
    + intros h' Hsh. eapply shows_ext; [exact He|exact Hsh].
Qed.
End Service.

(** ** Properties *)

(** C6: what [/metrics] says of the sinks is what happened.  [New] registers every family without a
    panic; then, for sinks with distinct names, and in whatever order their handlers, the receiver,
    the recovery loop, the lag poller, the bus and the exporters record, no recording panics and at
    every point each sink's series - events by result, process durations, last success, stalled and
    its number of messages - hold exactly what its handler counts, untouched by the other sinks; the
    events of a sink add up to the messages it was handed.  The condition is that the label values
    that come from outside - the event header of an authenticated webhook, the names of targets and
    consumers - are UTF-8; a webhook whose event header is not panics when it is counted. *)
Theorem sinks_exported {R} `{RegistryLaws R} (r0 : R) version commit hs l :
  (∀ f, reg_family r0 (fqName (family f)) = None) → ValidString version = true → ValidString commit = true →
  names_ok hs → Forall fresh hs → Forall elsewhere_utf8 l →
  ∃ r r', New r0 version commit = Some r ∧ apply_ops r ((hs ≫= new_handler_ops) ++ (act_all hs l).2) = Some r' ∧
    Forall (shows (series_of r')) (act_all hs l).1 ∧
    (∀ i h, (act_all hs l).1 !! i = Some h → total h = handled i l) ∧
    ∀ sample latency, ValidString sample.1 = false → apply_ops r' (recorded (Webhook sample latency)) = None.
Proof.
  intros Hn Hv Hc [Hnd Hl] Hf Ha. destruct (New_metered r0 version commit Hn Hv Hc) as (r & Hr & Hm & _ & Hnew).
  assert (∀ f lvs h, h ∈ hs → of_sink f = true → head lvs = Some (h_name h) → series_of r f lvs = None) as Hnone.
  { intros f lvs h _ Hof Hlv. unfold series_of. rewrite Hnew by (by intros ->). rewrite decide_False; [done|]. intros [_ ->]. done. }
  pose proof (new_handlers_show hs (series_of r) Hnd Hf Hnone) as Hsh.
  destruct (act_all_shows l _ hs (conj Hnd Hl) Ha Hsh) as [Hok Hshow].
  destruct (apply_ops_exact ((hs ≫= new_handler_ops) ++ (act_all hs l).2) r Hm) as (r' & Hr' & Hm' & Hser).
  { apply Forall_app. split; [|exact Hok]. apply Forall_bind. eapply Forall_impl; [exact Hl|]. intros h. apply new_handler_ok. }
  exists r, r'. split; [done|]. split; [done|]. split_and!.
  - eapply Forall_impl; [exact Hshow|]. intros h Hh. eapply shows_ext; [|exact Hh]. intros f lvs. unfold series_of, after.
    by rewrite Hser, replay_app.
  - intros i h Hi. destruct (act_all_total l hs i h Hi) as (h0 & E0 & ->). apply (proj1 (Forall_lookup _ _) Hf) in E0 as [E0 _].
    unfold total. rewrite E0. cbn. lia.
  - intros sample latency Hs. by apply webhook_panics.
Qed.

(** ** Witness: a registry that is two maps *)

Record mapRegistry := mkMapRegistry { mr_families : gmap string Family; mr_series : gmap (string * list string) metric }.

#[export] Instance map_Registry : Registry mapRegistry := {|
  reg_family r n := mr_families r !! n;
  reg_series r n lvs := mr_series r !! (n, lvs);
  reg_register r f :=
    match mr_families r !! fqName f with
    | Some _ => None
    | None =>
        let old := filter (λ x, x.1.1 ≠ fqName f) (mr_series r) in
        Some (mkMapRegistry (<[fqName f := f]> (mr_families r))
          (match fm_labels f with [] => <[(fqName f, []) := initial (fm_Kind f)]> old | _ => old end))
    end;
  reg_update r n lvs u :=
    f ← mr_families r !! n;
    m ← (if forallb ValidString lvs || bool_decide (u = Remove) then apply_update (fm_Kind f) u (mr_series r !! (n, lvs)) else None);
    Some (mkMapRegistry (mr_families r) (partial_alter (λ _, m) (n, lvs) (mr_series r))) |}.

#[export] Instance map_RegistryLaws : RegistryLaws mapRegistry.
Proof.
  constructor.
  - intros r f _ Hn. unfold reg_family, reg_register, reg_series in *. cbn in *. rewrite Hn. eexists. split; [done|]. cbn [mr_families mr_series].
    assert (∀ n lvs, filter (λ x : string * list string * metric, x.1.1 ≠ fqName f) (mr_series r) !! (n, lvs) =
      if decide (n = fqName f) then None else mr_series r !! (n, lvs)) as Hold.
    { intros n lvs. destruct (decide (n = fqName f)) as [-> |Hne].
      - apply map_lookup_filter_None. right. intros m _ Hne. by apply Hne.
      - destruct (mr_series r !! (n, lvs)) eqn:E.
        + by apply map_lookup_filter_Some.
        + apply map_lookup_filter_None. by left. }
    split.
    + intros n. case_decide; [subst; by rewrite lookup_insert_eq|by rewrite lookup_insert_ne].
    + intros n lvs. destruct (fm_labels f) as [|l ls].
      * destruct (decide ((n, lvs) = (fqName f, []))) as [[= -> ->]|Hne].
        { rewrite lookup_insert_eq. by rewrite !decide_True. }
        rewrite lookup_insert_ne by done. rewrite Hold. case_decide; [|done]. rewrite decide_False; [done|]. intros [_ ->]. subst. done.
      * rewrite Hold. case_decide; [|done]. rewrite decide_False; [done|]. by intros [].
  - intros r f lvs u m Hf _ Hlv Hu. unfold reg_family, reg_update, reg_series in *. cbn in *. rewrite Hf. cbn.
    assert (forallb ValidString lvs = true) as -> by (by apply forallb_forall; intros v Hv%list_elem_of_In; apply (proj1 (Forall_forall _ _) Hlv)).
    cbn [orb]. rewrite Hu. cbn.
    eexists. split; [done|]. split; [done|]. intros n lvs'. cbn [mr_series].
    destruct (decide (n = fqName f ∧ lvs' = lvs)) as [[-> ->]|Hne]; [by rewrite lookup_partial_alter_eq|].
    rewrite lookup_partial_alter_ne; [done|]. intros [= <- <-]. by apply Hne.
  - intros r f lvs u Hf He Hu. unfold reg_family, reg_update in *. cbn in *. rewrite Hf. cbn.
    rewrite (bool_decide_false (u = Remove)) by done. destruct (forallb ValidString lvs) eqn:E; [|done]. exfalso.
    apply Exists_exists in He as (v & Hv & Hv'). by rewrite (proj1 (forallb_forall _ _) E v) in Hv' by by apply list_elem_of_In.
Qed.

Definition ex_request : delivery := Router.mkDelivery (mkMessage "u" None "") (λ _, None) ex_clock.

(** A webhook, a message that stalls, a scrape. *)
Lemma sinks_exported_witness :
  ∃ r', apply_ops (R := mapRegistry) (default (mkMapRegistry ∅ ∅) (New (mkMapRegistry ∅ ∅) "v1" "c0ffee"))
     (([ex_handler] ≫= new_handler_ops)
      ++ (act_all [ex_handler] [Elsewhere (Webhook ("push", WebhookPublished) 5); Handled 0 ex_request]).2) = Some r' ∧
    series_of r' SinkStalled ["a"] = Some (Value 1).
Proof.
  destruct (sinks_exported (mkMapRegistry ∅ ∅) "v1" "c0ffee" [ex_handler]
    [Elsewhere (Webhook ("push", WebhookPublished) 5); Handled 0 ex_request]) as (r & r' & H1 & H2 & H3 & _).
  - intros f. reflexivity.
  - reflexivity.
  - reflexivity.
  - split; [repeat constructor; apply not_elem_of_nil|repeat constructor].
  - repeat constructor.
  - repeat constructor.
  - exists r'. rewrite H1. split; [exact H2|]. apply Forall_inv in H3. unfold shows, shows_all, own_series in H3.
    do 6 apply Forall_inv_tail in H3. apply Forall_inv in H3. exact H3.
Defined.
