(* ===== verification/Config.v ===== *)
(** * [internal/config]: the core configuration and its checks

    config.go: the typed configuration, its defaults and the decoding of the [bus] mapping.
    validate.go: the core rules, the rules of driver blocks, and [sameListener] with
    [net.SplitHostPort] and [path.Clean] of the standard library.  redact.go: [Redacted] over
    the describers.  Decoding a YAML node into a string or a value, the describers, and
    whether a host is an unspecified IP address are parameters. *)

From S2P Require Import Prelude.
From S2P Require Import Errors.
From S2P Require Import GoText.
From S2P Require Import GoNum.
From S2P Require Import Yaml.
From S2P Require Import Redact.
From S2P Require Import Event.
From S2P Require Import Bus.
From S2P Require Import Sink.
From S2P Require Import GhClient.
From S2P Require Import Recovery.

Local Open Scope Z_scope.

(** ** config.go *)

Definition StartFromEarliest : string := "earliest".
Definition StartFromNow : string := "now".
Definition OnMissingFail : string := "fail".
Definition OnMissingDegrade : string := "degrade".
Definition AuthTypeToken : string := "token".
Definition AuthTypeGitHubApp : string := "github_app".

Record Server := mkServer {
  cs_Listen : string; cs_WebhookPath : string; cs_WebhookSecret : Secret; cs_PublicURL : string;
  cs_MaxBodyBytes : Z; cs_PublishTimeout : Duration }.
Record Admin := mkAdmin { ca_Listen : string; ca_LagInterval : Duration }.
Record BusConfig := mkBusConfig {
  cb_Driver : string; cb_Topic : string; cb_OnMissingCapability : string; cb_Drivers : gmap string Node }.
Record Router := mkRouter { cr_CloseTimeout : Duration; cr_ProcessTimeout : Duration }.
Record SinkBlock := mkSinkBlock {
  ck_Name : string; ck_Class : string; ck_Driver : string; ck_StartFrom : string; ck_Config : Node }.
Record RecoveryAuth := mkRecoveryAuth { au_Type : string; au_Token : Secret }.
Record RecoveryTarget := mkRecoveryTarget { rt_Repo : string; rt_Org : string; rt_HookID : Z }.
Record RecoveryBlock := mkRecoveryBlock {
  cv_Enabled : bool; cv_Auth : RecoveryAuth; cv_APIBaseURL : string; cv_Interval : Duration; cv_Lookback : Duration;
  cv_Overlap : Duration; cv_Grace : Duration; cv_MaxPerScan : Z; cv_Targets : list RecoveryTarget }.
Record Config := mkConfig {
  cf_Server : Server; cf_Admin : Admin; cf_Bus : BusConfig; cf_Router : Router; cf_Sinks : list SinkBlock;
  cf_Recovery : RecoveryBlock }.

Definition MaxLookback : Duration := 72 * Hour.

Definition Default : Config := mkConfig
  (mkServer ":8080" "/webhook" "" "" (Z.shiftl 25 20) (8 * Second))
  (mkAdmin "127.0.0.1:9090" (15 * Second))
  (mkBusConfig "nats-jetstream" "antwatcher.events" OnMissingFail ∅)
  (mkRouter (30 * Second) (60 * Second)) []
  (mkRecoveryBlock false (mkRecoveryAuth AuthTypeToken "") "" (10 * Minute) MaxLookback (15 * Minute) (5 * Minute) 100 []).

Section Decode.
(** [val.Decode] into a string. *)
Variable decode_string : Node → result string.

(** One key of the mapping. *)
Definition bus_key (b : BusConfig) (key val : Node) : result BusConfig :=
  let typed (set : string → BusConfig) :=
    match decode_string val with Ok s => Ok (set s) | Err e => Err (EWrap "bus." e) end in
  if String.eqb (n_Value key) "driver" then
    typed (λ s, mkBusConfig s (cb_Topic b) (cb_OnMissingCapability b) (cb_Drivers b))
  else if String.eqb (n_Value key) "topic" then
    typed (λ s, mkBusConfig (cb_Driver b) s (cb_OnMissingCapability b) (cb_Drivers b))
  else if String.eqb (n_Value key) "on_missing_capability" then
    typed (λ s, mkBusConfig (cb_Driver b) (cb_Topic b) s (cb_Drivers b))
  else if negb (n_Kind val =? MappingNode) then Err (errorf "bus: unknown field (driver blocks must be mappings)")
  else Ok (mkBusConfig (cb_Driver b) (cb_Topic b) (cb_OnMissingCapability b) (<[n_Value key := val]> (cb_Drivers b))).

(** The keys and values of the content, in pairs; an odd last node is ignored. *)
Fixpoint bus_keys (b : BusConfig) (content : list Node) : result BusConfig :=
  match content with
  | key :: val :: content => match bus_key b key val with Ok b => bus_keys b content | Err e => Err e end
  | _ => Ok b
  end.

Definition UnmarshalYAML (b : BusConfig) (node : Node) : result BusConfig :=
  if is_null node then Ok b
  else if negb (n_Kind node =? MappingNode) then Err (errorf "bus must be a mapping")
  else bus_keys b (n_Content node).
End Decode.

(** ** [path.Clean] and [net.SplitHostPort] *)

(** The elements kept so far, the last one first. *)
Definition clean_elem (rooted : bool) (stack : list string) (elem : string) : list string :=
  if bool_decide (elem = "") || bool_decide (elem = ".") then stack
  else if bool_decide (elem = "..") then
    match stack with
    | [] => if rooted then [] else [".."]
    | top :: rest => if bool_decide (top = "..") then ".." :: stack else rest
    end
  else elem :: stack.

Definition Clean (p : string) : string :=
  let rooted := HasPrefix p "/" in
  let out := (if rooted then "/" else "") +:+ Join (rev (foldl (clean_elem rooted) [] (Split p "/"%char))) "/" in
  if bool_decide (out = "") then "." else out.

(** The text before and after the last [c]. *)
Fixpoint cut_last (c : ascii) (s : string) : option (string * string) :=
  match s with
  | EmptyString => None
  | String d r =>
      match cut_last c r with
      | Some (a, b) => Some (String d a, b)
      | None => if bool_decide (d = c) then Some ("", r) else None
      end
  end.

(** [None] is an error. *)
Definition SplitHostPort (hostport : string) : option (string * string) :=
  match cut_last ":"%char hostport with
  | None => None
  | Some (before, port) =>
      match hostport with
      | String "["%char inner =>
          let '(host, after, found) := Cut inner "]"%char in
          if negb found then None
          else match after with
               | String ":"%char p =>
                   if contains_char ":"%char p || contains_char "["%char (host +:+ p) || contains_char "]"%char p then None
                   else Some (host, p)
               | _ => None
               end
      | _ =>
          if contains_char ":"%char before || contains_char "["%char hostport || contains_char "]"%char hostport then None
          else Some (before, port)
      end
  end.

(** ** validate.go *)

Section Validate.
(** [net.ParseIP(host)] is an address and unspecified. *)
Variable ip_unspecified : string → bool.

Definition unspecified (host : string) : bool := bool_decide (host = "") || ip_unspecified host.

Definition sameListener (a b : string) : bool :=
  if String.eqb a b then true
  else match SplitHostPort a, SplitHostPort b with
       | Some (ha, pa), Some (hb, pb) =>
           if negb (String.eqb pa pb) then false else String.eqb ha hb || unspecified ha || unspecified hb
       | _, _ => false
       end.

Definition webhook_path_problems (p : string) : list error :=
  if negb (HasPrefix p "/") then [errorf "server.webhook_path must start with /"]
  else if contains_char "{"%char p || contains_char "}"%char p then [errorf "server.webhook_path must not contain { or }"]
  else if negb (bool_decide (p = "/")) && HasSuffix p "/" then [errorf "server.webhook_path must not end in /"]
  else problem (negb (String.eqb (Clean p) p)) "server.webhook_path must be a clean path".

Definition server_problems (s : Server) : list error :=
  (problem (bool_decide (cs_Listen s = "")) "server.listen is required"
   ++ webhook_path_problems (cs_WebhookPath s)
   ++ problem (bool_decide (cs_WebhookSecret s = "")) "server.webhook_secret is required"
   ++ problem (cs_MaxBodyBytes s <=? 0) "server.max_body_bytes must be > 0"
   ++ problem (cs_PublishTimeout s <=? 0) "server.publish_timeout must be > 0")%list.

Definition admin_problems (a : Admin) (s : Server) : list error :=
  ((if bool_decide (ca_Listen a = "") then [errorf "admin.listen is required"]
    else problem (sameListener (ca_Listen a) (cs_Listen s)) "admin.listen must differ from server.listen")
   ++ problem (ca_LagInterval a <=? 0) "admin.lag_interval must be > 0")%list.

Definition bus_problems (b : BusConfig) : list error :=
  (problem (bool_decide (cb_Driver b = "")) "bus.driver is required"
   ++ problem (bool_decide (cb_Topic b = "")) "bus.topic is required"
   ++ problem (negb (bool_decide (cb_OnMissingCapability b ∈ [OnMissingFail; OnMissingDegrade])))
        "bus.on_missing_capability must be fail or degrade")%list.

Definition router_problems (r : Router) : list error :=
  (problem (cr_ProcessTimeout r <=? 0) "router.process_timeout must be > 0"
   ++ problem (cr_CloseTimeout r <=? 0) "router.close_timeout must be > 0")%list.

(** [sinkNamePattern] *)
Definition sink_name_char (c : ascii) : bool :=
  let b := byte_of c in ((97 <=? b) && (b <=? 122)) || ((48 <=? b) && (b <=? 57)) || (b =? 45).
Definition sink_name_ok (name : string) : bool := string_forall sink_name_char name.

Definition sink_problems (seen : gset string) (s : SinkBlock) : list error :=
  ((if bool_decide (ck_Name s = "") then [errorf "name is required"]
    else if negb (sink_name_ok (ck_Name s)) then [errorf "name must match [a-z0-9-]+"]
    else problem (bool_decide (ck_Name s ∈ seen)) "duplicate sink name")
   ++ problem (bool_decide (ck_Class s = "")) "class is required"
   ++ problem (bool_decide (ck_Driver s = "")) "driver is required"
   ++ (if bool_decide (ck_StartFrom s ∈ [StartFromEarliest; StartFromNow]) then []
       else if bool_decide (ck_StartFrom s = "") then [errorf "start_from is required"]
       else [errorf "start_from must be earliest or now"]))%list.

(** The loop over the sinks; a name counts as seen when it is well formed. *)
Fixpoint sinks_problems (seen : gset string) (l : list SinkBlock) : list error :=
  match l with
  | [] => []
  | s :: l =>
      let seen' := if bool_decide (ck_Name s = "") || negb (sink_name_ok (ck_Name s)) then seen
                   else {[ck_Name s]} ∪ seen in
      (sink_problems seen s ++ sinks_problems seen' l)%list
  end.

Definition target_problems (t : RecoveryTarget) : list error :=
  ((if negb (bool_decide (rt_Repo t = "")) && negb (bool_decide (rt_Org t = "")) then [errorf "recovery.targets: set either repo or org, not both"]
    else if bool_decide (rt_Repo t = "") && bool_decide (rt_Org t = "") then [errorf "recovery.targets: repo or org is required"]
    else problem (negb (bool_decide (rt_Repo t = "")) && negb (Nat.eqb (length (Split (rt_Repo t) "/"%char)) 2))
           "recovery.targets: repo must be owner/name")
   ++ problem (rt_HookID t <? 0) "recovery.targets: hook_id must be >= 0")%list.

Definition recovery_problems (r : RecoveryBlock) : list error :=
  let type := au_Type (cv_Auth r) in
  ((if bool_decide (type ∈ [AuthTypeToken; ""]) then []
    else if String.eqb type AuthTypeGitHubApp then [errorf "recovery.auth.type github_app is reserved and not implemented yet"]
    else [errorf "recovery.auth.type must be token"])
   ++ (cv_Targets r ≫= target_problems)
   ++ (if negb (cv_Enabled r) then [] else
       problem (bool_decide (type = "")) "recovery.auth.type is required when recovery is enabled"
       ++ problem (String.eqb type AuthTypeToken && bool_decide (au_Token (cv_Auth r) = ""))
            "recovery.auth.token is required when recovery is enabled"
       ++ problem (bool_decide (length (cv_Targets r) = 0%nat)) "recovery.targets must list at least one repo or org"
       ++ problem (cv_Interval r <=? 0) "recovery.interval must be > 0"
       ++ problem ((cv_Lookback r <=? 0) || (MaxLookback <? cv_Lookback r)) "recovery.lookback must be in (0, 72h]"
       ++ problem (cv_Overlap r <? 0) "recovery.overlap must be >= 0"
       ++ problem (cv_Grace r <? 0) "recovery.grace must be >= 0"
       ++ problem (cv_MaxPerScan r <=? 0) "recovery.max_per_scan must be > 0"))%list.

Definition Config_problems (c : Config) : list error :=
  (server_problems (cf_Server c) ++ admin_problems (cf_Admin c) (cf_Server c) ++ bus_problems (cf_Bus c)
   ++ router_problems (cf_Router c) ++ sinks_problems ∅ (cf_Sinks c) ++ recovery_problems (cf_Recovery c))%list.

Definition Validate (c : Config) : option error := join_problems (Config_problems c).
End Validate.

(** ** Driver blocks: [ValidateDrivers] and [Redacted] *)

Definition SinkKey (class driver : string) : string := class +:+ "/" +:+ driver.

Section Describers.
(** The typed configurations of drivers, and the validators they implement. *)
Context {T : Type}.
Variable DriverValidator : T → option (Router → option error).
Variable IngressValidator : T → option (BusConfig → option error).

Record Describers := mkDescribers { ds_Bus : gmap string (Node → result T); ds_Sinks : gmap string (Node → result T) }.

Definition validateBlock (d : Node → result T) (node : Node) (router : Router) (ingress : option BusConfig) : option error :=
  match d node with
  | Err e => Some e
  | Ok typed =>
      errors_join
        ((match DriverValidator typed with Some v => [v router] | None => [] end) ++
         (match IngressValidator typed, ingress with Some v, Some b => [v b] | _, _ => [] end))%list
  end.

(** A block under its name, when it has a describer and a problem. *)
Definition block_problem (at_ : string) (d : option (Node → result T)) (node : Node) (router : Router)
    (ingress : option BusConfig) : option error :=
  match d with
  | None => None
  | Some d => match validateBlock d node router ingress with Some e => Some (EWrap at_ e) | None => None end
  end.

Definition ValidateDrivers (cfg : Config) (ds : Describers) : option error :=
  errors_join
    (block_problem "bus." (ds_Bus ds !! cb_Driver (cf_Bus cfg))
       (default zero_node (cb_Drivers (cf_Bus cfg) !! cb_Driver (cf_Bus cfg))) (cf_Router cfg) None
     :: ((λ s, block_problem "sinks[]" (ds_Sinks ds !! SinkKey (ck_Class s) (ck_Driver s)) (ck_Config s)
                 (cf_Router cfg) (Some (cf_Bus cfg))) <$> cf_Sinks cfg)).

(** [node.Decode] into an [any]. *)
Variable decode_any : Node → result value.

(** A block as it is rendered: nil, the driver's typed value, or masked by key. *)
Inductive rendered : Type := RNil | RTyped (t : T) | RMasked (v : value).

Definition describe (d : option (Node → result T)) (node : Node) : result rendered :=
  if n_Kind node =? 0 then Ok RNil
  else match d with
       | Some d => match d node with Ok t => Ok (RTyped t) | Err e => Err e end
       | None => match decode_any node with
                 | Ok v => Ok (RMasked (maskByKey v))
                 | Err e => Err (EWrap "decode driver block" e)
                 end
       end.

Record RedactedSink := mkRedactedSink {
  rs_Name : string; rs_Class : string; rs_Driver : string; rs_StartFrom : string; rs_Config : rendered }.
Record RedactedConfig := mkRedactedConfig {
  rd_Server : Server; rd_Admin : Admin; rd_Bus : string * string * string; rd_BusDrivers : gmap string rendered;
  rd_Router : Router; rd_Sinks : list RedactedSink; rd_Recovery : RecoveryBlock }.

Fixpoint redact_blocks (ds : Describers) (out : gmap string rendered) (blocks : list (string * Node)) : result (gmap string rendered) :=
  match blocks with
  | [] => Ok out
  | (name, node) :: blocks =>
      match describe (ds_Bus ds !! name) node with
      | Err e => Err (EWrap "bus." e)
      | Ok v => redact_blocks ds (<[name := v]> out) blocks
      end
  end.

Fixpoint redact_sinks (ds : Describers) (l : list SinkBlock) : result (list RedactedSink) :=
  match l with
  | [] => Ok []
  | s :: l =>
      match describe (ds_Sinks ds !! SinkKey (ck_Class s) (ck_Driver s)) (ck_Config s) with
      | Err e => Err (EWrap "sinks[]" e)
      | Ok v =>
          match redact_sinks ds l with
          | Err e => Err e
          | Ok out => Ok (mkRedactedSink (ck_Name s) (ck_Class s) (ck_Driver s) (ck_StartFrom s) v :: out)
          end
      end
  end.

(** [blocks] are the bus driver blocks in the order the map yields them. *)
Definition Redacted (cfg : Config) (ds : Describers) (blocks : list (string * Node)) : result RedactedConfig :=
  match redact_blocks ds ∅ blocks with
  | Err e => Err e
  | Ok drivers =>
      match redact_sinks ds (cf_Sinks cfg) with
      | Err e => Err e
      | Ok sinks =>
          Ok (mkRedactedConfig (cf_Server cfg) (cf_Admin cfg)
                (cb_Driver (cf_Bus cfg), cb_Topic (cf_Bus cfg), cb_OnMissingCapability (cf_Bus cfg)) drivers
                (cf_Router cfg) sinks (cf_Recovery cfg))
      end
  end.
End Describers.

(** What the parts built from the configuration are given. *)
Definition sink_config (block : Node → string) (s : SinkBlock) : SinkConfig :=
  mkSinkConfig (ck_Name s) (ck_Class s) (ck_Driver s) (ck_StartFrom s) (block (ck_Config s)).
Definition recovery_config (r : RecoveryBlock) : RecoveryConfig :=
  mkRecoveryConfig ((λ t, (rt_Repo t, rt_Org t, rt_HookID t)) <$> cv_Targets r) (au_Type (cv_Auth r)) (cv_Interval r)
    (cv_Lookback r) (cv_Overlap r) (cv_Grace r) (cv_MaxPerScan r).

(** ** Lemmas *)

Lemma problem_nil b t : problem b t = [] ↔ b = false.
Proof. by destruct b. Qed.

Lemma sameListener_sym ip a b : sameListener ip a b = sameListener ip b a.
Proof.
  unfold sameListener. rewrite (String.eqb_sym b a). destruct (String.eqb a b); [done|].
  destruct (SplitHostPort a) as [[ha pa]|], (SplitHostPort b) as [[hb pb]|]; try done.
  rewrite (String.eqb_sym pb pa), (String.eqb_sym hb ha). destruct (String.eqb pa pb); [|done]. cbn.
  by destruct (String.eqb ha hb), (unspecified ip ha), (unspecified ip hb).
Qed.

Definition valid_path (p : string) : Prop :=
  HasPrefix p "/" = true ∧ contains_char "{"%char p = false ∧ contains_char "}"%char p = false ∧
  (p = "/" ∨ HasSuffix p "/" = false) ∧ Clean p = p.

Lemma webhook_path_problems_nil p : webhook_path_problems p = [] ↔ valid_path p.
Proof.
  unfold webhook_path_problems, valid_path. destruct (HasPrefix p "/"); [|naive_solver]. cbn [negb].
  destruct (contains_char "{"%char p); [naive_solver|]. destruct (contains_char "}"%char p); [naive_solver|]. cbn [orb].
  destruct (decide (p = "/")) as [->|Hp]; [cbn; naive_solver|]. rewrite bool_decide_false by done. cbn [negb andb].
  destruct (HasSuffix p "/"); [naive_solver|]. rewrite problem_nil, negb_false_iff, String.eqb_eq. naive_solver.
Qed.

Definition valid_sink (s : SinkBlock) : Prop :=
  ck_Name s ≠ "" ∧ sink_name_ok (ck_Name s) = true ∧ ck_Class s ≠ "" ∧ ck_Driver s ≠ "" ∧
  ck_StartFrom s ∈ [StartFromEarliest; StartFromNow].

Lemma sinks_problems_nil seen l :
  sinks_problems seen l = [] ↔ Forall valid_sink l ∧ NoDup (ck_Name <$> l) ∧ Forall (λ s, ck_Name s ∉ seen) l.
Proof.
  revert seen. induction l as [|s l IH]; intros seen; cbn [sinks_problems].
  { split; [intros _; split_and!; constructor|done]. }
  rewrite app_nil, IH, !Forall_cons, fmap_cons, NoDup_cons. unfold sink_problems, valid_sink. rewrite !app_nil, !problem_nil.
  destruct (decide (ck_Name s = "")) as [Hn|Hn]; [rewrite bool_decide_true by done; naive_solver|].
  rewrite (bool_decide_false (ck_Name s = "")) by done. destruct (sink_name_ok (ck_Name s)); [|naive_solver].
  cbn [negb orb]. rewrite problem_nil, !bool_decide_eq_false.
  assert ((if bool_decide (ck_StartFrom s ∈ [StartFromEarliest; StartFromNow]) then []
    else if bool_decide (ck_StartFrom s = "") then [errorf "start_from is required"] else [errorf "start_from must be earliest or now"]) = []
    ↔ ck_StartFrom s ∈ [StartFromEarliest; StartFromNow]) as ->
    by (case_bool_decide; [done|]; case_bool_decide; done).
  rewrite list_elem_of_fmap, !Forall_forall. set_solver.
Qed.

Lemma Split_Cut s c : Split s c = let '(a, b, found) := Cut s c in if found then a :: Split b c else [a].
Proof.
  induction s as [|d s IH]; [done|]. cbn. case_bool_decide; [done|]. rewrite IH.
  destruct (Cut s c) as [[a b] found]. by destruct found.
Qed.

Lemma Split_length s c : (1 ≤ length (Split s c))%nat.
Proof.
  destruct s as [|d s]; [done|]. cbn [Split]. case_bool_decide; [cbn [length]; lia|].
  destruct (Split s c); cbn [length]; lia.
Qed.

Lemma Split_no_char s c : contains_char c s = true → (2 ≤ length (Split s c))%nat.
Proof.
  induction s as [|d s IH]; [done|]. cbn [Split contains_char]. intros H. pose proof (Split_length s c) as Hl. destruct (decide (d = c)) as [->|Hd].
  - rewrite bool_decide_true by done. cbn [length]. lia.
  - rewrite bool_decide_false in H by congruence. rewrite bool_decide_false by done. specialize (IH H). destruct (Split s c); cbn [length] in *; lia.
Qed.

Lemma Cut_parts s c a b : Cut s c = (a, b, true) → s = a +:+ String c b.
Proof.
  revert a b. induction s as [|d s IH]; intros a b; cbn; [done|]. case_bool_decide; [subst; by intros [= <- <-]|].
  destruct (Cut s c) as [[a' b'] f]. intros [= <- <- ->]. rewrite sapp_cons. f_equal. by apply IH.
Qed.

Definition valid_target (t : RecoveryTarget) : Prop :=
  (rt_Repo t = "" ∧ rt_Org t ≠ "" ∨ rt_Org t = "" ∧ rt_Repo t ≠ "" ∧ length (Split (rt_Repo t) "/"%char) = 2%nat) ∧
  0 ≤ rt_HookID t.

Lemma target_problems_nil t : target_problems t = [] ↔ valid_target t.
Proof.
  unfold target_problems, valid_target. rewrite app_nil, problem_nil, Z.ltb_ge.
  destruct (decide (rt_Repo t = "")) as [Hr|Hr], (decide (rt_Org t = "")) as [Ho|Ho];
    [rewrite !bool_decide_true by done|rewrite (bool_decide_true (rt_Repo t = "")), (bool_decide_false (rt_Org t = "")) by done
    |rewrite (bool_decide_false (rt_Repo t = "")), (bool_decide_true (rt_Org t = "")) by done|rewrite !bool_decide_false by done];
    cbn [negb andb]; rewrite ?problem_nil, ?negb_false_iff, ?Nat.eqb_eq; naive_solver.
Qed.

Definition valid_recovery (r : RecoveryBlock) : Prop :=
  au_Type (cv_Auth r) ∈ [AuthTypeToken; ""] ∧ Forall valid_target (cv_Targets r) ∧
  (cv_Enabled r = true →
     au_Type (cv_Auth r) = AuthTypeToken ∧ au_Token (cv_Auth r) ≠ "" ∧ cv_Targets r ≠ [] ∧ 0 < cv_Interval r ∧
     0 < cv_Lookback r ≤ MaxLookback ∧ 0 ≤ cv_Overlap r ∧ 0 ≤ cv_Grace r ∧ 0 < cv_MaxPerScan r).

Lemma recovery_problems_nil r : recovery_problems r = [] ↔ valid_recovery r.
Proof.
  unfold recovery_problems, valid_recovery. rewrite !app_nil.
  assert ((if bool_decide (au_Type (cv_Auth r) ∈ [AuthTypeToken; ""]) then []
    else if String.eqb (au_Type (cv_Auth r)) AuthTypeGitHubApp then [errorf "recovery.auth.type github_app is reserved and not implemented yet"]
    else [errorf "recovery.auth.type must be token"]) = [] ↔ au_Type (cv_Auth r) ∈ [AuthTypeToken; ""]) as ->
    by (case_bool_decide; [done|]; by destruct (String.eqb _ _)).
  assert ((cv_Targets r ≫= target_problems) = [] ↔ Forall valid_target (cv_Targets r)) as ->.
  { induction (cv_Targets r) as [|t l IH]; [done|]. by rewrite bind_cons, app_nil, IH, Forall_cons, target_problems_nil. }
  destruct (cv_Enabled r); cbn [negb]; [|naive_solver].
  rewrite !app_nil, !problem_nil, bool_decide_eq_false, andb_false_iff, String.eqb_neq, !bool_decide_eq_false, orb_false_iff,
    !Z.leb_gt, !Z.ltb_ge, length_zero_iff_nil.
  split.
  - intros (Ht & Hall & H1 & H2 & H3 & H4 & H5 & H6 & H7 & H8). split_and!; try done; intros _.
    assert (au_Type (cv_Auth r) = AuthTypeToken) as Hty
      by (apply elem_of_cons in Ht as [|Ht]; [done|]; by apply list_elem_of_singleton in Ht).
    split_and!; try done; try lia. by destruct H2.
  - intros (Ht & Hall & H). destruct (H eq_refl) as (-> & H2 & H3 & H4 & H5 & H6 & H7 & H8). split_and!; try done; try lia. { left. } by right.
Qed.

(** What the core rules ask for. *)
Record valid_config (ip : string → bool) (c : Config) : Prop := {
  vc_listen : cs_Listen (cf_Server c) ≠ "";
  vc_path : valid_path (cs_WebhookPath (cf_Server c));
  vc_secret : cs_WebhookSecret (cf_Server c) ≠ "";
  vc_body : 0 < cs_MaxBodyBytes (cf_Server c);
  vc_publish : 0 < cs_PublishTimeout (cf_Server c);
  vc_admin : ca_Listen (cf_Admin c) ≠ "";
  vc_separate : sameListener ip (ca_Listen (cf_Admin c)) (cs_Listen (cf_Server c)) = false;
  vc_lag : 0 < ca_LagInterval (cf_Admin c);
  vc_driver : cb_Driver (cf_Bus c) ≠ "";
  vc_topic : cb_Topic (cf_Bus c) ≠ "";
  vc_policy : cb_OnMissingCapability (cf_Bus c) ∈ [OnMissingFail; OnMissingDegrade];
  vc_process : 0 < cr_ProcessTimeout (cf_Router c);
  vc_close : 0 < cr_CloseTimeout (cf_Router c);
  vc_sinks : Forall valid_sink (cf_Sinks c);
  vc_names : NoDup (ck_Name <$> cf_Sinks c);
  vc_recovery : valid_recovery (cf_Recovery c) }.

Lemma Validate_valid ip c : Validate ip c = None ↔ valid_config ip c.
Proof.
  unfold Validate. rewrite join_problems_None. unfold Config_problems. rewrite !app_nil, sinks_problems_nil, recovery_problems_nil.
  unfold server_problems, admin_problems, bus_problems, router_problems.
  rewrite !app_nil, !problem_nil, webhook_path_problems_nil, !bool_decide_eq_false, !Z.leb_gt, negb_false_iff, bool_decide_eq_true.
  assert ((if bool_decide (ca_Listen (cf_Admin c) = "") then [errorf "admin.listen is required"]
     else problem (sameListener ip (ca_Listen (cf_Admin c)) (cs_Listen (cf_Server c))) "admin.listen must differ from server.listen") = []
     ↔ ca_Listen (cf_Admin c) ≠ "" ∧ sameListener ip (ca_Listen (cf_Admin c)) (cs_Listen (cf_Server c)) = false) as ->
    by (case_bool_decide; [naive_solver|rewrite problem_nil; naive_solver]).
  split.
  - intros ((? & ? & ? & ? & ?) & ((? & ?) & ?) & (? & ? & ?) & (? & ?) & (? & ? & _) & ?). by constructor.
  - intros []. split_and!; try done. apply Forall_true. set_solver.
Qed.

Lemma sink_name_consumer name : name ≠ "" → sink_name_ok name = true → ValidateConsumerName (ConsumerName name) = None.
Proof.
  intros Hn Hok. apply ValidateConsumerName_spec. split; [by destruct name|].
  unfold ConsumerName. rewrite string_forall_app. apply andb_true_iff. split; [reflexivity|].
  unfold sink_name_ok in Hok. clear Hn. induction name as [|c name IH]; [done|]. cbn in *. apply andb_true_iff in Hok as [Hc Hn].
  rewrite (IH Hn), andb_true_r. unfold sink_name_char in Hc. unfold consumer_char.
  apply orb_true_iff in Hc as [Hc|Hc]; [apply orb_true_iff in Hc as [Hc|Hc]|]; rewrite Hc; by rewrite ?orb_true_r.
Qed.

(** A repository that is owner/name. *)
Definition owner_and_name (t : RecoveryTarget) : Prop :=
  rt_Repo t ≠ "" → HasPrefix (rt_Repo t) "/" = false ∧ HasSuffix (rt_Repo t) "/" = false.

Lemma strip_suffix_none_app p s : HasSuffix (s +:+ p) p = true.
Proof.
  unfold HasSuffix. assert (is_Some (strip_suffix p (s +:+ p))) as [r ->]; [|done].
  induction s as [|c s IH].
  - rewrite sapp_nil_l. destruct p; cbn [strip_suffix]; rewrite bool_decide_true by done; by eexists.
  - rewrite sapp_cons. cbn [strip_suffix]. case_bool_decide; [by eexists|]. destruct IH as [r ->]. by eexists.
Qed.

Lemma TargetFromConfig_valid t : valid_target t → owner_and_name t →
  ∃ tg, TargetFromConfig (rt_Repo t) (rt_Org t) (rt_HookID t) = Ok tg ∧ tg_HookID tg = rt_HookID t ∧
    (IsOrg tg = true ∧ tg_Repo tg = "" ∨ IsOrg tg = false ∧ tg_Repo tg ≠ "" ∧ tg_Owner tg ≠ "").
Proof.
  intros Hv Ho. destruct Hv as [[[Hr Horg]|(Horg & Hr & Hlen)] _]; unfold TargetFromConfig.
  - rewrite Hr in *. rewrite bool_decide_true by done. unfold IsOrg. cbn. rewrite (bool_decide_false (rt_Org t = "")) by done.
    eexists. split; [done|]. split; [done|]. left. cbn. by rewrite bool_decide_false.
  - rewrite bool_decide_false by done. destruct (Ho Hr) as [Hpre Hsuf]. rewrite Split_Cut in Hlen.
    destruct (Cut (rt_Repo t) "/"%char) as [[a b] f] eqn:E. destruct f; [|done]. pose proof (Cut_parts _ _ _ _ E) as Hs.
    cbn [length] in Hlen. assert (contains_char "/"%char b = false) as Hb.
    { destruct (contains_char "/"%char b) eqn:Eb; [|done]. apply Split_no_char in Eb. lia. }
    assert (a ≠ "") as Ha by (intros ->; by rewrite Hs in Hpre).
    assert (b ≠ "") as Hbn.
    { intros ->. rewrite Hs in Hsuf. change (String "/"%char "") with "/" in Hsuf. by rewrite strip_suffix_none_app in Hsuf. }
    cbn [negb orb]. rewrite !bool_decide_false by done. rewrite Hb. cbn [orb]. unfold IsOrg. cbn. rewrite Horg.
    rewrite bool_decide_true by done. cbn. eexists. split; [done|]. split; [done|]. by right.
Qed.

(** The options with the client newService sets. *)
Definition with_client (o : Options) : Options :=
  mkOptions true (o_Targets o) (o_WebhookURL o) (o_AuthType o) (o_Interval o) (o_Lookback o) (o_Overlap o) (o_Grace o)
    (o_MaxPerScan o) (o_RedeliverDelay o).

Lemma targets_from_config_valid url l :
  Forall valid_target l → Forall owner_and_name l → Forall (λ t, rt_HookID t ≠ 0 ∨ url ≠ "") l →
  ∃ tgs, targets_from_config ((λ t, (rt_Repo t, rt_Org t, rt_HookID t)) <$> l) = Ok tgs ∧ length tgs = length l ∧
    (tgs ≫= Recovery.target_problems url) = [].
Proof.
  induction l as [|t l IH]; intros Hv Ho Hu; [by exists []|].
  apply Forall_cons in Hv as [Hv1 Hv], Ho as [Ho1 Ho], Hu as [Hu1 Hu]. destruct (IH Hv Ho Hu) as (tgs & Ht & Hl & Hp).
  destruct (TargetFromConfig_valid t Hv1 Ho1) as (tg & Htg & Hh & Hk). exists (tg :: tgs).
  cbn [fmap list_fmap targets_from_config]. rewrite Htg, Ht. split; [done|]. split; [cbn; by rewrite Hl|].
  rewrite bind_cons, Hp, app_nil_r. unfold Recovery.target_problems. cbv zeta. apply app_nil. rewrite !problem_nil, Hh. split.
  - destruct Hk as [[-> ->]|(-> & Hr & Hown)]; [done|]. by rewrite !bool_decide_false by done.
  - destruct Hu1 as [Hne|Hne]; [rewrite (proj2 (Z.eqb_neq _ _)) by done; done|]. rewrite bool_decide_false by done. apply andb_false_r.
Qed.

(** A valid recovery block that is enabled becomes a loop. *)
Lemma recovery_starts r url :
  valid_recovery r → cv_Enabled r = true → Forall owner_and_name (cv_Targets r) →
  Forall (λ t, rt_HookID t ≠ 0 ∨ url ≠ "") (cv_Targets r) →
  ∃ opts states, OptionsFromConfig (recovery_config r) url = Ok opts ∧ New (with_client opts) = Ok states ∧
    length states = length (cv_Targets r).
Proof.
  intros (_ & Hv & Hen) He Ho Hu. destruct (Hen He) as (Hty & _ & Hne & Hi & Hl & Hov & Hg & Hm).
  destruct (targets_from_config_valid url _ Hv Ho Hu) as (tgs & Ht & Hlen & Hp).
  unfold OptionsFromConfig, recovery_config. cbn [rcf_Targets]. rewrite Ht. eexists. eexists. split; [reflexivity|].
  unfold New, with_client. cbn [o_Client o_Targets o_WebhookURL o_Interval o_Lookback o_Overlap o_Grace o_MaxPerScan o_RedeliverDelay rcf_Interval rcf_Lookback rcf_Overlap rcf_Grace rcf_MaxPerScan].
  rewrite (proj2 (join_problems_None _)).
  + split; [done|]. by rewrite length_fmap.
  + rewrite !app_nil. split_and!; try (by apply problem_nil); try done; apply problem_nil.
    * apply bool_decide_eq_false. intros ->. by destruct (cv_Targets r).
    * apply Z.leb_gt. lia.
    * apply orb_false_iff. unfold Recovery.MaxLookback, MaxLookback in *. rewrite Z.leb_gt, Z.ltb_ge. lia.
    * apply Z.ltb_ge. lia.
    * apply Z.ltb_ge. lia.
    * apply Z.leb_gt. lia.
Qed.

Lemma suffix_in_tail c s t r : s +:+ t = r +:+ String c "" → t ≠ "" → contains_char c t = true.
Proof.
  revert r. induction s as [|x s IH]; intros r H Ht.
  - rewrite sapp_nil_l in H. rewrite H, contains_char_app. cbn [contains_char]. by rewrite bool_decide_true, orb_true_r.
  - rewrite sapp_cons in H. destruct r as [|y r].
    + rewrite sapp_nil_l in H. injection H as _ H. by destruct s, t.
    + rewrite sapp_cons in H. injection H as _ H. by eapply IH.
Qed.

(** The client's own check of a repository, and what [New] asks of a target, are no weaker. *)
Lemma TargetFromConfig_named t tg : TargetFromConfig (rt_Repo t) (rt_Org t) (rt_HookID t) = Ok tg →
  owner_and_name t ∧ tg_HookID tg = rt_HookID t.
Proof.
  unfold TargetFromConfig, owner_and_name. case_bool_decide as Hr.
  { rewrite Hr. destruct (Bool.eqb _ _); [done|]. by intros [= <-]. }
  destruct (Cut (rt_Repo t) "/"%char) as [[a b] f] eqn:E. destruct f; [|done]. pose proof (Cut_parts _ _ _ _ E) as Hs.
  cbn [negb orb]. destruct (bool_decide (a = "")) eqn:Ea; [done|]. destruct (bool_decide (b = "")) eqn:Eb; [done|].
  apply bool_decide_eq_false in Ea, Eb. destruct (contains_char "/"%char b) eqn:Ec; [done|]. cbn [orb].
  destruct (Bool.eqb _ _); [done|]. intros [= <-]. split; [|done]. intros _. split.
  - unfold HasPrefix. destruct (strip_prefix "/" (rt_Repo t)) as [r|] eqn:Ep; [|done]. apply strip_prefix_Some in Ep.
    rewrite Ep in E. by injection E as <- _.
  - unfold HasSuffix. destruct (strip_suffix "/" (rt_Repo t)) as [r|] eqn:Ep; [|done]. apply strip_suffix_Some in Ep.
    rewrite Hs in Ep. change (String "/"%char b) with ("/" +:+ b) in Ep. rewrite <- sapp_assoc in Ep.
    apply suffix_in_tail in Ep; congruence.
Qed.

Lemma targets_named l tgs url :
  targets_from_config ((λ t, (rt_Repo t, rt_Org t, rt_HookID t)) <$> l) = Ok tgs → (tgs ≫= Recovery.target_problems url) = [] →
  Forall owner_and_name l ∧ Forall (λ t, rt_HookID t ≠ 0 ∨ url ≠ "") l.
Proof.
  revert tgs. induction l as [|t l IH]; intros tgs H Hp; [done|]. cbn [fmap list_fmap targets_from_config] in H.
  destruct (TargetFromConfig _ _ _) as [tg|e] eqn:E; [|done]. destruct (targets_from_config _) as [ts|e] eqn:Et; [|done].
  injection H as <-. rewrite bind_cons in Hp. apply app_nil in Hp as [Hp1 Hp2]. destruct (IH _ eq_refl Hp2) as [H1 H2].
  destruct (TargetFromConfig_named _ _ E) as [Hn Hh]. split; constructor; try done.
  unfold Recovery.target_problems in Hp1. cbv zeta in Hp1. apply app_nil in Hp1 as [_ Hk]. apply problem_nil in Hk.
  rewrite Hh in Hk. apply andb_false_iff in Hk as [Hk|Hk]; [left; by apply Z.eqb_neq|right; by apply bool_decide_eq_false in Hk].
Qed.

Lemma recovery_needs r url opts states :
  OptionsFromConfig (recovery_config r) url = Ok opts → New (with_client opts) = Ok states →
  Forall owner_and_name (cv_Targets r) ∧ Forall (λ t, rt_HookID t ≠ 0 ∨ url ≠ "") (cv_Targets r).
Proof.
  unfold OptionsFromConfig, recovery_config. cbn [rcf_Targets]. destruct (targets_from_config _) as [tgs|e] eqn:Et; [|done].
  intros [= <-]. unfold New, with_client. cbn [o_Client o_Targets o_WebhookURL]. destruct (join_problems _) eqn:E; [done|].
  intros _. apply join_problems_None in E. rewrite !app_nil in E. apply (targets_named _ _ _ Et). naive_solver.
Qed.

(** ** Properties *)

(** [Validate] accepts exactly the configurations its rules describe, and collects the
    problems of every part instead of stopping at the first. *)
Lemma Validate_spec ip c :
  (Validate ip c = None ↔ valid_config ip c) ∧
  (∀ e, e ∈ Config_problems ip c → ∃ e', Validate ip c = Some e') ∧
  (∀ a b, sameListener ip a b = sameListener ip b a).
Proof.
  split; [apply Validate_valid|]. split; [|intros; apply sameListener_sym].
  intros e Hin. destruct (Validate ip c) as [e'|] eqn:E; [by exists e'|]. apply join_problems_None in E. rewrite E in Hin.
  by apply not_elem_of_nil in Hin.
Qed.

(** C35: what [Validate] accepts and start-up: the policy parses, the router's timeouts are
    positive, every sink has a distinct consumer name the bus accepts and a start position that
    parses; and an enabled recovery block becomes a loop over all its targets exactly when its
    repositories are owner/name with neither part empty and every hook has an id or there is a
    public URL to find it by.  These two are all the checks leave to chance: see
    [Validate_recovery_gap]. *)
Theorem Validate_starts ip c :
  Validate ip c = None →
  (∃ m, ParseMode (cb_OnMissingCapability (cf_Bus c)) = Ok m) ∧
  0 < cr_ProcessTimeout (cf_Router c) ∧ 0 < cr_CloseTimeout (cf_Router c) ∧
  NoDup (ck_Name <$> cf_Sinks c) ∧
  Forall (λ s, ValidateConsumerName (ConsumerName (ck_Name s)) = None ∧ ∃ p, ParseStartPosition (ck_StartFrom s) = Ok p) (cf_Sinks c) ∧
  (cv_Enabled (cf_Recovery c) = true →
   (Forall owner_and_name (cv_Targets (cf_Recovery c)) ∧
    Forall (λ t, rt_HookID t ≠ 0 ∨ cs_PublicURL (cf_Server c) ≠ "") (cv_Targets (cf_Recovery c))) ↔
   ∃ opts states, OptionsFromConfig (recovery_config (cf_Recovery c)) (cs_PublicURL (cf_Server c)) = Ok opts ∧
     New (with_client opts) = Ok states ∧ length states = length (cv_Targets (cf_Recovery c))).
Proof.
  intros H%Validate_valid. destruct H. split_and!; try done.
  - apply elem_of_cons in vc_policy0 as [-> | H%list_elem_of_singleton]; [by eexists|]. rewrite H. by eexists.
  - apply (Forall_impl _ _ _ vc_sinks0). intros s (Hn & Hok & _ & _ & Hs). split; [by apply sink_name_consumer|].
    apply elem_of_cons in Hs as [-> | Hs%list_elem_of_singleton]; [by eexists|]. rewrite Hs. by eexists.
  - intros He. split; [intros [Ho Hu]; by apply recovery_starts|]. intros (opts & states & H1 & H2 & _). by eapply recovery_needs.
Qed.

Lemma validateBlock_bus {T} (dv : T → option (Router → option error)) iv d node router :
  validateBlock dv iv d node router None = None ↔
  ∃ typed, d node = Ok typed ∧ match dv typed with Some v => v router = None | None => True end.
Proof.
  unfold validateBlock. destruct (d node) as [typed|e]; [|split; [done|by intros (t & ? & _)]].
  rewrite errors_join_None, Forall_app.
  assert (Forall (λ o : option error, o = None) match iv typed with Some _ => [] | None => [] end) as Hiv
    by (destruct (iv typed); constructor).
  split.
  - intros [H _]. exists typed. split; [done|]. destruct (dv typed); [by apply Forall_cons in H as [? _]|done].
  - intros (t & [= <-] & H). split; [|done]. destruct (dv typed); by repeat constructor.
Qed.

(** A driver block that has a describer is checked through it, and only through it: without one
    it is left to the registry, and the ingress rule is not asked of the bus block. *)
Lemma ValidateDrivers_bus {T} (dv : T → option (Router → option error)) iv cfg ds :
  cf_Sinks cfg = [] →
  ValidateDrivers dv iv cfg ds = None ↔
  match ds_Bus ds !! cb_Driver (cf_Bus cfg) with
  | None => True
  | Some d => ∃ typed, d (default zero_node (cb_Drivers (cf_Bus cfg) !! cb_Driver (cf_Bus cfg))) = Ok typed ∧
                match dv typed with Some v => v (cf_Router cfg) = None | None => True end
  end.
Proof.
  intros Hs. unfold ValidateDrivers. rewrite Hs, errors_join_None. cbn [fmap list_fmap]. rewrite Forall_cons.
  unfold block_problem. destruct (ds_Bus ds !! cb_Driver (cf_Bus cfg)) as [d|]; [|by split].
  rewrite <- validateBlock_bus with (iv := iv). destruct (validateBlock _ _ _ _ _ _); [|done].
  split; [by intros [? _]|done].
Qed.

(** Unknown scalar keys of the [bus] mapping are refused; the blocks that are kept are the
    mappings under keys that are not fields. *)
Lemma bus_key_block dec b key val b' :
  bus_key dec b key val = Ok b' → n_Value key ∉ ["driver"; "topic"; "on_missing_capability"] →
  n_Kind val = MappingNode ∧ cb_Drivers b' = <[n_Value key := val]> (cb_Drivers b) ∧
  cb_Driver b' = cb_Driver b ∧ cb_Topic b' = cb_Topic b.
Proof.
  intros H Hk. rewrite !not_elem_of_cons in Hk. destruct Hk as (H1 & H2 & H3 & _). unfold bus_key in H.
  rewrite !(proj2 (String.eqb_neq _ _)) in H by done. destruct (n_Kind val =? MappingNode) eqn:E; [|done].
  to_prop. by injection H as <-.
Qed.

(** ** Witnesses *)

Definition ex_recovery (hook : Z) : RecoveryBlock :=
  mkRecoveryBlock true (mkRecoveryAuth AuthTypeToken "t") "" (10 * Minute) MaxLookback (15 * Minute) (5 * Minute) 100
    [mkRecoveryTarget "o/r" "" hook].
Definition ex_config (hook : Z) : Config :=
  mkConfig (mkServer ":8080" "/webhook" "s" "" 1 Second) (cf_Admin Default) (cf_Bus Default) (cf_Router Default)
    [mkSinkBlock "a" "log" "stdout" "now" zero_node] (ex_recovery hook).

Lemma ex_config_valid hook : 0 ≤ hook → Validate (λ _, false) (ex_config hook) = None.
Proof.
  intros H. apply Validate_valid. constructor; try (by vm_compute); try done.
  - split_and!; try done. by right.
  - left.
  - constructor; [|constructor]. split_and!; try done. by right; left.
  - apply NoDup_singleton.
  - split_and!; [by left|constructor; [split; [by right|done]|constructor]|done].
Qed.

(** A recovery block that passes the checks although the start-up refuses it: a target without
    a hook id, and no public URL to find its hook by. *)
Lemma Validate_recovery_gap :
  Validate (λ _, false) (ex_config 0) = None ∧
  ∃ opts e, OptionsFromConfig (recovery_config (ex_recovery 0)) "" = Ok opts ∧ New (with_client opts) = Err e.
Proof. split; [apply ex_config_valid; lia|]. do 2 eexists. split; reflexivity. Qed.

Lemma Validate_spec_witness : ∃ e', Validate (λ _, false) Default = Some e'.
Proof.
  apply (proj1 (proj2 (Validate_spec (λ _, false) Default)) (errorf "server.webhook_secret is required")).
  vm_compute. left.
Defined.

Lemma Validate_starts_witness : ∃ m, ParseMode (cb_OnMissingCapability (cf_Bus (ex_config 7))) = Ok m.
Proof. exact (proj1 (Validate_starts (λ _, false) (ex_config 7) (ex_config_valid 7 ltac:(lia)))). Defined.

Example sameListener_ex :
  sameListener (λ h, String.eqb h "0.0.0.0") ":8080" "127.0.0.1:8080" = true ∧
  sameListener (λ h, String.eqb h "0.0.0.0") "127.0.0.1:8080" "127.0.0.2:8080" = false ∧
  sameListener (λ h, String.eqb h "::") "[::]:80" "1.2.3.4:80" = true.
Proof. by vm_compute. Qed.

Example Clean_ex : Clean "/a/../b//c/." = "/b/c" ∧ Clean "" = "." ∧ Clean "/.." = "/" ∧ Clean "../x" = "../x".
Proof. by vm_compute. Qed.
