(* ===== verification/Servers.v ===== *)
(** * The two HTTP servers, and what the admin one answers

    [internal/admin/server.go] and [internal/receiver/server.go]: binding and releasing the
    listener, [Run] until its context ends, the timeouts, and the admin handler's routes.  The
    network is outside: what [net.Listen], [Serve] and [Shutdown] answer is an argument. *)

From S2P Require Import Prelude.
From S2P Require Import Errors.
From S2P Require Import GoText.

Local Open Scope Z_scope.

(** ** The listener *)

Inductive listener : Set := Unbound | Bound | Released.

Record HTTPServer := mkHTTPServer { hs_Name : string; hs_Listener : listener }.

Definition with_listener (s : HTTPServer) (l : listener) : HTTPServer := mkHTTPServer (hs_Name s) l.

(** [Listen]: [answer] is the error of [net.Listen]. *)
Definition Listen (answer : option error) (s : HTTPServer) : HTTPServer * option error :=
  match hs_Listener s with
  | Unbound => match answer with
               | Some e => (s, Some (EWrap (hs_Name s +:+ ": listen") e))
               | None => (with_listener s Bound, None)
               end
  | _ => (s, None)
  end.

(** [Addr] is nil before [Listen]. *)
Definition has_addr (s : HTTPServer) : bool := match hs_Listener s with Unbound => false | _ => true end.

(** [Close]: closing a listener twice is an error of the [net] package. *)
Definition Close (s : HTTPServer) : HTTPServer * option error :=
  match hs_Listener s with
  | Unbound => (s, None)
  | Bound => (with_listener s Released, None)
  | Released => (s, Some (errorf "use of closed network connection"))
  end.

(** How [Run] goes once it serves: [Serve] returns by itself, with [http.ErrServerClosed] or
    another error; or the context ends and [Shutdown] returns. *)
Inductive serving : Set := ServeClosed | ServeErr (e : error) | CtxEnded (shutdown : option error).

Definition Run (answer : option error) (how : serving) (s : HTTPServer) : HTTPServer * option error :=
  match Listen answer s with
  | (s, Some e) => (s, Some e)
  | (s, None) =>
      let s := with_listener s Released in
      match how with
      | ServeClosed => (s, None)
      | ServeErr e => (s, Some (EWrap (hs_Name s +:+ ": serve") e))
      | CtxEnded (Some e) => (s, Some (EWrap (hs_Name s +:+ ": shutdown") e))
      | CtxEnded None => (s, None)
      end
  end.

(** ** Timeouts *)

Definition readTimeout : Duration := 30 * Second.
(** [readTimeout + cfg.PublishTimeout + 5*time.Second] *)
Definition WriteTimeout (publish : Duration) : Duration := wrap64 (wrap64 (readTimeout + publish) + 5 * Second).
(** What [Run] of the receiver gives [Shutdown]. *)
Definition receiver_shutdown (publish : Duration) : Duration := wrap64 (WriteTimeout publish + 2 * Second).

(** [ShutdownTimeout] of the admin server, with its default. *)
Definition admin_shutdown (configured : Duration) : Duration := if configured <=? 0 then 5 * Second else configured.

(** ** Building and running a server *)

(** What the packages set of an [http.Server]. *)
Record http_Server := mkHttpServer {
  ReadHeaderTimeout : Duration; http_ReadTimeout : Duration; http_WriteTimeout : Duration;
  IdleTimeout : Duration; MaxHeaderBytes : option Z }.

(** A server with the time [Run] gives its graceful shutdown. *)
Record Server := mkServer { sv_listener : HTTPServer; sv_http : http_Server; sv_shutdown : Duration }.

(** [NewServer] of the receiver: [publish] is the configured [publish_timeout]. *)
Definition NewServer (publish : Duration) : Server :=
  mkServer (mkHTTPServer "receiver" Unbound)
    (mkHttpServer (10 * Second) readTimeout (WriteTimeout publish) (120 * Second) (Some 65536))
    (receiver_shutdown publish).

(** [New] of the admin server. *)
Definition admin_New (configured : Duration) : Server :=
  mkServer (mkHTTPServer "admin" Unbound)
    (mkHttpServer (5 * Second) (10 * Second) (30 * Second) (60 * Second) None)
    (admin_shutdown configured).

(** [http.Server.Shutdown] waits for the requests in flight, of which the last needs [drain], or
    answers the error of its context. *)
Definition Shutdown (deadline drain : Duration) : option error :=
  if drain <? deadline then None else Some (ELeaf (LSentinel CtxDeadlineExceeded)).

(** How the serving of [Run] ends: by itself, or with its context while requests are in flight. *)
Inductive stopping : Set := OnItsOwn (err : option error) | OnCancel (drain : Duration).

Definition Server_Run (answer : option error) (how : stopping) (s : Server) : Server * option error :=
  let '(l, err) := Run answer (match how with
                               | OnItsOwn None => ServeClosed
                               | OnItsOwn (Some e) => ServeErr e
                               | OnCancel drain => CtxEnded (Shutdown (sv_shutdown s) drain)
                               end) (sv_listener s) in
  (mkServer l (sv_http s) (sv_shutdown s), err).

(** ** The admin routes *)

(** The bodies; [J] are the values [json.Marshal] renders. *)
Inductive body (J : Type) : Type :=
  | MetricsPage | StatusOK | Ready | NotReady (reason : error) | StatusDocument (j : J) | RenderError (e : error) | NoBody.
Arguments MetricsPage {J}. Arguments StatusOK {J}. Arguments Ready {J}. Arguments NotReady {J} _.
Arguments StatusDocument {J} _. Arguments RenderError {J} _. Arguments NoBody {J}.

Section Handler.
Context {J : Type}.

Record AdminOptions := mkAdminOptions {
  ao_Metrics : bool;                       (* a handler is given *)
  ao_Readiness : option (option error);    (* what the function answers *)
  ao_Status : option (result J) }.         (* the document, or the error of json.Marshal *)

(** The empty object. *)
Variable empty_object : J.

(** The method and path of a request; the mux answers 404 or 405 to the others, and HEAD like GET. *)
Definition Handler (o : AdminOptions) (method path : string) : Z * body J :=
  let get := String.eqb method "GET" || String.eqb method "HEAD" in
  let known := String.eqb path "/healthz" || String.eqb path "/readyz" || String.eqb path "/status"
               || (ao_Metrics o && String.eqb path "/metrics") in
  if negb known then (404, NoBody)
  else if negb get then (405, NoBody)
  else if String.eqb path "/metrics" then (200, MetricsPage)
  else if String.eqb path "/healthz" then (200, StatusOK)
  else if String.eqb path "/readyz" then
    match ao_Readiness o with
    | Some (Some e) => (503, NotReady e)
    | _ => (200, Ready)
    end
  else match ao_Status o with
       | None => (200, StatusDocument empty_object)
       | Some (Ok j) => (200, StatusDocument j)
       | Some (Err e) => (500, RenderError e)
       end.
End Handler.
Arguments AdminOptions : clear implicits.

(** ** Lemmas *)

(** [Run] leaves no listener bound, whatever happens after it was. *)
Lemma Run_releases answer how s s' r : Run answer how s = (s', r) → hs_Listener s' = Bound → False.
Proof.
  unfold Run, Listen. destruct (hs_Listener s) eqn:El.
  1: destruct answer as [e|]; [intros [= <- <-]; congruence|].
  all: destruct how as [|e|[e|]]; intros [= <- <-]; done.
Qed.

(** A listener can be bound once, and bound again only by another server. *)
Lemma Listen_idempotent a a' s s1 : Listen a s = (s1, None) → Listen a' s1 = (s1, None).
Proof.
  unfold Listen. destruct (hs_Listener s) eqn:E; intros H; [destruct a; [done|]|..]; injection H as <-; [done|by rewrite E..].
Qed.

(** Nothing of the receiver's timeouts overflows. *)
Lemma receiver_timeouts publish :
  0 < publish ≤ int64_max - 37 * Second →
  WriteTimeout publish = readTimeout + publish + 5 * Second ∧ receiver_shutdown publish = readTimeout + publish + 7 * Second.
Proof.
  intros H. unfold receiver_shutdown, WriteTimeout, readTimeout, Second in *.
  rewrite (wrap64_id (30 * _ + publish)) by (unfold in_int64, int64_min in *; lia).
  rewrite (wrap64_id (_ + 5 * _)) by (unfold in_int64, int64_min in *; lia).
  rewrite wrap64_id by (unfold in_int64, int64_min in *; lia). lia.
Qed.

(** A stop of the receiver is graceful whenever every request in flight ends within its own
    bounds, thirty seconds to be read and [publish_timeout] to be published: [Run] returns nil, and
    leaves no listener.  One that takes longer than the server allows any answer is cut off. *)
Lemma receiver_stops publish drain :
  0 < publish ≤ int64_max - 37 * Second →
  let '(s, err) := Server_Run None (OnCancel drain) (NewServer publish) in
  hs_Listener (sv_listener s) = Released ∧
  (drain ≤ readTimeout + publish → err = None) ∧
  (err = None → drain < readTimeout + publish + 7 * Second).
Proof.
  intros H. destruct (receiver_timeouts publish H) as [_ Hr].
  unfold Server_Run, Run, Shutdown. cbn [Listen NewServer sv_listener hs_Listener sv_shutdown with_listener].
  destruct (drain <? receiver_shutdown publish) eqn:E; to_prop; cbn; split_and!; try done; unfold Second in *; lia.
Qed.

(** The probes: alive whatever the state, ready exactly when the readiness function has no
    objection. *)
Lemma probes {J} (j : J) o :
  fst (Handler j o "GET" "/healthz") = 200 ∧
  (fst (Handler j o "GET" "/readyz") = 200 ↔ ∀ e, ao_Readiness o ≠ Some (Some e)) ∧
  (∀ e, ao_Readiness o = Some (Some e) → Handler j o "GET" "/readyz" = (503, NotReady e)).
Proof.
  unfold Handler. cbn. split_and!; [done| |].
  - destruct (ao_Readiness o) as [[e|]|]; cbn; split; intros H; try done. by destruct (H e).
  - intros e ->. done.
Qed.
