(* ===== verification/Lag.v ===== *)
(** * [internal/metrics/lag.go]: the lag poller

    The consumers with their failure streaks and the gauge of each, over a bus that may report
    its lag.  A sample is two steps, the call to the bus and what is done with its answer, so
    that registrations, removals and other polls may come between them. *)

From S2P Require Import Prelude.
From S2P Require Import Errors.
From S2P Require Import Bus.

Local Open Scope Z_scope.

Inductive level : Set := LWarn | LDebug | LInfo.

(** The consumers with whether their last sample failed, the gauges, and what was logged of each
    consumer, the last line first. *)
Record poller := mkPoller { p_consumers : gmap string bool; p_gauges : gmap string Z; p_log : list (string * level) }.

Definition new_poller : poller := mkPoller ∅ ∅ [].

(** [NewLagPoller] keeps the reporter of a bus that has one and declares it. *)
Definition NewLagPoller {S Sub} `{Bus S Sub} {R} (reporter : S → option R) (b : option S) : option R :=
  match b with
  | Some b => if ReportsLag (bus_capabilities b) then reporter b else None
  | None => None
  end.

Definition Register (p : poller) (consumer : string) : poller :=
  match p_consumers p !! consumer with
  | Some _ => p
  | None => mkPoller (<[consumer := false]> (p_consumers p)) (p_gauges p) (p_log p)
  end.

Definition Unregister (p : poller) (consumer : string) : poller :=
  mkPoller (delete consumer (p_consumers p)) (delete consumer (p_gauges p)) (p_log p).

(** [sample], once [Lag] has answered; [ended] tells whether the context is done. *)
Definition sample (p : poller) (consumer : string) (lag : result Z) (ended : bool) : poller :=
  match (p_consumers p !! consumer : option bool) with
  | None => p
  | Some wasFailing =>
      match lag with
      | Err _ =>
          if ended then p
          else mkPoller (<[consumer := true]> (p_consumers p)) (p_gauges p)
                 ((consumer, if wasFailing then LDebug else LWarn) :: p_log p)
      | Ok n =>
          mkPoller (<[consumer := false]> (p_consumers p)) (<[consumer := n]> (p_gauges p))
            (if wasFailing then (consumer, LInfo) :: p_log p else p_log p)
      end
  end.

(** [registered]: the names, sorted. *)
Definition name_le (a b : string) : Prop := String.leb a b = true.
#[export] Instance name_le_dec a b : Decision (name_le a b).
Proof. unfold name_le. apply _. Defined.
#[export] Instance name_le_total : Total name_le.
Proof. intros a b. apply String.leb_total. Qed.

Definition registered (p : poller) : list string := merge_sort name_le (elements (dom (p_consumers p) : gset string)).

(** [Poll] without concurrent changes: [lags] answers each call; [ended] is the context's state
    before each of them. *)
Fixpoint poll_loop (names : list string) (lags : string → result Z) (ended : string → bool) (p : poller) : poller :=
  match names with
  | [] => p
  | n :: names => if ended n then p else poll_loop names lags ended (sample p n (lags n) false)
  end.

Definition Poll (reporter : option (string → result Z)) (ended : string → bool) (p : poller) : poller :=
  match reporter with None => p | Some lags => poll_loop (registered p) lags ended p end.

(** What may happen to a poller, in any order. *)
Inductive op : Type := ORegister (c : string) | OUnregister (c : string) | OSampled (c : string) (lag : result Z) (ended : bool).

Definition apply_op (p : poller) (o : op) : poller :=
  match o with ORegister c => Register p c | OUnregister c => Unregister p c | OSampled c l e => sample p c l e end.

(** ** Lemmas *)

Lemma sample_gauges p c lag e : dom (p_gauges p) ⊆ dom (p_consumers p) → dom (p_gauges (sample p c lag e)) ⊆ dom (p_consumers (sample p c lag e)).
Proof.
  unfold sample. intros H. destruct (p_consumers p !! c) as [w|] eqn:E; [|done].
  destruct lag as [n|err]; [|destruct e]; cbn [p_consumers p_gauges]; rewrite ?dom_insert_L; set_solver.
Qed.

Lemma apply_op_gauges p o : dom (p_gauges p) ⊆ dom (p_consumers p) → dom (p_gauges (apply_op p o)) ⊆ dom (p_consumers (apply_op p o)).
Proof.
  intros H. destruct o as [c|c|c lag e]; cbn [apply_op]; [| |by apply sample_gauges].
  - unfold Register. destruct (p_consumers p !! c); [done|]. cbn [p_consumers p_gauges]. rewrite dom_insert_L. set_solver.
  - cbn [Unregister p_consumers p_gauges]. rewrite !dom_delete_L. set_solver.
Qed.

(** A sample touches the consumer it is of, and a failed one not even its gauge. *)
Lemma sample_other p c lag e c' :
  c' ≠ c → p_consumers (sample p c lag e) !! c' = p_consumers p !! c' ∧ p_gauges (sample p c lag e) !! c' = p_gauges p !! c'.
Proof.
  intros Hne. unfold sample. destruct (p_consumers p !! c); [|done]. destruct lag; [|destruct e]; cbn [p_consumers p_gauges];
    by rewrite ?lookup_insert_ne.
Qed.

Lemma sample_failed p c err e : p_gauges (sample p c (Err err) e) = p_gauges p.
Proof. unfold sample. destruct (p_consumers p !! c); [|done]. by destruct e. Qed.

Lemma poll_loop_other names lags ended p c :
  c ∉ names → p_gauges (poll_loop names lags ended p) !! c = p_gauges p !! c ∧ p_consumers (poll_loop names lags ended p) !! c = p_consumers p !! c.
Proof.
  revert p. induction names as [|n names IH]; intros p Hc; [done|]. apply not_elem_of_cons in Hc as [Hn Hc].
  cbn [poll_loop]. destruct (ended n); [done|]. destruct (IH (sample p n (lags n) false) Hc) as [-> ->].
  split; by apply sample_other.
Qed.

(** A poll that is not interrupted samples every consumer once. *)
Lemma poll_loop_all names lags p c :
  NoDup names → c ∈ names → is_Some (p_consumers p !! c) →
  p_gauges (poll_loop names lags (λ _, false) p) !! c = match lags c with Ok n => Some n | Err _ => p_gauges p !! c end.
Proof.
  revert p. induction names as [|n names IH]; intros p Hnd Hc Hs; [by apply not_elem_of_nil in Hc|].
  apply NoDup_cons in Hnd as [Hn Hnd]. cbn [poll_loop]. apply elem_of_cons in Hc as [<-|Hc].
  - rewrite (proj1 (poll_loop_other _ _ _ _ _ Hn)). unfold sample. destruct Hs as [w ->]. destruct (lags c); cbn [p_gauges]; [by rewrite lookup_insert_eq|done].
  - assert (c ≠ n) as Hne by (by intros ->). rewrite IH; [|done|done|]; destruct (sample_other p n (lags n) false c Hne) as [H1 H2].
    + by rewrite H2.
    + by rewrite H1.
Qed.

Lemma registered_spec p : NoDup (registered p) ∧ ∀ c, c ∈ registered p ↔ is_Some (p_consumers p !! c).
Proof.
  unfold registered. split.
  - rewrite (merge_sort_Permutation name_le). apply NoDup_elements.
  - intros c. rewrite (merge_sort_Permutation name_le), elem_of_elements. apply elem_of_dom.
Qed.

(** The lag gauges.  Whatever registrations, removals and late answers interleave, no gauge
    exists for a consumer that is not registered; and a poll that is not interrupted leaves on
    every registered consumer's gauge the lag the bus answered, or, where the bus failed, the
    value it had, without touching any other. *)
Lemma gauges_follow_consumers ops lags c :
  let p := foldl apply_op new_poller ops in
  let p' := Poll (Some lags) (λ _, false) p in
  (p_consumers p !! c = None → p_gauges p !! c = None ∧ p_gauges p' !! c = None) ∧
  (is_Some (p_consumers p !! c) →
     p_gauges p' !! c = match lags c with Ok n => Some n | Err _ => p_gauges p !! c end).
Proof.
  intros p p'. assert (dom (p_gauges p) ⊆ dom (p_consumers p)) as Hd.
  { subst p. assert (∀ q, dom (p_gauges q) ⊆ dom (p_consumers q) →
      dom (p_gauges (foldl apply_op q ops)) ⊆ dom (p_consumers (foldl apply_op q ops))) as H; [|by apply H].
    induction ops as [|o ops IH]; intros q Hq; [done|]. cbn [foldl]. by apply IH, apply_op_gauges. }
  destruct (registered_spec p) as [Hnd Hr]. split.
  - intros Hc. assert (p_gauges p !! c = None) as Hg.
    { apply not_elem_of_dom. intros H%Hd%elem_of_dom. rewrite Hc in H. by destruct H. }
    split; [done|]. assert (c ∉ registered p) as Hn by (rewrite Hr, Hc; by intros []).
    unfold p', Poll. by rewrite (proj1 (poll_loop_other _ _ _ _ _ Hn)).
  - intros Hc. unfold p', Poll. by apply poll_loop_all; [|apply Hr|].
Qed.

(** A failing streak is one warning: the first failure warns, the next ones are at debug level
    until a sample succeeds, which is logged once. *)
Lemma sample_log p c lag :
  p_log (sample p c lag false) =
    match p_consumers p !! c, lag with
    | Some false, Err _ => (c, LWarn) :: p_log p
    | Some true, Err _ => (c, LDebug) :: p_log p
    | Some true, Ok _ => (c, LInfo) :: p_log p
    | _, _ => p_log p
    end.
Proof. unfold sample. by destruct (p_consumers p !! c) as [[]|], lag. Qed.

Lemma gauges_follow_consumers_witness :
  p_gauges (Poll (Some (λ c, if String.eqb c "a" then Ok 3 else Err (errorf "broker"))) (λ _, false)
    (foldl apply_op new_poller [ORegister "a"; ORegister "b"; OSampled "b" (Ok 7) false; OUnregister "c"])) !! "b" = Some 7.
Proof.
  rewrite (proj2 (gauges_follow_consumers [ORegister "a"; ORegister "b"; OSampled "b" (Ok 7) false; OUnregister "c"]
    (λ c, if String.eqb c "a" then Ok 3 else Err (errorf "broker")) "b")); [by vm_compute|by eexists].
Defined.
