(* ===== verification/Fixtures.v ===== *)
(** * [internal/event/fixtures.go]: the embedded sample payloads

    [LoadFixture] reads [testdata/<name>.json] from the files that are compiled in, [Fixtures]
    lists their names.  The files are data: an argument, by their names under [testdata]. *)

From S2P Require Import Prelude.
From S2P Require Import Errors.
From S2P Require Import GoText.
From S2P Require Yaml.
From S2P Require Import Config.
From S2P Require Import Lag.

Section Fixtures.
Variable embedded : gmap string string.

(** [embed.FS.ReadFile]: [testdata] holds files only, so a name is found as it is or not at all. *)
Definition ReadFile (p : string) : result string :=
  match strip_prefix "testdata/" p ≫= (embedded !!.) with
  | Some data => Ok data
  | None => Err (EWrap "open" (errorf "file does not exist"))
  end.

(** [path.Join] of two elements that are not empty. *)
Definition path_Join (a b : string) : string := Clean (a +:+ "/" +:+ b).

(** An error is what [t.Fatalf] is called with. *)
Definition LoadFixture (name : string) : result string :=
  let name := if negb (HasSuffix name ".json") then name +:+ ".json" else name in
  match ReadFile (path_Join "testdata" name) with
  | Ok data => Ok data
  | Err e => Err (EWrap "event fixture" e)
  end.

(** The directory exists, or the program would not have compiled. *)
Definition Fixtures : list string :=
  merge_sort name_le ((λ file, TrimSuffix file ".json") <$> elements (dom embedded : gset string)).

(** ** Lemmas *)

(** The pattern [testdata/*.json] of the directive. *)
Definition matched : Prop :=
  ∀ file, is_Some (embedded !! file) → HasSuffix file ".json" = true ∧ contains_char "/" file = false.

Lemma suffix_app s p : TrimSuffix (s +:+ p) p = s.
Proof.
  pose proof (strip_suffix_none_app p s) as H. unfold HasSuffix, TrimSuffix in *.
  destruct (strip_suffix p (s +:+ p)) as [r|] eqn:E; [|done]. apply strip_suffix_Some in E.
  cbn. symmetry. revert r E. induction s as [|c s IH]; intros [|d r] E; rewrite ?sapp_cons, ?sapp_nil_l in E.
  - done.
  - exfalso. apply (f_equal String.length) in E. cbn [String.length] in E. rewrite string_length_app in E. cbn [String.length] in E. lia.
  - exfalso. apply (f_equal String.length) in E. cbn [String.length] in E. rewrite string_length_app in E. cbn [String.length] in E. lia.
  - injection E as -> E. f_equal. by apply IH.
Qed.

Lemma trim_suffix s p : HasSuffix s p = true → s = TrimSuffix s p +:+ p.
Proof.
  unfold HasSuffix, TrimSuffix. destruct (strip_suffix p s) as [r|] eqn:E; [|done]. intros _. by apply strip_suffix_Some.
Qed.

Lemma Split_one s c : contains_char c s = false → Split s c = [s].
Proof.
  induction s as [|d s IH]; [done|]. cbn [contains_char Split]. intros [H1 H2]%orb_false_iff.
  rewrite bool_decide_false by (intros ->; by rewrite bool_decide_true in H1). by rewrite IH.
Qed.

(** A plain file name stays what it is. *)
Lemma join_plain s :
  contains_char "/" s = false → s ≠ "" → s ≠ "." → s ≠ ".." → path_Join "testdata" s = "testdata/" +:+ s.
Proof.
  intros Hc H1 H2 H3. unfold path_Join, Clean. rewrite Split_Cut, (Yaml.Cut_app "testdata" "/"%char s eq_refl : Cut ("testdata" +:+ "/" +:+ s) "/"%char = _) by done.
  rewrite Split_one by done. assert (clean_elem false ["testdata"] s = [s; "testdata"]) as E.
  { unfold clean_elem. by rewrite !bool_decide_false. }
  cbn [foldl]. change (HasPrefix ("testdata" +:+ "/" +:+ s) "/") with false.
  change (clean_elem false [] "testdata") with ["testdata"]. by rewrite E.
Qed.

Lemma load_file file data :
  matched → embedded !! file = Some data → LoadFixture file = Ok data.
Proof.
  intros Hm He. destruct (Hm file ltac:(by eexists)) as [Hs Hc]. unfold LoadFixture. rewrite Hs. cbn [negb].
  rewrite join_plain; [|done|by intros ->..]. unfold ReadFile. rewrite strip_prefix_app. cbn. by rewrite He.
Qed.

(** The suffix is optional. *)
Lemma load_short name : HasSuffix name ".json" = false → LoadFixture name = LoadFixture (name +:+ ".json").
Proof. intros Hn. unfold LoadFixture. by rewrite Hn, strip_suffix_none_app. Qed.

Lemma Fixtures_elem name : matched → name ∈ Fixtures ↔ is_Some (embedded !! (name +:+ ".json")).
Proof.
  intros Hm. unfold Fixtures. rewrite (merge_sort_Permutation name_le), list_elem_of_fmap. split.
  - intros (file & -> & H). rewrite elem_of_elements, elem_of_dom in H. destruct (Hm file H) as [Hs _].
    by rewrite <- (trim_suffix file ".json").
  - intros H. exists (name +:+ ".json"). rewrite suffix_app. split; [done|]. by rewrite elem_of_elements, elem_of_dom.
Qed.

(** Every name that is listed can be loaded, and the names are those of the files, each once and
    sorted: a test that goes through them covers every recorded payload. *)
Lemma Fixtures_cover :
  matched →
  NoDup Fixtures ∧ Sorted name_le Fixtures ∧
  (∀ file data, embedded !! file = Some data → ∃ name, name ∈ Fixtures ∧ file = name +:+ ".json") ∧
  (∀ name, name ∈ Fixtures → HasSuffix name ".json" = false →
     ∃ data, embedded !! (name +:+ ".json") = Some data ∧ LoadFixture name = Ok data).
Proof.
  intros Hm. split_and!.
  - unfold Fixtures. rewrite (merge_sort_Permutation name_le). apply NoDup_fmap_2_strong; [|apply NoDup_elements].
    intros x y Hx Hy E. rewrite elem_of_elements, elem_of_dom in Hx, Hy. destruct (Hm x Hx) as [Sx _], (Hm y Hy) as [Sy _].
    rewrite (trim_suffix x ".json"), (trim_suffix y ".json") by done. by rewrite E.
  - apply (Sorted_merge_sort name_le).
  - intros file data H. exists (TrimSuffix file ".json"). destruct (Hm file ltac:(by eexists)) as [Hs _].
    split; [|by apply trim_suffix]. apply Fixtures_elem; [done|]. rewrite <- trim_suffix by done. by eexists.
  - intros name [data H]%Fixtures_elem Hn; [|done]. exists data. split; [done|]. rewrite load_short by done. by apply load_file.
Qed.
End Fixtures.

(** A name that ends in the suffix after it was cut is not found again. *)
Definition ex_files : gmap string string := {["ping.json" := "{}"; "a.json.json" := "[]"]}.

Example Fixtures_ex :
  Fixtures ex_files = ["a.json"; "ping"] ∧ LoadFixture ex_files "ping" = Ok "{}" ∧ LoadFixture ex_files "./x/../ping.json" = Ok "{}" ∧
  LoadFixture ex_files "a.json" = Err (EWrap "event fixture" (EWrap "open" (errorf "file does not exist"))).
Proof. vm_compute. done. Qed.
