(* ===== verification/Nats.v ===== *)
(** * [internal/bus/natsjs]: the NATS JetStream bus driver

    config.go: the checks of the block and the redelivery delays.  stream.go: the stream of a
    topic.  driver.go: [Publish], [Subscribe], [Lag] and [Close] over a broker.  subscriber.go:
    what a JetStream message becomes for its handler, and what the handler's answer becomes
    for the broker.  The NATS client and server are third party: each of their calls is a
    parameter over a broker state [W]. *)

From S2P Require Import Prelude.
From S2P Require Import Errors.
From S2P Require Import GoText.
From S2P Require Import GoNum.
From S2P Require Import GoTime.
From S2P Require Import Event.
From S2P Require Import Bus.
From S2P Require Import Recovery.
From S2P Require Import Config.

Local Open Scope Z_scope.

(** ** config.go *)

Definition AckWaitMargin : Duration := 10 * Second.
Definition minWindow : Duration := 100 * Millisecond.

Record NatsConfig := mkNatsConfig {
  nj_Embedded : bool; nj_StoreDir : string; nj_URL : string; nj_Credentials : string; nj_Stream : string;
  nj_Retention : Duration; nj_DedupWindow : Duration; nj_AckWait : Duration;
  nj_NakDelayMin : Duration; nj_NakDelayMax : Duration }.

Definition DefaultConfig : NatsConfig :=
  mkNatsConfig true "./data/nats" "" "" "ANTWATCHER" (168 * Hour) (2 * Hour) (90 * Second) (5 * Second) (5 * Minute).

(** The character set of [streamNamePattern] is that of consumer names. *)
Definition stream_char : ascii → bool := consumer_char.

Definition nats_problems (c : NatsConfig) : list error :=
  ((if nj_Embedded c then problem (bool_decide (nj_StoreDir c = "")) "store_dir is required when embedded is true"
    else problem (bool_decide (nj_URL c = "")) "url is required when embedded is false")
   ++ (if bool_decide (nj_Stream c = "") then [errorf "stream is required"]
       else problem (negb (string_forall stream_char (nj_Stream c))) "stream must match [A-Za-z0-9_-]+")
   ++ problem (nj_Retention c <? minWindow) "retention must be >= 100ms"
   ++ (if nj_DedupWindow c <? 0 then [errorf "dedup_window must be >= 0"]
       else if (0 <? nj_DedupWindow c) && (nj_DedupWindow c <? minWindow) then [errorf "dedup_window must be 0 or >= 100ms"]
       else problem (nj_Retention c <? nj_DedupWindow c) "dedup_window must not exceed retention")
   ++ problem (nj_AckWait c <=? 0) "ack_wait must be > 0"
   ++ problem (nj_NakDelayMin c <=? 0) "nak_delay_min must be > 0"
   ++ problem (nj_NakDelayMax c <? nj_NakDelayMin c) "nak_delay_max must be >= nak_delay_min")%list.

Definition Validate (c : NatsConfig) : option error := join_problems (nats_problems c).

(** The sum of two durations wraps. *)
Definition ack_floor (router : Router) : Duration := wrap64 (cr_ProcessTimeout router + AckWaitMargin).

Definition ValidateWith (c : NatsConfig) (router : Router) : option error :=
  if nj_AckWait c <=? ack_floor router
  then errors_join [Validate c; Some (errorf "ack_wait must exceed router.process_timeout + 10s")]
  else Validate c.

(** [validateBroker] *)
Definition validateBroker (c : NatsConfig) : option error :=
  Validate (mkNatsConfig true "-" (nj_URL c) (nj_Credentials c) (nj_Stream c) (nj_Retention c) (nj_DedupWindow c)
              (nj_AckWait c) (nj_NakDelayMin c) (nj_NakDelayMax c)).

(** [minDelay << shift] on an [int64]. *)
Definition shl64 (x shift : Z) : Z := wrap64 (Z.shiftl x shift).

Definition NakDelay (minDelay maxDelay : Duration) (delivered : Z) : Duration :=
  if delivered <=? 1 then minDelay
  else
    let shift := delivered - 1 in
    if (62 <=? shift) || (maxDelay <? shl64 minDelay shift) || (shl64 minDelay shift <? minDelay) then maxDelay
    else shl64 minDelay shift.

(** ** stream.go *)

(** The fields of a [jetstream.StreamConfig] that depend on the configuration; the others are
    constants of [StreamConfig]. *)
Record JSStream := mkJSStream {
  st_Name : string; st_Subjects : list string; st_MaxAge : Duration; st_Duplicates : Duration }.

Definition StreamConfig (c : NatsConfig) (topic : string) : JSStream :=
  mkJSStream (nj_Stream c) [topic] (nj_Retention c) (nj_DedupWindow c).

(** ** driver.go and subscriber.go *)

Definition reservedHeaderPrefix : string := "Nats-".
Definition MsgIDHeader : string := "Nats-Msg-Id".

(** A message on its way to the broker, and one handed out by it. *)
Record NatsMsg := mkNatsMsg { nm_Subject : string; nm_Header : Header; nm_Data : string }.

Definition reserved_key (k : string) : bool := bool_decide (k = "") || HasPrefix k reservedHeaderPrefix.

(** The loop over the metadata, in the order the map yields it. *)
Fixpoint set_headers (h : Header) (md : list (string * string)) : result Header :=
  match md with
  | [] => Ok h
  | (k, v) :: md =>
      if reserved_key k then Err (errorf "natsjs: metadata key is reserved for NATS headers")
      else set_headers (<[k := [v]]> h) md
  end.

(** The message [Publish] builds. *)
Definition build_msg (topic : string) (msg : Message) (md : list (string * string)) : result NatsMsg :=
  match set_headers ∅ md with
  | Err e => Err e
  | Ok h => Ok (mkNatsMsg topic (<[MsgIDHeader := [m_UUID msg]]> h) (m_Payload msg))
  end.

(** [Header.Get]: the first value. *)
Definition header_first (h : Header) (k : string) : string :=
  match h !! k with Some (v :: _) => v | _ => "" end.

Definition toMessage (m : NatsMsg) : Message :=
  mkMessage (header_first (nm_Header m) MsgIDHeader)
    (Some (omap (λ v : list string, head v) (filter (λ kv : string * list string, HasPrefix kv.1 reservedHeaderPrefix = false) (nm_Header m))))
    (nm_Data m).

(** A [jetstream.ConsumerConfig]. *)
Inductive DeliverPolicy : Set := DeliverAllPolicy | DeliverNewPolicy | DeliverOther.
Record JSConsumer := mkJSConsumer {
  jc_Durable : string; jc_DeliverPolicy : DeliverPolicy; jc_OptStart : option Z * option Time; jc_AckWait : Duration;
  jc_MaxDeliver : Z }.

Definition deliver_policy (start : StartPosition) : option DeliverPolicy :=
  if start =? Earliest then Some DeliverAllPolicy else if start =? Now then Some DeliverNewPolicy else None.

Section Driver.
(** The broker behind the connection. *)
Context {W : Type}.

(** [js.Stream] with the subjects of the stream, and [js.CreateOrUpdateStream]. *)
Variable js_Stream : string → W → result (list string) * W.
Variable js_CreateOrUpdateStream : JSStream → W → option error * W.
(** [js.PublishMsg]: whether the broker collapsed a duplicate. *)
Variable js_PublishMsg : NatsMsg → W → result bool * W.
(** The consumers of the stream named: lookup, update, creation; and the counts of pending messages. *)
Variable js_Consumer : string → string → W → result JSConsumer * W.
Variable js_UpdateConsumer : string → JSConsumer → W → option error * W.
Variable js_CreateConsumer : string → JSConsumer → W → option error * W.
Variable js_Pending : string → string → W → result (Z * Z) * W.
(** The order in which ranging over metadata yields it. *)
Variable ranged : Metadata → list (string * string).

Definition EnsureStream (c : NatsConfig) (topic : string) (w : W) : option error * W :=
  let create w :=
    match js_CreateOrUpdateStream (StreamConfig c topic) w with
    | (Some e, w) => (Some (EWrap "natsjs: ensure stream" e), w)
    | (None, w) => (None, w)
    end in
  match js_Stream (nj_Stream c) w with
  | (Ok subjects, w) =>
      if bool_decide (subjects = [topic]) then create w
      else (Some (errorf "natsjs: stream already carries other subjects"), w)
  | (Err e, w) => if errors_is e ErrStreamNotFound then create w else (Some (EWrap "natsjs: look up stream" e), w)
  end.

(** The bus: its configuration and topic, [closed], and the broker. *)
Record NatsBus := mkNatsBus { nb_cfg : NatsConfig; nb_topic : string; nb_closed : bool; nb_broker : W }.

Definition set_broker (b : NatsBus) (w : W) : NatsBus := mkNatsBus (nb_cfg b) (nb_topic b) (nb_closed b) w.

Definition Capabilities (b : NatsBus) : Bus.Capabilities :=
  mkCapabilities true true true true (0 <? nj_DedupWindow (nb_cfg b)) true RetentionTime.

(** [ctx] is the context's error on entry, [ctx_after] when the broker's call has failed. *)
Definition Publish (ctx_after : option error) (b : NatsBus) (ctx : option error) (msg : option Message)
    : NatsBus * option error :=
  match msg with
  | None => (b, Some (errorf "natsjs: nil message"))
  | Some msg =>
      if bool_decide (m_UUID msg = "") then (b, Some (errorf "natsjs: message UUID is required (it is the dedup key)"))
      else match ctx with
           | Some e => (b, Some e)
           | None =>
               if nb_closed b then (b, Some (esent ErrClosed))
               else match build_msg (nb_topic b) msg (ranged (default ∅ (m_Metadata msg))) with
                    | Err e => (b, Some e)
                    | Ok m =>
                        match js_PublishMsg m (nb_broker b) with
                        | (Ok _, w) => (set_broker b w, None)
                        | (Err e, w) =>
                            (set_broker b w, Some (EWrap "natsjs: publish" (match ctx_after with Some c => c | None => e end)))
                        end
                    end
           end
  end.

(** The consumer asked for. *)
Definition want_consumer (c : NatsConfig) (consumer : string) (policy : DeliverPolicy) : JSConsumer :=
  mkJSConsumer consumer policy (None, None) (nj_AckWait c) (-1).

(** The consumer of an existing one: only the ack wait and the delivery limit are updated. *)
Definition resume (c : NatsConfig) (consumer : string) (info : JSConsumer) : JSConsumer :=
  mkJSConsumer consumer (jc_DeliverPolicy info) (jc_OptStart info) (nj_AckWait c) (-1).

Definition consumer_for (c : NatsConfig) (consumer : string) (policy : DeliverPolicy) (w : W) : result JSConsumer * W :=
  match js_Consumer (nj_Stream c) consumer w with
  | (Ok info, w) =>
      let want := resume c consumer info in
      if negb (jc_AckWait info =? jc_AckWait want) || negb (jc_MaxDeliver info =? jc_MaxDeliver want) then
        match js_UpdateConsumer (nj_Stream c) want w with
        | (Some e, w) => (Err (EWrap "natsjs: update consumer" e), w)
        | (None, w) => (Ok want, w)
        end
      else (Ok info, w)
  | (Err e, w) =>
      if errors_is e ErrConsumerNotFound then
        let want := want_consumer c consumer policy in
        match js_CreateConsumer (nj_Stream c) want w with
        | (Some e, w) => (Err (EWrap "natsjs: create consumer" e), w)
        | (None, w) => (Ok want, w)
        end
      else (Err (EWrap "natsjs: consumer" e), w)
  end.

(** [Subscribe]; [closed_after] is [closed] when the subscriber is registered. *)
Definition Subscribe (closed_after : bool) (b : NatsBus) (ctx : option error) (consumer : string) (start : StartPosition)
    : result JSConsumer * NatsBus :=
  match ValidateConsumerName consumer with
  | Some e => (Err (EWrap "natsjs" e), b)
  | None =>
      match deliver_policy start with
      | None => (Err (errorf "natsjs: invalid start position"), b)
      | Some policy =>
          match ctx with
          | Some e => (Err e, b)
          | None =>
              if nb_closed b then (Err (esent ErrClosed), b)
              else match js_Stream (nj_Stream (nb_cfg b)) (nb_broker b) with
                   | (Err e, w) => (Err (EWrap "natsjs: stream" e), set_broker b w)
                   | (Ok _, w) =>
                       match consumer_for (nb_cfg b) consumer policy w with
                       | (Err e, w) => (Err e, set_broker b w)
                       | (Ok c, w) => (if closed_after then Err (esent ErrClosed) else Ok c, set_broker b w)
                       end
                   end
          end
      end
  end.

Definition Lag (b : NatsBus) (consumer : string) : result Z * NatsBus :=
  if nb_closed b then (Err (esent ErrClosed), b)
  else match js_Pending (nj_Stream (nb_cfg b)) consumer (nb_broker b) with
       | (Err e, w) => (Err (EWrap "natsjs: consumer" e), set_broker b w)
       | (Ok (pending, ack_pending), w) => (Ok (wrap64 (wrap64 pending + ack_pending)), set_broker b w)
       end.

(** Subscribers never fail to close. *)
Definition Close (b : NatsBus) : NatsBus * option error :=
  if nb_closed b then (b, None) else (mkNatsBus (nb_cfg b) (nb_topic b) true (nb_broker b), None).

(** The subscription of a handler to a topic. *)
Definition subscriber_Subscribe (bus_topic topic : string) (closed : bool) : option error :=
  if negb (String.eqb topic bus_topic) then Some (EWrap "natsjs" (esent ErrWrongTopic))
  else if closed then Some (errorf "natsjs: consumer is closed") else None.

(** ** [await]: the handler's answer, and what the broker is told *)

Inductive answer : Set := Acked | Nacked | AckWaitOver.
Inductive broker_call : Set := DoubleAck | NakWithDelay (d : Duration) | NoCall.

(** [delivered] is the delivery count, when the message's metadata can be read. *)
Definition nakDelay (c : NatsConfig) (delivered : option Z) : Duration :=
  match delivered with None => nj_NakDelayMin c | Some n => NakDelay (nj_NakDelayMin c) (nj_NakDelayMax c) n end.

Definition await (c : NatsConfig) (delivered : option Z) (a : answer) : broker_call :=
  match a with
  | Acked => DoubleAck
  | Nacked => NakWithDelay (nakDelay c delivered)
  | AckWaitOver => NoCall
  end.
End Driver.
Arguments NatsBus : clear implicits.
Arguments mkNatsBus {W} _ _ _ _.

(** ** Redelivery delays *)

Lemma shl64_exact x s : 0 ≤ s → 0 ≤ x * 2 ^ s ≤ int64_max → shl64 x s = x * 2 ^ s.
Proof.
  intros Hs Hx. unfold shl64. rewrite Z.shiftl_mul_pow2 by done. apply wrap64_id.
  unfold in_int64, int64_min in *. lia.
Qed.

(** Where the shift overflows, what is left is a multiple of the power of two that was shifted in. *)
Lemma wrap64_multiple x s : 0 ≤ s ≤ 62 → ∃ q, wrap64 (x * 2 ^ s) = q * 2 ^ s.
Proof.
  intros Hs. unfold wrap64, two64.
  assert (18446744073709551616 = 2 ^ (64 - s) * 2 ^ s) as H64.
  { rewrite <- Z.pow_add_r by lia. by replace (64 - s + s) with 64 by lia. }
  assert (9223372036854775808 = 2 ^ (63 - s) * 2 ^ s) as H63.
  { rewrite <- Z.pow_add_r by lia. by replace (63 - s + s) with 63 by lia. }
  rewrite H64, H63, <- Z.mul_add_distr_r, Z.mul_mod_distr_r.
  - exists ((x + 2 ^ (63 - s)) mod 2 ^ (64 - s) - 2 ^ (63 - s)). lia.
  - apply Z.pow_nonzero; lia.
  - apply Z.pow_nonzero; lia.
Qed.

(** The delay stays between the two configured bounds, whatever the delivery count, although the
    shift may overflow. *)
Lemma NakDelay_range minDelay maxDelay delivered :
  0 < minDelay ≤ maxDelay → minDelay ≤ NakDelay minDelay maxDelay delivered ≤ maxDelay.
Proof.
  intros H. unfold NakDelay. destruct (delivered <=? 1); [lia|]. cbv zeta.
  destruct ((62 <=? _) || _ || _) eqn:E; [lia|]. apply orb_false_iff in E as [[_ E1]%orb_false_iff E2]. lia.
Qed.

(** Without an overflow the delay is the exact doubling, capped. *)
Lemma NakDelay_fits minDelay maxDelay delivered :
  0 < minDelay ≤ maxDelay → 1 ≤ delivered ≤ 62 → minDelay * 2 ^ (delivered - 1) ≤ int64_max →
  NakDelay minDelay maxDelay delivered = Z.min (minDelay * 2 ^ (delivered - 1)) maxDelay.
Proof.
  intros H Hd Hfit. unfold NakDelay. destruct (delivered <=? 1) eqn:E1.
  { replace delivered with 1 by lia. change (2 ^ (1 - 1)) with 1. lia. }
  cbv zeta. rewrite (proj2 (Z.leb_gt 62 _)) by lia. cbn [orb].
  assert (0 < 2 ^ (delivered - 1)) by (apply Z.pow_pos_nonneg; lia).
  rewrite shl64_exact by lia. assert (minDelay ≤ minDelay * 2 ^ (delivered - 1)) by nia.
  destruct (maxDelay <? minDelay * 2 ^ (delivered - 1)) eqn:E; cbn [orb]; [lia|].
  rewrite (proj2 (Z.ltb_ge _ _)) by lia. lia.
Qed.

(** The odd part [m] of the smallest delay and the largest one have a product that fits: no
    overflowed shift lands between the bounds. *)
Lemma NakDelay_odd k m maxDelay delivered :
  0 ≤ k → 0 < m → 2 ^ k * m ≤ maxDelay → maxDelay < 2 ^ 62 → m * maxDelay < 2 ^ 63 → 1 ≤ delivered →
  NakDelay (2 ^ k * m) maxDelay delivered = Z.min (2 ^ k * m * 2 ^ (delivered - 1)) maxDelay.
Proof.
  intros Hk Hm Hle Hmax Hfit Hd. unfold NakDelay.
  assert (0 < 2 ^ k) as Hpk by (apply Z.pow_pos_nonneg; lia).
  assert (0 < 2 ^ k * m) as Hpos by nia. set (x := 2 ^ k * m) in *.
  destruct (delivered <=? 1) eqn:E1.
  { replace delivered with 1 by lia. change (2 ^ (1 - 1)) with 1. lia. }
  cbv zeta. set (s := delivered - 1). destruct (62 <=? s) eqn:E62; cbn [orb].
  { assert (2 ^ 62 ≤ 2 ^ s) by (apply Z.pow_le_mono_r; lia). nia. }
  assert (0 < 2 ^ s) as Hs by (apply Z.pow_pos_nonneg; lia).
  destruct (decide (x * 2 ^ s ≤ int64_max)) as [Hin|Hout].
  { rewrite shl64_exact by lia. assert (x ≤ x * 2 ^ s) by nia.
    destruct (maxDelay <? x * 2 ^ s) eqn:E; cbn [orb]; [lia|]. rewrite (proj2 (Z.ltb_ge _ _)) by lia. lia. }
  unfold int64_max in Hout. replace (Z.min _ _) with maxDelay by lia.
  destruct (maxDelay <? shl64 x s) eqn:E2; [done|]. destruct (shl64 x s <? x) eqn:E3; [done|]. exfalso.
  assert (shl64 x s = wrap64 (m * 2 ^ (k + s))) as Hw.
  { unfold shl64. rewrite Z.shiftl_mul_pow2 by lia. f_equal. unfold x. rewrite Z.pow_add_r by lia. lia. }
  set (e := Z.min (k + s) 62). destruct (wrap64_multiple (m * 2 ^ (k + s - e)) e ltac:(lia)) as [q Hq].
  rewrite <- Z.mul_assoc, <- Z.pow_add_r in Hq by lia. replace (k + s - e + e) with (k + s) in Hq by lia.
  rewrite <- Hw in Hq. assert (0 < 2 ^ e) by (apply Z.pow_pos_nonneg; lia).
  apply Z.ltb_ge in E2, E3. assert (2 ^ e ≤ maxDelay).
  { assert (0 < q) by (apply (Z.mul_pos_cancel_r _ (2 ^ e)); lia).
    assert (1 * 2 ^ e ≤ q * 2 ^ e) by (apply Z.mul_le_mono_nonneg_r; lia). lia. }
  destruct (decide (k + s < 62)) as [Hks|Hks].
  - replace e with (k + s) in * by lia.
    assert (x * 2 ^ s = m * 2 ^ (k + s)) as Hx by (unfold x; rewrite Z.pow_add_r by lia; lia).
    assert (m * 2 ^ (k + s) ≤ m * maxDelay) by (apply Z.mul_le_mono_nonneg_l; lia). lia.
  - replace e with 62 in * by lia. lia.
Qed.

(** C31: for any delays the checks of the configuration accept, the redelivery delay stays between
    the smallest and the largest one, whatever the shift on int64 does; it is exactly the smallest
    doubled per extra delivery and capped as long as that product fits an int64, and the largest from
    the 63rd delivery on; and it is that at every delivery when the odd part [m] of the smallest
    delay times the largest stays below 2^63 and the largest below 2^62, as with the defaults.
    Otherwise an overflowed shift may land between the bounds: [NakDelay_overflow]. *)
Theorem NakDelay_doubles minDelay maxDelay delivered :
  0 < minDelay ≤ maxDelay → 1 ≤ delivered →
  let exact := Z.min (minDelay * 2 ^ (delivered - 1)) maxDelay in
  minDelay ≤ NakDelay minDelay maxDelay delivered ≤ maxDelay ∧
  (delivered ≤ 62 → minDelay * 2 ^ (delivered - 1) ≤ int64_max → NakDelay minDelay maxDelay delivered = exact) ∧
  (62 < delivered → NakDelay minDelay maxDelay delivered = maxDelay) ∧
  (∀ k m, 0 ≤ k → 0 < m → minDelay = 2 ^ k * m → maxDelay < 2 ^ 62 → m * maxDelay < 2 ^ 63 →
     NakDelay minDelay maxDelay delivered = exact).
Proof.
  intros H Hd exact. split; [by apply NakDelay_range|]. split; [intros; by apply NakDelay_fits|]. split.
  - intros Hl. unfold NakDelay. rewrite (proj2 (Z.leb_gt delivered 1)) by lia. cbv zeta. by rewrite (proj2 (Z.leb_le 62 _)) by lia.
  - intros k m Hk Hm E Hmax Hfit. subst exact minDelay. apply NakDelay_odd; lia.
Qed.

(** Outside of that condition an overflowed shift can land between the bounds: here the
    thirty-fifth delivery is redelivered after seventeen seconds, not after the largest delay. *)
Lemma NakDelay_overflow :
  NakDelay 8589934593 (5 * Minute) 34 = 5 * Minute ∧ NakDelay 8589934593 (5 * Minute) 35 = 17179869184.
Proof. split; reflexivity. Qed.

(** ** Headers *)

Lemma set_headers_reserved h l :
  Exists (λ kv, reserved_key kv.1 = true) l → ∃ e, set_headers h l = Err e.
Proof.
  intros H. revert h. induction l as [|[k v] l IH]; intros h; [by apply Exists_nil in H|].
  cbn [set_headers]. destruct (reserved_key k) eqn:E; [by eexists|]. apply IH.
  apply Exists_cons in H as [H|H]; [cbn [fst] in H; by rewrite E in H|done].
Qed.

Lemma set_headers_ok h l :
  Forall (λ kv, reserved_key kv.1 = false) l → NoDup l.*1 →
  set_headers h l = Ok (((λ v, [v]) <$> list_to_map (M := gmap string string) l) ∪ h).
Proof.
  intros Hr. revert h. induction Hr as [|[k v] l Hk _ IH]; intros h Hnd; cbn [set_headers].
  - cbn [list_to_map foldr]. by rewrite fmap_empty, (left_id_L ∅ (∪)).
  - cbn [fmap list_fmap fst] in Hnd. apply NoDup_cons in Hnd as [Hnk Hnd]. simpl in Hk.
    rewrite Hk, IH by done. f_equal. cbn [list_to_map foldr uncurry fst snd].
    rewrite fmap_insert. apply map_eq. intros j. rewrite !lookup_union.
    destruct (decide (k = j)) as [->|].
    + rewrite !lookup_insert_eq, lookup_fmap, (not_elem_of_list_to_map_1 _ _ Hnk).
      by destruct (h !! j).
    + by rewrite !lookup_insert_ne.
Qed.

Lemma build_msg_ok topic msg md l :
  l ≡ₚ map_to_list md → map_Forall (λ k _, reserved_key k = false) md →
  build_msg topic msg l = Ok (mkNatsMsg topic (<[MsgIDHeader := [m_UUID msg]]> ((λ v, [v]) <$> md)) (m_Payload msg)).
Proof.
  intros Hp Hr. assert (NoDup l.*1) as Hnd by (rewrite Hp; apply NoDup_fst_map_to_list).
  apply map_Forall_to_list in Hr. assert (Forall (λ kv, reserved_key kv.1 = false) l) as Hl.
  { rewrite Hp. eapply Forall_impl; [exact Hr|]. by intros []. }
  unfold build_msg. rewrite (set_headers_ok _ _ Hl Hnd).
  rewrite (right_id_L ∅ (∪)). replace (list_to_map l) with md; [done|].
  apply list_to_map_flip. by rewrite Hp.
Qed.

Lemma toMessage_headers topic uuid md payload :
  map_Forall (λ k _, reserved_key k = false) md →
  toMessage (mkNatsMsg topic (<[MsgIDHeader := [uuid]]> ((λ v, [v]) <$> md)) payload) = mkMessage uuid (Some md) payload.
Proof.
  intros Hr. unfold toMessage, header_first. cbn [nm_Header nm_Data]. rewrite lookup_insert_eq. do 2 f_equal.
  apply map_eq. intros j. rewrite lookup_omap, map_lookup_filter. destruct (decide (j = MsgIDHeader)) as [->|Hj].
  - rewrite lookup_insert_eq. cbn [mbind option_bind].
    destruct (md !! MsgIDHeader) eqn:E; [|done]. apply Hr in E. by vm_compute in E.
  - rewrite lookup_insert_ne, lookup_fmap by done. destruct (md !! j) as [v|] eqn:E; [|done].
    cbn [fmap option_fmap option_map mbind option_bind]. apply Hr in E.
    unfold reserved_key in E. apply orb_false_iff in E as [_ E]. unfold guard. cbn [fst].
    by destruct (decide _).
Qed.

(** What is published reaches the handlers unchanged: the message built from one whose
    metadata keys are not reserved, in whatever order the map is ranged over, is read back with
    the same UUID, metadata and payload; and a message with a reserved key is refused. *)
Lemma header_roundtrip topic msg md l :
  m_Metadata msg = Some md → l ≡ₚ map_to_list md →
  (map_Forall (λ k _, reserved_key k = false) md → ∃ m, build_msg topic msg l = Ok m ∧ nm_Subject m = topic ∧ toMessage m = msg) ∧
  (∀ k v, md !! k = Some v → reserved_key k = true → ∃ e, build_msg topic msg l = Err e).
Proof.
  intros Hm Hp. split.
  - intros Hr. rewrite (build_msg_ok _ _ _ _ Hp Hr). eexists. split; [done|]. split; [done|].
    rewrite toMessage_headers by done. destruct msg. simpl in *. by subst.
  - intros k v Hk Hr. destruct (set_headers_reserved ∅ l) as [e He].
    + apply Exists_exists. exists (k, v). split; [|done]. rewrite Hp. by apply elem_of_map_to_list.
    + exists e. unfold build_msg. by rewrite He.
Qed.

(** No metadata key of an envelope is reserved. *)
Lemma envelope_keys_free env : map_Forall (λ k _, reserved_key k = false) (envelope_metadata env).
Proof.
  unfold envelope_metadata. cbv zeta.
  assert (∀ c k v md, reserved_key k = false → map_Forall (λ k (_ : string), reserved_key k = false) md →
            map_Forall (λ k (_ : string), reserved_key k = false) (set_if c k v md)) as Hset.
  { intros c k v md Hk Hmd. unfold set_if. destruct c; [|done]. by apply map_Forall_insert_2. }
  repeat (apply Hset; [reflexivity|]). repeat (apply map_Forall_insert_2; [reflexivity|]). apply map_Forall_empty.
Qed.

(** An envelope that satisfies its own constraints survives JetStream: its message is built,
    and what the subscriber makes of that message is read back as the same envelope. *)
Lemma envelope_over_nats topic env l :
  publishable env → l ≡ₚ map_to_list (envelope_metadata env) →
  ∃ m, build_msg topic (ToMessage env) l = Ok m ∧ FromMessage (Some (toMessage m)) = Ok (utc_envelope env).
Proof.
  intros Hpub Hp. rewrite (build_msg_ok _ _ _ _ Hp (envelope_keys_free env)). eexists. split; [done|].
  rewrite toMessage_headers by apply envelope_keys_free. by apply FromMessage_roundtrip.
Qed.

(** ** The configuration *)

Record nats_valid (c : NatsConfig) : Prop := {
  nv_server : if nj_Embedded c then nj_StoreDir c ≠ "" else nj_URL c ≠ "";
  nv_stream : nj_Stream c ≠ "" ∧ string_forall stream_char (nj_Stream c) = true;
  nv_windows : 100 * Millisecond ≤ nj_Retention c ∧
    (nj_DedupWindow c = 0 ∨ 100 * Millisecond ≤ nj_DedupWindow c ≤ nj_Retention c);
  nv_ack : 0 < nj_AckWait c;
  nv_delays : 0 < nj_NakDelayMin c ≤ nj_NakDelayMax c }.

Lemma nats_Validate_None c : Validate c = None ↔ nats_valid c.
Proof.
  unfold Validate. rewrite join_problems_None. unfold nats_problems. rewrite !app_nil, !problem_nil.
  unfold minWindow. split.
  - intros (H1 & H2 & H3 & H4 & H5 & H6 & H7). to_prop. constructor; try lia.
    + destruct (nj_Embedded c); apply problem_nil in H1; by apply bool_decide_eq_false in H1.
    + case_bool_decide; [done|]. apply problem_nil in H2. split; [done|]. by destruct (string_forall _ _).
    + split; [lia|]. destruct (nj_DedupWindow c <? 0) eqn:E1; [done|].
      destruct ((0 <? _) && _) eqn:E2; [done|]. apply problem_nil in H4. to_prop.
      apply andb_false_iff in E2. lia.
  - intros [H1 [H2 H2'] [H3 H4] H5 H6]. rewrite !Z.ltb_ge, !Z.leb_gt. split_and!; try lia.
    + destruct (nj_Embedded c); apply problem_nil; by apply bool_decide_eq_false.
    + rewrite bool_decide_false by done. apply problem_nil. by rewrite H2'.
    + rewrite (proj2 (Z.ltb_ge _ _)) by (unfold Millisecond in *; lia).
      destruct ((0 <? _) && _) eqn:E2; [to_prop; lia|]. apply problem_nil. apply Z.ltb_ge. unfold Millisecond in *; lia.
Qed.

(** The configurations the driver accepts are those whose windows the broker takes, whose
    delays [NakDelay] assumes, and whose ack wait exceeds the time a sink may take by ten seconds:
    a message is not given to another handler while the first may still be processing it. *)
Lemma ValidateWith_spec c router :
  in_int64 (cr_ProcessTimeout router + AckWaitMargin) →
  ValidateWith c router = None ↔ nats_valid c ∧ cr_ProcessTimeout router + 10 * Second < nj_AckWait c.
Proof.
  intros H. unfold ValidateWith, ack_floor. rewrite (wrap64_id _ H). unfold AckWaitMargin.
  rewrite <- nats_Validate_None. destruct (_ <=? _) eqn:E.
  - apply Z.leb_le in E. rewrite errors_join_None, !Forall_cons. split; [by intros (_ & ? & _)|lia].
  - apply Z.leb_gt in E. split; [done|by intros []].
Qed.

(** ** The driver over a broker *)

Section Laws.
Context {W : Type}.
Variable js_Stream : string → W → result (list string) * W.
Variable js_CreateOrUpdateStream : JSStream → W → option error * W.
Variable js_PublishMsg : NatsMsg → W → result bool * W.
Variable js_Consumer : string → string → W → result JSConsumer * W.
Variable js_UpdateConsumer : string → JSConsumer → W → option error * W.
Variable js_CreateConsumer : string → JSConsumer → W → option error * W.
Variable ranged : Metadata → list (string * string).

Local Abbreviation Publish := (Publish js_PublishMsg ranged).
Local Abbreviation Subscribe := (Subscribe js_Stream js_Consumer js_UpdateConsumer js_CreateConsumer).
Local Abbreviation EnsureStream := (EnsureStream js_Stream js_CreateOrUpdateStream).

(** The driver as an implementation of the interface, for given answers of the contexts while
    the broker is called. *)
Definition Nats_Bus (ctx_after : option error) (closed_after : bool) : Bus (NatsBus W) JSConsumer := {|
  bus_topic := nb_topic; bus_capabilities := Capabilities; bus_closed := nb_closed;
  bus_publish := Publish ctx_after; bus_subscribe b ctx n s := fst (Subscribe closed_after b ctx n s);
  bus_close := Close |}.

Lemma Nats_BusLaws ctx_after closed_after : @BusLaws _ _ (Nats_Bus ctx_after closed_after).
Proof.
  constructor; simpl.
  - intros s m H Hu. unfold Nats.Publish. by rewrite bool_decide_false, H.
  - intros s name start H Hn Hs. unfold Nats.Subscribe, deliver_policy. rewrite Hn.
    unfold StartPosition_valid in Hs. destruct (start =? Earliest); [by rewrite H|].
    destruct (start =? Now); [by rewrite H|done].
  - intros s ctx name start e H. unfold Nats.Subscribe. rewrite H. eexists. split; [done|].
    cbn [errors_is]. exact (ValidateConsumerName_err _ _ H).
  - intros s e m Hu. unfold Nats.Publish. by rewrite bool_decide_false.
  - intros s. unfold Close. by destruct (nb_closed s) eqn:E.
  - intros s H. unfold Close. by rewrite H.
  - intros s ctx [m|]; unfold Nats.Publish; repeat case_match; done.
  - intros s ctx [m|]; unfold Nats.Publish; repeat case_match; done.
Qed.

(** [Publish] returns nil only after the broker has acknowledged the message, which carries
    the UUID as its deduplication key, on the topic's subject; and a publish that returns an
    error before the broker is asked leaves the bus as it was. *)
Lemma Publish_after_ack ctx_after b ctx msg b' r :
  Publish ctx_after b ctx msg = (b', r) →
  (r = None → ∃ m nm dup, msg = Some m ∧ m_UUID m ≠ "" ∧ ctx = None ∧ nb_closed b = false ∧
     build_msg (nb_topic b) m (ranged (default ∅ (m_Metadata m))) = Ok nm ∧
     nm_Header nm !! MsgIDHeader = Some [m_UUID m] ∧ nm_Subject nm = nb_topic b ∧
     js_PublishMsg nm (nb_broker b) = (Ok dup, nb_broker b')) ∧
  (b' = b ∨ ∃ m nm, msg = Some m ∧ build_msg (nb_topic b) m (ranged (default ∅ (m_Metadata m))) = Ok nm ∧
     nb_broker b' = snd (js_PublishMsg nm (nb_broker b))) ∧
  nb_topic b' = nb_topic b ∧ nb_cfg b' = nb_cfg b ∧ nb_closed b' = nb_closed b.
Proof.
  unfold Nats.Publish. destruct msg as [m|]; [|intros [= <- <-]; by split_and!; [|left|..]].
  case_bool_decide as Hu; [intros [= <- <-]; by split_and!; [|left|..]|].
  destruct ctx as [e|]; [intros [= <- <-]; by split_and!; [|left|..]|].
  destruct (nb_closed b) eqn:Hc; [intros [= <- <-]; by split_and!; [|left|..]|].
  destruct (build_msg _ _ _) as [nm|e] eqn:Hb; [|intros [= <- <-]; by split_and!; [|left|..]].
  assert (nm_Header nm !! MsgIDHeader = Some [m_UUID m] ∧ nm_Subject nm = nb_topic b) as [Hh Hsub].
  { unfold build_msg in Hb. destruct (set_headers _ _); [|done]. injection Hb as <-. cbn [nm_Header nm_Subject].
    by rewrite lookup_insert_eq. }
  destruct (js_PublishMsg nm (nb_broker b)) as [[dup|e] w] eqn:Ep; intros [= <- <-]; split_and!; try done.
  - intros _. exists m, nm, dup. by split_and!.
  - right. exists m, nm. by rewrite Ep.
  - right. exists m, nm. by rewrite Ep.
Qed.

(** *** Streams and consumers that survive: what the broker's documentation promises of lookups,
    updates and creations, over the streams and the consumers it holds. *)
Variable subjects : W → gmap string (list string).
Variable consumers : W → gmap (string * string) JSConsumer.
Hypothesis stream_lookup : ∀ s w r w', js_Stream s w = (r, w') →
  consumers w' = consumers w ∧ subjects w' = subjects w ∧
  match r with Ok l => subjects w !! s = Some l
             | Err e => errors_is e ErrStreamNotFound = true → subjects w !! s = None end.
Hypothesis stream_update : ∀ c w r w', js_CreateOrUpdateStream c w = (r, w') →
  subjects w' = subjects w ∨ subjects w' = <[st_Name c := st_Subjects c]> (subjects w).
Hypothesis consumer_lookup : ∀ s n w r w', js_Consumer s n w = (r, w') →
  consumers w' = consumers w ∧ match r with Ok i => consumers w !! (s, n) = Some i | Err _ => True end.
Hypothesis consumer_update : ∀ s c w r w', js_UpdateConsumer s c w = (r, w') →
  consumers w' = consumers w ∨ consumers w' = <[(s, jc_Durable c) := c]> (consumers w).
Hypothesis consumer_create : ∀ s c w r w', js_CreateConsumer s c w = (r, w') →
  consumers w' = consumers w ∨ (consumers w !! (s, jc_Durable c) = None ∧ consumers w' = <[(s, jc_Durable c) := c]> (consumers w)).

(** A stream that carries other subjects keeps them, and the bus is not built on it. *)
Lemma EnsureStream_foreign c topic w l r w' :
  EnsureStream c topic w = (r, w') → subjects w !! nj_Stream c = Some l → l ≠ [topic] →
  (∃ e, r = Some e) ∧ subjects w' = subjects w.
Proof.
  unfold Nats.EnsureStream. destruct (js_Stream _ w) as [[l'|e] w1] eqn:E; intros H Hl Hne;
    destruct (stream_lookup _ _ _ _ E) as (_ & Hs & Hr).
  - rewrite Hl in Hr. injection Hr as <-. rewrite bool_decide_false in H by done. injection H as <- <-. by eauto.
  - destruct (errors_is e ErrStreamNotFound); [by rewrite Hr in Hl|]. injection H as <- <-. by eauto.
Qed.

(** A stream belongs to one topic: whatever [EnsureStream] is asked, in any order, no stream
    that exists changes its subjects; so two buses given the same stream name cannot take a
    stream from one another. *)
Lemma EnsureStream_keeps_subjects c topic w r w' s l :
  EnsureStream c topic w = (r, w') → subjects w !! s = Some l →
  subjects w' !! s = Some l ∧ (s = nj_Stream c → r = None → l = [topic]).
Proof.
  intros H Hl. destruct (decide (s = nj_Stream c)) as [->|Hs].
  - destruct (decide (l = [topic])) as [->|Hne].
    + split; [|done]. unfold Nats.EnsureStream in H. destruct (js_Stream _ w) as [[l'|e] w1] eqn:E;
        destruct (stream_lookup _ _ _ _ E) as (_ & Hs & Hr).
      * rewrite Hl in Hr. injection Hr as <-. rewrite bool_decide_true in H by done.
        destruct (js_CreateOrUpdateStream _ w1) as [[e|] w2] eqn:E2; injection H as <- <-;
          destruct (stream_update _ _ _ _ E2) as [-> | ->]; rewrite Hs; by rewrite ?lookup_insert_eq.
      * destruct (errors_is e ErrStreamNotFound); [by rewrite Hr in Hl|]. injection H as <- <-. by rewrite Hs.
    + destruct (EnsureStream_foreign _ _ _ _ _ _ H Hl Hne) as [[e ->] ->]. by split.
  - split; [|done]. unfold Nats.EnsureStream in H. destruct (js_Stream _ w) as [r1 w1] eqn:E.
    destruct (stream_lookup _ _ _ _ E) as (_ & Hsub & _).
    assert (∀ r w2, js_CreateOrUpdateStream (StreamConfig c topic) w1 = (r, w2) → subjects w2 !! s = Some l) as Hup.
    { intros r2 w2 E2. destruct (stream_update _ _ _ _ E2) as [-> | ->]; rewrite Hsub; [done|].
      by rewrite lookup_insert_ne. }
    destruct (js_CreateOrUpdateStream _ w1) as [[e2|] w2] eqn:E2; destruct r1 as [l'|e];
      repeat case_match; simplify_eq; rewrite ?Hsub; eauto.
Qed.

Lemma consumer_for_start c name policy w r w' n i :
  consumer_for js_Consumer js_UpdateConsumer js_CreateConsumer c name policy w = (r, w') →
  consumers w !! n = Some i →
  ∃ i', consumers w' !! n = Some i' ∧ jc_DeliverPolicy i' = jc_DeliverPolicy i ∧ jc_OptStart i' = jc_OptStart i.
Proof.
  intros H Hi. unfold consumer_for in H. destruct (js_Consumer _ _ w) as [r1 w1] eqn:E.
  destruct (consumer_lookup _ _ _ _ _ E) as [Hc Hr].
  assert (∀ r w2 info, consumers w !! (nj_Stream c, name) = Some info → js_UpdateConsumer (nj_Stream c) (resume c name info) w1 = (r, w2) →
    ∃ i', consumers w2 !! n = Some i' ∧ jc_DeliverPolicy i' = jc_DeliverPolicy i ∧ jc_OptStart i' = jc_OptStart i) as Hup.
  { intros r2 w2 info Hinfo E2. destruct (consumer_update _ _ _ _ _ E2) as [-> | ->]; rewrite Hc; [by eauto|].
    change (jc_Durable (resume c name info)) with name. destruct (decide (n = (nj_Stream c, name))) as [->|]; [|rewrite lookup_insert_ne by done; by eauto].
    rewrite lookup_insert_eq. eexists. split; [done|]. rewrite Hi in Hinfo. injection Hinfo as <-. done. }
  assert (∀ r w2, js_CreateConsumer (nj_Stream c) (want_consumer c name policy) w1 = (r, w2) →
    ∃ i', consumers w2 !! n = Some i' ∧ jc_DeliverPolicy i' = jc_DeliverPolicy i ∧ jc_OptStart i' = jc_OptStart i) as Hcr.
  { intros r2 w2 E2. destruct (consumer_create _ _ _ _ _ E2) as [-> | [Hn ->]]; rewrite Hc in *; [by eauto|].
    cbn [jc_Durable want_consumer] in *. exists i. split; [|done]. rewrite lookup_insert_ne; [done|]. intros <-. congruence. }
  destruct r1 as [info|e].
  - destruct (_ || _).
    + destruct (js_UpdateConsumer _ _ w1) as [[e|] w2] eqn:E2; injection H as <- <-; eauto.
    + injection H as <- <-. rewrite Hc. eauto.
  - destruct (errors_is e ErrConsumerNotFound).
    + destruct (js_CreateConsumer _ _ w1) as [[e2|] w2] eqn:E2; injection H as <- <-; eauto.
    + injection H as <- <-. rewrite Hc. eauto.
Qed.

(** One [Subscribe] of any process sharing the broker: the configuration may have changed. *)
Definition subscribe_step (w : W) (op : NatsBus W * bool * option error * string * StartPosition) : W :=
  let '(b, closed_after, ctx, name, start) := op in
  nb_broker (snd (Subscribe closed_after (set_broker b w) ctx name start)).

Lemma subscribe_step_start w op n i :
  consumers w !! n = Some i →
  ∃ i', consumers (subscribe_step w op) !! n = Some i' ∧
    jc_DeliverPolicy i' = jc_DeliverPolicy i ∧ jc_OptStart i' = jc_OptStart i.
Proof.
  intros Hi. destruct op as [[[[b ca] ctx] name] start]. unfold subscribe_step, Nats.Subscribe.
  destruct (ValidateConsumerName name); [by eauto|]. destruct (deliver_policy start) as [policy|]; [|by eauto].
  destruct ctx; [by eauto|]. cbn [set_broker nb_closed nb_cfg nb_broker]. destruct (nb_closed b); [by eauto|].
  destruct (js_Stream _ w) as [[l|e] w1] eqn:E; destruct (stream_lookup _ _ _ _ E) as (Hc & _ & _).
  - destruct (consumer_for _ _ _ _ _ _ w1) as [[c|e] w2] eqn:E2; cbn [snd nb_broker set_broker];
      apply (consumer_for_start _ _ _ _ _ _ _ _ E2); by rewrite Hc.
  - cbn [snd nb_broker set_broker]. rewrite Hc. eauto.
Qed.

(** C32: the start position of a consumer is the one it was created with: whatever subscriptions
    follow, of whatever consumers, from whatever configurations - other streams of the same broker
    included - and with whatever start positions, a consumer of a stream that exists is never lost
    and never moved. *)
Theorem first_start_wins ops w stream name i :
  consumers w !! (stream, name) = Some i →
  ∃ i', consumers (foldl subscribe_step w ops) !! (stream, name) = Some i' ∧
    jc_DeliverPolicy i' = jc_DeliverPolicy i ∧ jc_OptStart i' = jc_OptStart i.
Proof.
  revert w i. induction ops as [|op ops IH]; intros w i Hi; [by eauto|]. cbn [foldl].
  destruct (subscribe_step_start w op _ i Hi) as (i1 & H1 & H2 & H3).
  destruct (IH _ _ H1) as (i2 & ? & H4 & H5). exists i2. split_and!; congruence.
Qed.
End Laws.

(** ** Witnesses *)

(** A broker over maps: the subjects of its streams, its consumers and the messages it keeps. *)
Record MapBroker := mkMapBroker {
  mb_subjects : gmap string (list string); mb_consumers : gmap (string * string) JSConsumer; mb_log : list NatsMsg }.

Definition mb_Stream (s : string) (w : MapBroker) : result (list string) * MapBroker :=
  (match mb_subjects w !! s with Some l => Ok l | None => Err (esent ErrStreamNotFound) end, w).
Definition mb_CreateOrUpdateStream (c : JSStream) (w : MapBroker) : option error * MapBroker :=
  (None, mkMapBroker (<[st_Name c := st_Subjects c]> (mb_subjects w)) (mb_consumers w) (mb_log w)).
Definition mb_PublishMsg (m : NatsMsg) (w : MapBroker) : result bool * MapBroker :=
  (Ok false, mkMapBroker (mb_subjects w) (mb_consumers w) (mb_log w ++ [m])).
Definition mb_Consumer (s n : string) (w : MapBroker) : result JSConsumer * MapBroker :=
  (match mb_consumers w !! (s, n) with Some i => Ok i | None => Err (esent ErrConsumerNotFound) end, w).
Definition mb_put (s : string) (c : JSConsumer) (w : MapBroker) : MapBroker :=
  mkMapBroker (mb_subjects w) (<[(s, jc_Durable c) := c]> (mb_consumers w)) (mb_log w).
Definition mb_UpdateConsumer (s : string) (c : JSConsumer) (w : MapBroker) : option error * MapBroker := (None, mb_put s c w).
Definition mb_CreateConsumer (s : string) (c : JSConsumer) (w : MapBroker) : option error * MapBroker :=
  match mb_consumers w !! (s, jc_Durable c) with Some _ => (Some (errorf "consumer exists"), w) | None => (None, mb_put s c w) end.

Definition ex_broker : MapBroker :=
  mkMapBroker {["ANTWATCHER" := ["deliveries"]]} {[("ANTWATCHER", "a") := mkJSConsumer "a" DeliverAllPolicy (None, None) Second (-1)]} [].
Definition ex_bus : NatsBus MapBroker := mkNatsBus DefaultConfig "deliveries" false ex_broker.

Lemma mb_stream_lookup s w r w' : mb_Stream s w = (r, w') →
  mb_consumers w' = mb_consumers w ∧ mb_subjects w' = mb_subjects w ∧
  match r with Ok l => mb_subjects w !! s = Some l
             | Err e => errors_is e ErrStreamNotFound = true → mb_subjects w !! s = None end.
Proof. unfold mb_Stream. intros [= <- <-]. by destruct (mb_subjects w !! s). Qed.
Lemma mb_stream_update c w r w' : mb_CreateOrUpdateStream c w = (r, w') →
  mb_subjects w' = mb_subjects w ∨ mb_subjects w' = <[st_Name c := st_Subjects c]> (mb_subjects w).
Proof. intros [= <- <-]. by right. Qed.
Lemma mb_consumer_lookup s n w r w' : mb_Consumer s n w = (r, w') →
  mb_consumers w' = mb_consumers w ∧ match r with Ok i => mb_consumers w !! (s, n) = Some i | Err _ => True end.
Proof. unfold mb_Consumer. intros [= <- <-]. by destruct (mb_consumers w !! (s, n)). Qed.
Lemma mb_consumer_update s c w r w' : mb_UpdateConsumer s c w = (r, w') →
  mb_consumers w' = mb_consumers w ∨ mb_consumers w' = <[(s, jc_Durable c) := c]> (mb_consumers w).
Proof. intros [= <- <-]. by right. Qed.
Lemma mb_consumer_create s c w r w' : mb_CreateConsumer s c w = (r, w') →
  mb_consumers w' = mb_consumers w ∨
  (mb_consumers w !! (s, jc_Durable c) = None ∧ mb_consumers w' = <[(s, jc_Durable c) := c]> (mb_consumers w)).
Proof. unfold mb_CreateConsumer. destruct (mb_consumers w !! (s, jc_Durable c)) eqn:E; intros [= <- <-]; auto. Qed.

Lemma NakDelay_doubles_witness : NakDelay (5 * Second) (5 * Minute) 4 = 40 * Second.
Proof.
  refine (proj2 (proj2 (proj2 (NakDelay_doubles (5 * Second) (5 * Minute) 4 _ _))) 9 9765625 _ _ _ _ _); by vm_compute.
Defined.

Definition ex_message : Message := mkMessage "guid" (Some {["event" := "push"]}) "{}".

Lemma header_roundtrip_witness : ∃ m, build_msg "t" ex_message [("event", "push")] = Ok m ∧ nm_Subject m = "t" ∧ toMessage m = ex_message.
Proof.
  refine (proj1 (header_roundtrip "t" ex_message {["event" := "push"]} [("event", "push")] eq_refl _) _).
  - rewrite map_to_list_singleton. done.
  - apply map_Forall_singleton. reflexivity.
Defined.

Lemma envelope_over_nats_witness :
  ∃ m, build_msg "t" (ToMessage ex_envelope) (map_to_list (envelope_metadata ex_envelope)) = Ok m ∧
       FromMessage (Some (toMessage m)) = Ok (utc_envelope ex_envelope).
Proof. apply (envelope_over_nats "t" ex_envelope); [exact ex_publishable|done]. Defined.

Lemma ValidateWith_spec_witness : ValidateWith DefaultConfig (cf_Router Default) = None.
Proof.
  apply (ValidateWith_spec DefaultConfig (cf_Router Default)); [by vm_compute|].
  split; [by apply nats_Validate_None|by vm_compute].
Defined.

Lemma Publish_after_ack_witness :
  nb_broker (fst (Publish mb_PublishMsg map_to_list None ex_bus None (Some ex_message)))
  = snd (mb_PublishMsg (mkNatsMsg "deliveries" {["event" := ["push"]; MsgIDHeader := ["guid"]]} "{}") ex_broker).
Proof.
  destruct (proj1 (Publish_after_ack mb_PublishMsg map_to_list None ex_bus None (Some ex_message) _ _ (surjective_pairing _)))
    as (m & nm & dup & [= <-] & _ & _ & _ & Hb & _ & _ & Hp); [reflexivity|].
  vm_compute in Hb. injection Hb as <-. reflexivity.
Defined.

Lemma EnsureStream_keeps_subjects_witness :
  mb_subjects (snd (EnsureStream mb_Stream mb_CreateOrUpdateStream DefaultConfig "other" ex_broker)) !! "ANTWATCHER" = Some ["deliveries"].
Proof.
  exact (proj1 (EnsureStream_keeps_subjects mb_Stream mb_CreateOrUpdateStream mb_subjects mb_consumers
    mb_stream_lookup mb_stream_update DefaultConfig "other" ex_broker _ _ "ANTWATCHER" ["deliveries"] (surjective_pairing _) eq_refl)).
Defined.

(** A bus on another stream of the same broker. *)
Definition ex_other : NatsBus MapBroker :=
  mkNatsBus (mkNatsConfig true "./data/nats" "" "" "OTHER" (168 * Hour) (2 * Hour) (90 * Second) (5 * Second) (5 * Minute)) "other" false ex_broker.

Lemma first_start_wins_witness :
  let ops := [(ex_bus, false, None, "a", Now); (ex_other, false, None, "a", Now); (ex_bus, false, None, "b", Now)] in
  ∃ i', mb_consumers (foldl (subscribe_step mb_Stream mb_Consumer mb_UpdateConsumer mb_CreateConsumer) ex_broker ops)
      !! ("ANTWATCHER", "a") = Some i' ∧
    jc_DeliverPolicy i' = DeliverAllPolicy ∧ jc_OptStart i' = (None, None).
Proof.
  exact (first_start_wins mb_Stream mb_Consumer mb_UpdateConsumer mb_CreateConsumer mb_subjects mb_consumers
    mb_stream_lookup mb_consumer_lookup mb_consumer_update mb_consumer_create _ ex_broker "ANTWATCHER" "a" _ eq_refl).
Defined.
