(* ===== verification/Serve.v ===== *)
(** * [cmd/antwatcher/serve.go]: building the process

    [newService] over the configuration: the bus from its registry, the ingress policy, the
    sinks, the router that binds them, the recovery loop with its client, the two listeners; and
    [closeBuilt] when a step fails.  Every part is the operation of its own file.  What may fail
    for a reason outside the configuration - a describer, a factory, the GitHub client library,
    [net.Listen] - is in the environment. *)

From S2P Require Import Prelude.
From S2P Require Import Errors.
From S2P Require Import GoText.
From S2P Require Import GoTime.
From S2P Require Import Yaml.
From S2P Require Import Redact.
From S2P Require Import Bus.
From S2P Require Import Sink.
From S2P Require Import Router.
From S2P Require Import GhClient.
From S2P Require Import Recovery.
From S2P Require Import Servers.
From S2P Require Import Config.

Local Open Scope Z_scope.

(** ** [internal/ghclient]: auth.go and [New] *)

Record Auth := mkAuth { a_Type : string; a_Token : Secret }.

Definition AuthFromConfig (cfg : RecoveryAuth) : Auth := mkAuth (au_Type cfg) (au_Token cfg).

Definition Auth_Validate (a : Auth) : option error :=
  if String.eqb (a_Type a) AuthTypeToken then
    if bool_decide (Reveal (a_Token a) = "") then Some (errorf "ghclient: auth token is empty") else None
  else if String.eqb (a_Type a) AuthTypeGitHubApp then
    Some (EWrap "reserved and not implemented yet" (esent ErrUnsupportedAuth))
  else if bool_decide (a_Type a = "") then Some (errorf "ghclient: auth type is required")
  else Some (esent ErrUnsupportedAuth).

(** The options [New] gives the library. *)
Record GhOptions := mkGhOptions { gh_Token : string; gh_Timeout : Duration; gh_UserAgent : string; gh_BaseURL : option string }.

Definition DefaultTimeout : Duration := 30 * Second.

Definition gh_New (github_NewClient : GhOptions → option error) (auth : Auth) (apiBaseURL : string) (timeout : Duration)
    (userAgent : string) : result GhOptions :=
  match Auth_Validate auth with
  | Some e => Err e
  | None =>
      let o := mkGhOptions (Reveal (a_Token auth)) (if timeout =? 0 then DefaultTimeout else timeout)
                 (if bool_decide (userAgent = "") then "antwatcher" else userAgent)
                 (if bool_decide (apiBaseURL = "") then None else Some apiBaseURL) in
      match github_NewClient o with Some e => Err (EWrap "ghclient" e) | None => Ok o end
  end.

(** ** [newService] *)

Section NewService.
Context {S Sub : Type} `{HB : Bus S Sub}.
(** The type of the decoded driver blocks, and what decodes an undescribed one. *)
Context {T : Type}.
Variable decode_any : Node → result value.
(** The text of a block, which factories decode. *)
Variable block : Node → string.

(** The options and the environment of one call. *)
Record serveOptions := mkServeOptions {
  busDrivers : gmap string (Driver (Node → result T) S);
  sinkDrivers : gmap Z (gmap string SinkDriver);
  describers : @Describers T;
  version : string;
  github_NewClient : GhOptions → option error;
  admin_listen : option error;
  receiver_listen : option error;
  bus_blocks : list (string * Node) }.     (* cfg.Bus.Drivers in the order it is ranged over *)

Record service := mkService {
  s_redacted : @RedactedConfig T;
  s_mode : Mode;
  s_bus : S;
  s_busWarnings : list Warning;
  s_sinks : list Instance_;
  s_router : list (bound Sub);
  s_lag : list string;
  s_recovery : option (list targetState);
  s_admin : HTTPServer;
  s_receiver : HTTPServer }.

(** The fields of the service that [closeBuilt] looks at, as they are when a step fails. *)
Record built := mkBuilt {
  bt_bus : option S; bt_admin : option HTTPServer; bt_sinks : list Instance_; bt_router : option (list (bound Sub));
  bt_receiver : option HTTPServer }.

(** What [closeBuilt] closes, in its order. *)
Inductive closing : Type :=
  | CloseReceiver (s : HTTPServer) | CloseRouter (l : list (bound Sub)) | CloseSinks (l : list Instance_) | CloseBus (b : S)
  | CloseAdmin (s : HTTPServer).

Definition closeBuilt (b : built) : list closing :=
  (match bt_receiver b with Some s => [CloseReceiver s] | None => [] end
   ++ match bt_router b with Some l => [CloseRouter l] | None => [] end
   ++ (if bool_decide (length (bt_sinks b) = 0%nat) then [] else [CloseSinks (bt_sinks b)])
   ++ match bt_bus b with Some x => [CloseBus x] | None => [] end
   ++ match bt_admin b with Some s => [CloseAdmin s] | None => [] end)%list.

Definition nothing : built := mkBuilt None None [] None None.

(** [buildRecovery] *)
Definition buildRecovery (o : serveOptions) (cfg : Config) : result (list targetState) :=
  match gh_New (github_NewClient o) (AuthFromConfig (cv_Auth (cf_Recovery cfg))) (cv_APIBaseURL (cf_Recovery cfg)) 0
          ("antwatcher/" +:+ version o) with
  | Err e => Err (EWrap "recovery" e)
  | Ok _ =>
      match OptionsFromConfig (recovery_config (cf_Recovery cfg)) (cs_PublicURL (cf_Server cfg)) with
      | Err e => Err e
      | Ok opts => New (with_client opts)
      end
  end.

Definition router_config (r : Config.Router) : RouterConfig := mkRouterConfig (cr_ProcessTimeout r) (cr_CloseTimeout r).

(** The end of [newService]: the listeners. *)
Definition listen_both (o : serveOptions) (svc : HTTPServer → HTTPServer → service) (b : S) (insts : list Instance_)
    (r : list (bound Sub)) : result service * list closing :=
  let adm := mkHTTPServer "admin" Unbound in
  let rcv := mkHTTPServer "receiver" Unbound in
  match Listen (admin_listen o) adm with
  | (adm, Some e) => (Err e, closeBuilt (mkBuilt (Some b) (Some adm) insts (Some r) (Some rcv)))
  | (adm, None) =>
      match Listen (receiver_listen o) rcv with
      | (rcv, Some e) => (Err e, closeBuilt (mkBuilt (Some b) (Some adm) insts (Some r) (Some rcv)))
      | (rcv, None) => (Ok (svc adm rcv), [])
      end
  end.

(** The service, or the error with what was closed. *)
Definition newService (o : serveOptions) (cfg : Config) : result service * list closing :=
  match Redacted decode_any cfg (describers o) (bus_blocks o) with
  | Err e => (Err e, [])
  | Ok redacted =>
  match ParseMode (cb_OnMissingCapability (cf_Bus cfg)) with
  | Err e => (Err (EWrap "bus" e), closeBuilt nothing)
  | Ok mode =>
  match Registry_Open (busDrivers o) (cb_Driver (cf_Bus cfg)) (cb_Topic (cf_Bus cfg))
          (λ d, block (default zero_node (cb_Drivers (cf_Bus cfg) !! d))) with
  | Err e => (Err e, closeBuilt nothing)
  | Ok b =>
  match ResolveIngress (bus_capabilities b) mode with
  | Err e => (Err (EWrap "bus" e), closeBuilt (mkBuilt (Some b) None [] None None))
  | Ok warnings =>
  let adm := mkHTTPServer "admin" Unbound in
  match Build (sinkDrivers o) (sink_config block <$> cf_Sinks cfg) with
  | (Err e, _) => (Err e, closeBuilt (mkBuilt (Some b) (Some adm) [] None None))
  | (Ok insts, _) =>
  match BuildRouter (Some b) true (router_config (cf_Router cfg)) mode insts with
  | (Err e, _) => (Err e, closeBuilt (mkBuilt (Some b) (Some adm) insts None None))
  | (Ok r, _) =>
  match (if cv_Enabled (cf_Recovery cfg)
         then match buildRecovery o cfg with Ok l => Ok (Some l) | Err e => Err e end else Ok None) with
  | Err e => (Err e, closeBuilt (mkBuilt (Some b) (Some adm) insts (Some r) None))
  | Ok recovery =>
      listen_both o (λ adm rcv, mkService redacted mode b warnings insts r (Consumers r) recovery adm rcv) b insts r
  end end end end end end end.

(** ** Readiness *)

(** [readiness]: [connected] is what a bus that reports its connection says. *)
Definition readiness (closing : bool) (connected : option bool) : option error :=
  if closing then Some (errorf "shutting down")
  else match connected with Some false => Some (errorf "bus disconnected") | _ => None end.

(** A sample of [sampleBusConnected]: the gauge after a tick, for a bus that reports. *)
Definition sampleBusConnected (connected : option bool) (gauge : Z) : Z :=
  match connected with None => gauge | Some c => if c then 1 else 0 end.

(** ** Lemmas *)

Lemma Auth_valid a : Auth_Validate a = None ↔ a_Type a = AuthTypeToken ∧ a_Token a ≠ "".
Proof.
  unfold Auth_Validate, Reveal. destruct (String.eqb (a_Type a) AuthTypeToken) eqn:E.
  - apply String.eqb_eq in E. rewrite E. case_bool_decide; naive_solver.
  - apply String.eqb_neq in E. split; [|by intros []]. destruct (String.eqb _ AuthTypeGitHubApp); [done|]. by case_bool_decide.
Qed.

Lemma BuildRouter_valid (b : S) cfg mode insts :
  0 < rc_ProcessTimeout cfg → 0 < rc_CloseTimeout cfg →
  BuildRouter (Some b) true cfg mode insts = bind_all b cfg mode [] insts.
Proof. intros H1 H2. unfold BuildRouter. cbn [negb]. by rewrite !(proj2 (Z.leb_gt _ _)). Qed.







(** What a service that started was made of. *)
Lemma newService_parts o cfg svc closed :
  newService o cfg = (Ok svc, closed) →
  Redacted decode_any cfg (describers o) (bus_blocks o) = Ok (s_redacted svc) ∧
  ParseMode (cb_OnMissingCapability (cf_Bus cfg)) = Ok (s_mode svc) ∧
  ResolveIngress (bus_capabilities (s_bus svc)) (s_mode svc) = Ok (s_busWarnings svc) ∧
  (is_Some (s_recovery svc) ↔ cv_Enabled (cf_Recovery cfg) = true).
Proof.
  unfold newService. intros H.
  destruct (Redacted _ _ _ _) as [redacted|e]; [|done]. destruct (ParseMode _) as [mode|e]; [|done].
  destruct (Registry_Open _ _ _ _) as [b|e]; [|done]. destruct (ResolveIngress _ _) as [ws|e] eqn:Ei; [|done].
  destruct (Build _ _) as [[insts|e] fx]; [|done]. destruct (BuildRouter _ _ _ _ _) as [[r|e] c]; [|done].
  destruct (if cv_Enabled (cf_Recovery cfg) then _ else _) as [recovery|e] eqn:Er; [|done].
  unfold listen_both in H. destruct (Listen (admin_listen o) _) as [adm [e|]]; [done|]. destruct (Listen (receiver_listen o) _) as [rcv [e|]]; [done|].
  injection H as <- _. split_and!; [done..|]. cbn [s_recovery]. destruct (cv_Enabled _); [|injection Er as <-; split; [by intros []|done]].
  destruct (buildRecovery _ _); [|done]. injection Er as <-. split; [done|by eexists].
Qed.

(** ** Properties *)


(** What a checked configuration leaves to chance: when [Validate] accepts it and the recovery
    targets have a full name and a hook to be found, [newService] fails only if a block cannot
    be described, the driver cannot open its bus, the policy refuses that bus's capabilities, a
    sink driver refuses its block, the broker refuses a consumer, the GitHub library refuses its
    options, or an address cannot be bound. *)
Lemma newService_failures ip o cfg e closed :
  Validate ip cfg = None →
  Forall owner_and_name (cv_Targets (cf_Recovery cfg)) →
  Forall (λ t, rt_HookID t ≠ 0 ∨ cs_PublicURL (cf_Server cfg) ≠ "") (cv_Targets (cf_Recovery cfg)) →
  newService o cfg = (Err e, closed) →
  (∃ e', Redacted decode_any cfg (describers o) (bus_blocks o) = Err e') ∨
  (∃ e', Registry_Open (busDrivers o) (cb_Driver (cf_Bus cfg)) (cb_Topic (cf_Bus cfg))
          (λ d, block (default zero_node (cb_Drivers (cf_Bus cfg) !! d))) = Err e') ∨
  ∃ b mode,
    Registry_Open (busDrivers o) (cb_Driver (cf_Bus cfg)) (cb_Topic (cf_Bus cfg))
      (λ d, block (default zero_node (cb_Drivers (cf_Bus cfg) !! d))) = Ok b ∧
    ParseMode (cb_OnMissingCapability (cf_Bus cfg)) = Ok mode ∧
    ((∃ e', ResolveIngress (bus_capabilities b) mode = Err e') ∨
     (∃ e' fx, Build (sinkDrivers o) (sink_config block <$> cf_Sinks cfg) = (Err e', fx)) ∨
     (∃ insts fx inst e', Build (sinkDrivers o) (sink_config block <$> cf_Sinks cfg) = (Ok insts, fx) ∧ inst ∈ insts ∧
        bind b (router_config (cf_Router cfg)) mode inst = Err e') ∨
     (cv_Enabled (cf_Recovery cfg) = true ∧ ∃ g e', github_NewClient o g = Some e') ∨
     (∃ e', admin_listen o = Some e') ∨ (∃ e', receiver_listen o = Some e')).
Proof.
  intros Hv%Validate_valid Ho Hu H. unfold newService in H.
  destruct (Redacted _ _ _ _) as [redacted|e1]; [|by left; eexists].
  destruct Hv as [_ _ _ _ _ _ _ _ _ _ Hpol Hproc Hclose _ _ Hrec].
  assert (∃ m, ParseMode (cb_OnMissingCapability (cf_Bus cfg)) = Ok m) as [mode Hm].
  { apply elem_of_cons in Hpol as [-> | Hp%list_elem_of_singleton]; [by eexists|]. rewrite Hp. by eexists. }
  rewrite Hm in H. right. destruct (Registry_Open _ _ _ _) as [b|e1]; [|by left; eexists].
  right. exists b, mode. split; [done|]. split; [done|]. destruct (ResolveIngress _ _) as [ws|e1] eqn:Ei; [|left; by eexists].
  right. destruct (Build _ _) as [[insts|e1] fx] eqn:Eb; [|left; by do 2 eexists].
  right. rewrite BuildRouter_valid in H by done.
  destruct (bind_all _ _ _ _ _) as [[r|e1] c] eqn:Er.
  2:{ left. apply bind_all_spec in Er as (l' & pre & inst & post & _ & -> & _ & e' & He). exists (pre ++ inst :: post)%list, fx, inst, e'.
      split_and!; [done| |done]. apply elem_of_app. right. by left. }
  right. destruct (if cv_Enabled (cf_Recovery cfg) then _ else _) as [recovery|e1] eqn:Erec.
  - right. unfold listen_both, Listen in H. cbn [hs_Listener] in H. destruct (admin_listen o) as [e1|]; [left; by eexists|].
    right. destruct (receiver_listen o) as [e1|]; [by eexists|done].
  - left. destruct (cv_Enabled (cf_Recovery cfg)) eqn:Een; [|done].
    destruct (buildRecovery o cfg) as [l|e2] eqn:E2; [done|]. unfold buildRecovery, gh_New in E2.
    pose proof Hrec as (Hty & Hval & Hen). destruct (Hen Een) as (Ht & Hk & _).
    rewrite (proj2 (Auth_valid _)) in E2 by done. destruct (github_NewClient o _) as [e3|] eqn:Eg; [split; [done|by do 2 eexists]|]. exfalso.
    destruct (recovery_starts _ _ Hrec Een Ho Hu) as (opts & states & H1 & H2 & _). by rewrite H1, H2 in E2.
Qed.
End NewService.

(** ** Witnesses *)

Definition ex_open (bus : string) : serveOptions (S := GoChannel.GoChannelBus) (T := unit) :=
  mkServeOptions {[bus := mkDriver (Some (λ _ topic, Ok (GoChannel.New topic))) None]} ∅ (mkDescribers ∅ ∅) "dev"
    (λ _, None) None None [].
Definition ex_service (bus : string) :=
  newService (λ _, Ok VNil) (λ _, EmptyString) (ex_open bus) (ex_config 7).



(** A driver that is not registered. *)
Lemma newService_failures_witness :
  ∃ e, Registry_Open (busDrivers (ex_open "other")) "nats-jetstream" "antwatcher.events" (λ _, EmptyString) = Err e.
Proof.
  destruct (ex_service "other") as [res closed] eqn:E.
  assert (∃ e, res = Err e) as [e ->].
  { apply (f_equal fst) in E. vm_compute in E. rewrite <- E. by eexists. }
  destruct (newService_failures (λ _, Ok VNil) (λ _, EmptyString) (λ _, false) (ex_open "other") (ex_config 7) e closed) as [[e1 H]|[H|H]].
  - apply ex_config_valid. lia.
  - cbn. apply Forall_singleton. by vm_compute.
  - cbn. apply Forall_singleton. by left.
  - exact E.
  - by vm_compute in H.
  - exact H.
  - destruct H as (b & mode & H & _). by vm_compute in H.
Defined.
