(* ===== verification/Cli.v ===== *)
(** * [cmd/antwatcher/main.go]: the command line

    [run], [runServe], [loadConfig] and [newLogger], with [config.Load] of load.go over the YAML
    library and the file system, the parsing of flags by the [flag] package and of log levels by
    [log/slog].  What is written to the two streams is the sequence of actions of a command; the
    process itself is [newService] of Serve.v and the result of its [run]. *)

From S2P Require Import Prelude.
From S2P Require Import Errors.
From S2P Require Import GoText.
From S2P Require Import GoNum.
From S2P Require Import GoJson.
From S2P Require Import Yaml.
From S2P Require Import Redact.
From S2P Require Import Bus.
From S2P Require Import GoChannel.
From S2P Require Import Config.
From S2P Require Import Serve.

Local Open Scope Z_scope.

(** ** Flags: [flag.FlagSet.Parse] *)

Record flags := mkFlags { fl_config : string; fl_check : bool; fl_level : string; fl_format : string; fl_args : list string }.

Definition default_flags : flags := mkFlags "antwatcher.yml" false "info" "json" [].

Inductive flag_error : Set := ErrHelp | FlagError.
Inductive parsed : Type := Parsed (f : flags) | NotParsed (e : flag_error).

(** [strconv.ParseBool] *)
Definition ParseBool (s : string) : option bool :=
  if bool_decide (s ∈ ["1"; "t"; "T"; "TRUE"; "true"; "True"]) then Some true
  else if bool_decide (s ∈ ["0"; "f"; "F"; "FALSE"; "false"; "False"]) then Some false
  else None.

(** An argument that is a flag: what follows its dashes. *)
Inductive argument : Type := Positional | Terminator | BadSyntax | Flag (name : string) (value : option string).

Definition read_argument (s : string) : argument :=
  if (slen s <? 2) || negb (HasPrefix s "-") then Positional
  else
    let rest := TrimPrefix s "-" in
    if String.eqb rest "-" then Terminator
    else
      let name := TrimPrefix rest "-" in
      if bool_decide (name = "") || HasPrefix name "-" || HasPrefix name "=" then BadSyntax
      else let '(n, v, found) := Cut name "="%char in Flag n (if found then Some v else None).

Definition is_string_flag (name : string) : bool := bool_decide (name ∈ ["config"; "log-level"; "log-format"]).

Definition set_flag (f : flags) (name v : string) : flags :=
  if String.eqb name "config" then mkFlags v (fl_check f) (fl_level f) (fl_format f) (fl_args f)
  else if String.eqb name "log-level" then mkFlags (fl_config f) (fl_check f) v (fl_format f) (fl_args f)
  else mkFlags (fl_config f) (fl_check f) (fl_level f) v (fl_args f).

Definition set_check (f : flags) (b : bool) : flags := mkFlags (fl_config f) b (fl_level f) (fl_format f) (fl_args f).
Definition set_args (f : flags) (l : list string) : flags := mkFlags (fl_config f) (fl_check f) (fl_level f) (fl_format f) l.

Fixpoint parse_flags (f : flags) (args : list string) : parsed :=
  match args with
  | [] => Parsed (set_args f [])
  | s :: rest =>
      match read_argument s with
      | Positional => Parsed (set_args f (s :: rest))
      | Terminator => Parsed (set_args f rest)
      | BadSyntax => NotParsed FlagError
      | Flag name value =>
          if String.eqb name "check" then
            match ParseBool (default "true" value) with
            | Some b => parse_flags (set_check f b) rest
            | None => NotParsed FlagError
            end
          else if is_string_flag name then
            match value, rest with
            | Some v, _ => parse_flags (set_flag f name v) rest
            | None, v :: rest => parse_flags (set_flag f name v) rest
            | None, [] => NotParsed FlagError
            end
          else if bool_decide (name ∈ ["help"; "h"]) then NotParsed ErrHelp
          else NotParsed FlagError
      end
  end.

(** ** Log levels: [slog.Level.UnmarshalText] *)

(** [strings.ToUpper] as far as the four names can tell: the dotless i is an I. *)
Fixpoint upper_level (s : string) : string :=
  match s with
  | EmptyString => EmptyString
  | String a s' =>
      match s' with
      | String b s2 => if (byte_of a =? 196) && (byte_of b =? 177) then String "I" (upper_level s2) else String (upper_char a) (upper_level s')
      | EmptyString => String (upper_char a) EmptyString
      end
  end.

(** The text before the first sign, and the rest with it. *)
Fixpoint split_sign (s : string) : string * string :=
  match s with
  | EmptyString => ("", "")
  | String c s' =>
      if bool_decide (c = "+"%char) || bool_decide (c = "-"%char) then ("", s)
      else let '(a, b) := split_sign s' in (String c a, b)
  end.

Definition level_names : list (string * Z) := [("DEBUG", -4); ("INFO", 0); ("WARN", 4); ("ERROR", 8)].

Definition parse_level (s : string) : option Z :=
  let '(name, sign) := split_sign s in
  match (if bool_decide (sign = "") then Some 0 else parse_int sign) with
  | None => None
  | Some offset =>
      match list_find (λ p, p.1 = upper_level name) level_names with
      | Some (_, (_, l)) => Some (wrap64 (l + offset))
      | None => None
      end
  end.

Inductive log_format : Set := JSONHandler | TextHandler.

Definition newLogger (level format : string) : option (Z * log_format) :=
  match parse_level level with
  | None => None
  | Some l =>
      if String.eqb format "json" then Some (l, JSONHandler)
      else if String.eqb format "text" then Some (l, TextHandler)
      else None
  end.

(** ** [config.Load] *)

Section Load.
Variable ReadFile : string → result string.
Variable yaml_Unmarshal : string → result Node.
Variable decode : Node → Config → result Config.
Variable LookupEnv : string → option string.

Definition parse (data : string) : result Config :=
  match yaml_Unmarshal data with
  | Err e => Err (EWrap "parse yaml" e)
  | Ok root =>
      if n_Kind root =? 0 then Ok Default
      else match ExpandEnv LookupEnv root with
           | (_, Some e) => Err e
           | (root, None) => DecodeStrict decode root Default
           end
  end.

Definition Load (path : string) : result Config :=
  match ReadFile path with
  | Err e => Err (EWrap "read config" e)
  | Ok data => match parse data with Err e => Err (EWrap path e) | Ok c => Ok c end
  end.
End Load.

(** ** The commands *)

Section Run.
Context {S Sub : Type} `{HB : Bus S Sub}.
Context {T : Type}.
Variable load : string → result Config.
Variable ip_unspecified : string → bool.
Variable DriverValidator : T → option (Config.Router → option error).
Variable IngressValidator : T → option (BusConfig → option error).
Variable decode_any : Node → result value.
Variable block : Node → string.
(** The registries and what else start-up meets. *)
Variable opts : serveOptions (S := S) (T := T).
(** [yaml.Marshal] of the redacted configuration, and [svc.run] until it returns. *)
Variable render : @RedactedConfig T → result string.
Variable serve : service (S := S) (Sub := Sub) (T := T) → option error.

Inductive action : Type :=
  | Usage (to_stderr : bool)               (* usageText *)
  | PrintVersion
  | Complain                               (* a line on stderr about the arguments *)
  | LoadConfig (path : string)
  | Invalid (e : error)                    (* "configuration is invalid" *)
  | RenderFailed (e : error)
  | PrintConfig (text : string)
  | StartService
  | StartFailed (e : error)
  | Served (r : option error).

Definition loadConfig (path : string) : result (Config * @RedactedConfig T) :=
  match load path with
  | Err e => Err e
  | Ok cfg =>
      match Config.Validate ip_unspecified cfg with
      | Some e => Err e
      | None =>
          match ValidateDrivers DriverValidator IngressValidator cfg (describers opts) with
          | Some e => Err e
          | None =>
              match Redacted decode_any cfg (describers opts) (bus_blocks opts) with
              | Err e => Err e
              | Ok redacted => Ok (cfg, redacted)
              end
          end
      end
  end.

(** The exit code and what was done, in order. *)
Definition runServe (args : list string) : Z * list action :=
  match parse_flags default_flags args with
  | NotParsed ErrHelp => (0, [Usage true])
  | NotParsed FlagError => (2, [Complain])
  | Parsed f =>
      if negb (bool_decide (fl_args f = [])) then (2, [Complain])
      else match newLogger (fl_level f) (fl_format f) with
           | None => (2, [Complain])
           | Some _ =>
               match loadConfig (fl_config f) with
               | Err e => (1, [LoadConfig (fl_config f); Invalid e])
               | Ok (cfg, redacted) =>
                   if fl_check f then
                     match render redacted with
                     | Err e => (1, [LoadConfig (fl_config f); RenderFailed e])
                     | Ok text => (0, [LoadConfig (fl_config f); PrintConfig text])
                     end
                   else match newService decode_any block opts cfg with
                        | (Err e, _) => (1, [LoadConfig (fl_config f); StartService; StartFailed e])
                        | (Ok svc, _) =>
                            (match serve svc with None => 0 | Some _ => 1 end,
                             [LoadConfig (fl_config f); StartService; Served (serve svc)])
                        end
               end
           end
  end.

Definition run (args : list string) : Z * list action :=
  match args with
  | [] => (2, [Usage true])
  | cmd :: args =>
      if String.eqb cmd "serve" then runServe args
      else if String.eqb cmd "version" then (0, [PrintVersion])
      else if bool_decide (cmd ∈ ["help"; "-h"; "--help"]) then (0, [Usage false])
      else (2, [Complain; Usage true])
  end.

(** An action that reports that something went wrong after the command was understood. *)
Definition failure (a : action) : bool :=
  match a with
  | Invalid _ | RenderFailed _ | StartFailed _ | Served (Some _) => true
  | _ => false
  end.

(** What an exit code and the actions of a command say. *)
Record explained (args : list string) (code : Z) (acts : list action) : Prop := {
  ex_codes : code = 0 ∨ code = 1 ∨ code = 2;
  ex_usage : code = 2 → ∀ a, a ∈ acts → a = Complain ∨ a = Usage true;
  ex_complain : Complain ∈ acts → code = 2;
  ex_failure : code = 1 ↔ ∃ a, a ∈ acts ∧ failure a = true;
  ex_looked : code = 1 → ∃ path, head acts = Some (LoadConfig path);
  ex_config : ∀ path, LoadConfig path ∈ acts → ∀ e, Invalid e ∈ acts ↔ loadConfig path = Err e;
  ex_valid : code = 0 → ∀ path, LoadConfig path ∈ acts → ∃ cfg redacted,
    loadConfig path = Ok (cfg, redacted) ∧ load path = Ok cfg ∧ Config.Validate ip_unspecified cfg = None ∧
    ValidateDrivers DriverValidator IngressValidator cfg (describers opts) = None;
  ex_start : StartService ∈ acts → ∃ path cfg redacted,
    LoadConfig path ∈ acts ∧ loadConfig path = Ok (cfg, redacted) ∧ Config.Validate ip_unspecified cfg = None ∧
    ValidateDrivers DriverValidator IngressValidator cfg (describers opts) = None ∧
    (∀ text, PrintConfig text ∉ acts) ∧
    (code = 0 ↔ ∃ svc closed, newService decode_any block opts cfg = (Ok svc, closed) ∧ serve svc = None);
  ex_print : ∀ text, PrintConfig text ∈ acts → code = 0 ∧ ∃ path cfg redacted,
    LoadConfig path ∈ acts ∧ loadConfig path = Ok (cfg, redacted) ∧ render redacted = Ok text;
  ex_check : ∀ serve_args f, args = "serve" :: serve_args → parse_flags default_flags serve_args = Parsed f →
    if fl_check f then StartService ∉ acts ∧ (code = 0 → ∃ text, PrintConfig text ∈ acts)
    else (∀ text, PrintConfig text ∉ acts) ∧ (code = 0 → Served None ∈ acts) }.

(** The actions of a command are a list that is known: which of them are what is found by looking. *)
Ltac in_list :=
  intros; try (intros ?);
  repeat match goal with
  | H : ∃ _, _ |- _ => destruct H
  | H : _ ∧ _ |- _ => destruct H
  | H : _ ∈ _ :: _ |- _ => apply elem_of_cons in H as [H|H]
  | H : _ ∈ [] |- _ => by apply not_elem_of_nil in H
  end; simplify_eq/=; solve [done | auto | by eauto | split; by auto].

Lemma loadConfig_checked path cfg redacted :
  loadConfig path = Ok (cfg, redacted) →
  load path = Ok cfg ∧ Config.Validate ip_unspecified cfg = None ∧
  ValidateDrivers DriverValidator IngressValidator cfg (describers opts) = None.
Proof.
  unfold loadConfig. destruct (load path) as [c|]; [|done]. destruct (Config.Validate _ c) eqn:E1; [done|].
  destruct (ValidateDrivers _ _ c _) eqn:E2; [done|]. destruct (Redacted _ c _ _); [|done]. by intros [= <- <-].
Qed.

(** Nothing was read: the command was not understood, or it asked for help or the version only. *)
Lemma unread_explained args code acts :
  code = 0 ∨ code = 2 → (code = 2 → ∀ a, a ∈ acts → a = Complain ∨ a = Usage true) → (Complain ∈ acts → code = 2) →
  (∀ a, a ∈ acts → a = Complain ∨ a = PrintVersion ∨ ∃ b, a = Usage b) →
  (∀ a f, args = "serve" :: a → parse_flags default_flags a = Parsed f → code = 2) → explained args code acts.
Proof.
  intros Hc H2 Hco Ha Hp.
  assert (Hno : ∀ a, a ∈ acts → failure a = true ∨ (∃ p, a = LoadConfig p) ∨ a = StartService ∨ (∃ t, a = PrintConfig t) → False).
  { intros a Hin [H|[[p ->]|[->|[t ->]]]]; destruct (Ha _ Hin) as [E|[E|[b E]]]; simplify_eq/=; done. }
  constructor.
  - destruct Hc; auto.
  - done.
  - done.
  - split; [intros ->; by destruct Hc|]. intros (a & Hin & Hf). exfalso. eauto.
  - intros ->. by destruct Hc.
  - intros path Hin. exfalso. eauto 6.
  - intros _ path Hin. exfalso. eauto 6.
  - intros Hin. exfalso. eauto 6.
  - intros text Hin. exfalso. eauto 8.
  - intros a f H1 H. specialize (Hp a f H1 H) as ->. destruct (fl_check f); (split; [|done]).
    + intros Hin. eauto 6.
    + intros text Hin. eauto 8.
Qed.

Lemma refused_explained args code acts :
  (code = 2 ∧ acts = [Complain]) ∨ (code = 0 ∧ acts = [Usage true]) →
  (∀ a f, args = "serve" :: a → parse_flags default_flags a = Parsed f → code = 2) → explained args code acts.
Proof. intros [[-> ->]|[-> ->]] Hp; apply unread_explained; auto; intros; cbn in *; try in_list. Qed.

Ltac only_path p :=
  let path := fresh "path" in intros path ?; assert (path = p) as -> by in_list.

(** A configuration was accepted; what follows it says the code, and what it does with it the flag. *)
Lemma accepted_explained args f cfg redacted code acts :
  parse_flags default_flags args = Parsed f → loadConfig (fl_config f) = Ok (cfg, redacted) →
  (if fl_check f then
     (∃ e, render redacted = Err e ∧ code = 1 ∧ acts = [RenderFailed e]) ∨
     (∃ text, render redacted = Ok text ∧ code = 0 ∧ acts = [PrintConfig text])
   else
     (∃ e closed, newService decode_any block opts cfg = (Err e, closed) ∧ code = 1 ∧ acts = [StartService; StartFailed e]) ∨
     (∃ svc closed, newService decode_any block opts cfg = (Ok svc, closed) ∧
        code = match serve svc with None => 0 | Some _ => 1 end ∧ acts = [StartService; Served (serve svc)])) →
  explained ("serve" :: args) code (LoadConfig (fl_config f) :: acts).
Proof.
  intros Ep El. destruct (loadConfig_checked _ _ _ El) as (Hl & Hv & Hd).
  assert (Hf : ∀ a g, "serve" :: args = "serve" :: a → parse_flags default_flags a = Parsed g → g = f) by (intros a g [= <-] H; congruence).
  destruct (fl_check f) eqn:Ef; [intros [(e & He & -> & ->)|(text & He & -> & ->)]|intros [(e & closed & He & -> & ->)|(svc & closed & He & -> & ->)]].
  - constructor; try in_list.
    + split; [|done]. intros _. exists (RenderFailed e). split; [by right; left|done].
    + only_path (fl_config f). rewrite El. split; in_list.
    + intros a g H1 H2. rewrite (Hf _ _ H1 H2), Ef. split; in_list.
  - constructor; try in_list.
    + split; [done|]. in_list.
    + only_path (fl_config f). rewrite El. split; in_list.
    + intros _. only_path (fl_config f). by exists cfg, redacted.
    + intros text'. rewrite !elem_of_cons. intros [?|[[= ->]|H]]; [done| |by apply not_elem_of_nil in H].
      split; [done|]. exists (fl_config f), cfg, redacted. split_and!; [by left|done|done].
    + intros a g H1 H2. rewrite (Hf _ _ H1 H2), Ef. split; [in_list|]. intros _. exists text. by right; left.
  - constructor; try in_list.
    + split; [|done]. intros _. exists (StartFailed e). split; [by do 2 right; left|done].
    + only_path (fl_config f). rewrite El. split; in_list.
    + intros _. exists (fl_config f), cfg, redacted. split_and!; [by left|done|done|done|intros text; in_list|].
      split; [done|]. intros (svc' & closed' & H & Hs). by rewrite H in He.
    + intros a g H1 H2. rewrite (Hf _ _ H1 H2), Ef. split; in_list.
  - constructor; try in_list.
    + destruct (serve svc); auto.
    + by destruct (serve svc).
    + split; [|intros (a & Ha & Hb); by destruct (serve svc); [|in_list]].
      destruct (serve svc) as [e|]; [|done]. intros _. exists (Served (Some e)). split; [by do 2 right; left|done].
    + only_path (fl_config f). rewrite El. split; in_list.
    + intros _. only_path (fl_config f). by exists cfg, redacted.
    + intros _. exists (fl_config f), cfg, redacted. split_and!; [by left|done|done|done|intros text; in_list|].
      split; [intros H; exists svc, closed; split; [done|]; by destruct (serve svc)|].
      intros (svc' & closed' & H & Hs). rewrite H in He. injection He as <- <-. by rewrite Hs.
    + intros a g H1 H2. rewrite (Hf _ _ H1 H2), Ef. split; [in_list|].
      destruct (serve svc); [done|]. intros _. by do 2 right; left.
Qed.

Lemma runServe_explained args : explained ("serve" :: args) (runServe args).1 (runServe args).2.
Proof.
  unfold runServe. destruct (parse_flags default_flags args) as [f|[]] eqn:Ep.
  2-3: apply refused_explained; [auto|]; intros ? ? [= <-]; by rewrite Ep.
  destruct (negb _); [by apply refused_explained; auto|]. destruct (newLogger _ _); [|by apply refused_explained; auto].
  destruct (loadConfig (fl_config f)) as [[cfg redacted]|e] eqn:El.
  2:{ constructor; cbn [fst snd]; try in_list.
    - split; [|done]. intros _. exists (Invalid e). split; [by right; left|done].
    - only_path (fl_config f). rewrite El. split; [in_list|]. intros [= ->]. by right; left.
    - intros a g [= <-] H. rewrite Ep in H. injection H as <-. destruct (fl_check f); split; in_list. }
  pose proof (accepted_explained args f cfg redacted) as Ha.
  destruct (fl_check f) eqn:Ef.
  { destruct (render redacted) eqn:Er; apply Ha; naive_solver. }
  destruct (newService decode_any block opts cfg) as [[svc|e] closed] eqn:En; apply Ha; naive_solver.
Qed.

(** ** Properties *)

(** C38: the exit code and what led to it, for every command line.  It is 2 only when the command
    was not understood, and always when something is complained of; then nothing was read.  It is 1
    exactly when something failed: the configuration was invalid, it could not be rendered, start-up
    failed or [run] returned an error.  It is 0 only if the configuration looked for, if any, was
    loaded and is accepted by every check, and "configuration is invalid" is reported exactly when
    it was not.  A process is started only from an accepted configuration, and then the code is 0
    exactly when start-up succeeded and [run] returned nil; with [-check] no process is ever started
    and a code of 0 means the accepted configuration was printed, and without it that the process
    was served until [run] returned nil. *)
Theorem run_exit_code args : explained args (run args).1 (run args).2.
Proof.
  unfold run. destruct args as [|cmd args]; [apply unread_explained; cbn; auto; in_list|].
  destruct (String.eqb_spec cmd "serve") as [->|Hn]; [apply runServe_explained|].
  assert (Hp : ∀ code a f, cmd :: args = "serve" :: a → parse_flags default_flags a = Parsed f → code = 2) by naive_solver.
  destruct (String.eqb cmd "version"); [apply unread_explained; cbn; auto; in_list|].
  case_bool_decide; apply unread_explained; cbn; auto; in_list.
Qed.

(** Flags are read back from their usual forms, the last one winning; the first argument that is
    not a flag is refused. *)
Lemma parse_flags_spec c l f :
  parse_flags default_flags ["-config"; c; "--log-level"; l; "-check=false"; "-log-format"; f; "-check"] = Parsed (mkFlags c true l f []) ∧
  (HasPrefix c "-" = false → parse_flags default_flags ["-check"; c] = Parsed (mkFlags "antwatcher.yml" true "info" "json" [c])).
Proof.
  split; [reflexivity|]. intros H. cbn [parse_flags]. change (read_argument "-check") with (Flag "check" None).
  cbn [String.eqb Ascii.eqb Bool.eqb default from_option id ParseBool].
  unfold read_argument. rewrite H. cbn [negb]. by rewrite orb_true_r.
Qed.

Example parse_level_ex :
  parse_level "warn" = Some 4 ∧ parse_level "Info+2" = Some 2 ∧ parse_level "debug-4" = Some (-8) ∧ parse_level "loud" = None ∧
  newLogger "info" "xml" = None.
Proof. by vm_compute. Qed.
End Run.
