(* ===== verification/Lifecycle.v ===== *)
(** * [run] of [cmd/antwatcher/serve.go]: serving and shutting down

    The main goroutine and the tasks it starts, as a step relation.  A task is one component in
    its own goroutine; it may end by itself, fail, or end after its context is cancelled; its
    failure is sent on the [failures] channel.  The shutdown is the list of commands [run]
    executes one by one; a component's own error, and when a signal arrives, is outside. *)

From S2P Require Import Prelude.
From S2P Require Import Errors.
From S2P Require Import GoText.

Inductive tid : Set := TAdmin | TRouter | TLag | THealth | TRecovery | TReceiver.

#[export] Instance tid_eq_dec : EqDecision tid.
Proof. solve_decision. Defined.
#[export] Instance tid_countable : Countable tid.
Proof.
  refine (inj_countable'
    (λ t, match t with TAdmin => 0 | TRouter => 1 | TLag => 2 | THealth => 3 | TRecovery => 4 | TReceiver => 5 end)
    (λ n, match n with 0 => TAdmin | 1 => TRouter | 2 => TLag | 3 => THealth | 4 => TRecovery | _ => TReceiver end) _).
  by intros [].
Defined.

Definition task_name (t : tid) : string :=
  match t with
  | TAdmin => "admin" | TRouter => "router" | TLag => "lag" | THealth => "bus-health" | TRecovery => "recovery"
  | TReceiver => "receiver"
  end.

(** The error of a task, and whose it is: [dropCause] compares identities. *)
Record failure := mkFailure { f_task : tid; f_error : error }.

Inductive task : Type :=
  | Running (cancelled : bool)
  | Sending (f : failure)                  (* fn failed; failures <- t.err *)
  | Done (err : option failure).           (* t.done is closed *)

(** The parts of the service [run] closes itself. *)
Inductive part : Set := PReceiverSocket | PRouter | PSinks | PBus.

#[export] Instance part_eq_dec : EqDecision part.
Proof. solve_decision. Defined.

(** [task.stop] is [Cancel] then [Wait]. *)
Inductive command : Set := Cancel (t : tid) | Wait (t : tid) | Close (p : part).

#[export] Instance command_eq_dec : EqDecision command.
Proof. solve_decision. Defined.

(** The shutdown, in the order of its statements; [receiver] tells whether the receiver runs. *)
Definition shutdown (receiver : bool) : list command :=
  ((if receiver then [Cancel TReceiver; Wait TReceiver] else [Close PReceiverSocket])
   ++ [Close PRouter; Cancel TRouter; Wait TRouter; Cancel TRecovery; Wait TRecovery; Cancel TLag; Wait TLag;
       Cancel THealth; Wait THealth; Close PSinks; Close PBus; Cancel TAdmin; Wait TAdmin])%list.

(** What an error of the shutdown is: a task's, or that of a call. *)
Inductive err_item : Type := OfTask (f : failure) | OfCall (e : error).
Definition item_error (i : err_item) : error := match i with OfTask f => f_error f | OfCall e => e end.

Inductive pc : Type :=
  | Start
  | WaitRunning                            (* the first select *)
  | Serving                                (* the second *)
  | Shutting (rest : list command)
  | Returned (r : option error).

(** [failures] has room for eight. *)
Definition failures_cap : nat := 8.

Record state := mkState {
  s_pc : pc;
  s_tasks : gmap tid task;
  s_failures : list failure;
  s_root_done : bool;                      (* ctx.Done() *)
  s_router_running : bool;                 (* s.router.Running() *)
  s_closing : bool;                        (* s.closing *)
  s_cause : option failure;
  s_errs : list (option err_item);
  s_closed : list part }.

Definition init : state := mkState Start ∅ [] false false false None [] [].

Definition with_pc (s : state) (p : pc) : state :=
  mkState p (s_tasks s) (s_failures s) (s_root_done s) (s_router_running s) (s_closing s) (s_cause s) (s_errs s) (s_closed s).
Definition with_task (s : state) (t : tid) (k : task) : state :=
  mkState (s_pc s) (<[t := k]> (s_tasks s)) (s_failures s) (s_root_done s) (s_router_running s) (s_closing s) (s_cause s)
    (s_errs s) (s_closed s).

(** [dropCause], and what [run] returns. *)
Definition kept (cause : option failure) (i : err_item) : bool :=
  match i, cause with OfTask f, Some c => negb (bool_decide (f_task f = f_task c)) | _, _ => true end.
Definition dropCause (errs : list (option err_item)) (cause : option failure) : list err_item :=
  filter (λ i, kept cause i = true) (omap id errs).

Definition outcome (cause : option failure) (errs : list (option err_item)) : option error :=
  let shutdownErr := errors_join ((λ i, Some (item_error i)) <$> dropCause errs cause) in
  match cause, shutdownErr with
  | None, None => None
  | _, _ => errors_join [f_error <$> cause; shutdownErr]
  end.

Section Run.
(** Whether the recovery loop is enabled. *)
Variable recovery : bool.

Definition start_tasks : gmap tid task :=
  (if recovery then <[TRecovery := Running false]> else id)
    (list_to_map [(TAdmin, Running false); (TRouter, Running false); (TLag, Running false); (THealth, Running false)]).

(** The main goroutine leaves a select for the shutdown. *)
Definition shut (s : state) (cause : option failure) (queue : list failure) (receiver : bool) : state :=
  mkState (Shutting (shutdown receiver)) (s_tasks s) queue (s_root_done s) (s_router_running s) true cause (s_errs s) (s_closed s).

Definition add_err (s : state) (i : option err_item) : list (option err_item) := (s_errs s ++ [i])%list.

Inductive step (s : state) : state → Prop :=
  (* the environment *)
  | env_signal : step s (mkState (s_pc s) (s_tasks s) (s_failures s) true (s_router_running s) (s_closing s) (s_cause s) (s_errs s) (s_closed s))
  | env_router : s_tasks s !! TRouter = Some (Running false) →
      step s (mkState (s_pc s) (s_tasks s) (s_failures s) (s_root_done s) true (s_closing s) (s_cause s) (s_errs s) (s_closed s))
  (* the tasks *)
  | task_ends t c : s_tasks s !! t = Some (Running c) → step s (with_task s t (Done None))
  | task_fails t c e : s_tasks s !! t = Some (Running c) →
      step s (with_task s t (Sending (mkFailure t (EWrap (task_name t) e))))
  | task_sends t f : s_tasks s !! t = Some (Sending f) → length (s_failures s) < failures_cap →
      step s (mkState (s_pc s) (<[t := Done (Some f)]> (s_tasks s)) (s_failures s ++ [f]) (s_root_done s) (s_router_running s)
                (s_closing s) (s_cause s) (s_errs s) (s_closed s))
  (* the main goroutine *)
  | main_start : s_pc s = Start →
      step s (mkState WaitRunning start_tasks (s_failures s) (s_root_done s) (s_router_running s) (s_closing s) (s_cause s)
                (s_errs s) (s_closed s))
  | main_running : s_pc s = WaitRunning → s_router_running s = true →
      step s (with_pc (with_task s TReceiver (Running false)) Serving)
  | main_signal : s_pc s = WaitRunning ∨ s_pc s = Serving → s_root_done s = true →
      step s (shut s None (s_failures s) (bool_decide (is_Some (s_tasks s !! TReceiver))))
  | main_failure f q : s_pc s = WaitRunning ∨ s_pc s = Serving → s_failures s = f :: q →
      step s (shut s (Some f) q (bool_decide (is_Some (s_tasks s !! TReceiver))))
  | main_cancel t rest : s_pc s = Shutting (Cancel t :: rest) →
      step s (mkState (Shutting rest)
                (match s_tasks s !! t with Some (Running _) => <[t := Running true]> (s_tasks s) | _ => s_tasks s end)
                (s_failures s) (s_root_done s) (s_router_running s) (s_closing s) (s_cause s) (s_errs s) (s_closed s))
  | main_wait t err rest : s_pc s = Shutting (Wait t :: rest) → s_tasks s !! t = Some (Done err) →
      step s (mkState (Shutting rest) (s_tasks s) (s_failures s) (s_root_done s) (s_router_running s) (s_closing s) (s_cause s)
                (add_err s (OfTask <$> err)) (s_closed s))
  | main_no_task t rest : s_pc s = Shutting (Wait t :: rest) → s_tasks s !! t = None →
      step s (mkState (Shutting rest) (s_tasks s) (s_failures s) (s_root_done s) (s_router_running s) (s_closing s) (s_cause s)
                (add_err s None) (s_closed s))
  | main_close p err rest : s_pc s = Shutting (Close p :: rest) →
      step s (mkState (Shutting rest) (s_tasks s) (s_failures s) (s_root_done s) (s_router_running s) (s_closing s) (s_cause s)
                (add_err s (OfCall <$> err)) (s_closed s ++ [p]))
  | main_return : s_pc s = Shutting [] → step s (with_pc s (Returned (outcome (s_cause s) (s_errs s)))).

(** ** Invariant *)

Definition ended (o : option task) : Prop := match o with None | Some (Done _) => True | _ => False end.

(** A command of the shutdown that was executed. *)
Definition executed (s : state) (c : command) : Prop :=
  match c with
  | Cancel t => s_tasks s !! t ≠ Some (Running false)
  | Wait t => ended (s_tasks s !! t) ∧ ∀ f, s_tasks s !! t = Some (Done (Some f)) → Some (OfTask f) ∈ s_errs s
  | Close p => p ∈ s_closed s
  end.

Definition closes (l : list command) : list part := omap (λ c, match c with Close p => Some p | _ => None end) l.

(** The failures that left a task. *)
Definition sent (s : state) : list failure :=
  ((match s_cause s with Some f => [f] | None => [] end) ++ s_failures s)%list.

Definition receiver_runs (s : state) : bool := bool_decide (is_Some (s_tasks s !! TReceiver)).

(** Where the main goroutine is, and what it has done. *)
Definition at_pc (s : state) : Prop :=
  match s_pc s with
  | Start => s_tasks s = ∅ ∧ s_closing s = false
  | WaitRunning => s_tasks s !! TReceiver = None ∧ s_closing s = false
  | Serving => s_closing s = false
  | Shutting rest => s_closing s = true ∧ ∃ pre, shutdown (receiver_runs s) = (pre ++ rest)%list ∧ Forall (executed s) pre ∧ s_closed s = closes pre
  | Returned r => s_closing s = true ∧ Forall (executed s) (shutdown (receiver_runs s)) ∧ s_closed s = closes (shutdown (receiver_runs s)) ∧
      r = outcome (s_cause s) (s_errs s)
  end.

(** The shutdown is past the cancellation of a task. *)
Definition told_to_stop (p : pc) (t : tid) : Prop :=
  match p with Shutting rest => Cancel t ∉ rest | Returned _ => True | _ => False end.

Record inv (s : state) : Prop := {
  inv_pc : at_pc s;
  inv_quiet : s_closing s = false → s_closed s = [] ∧ s_errs s = [] ∧ s_cause s = None;
  inv_receiver : is_Some (s_tasks s !! TReceiver) → s_router_running s = true;
  inv_own t f : s_tasks s !! t = Some (Sending f) ∨ s_tasks s !! t = Some (Done (Some f)) → f_task f = t;
  inv_sent f : f ∈ sent s → s_tasks s !! f_task f = Some (Done (Some f));
  inv_once : NoDup (f_task <$> sent s);
  inv_errs f : Some (OfTask f) ∈ s_errs s → s_tasks s !! f_task f = Some (Done (Some f));
  inv_clean : s_closing s = true → s_cause s = None → s_root_done s = true;
  inv_cancelled t : s_tasks s !! t = Some (Running true) → told_to_stop (s_pc s) t }.

(** What the steps of the others leave: ended tasks stay as they are, cancelled ones cancelled,
    and what was recorded is kept. *)
Definition later (s s' : state) : Prop :=
  (∀ t, ended (s_tasks s !! t) → s_tasks s' !! t = s_tasks s !! t) ∧
  (∀ t, s_tasks s !! t ≠ Some (Running false) → s_tasks s' !! t ≠ Some (Running false)) ∧
  (∀ i, i ∈ s_errs s → i ∈ s_errs s') ∧ (∀ p, p ∈ s_closed s → p ∈ s_closed s').

Lemma executed_later s s' c : later s s' → executed s c → executed s' c.
Proof.
  intros (L1 & L2 & L3 & L4) H. destruct c as [t|t|p]; cbn [executed] in *; [by apply L2| |by apply L4].
  destruct H as [H1 H2]. rewrite (L1 _ H1). split; [done|]. auto.
Qed.

Lemma Forall_later s s' l : later s s' → Forall (executed s) l → Forall (executed s') l.
Proof. intros L H. eapply Forall_impl; [exact H|]. intros c. by apply executed_later. Qed.

Lemma later_refl s s' : s_tasks s' = s_tasks s → s_errs s' = s_errs s → s_closed s' = s_closed s → later s s'.
Proof. unfold later. intros -> -> ->. by split_and!. Qed.

(** A task that has not ended takes a step. *)
Lemma later_task s s' t k :
  ¬ ended (s_tasks s !! t) → s_tasks s' = <[t := k]> (s_tasks s) → (k = Running false → s_tasks s !! t = Some (Running false)) →
  s_errs s' = s_errs s → s_closed s' = s_closed s → later s s'.
Proof.
  intros Hne Ht Hk He Hc. unfold later. rewrite Ht, He, Hc. split_and!; try done.
  - intros u Hu. rewrite lookup_insert_ne; [done|]. by intros ->.
  - intros u Hu H. apply lookup_insert_Some in H as [[<- H]|[_ H]]; [by apply Hu, Hk|done].
Qed.

Lemma receiver_runs_insert s s' t k :
  is_Some (s_tasks s !! t) → s_tasks s' = <[t := k]> (s_tasks s) → receiver_runs s' = receiver_runs s.
Proof.
  intros Hs Ht. unfold receiver_runs. rewrite Ht. apply bool_decide_ext.
  destruct (decide (t = TReceiver)) as [->|]; [rewrite lookup_insert_eq|by rewrite lookup_insert_ne]. split; by eauto.
Qed.

(** Where the main goroutine is, after a step of another one. *)
Lemma at_pc_later s s' :
  at_pc s → s_pc s' = s_pc s → s_closing s' = s_closing s → s_errs s' = s_errs s → s_closed s' = s_closed s → s_cause s' = s_cause s →
  later s s' → receiver_runs s' = receiver_runs s → (s_tasks s = ∅ → s_tasks s' = ∅) → at_pc s'.
Proof.
  unfold at_pc. intros H -> Hcl He Hc Hca L Hr Hemp. rewrite Hcl, Hr, He, Hc, Hca. destruct (s_pc s) as [| | |rest|r].
  - naive_solver.
  - destruct H as [H ?]. split; [|done]. unfold receiver_runs in Hr. rewrite H in Hr. 
    destruct (s_tasks s' !! TReceiver) eqn:E; [|done]. rewrite bool_decide_true, bool_decide_false in Hr; [done|by intros []|done].
  - done.
  - destruct H as (? & pre & H1 & H2 & H3). split; [done|]. exists pre. split_and!; [done|by eapply Forall_later|done].
  - destruct H as (? & H1 & H2 & H3). split_and!; [done|by eapply Forall_later|done..].
Qed.

Lemma lifecycle_init_inv : inv init.
Proof.
  constructor; cbn; try done.
  - intros [? H]. by rewrite lookup_empty in H.
  - intros t f [H|H]; by rewrite lookup_empty in H.
  - intros f []%not_elem_of_nil.
  - constructor.
  - intros f []%not_elem_of_nil.
Qed.

(** A task that neither sends nor was started takes a step of its own. *)
Lemma inv_task s t k c :
  inv s → s_tasks s !! t = Some (Running c) → (k = Done None ∨ ∃ e, k = Sending (mkFailure t e)) → inv (with_task s t k).
Proof.
  intros [I1 I2 I3 I4 I5 I6 I7 I8 I9] Ht Hk.
  assert (∀ f, f_task f = t → s_tasks s !! f_task f = Some (Done (Some f)) → False) as Hno by (intros f Hf H; rewrite Hf in H; congruence).
  constructor; cbn [with_task s_tasks s_closing s_closed s_errs s_cause s_router_running s_root_done]; try done.
  - refine (at_pc_later s (with_task s t k) I1 eq_refl eq_refl eq_refl eq_refl eq_refl _ _ _).
    + eapply (later_task _ _ t); [rewrite Ht; by intros []|done| |done|done].
      intros ->. destruct Hk as [|[? ?]]; done.
    + eapply receiver_runs_insert; [by eexists|done].
    + intros He. by rewrite He, lookup_empty in Ht.
  - intros H. apply I3. destruct (decide (t = TReceiver)) as [->|]; [by eexists|]. by rewrite lookup_insert_ne in H.
  - intros u f [H|H]; apply lookup_insert_Some in H as [[<- H]|[_ H]]; try (by eauto);
      destruct Hk as [-> |[e ->]]; try done. by injection H as <-.
  - intros f Hf. pose proof (I5 f Hf) as H. rewrite lookup_insert_ne; [done|]. intros ->. by apply (Hno f).
  - intros f Hf. pose proof (I7 f Hf) as H. rewrite lookup_insert_ne; [done|]. intros ->. by apply (Hno f).
  - intros u H. apply lookup_insert_Some in H as [[<- H]|[_ H]]; [|by apply I9]. by destruct Hk as [-> |[e ->]].
Qed.

Lemma inv_send s t f :
  inv s → s_tasks s !! t = Some (Sending f) →
  inv (mkState (s_pc s) (<[t := Done (Some f)]> (s_tasks s)) (s_failures s ++ [f])%list (s_root_done s) (s_router_running s)
         (s_closing s) (s_cause s) (s_errs s) (s_closed s)).
Proof.
  intros [I1 I2 I3 I4 I5 I6 I7 I8 I9] Ht. pose proof (I4 _ _ (or_introl Ht)) as Hf.
  set (s' := mkState _ _ _ _ _ _ _ _ _).
  assert (sent s' = (sent s ++ [f])%list) as Hsent by (unfold sent, s'; cbn [s_cause s_failures]; by rewrite app_assoc).
  assert (∀ g, s_tasks s !! f_task g = Some (Done (Some g)) → f_task g ≠ t) as Hne by (intros g H Hg; rewrite Hg in H; congruence).
  constructor; rewrite ?Hsent; cbn [s' s_tasks s_closing s_closed s_errs s_cause s_router_running s_root_done]; try done.
  - refine (at_pc_later s s' I1 eq_refl eq_refl eq_refl eq_refl eq_refl _ _ _).
    + eapply (later_task _ _ t); [rewrite Ht; by intros []|done|done|done|done].
    + eapply receiver_runs_insert; [by eexists|done].
    + intros He. by rewrite He, lookup_empty in Ht.
  - intros H. apply I3. destruct (decide (t = TReceiver)) as [->|]; [by eexists|]. by rewrite lookup_insert_ne in H.
  - intros u g [H|H]; apply lookup_insert_Some in H as [[<- H]|[_ H]]; simplify_eq; by eauto.
  - intros g [Hg| ->%list_elem_of_singleton]%elem_of_app; [|by rewrite Hf, lookup_insert_eq].
    rewrite lookup_insert_ne; [by apply I5|]. apply not_eq_sym, Hne, I5, Hg.
  - rewrite fmap_app. apply NoDup_app. split; [done|]. split; [|apply NoDup_singleton].
    intros u (g & -> & Hg)%list_elem_of_fmap Hu%list_elem_of_singleton. apply (Hne g); [by apply I5|congruence].
  - intros g Hg. rewrite lookup_insert_ne; [by apply I7|]. apply not_eq_sym, Hne, I7, Hg.
  - intros u H. apply lookup_insert_Some in H as [[<- H]|[_ H]]; [done|by apply I9].
Qed.

(** The steps of the main goroutine. *)
Lemma inv_start s : inv s → s_pc s = Start →
  inv (mkState WaitRunning start_tasks (s_failures s) (s_root_done s) (s_router_running s) (s_closing s) (s_cause s) (s_errs s) (s_closed s)).
Proof.
  intros [I1 I2 I3 I4 I5 I6 I7 I8 I9] Hpc. unfold at_pc in I1. rewrite Hpc in I1. destruct I1 as [Ht Hc].
  destruct (I2 Hc) as (H1 & H2 & H3).
  assert (∀ t k, start_tasks !! t = Some k → k = Running false) as Hr.
  { unfold start_tasks. intros t k H. cbn [list_to_map foldr uncurry fst snd] in H.
    destruct recovery; cbn [id] in H; repeat (apply lookup_insert_Some in H as [[_ <-]|[_ H]]; [done|]);
      by rewrite lookup_empty in H. }
  assert (start_tasks !! TReceiver = None) as Hn by (unfold start_tasks; destruct recovery; by vm_compute).
  assert (∀ f, f ∈ sent s → False) as Hs by (intros f Hf%I5; by rewrite Ht, lookup_empty in Hf).
  constructor; cbn [at_pc s_pc s_tasks s_closing s_closed s_errs s_cause s_router_running s_root_done]; try done.
  - intros [k Hk]. by rewrite Hn in Hk.
  - intros t f [H%Hr|H%Hr]; done.
  - intros f Hf. by destruct (Hs f Hf).
  - intros f Hf. rewrite H2 in Hf. by apply not_elem_of_nil in Hf.
  - by intros t H%Hr.
Qed.

Lemma inv_running s : inv s → s_pc s = WaitRunning → s_router_running s = true →
  inv (with_pc (with_task s TReceiver (Running false)) Serving).
Proof.
  intros [I1 I2 I3 I4 I5 I6 I7 I8 I9] Hpc Hrun. unfold at_pc in I1. rewrite Hpc in I1. destruct I1 as [Ht Hc].
  assert (∀ f, s_tasks s !! f_task f = Some (Done (Some f)) → TReceiver ≠ f_task f) as Hne by (intros f H Hf; rewrite <- Hf in H; congruence).
  constructor; cbn [at_pc with_pc with_task s_pc s_tasks s_closing s_closed s_errs s_cause s_router_running s_root_done]; try done.
  - intros t f [H|H]; apply lookup_insert_Some in H as [[_ H]|[_ H]]; by eauto.
  - intros f Hf. rewrite lookup_insert_ne; [by apply I5|]. by apply Hne, I5.
  - intros f Hf. rewrite lookup_insert_ne; [by apply I7|]. by apply Hne, I7.
  - intros t H. apply lookup_insert_Some in H as [[_ H]|[_ H]]; [done|]. apply I9 in H. by rewrite Hpc in H.
Qed.

Lemma inv_shut s cause q : inv s → s_pc s = WaitRunning ∨ s_pc s = Serving →
  (cause = None → q = s_failures s ∧ s_root_done s = true) →
  (∀ f, cause = Some f → s_failures s = f :: q) → inv (shut s cause q (receiver_runs s)).
Proof.
  intros [I1 I2 I3 I4 I5 I6 I7 I8 I9] Hpc Hnone Hsome. unfold at_pc in I1.
  assert (s_closing s = false) as Hc by (destruct Hpc as [Hpc|Hpc]; rewrite Hpc in I1; naive_solver).
  destruct (I2 Hc) as (H1 & H2 & H3).
  assert (sent (shut s cause q (receiver_runs s)) = sent s) as Hsent.
  { unfold sent, shut. cbn [s_cause s_failures]. rewrite H3. destruct cause as [f|]; [by rewrite (Hsome f eq_refl)|].
    by destruct (Hnone eq_refl) as [-> _]. }
  constructor; rewrite ?Hsent; cbn [shut s_pc s_tasks s_closing s_closed s_errs s_cause s_router_running s_root_done]; try done.
  - unfold at_pc, shut. cbn [s_pc s_closing s_closed]. split; [done|]. exists []. by split_and!.
  - intros _ Hn. by apply Hnone.
  - intros t H%I9. by destruct Hpc as [Hpc|Hpc]; rewrite Hpc in H.
Qed.

Lemma shutdown_NoDup r : NoDup (shutdown r).
Proof. destruct r; apply (bool_decide_eq_true_1 (NoDup _)); by vm_compute. Qed.

(** A command of the shutdown: the tasks change at most by a cancellation. *)
Lemma inv_command s c rest tasks' errs' closed' :
  inv s → s_pc s = Shutting (c :: rest) →
  let s' := mkState (Shutting rest) tasks' (s_failures s) (s_root_done s) (s_router_running s) (s_closing s) (s_cause s) errs' closed' in
  later s s' → executed s' c → (∀ t k, tasks' !! t = Some k → s_tasks s !! t = Some k ∨ (k = Running true ∧ c = Cancel t)) →
  (∀ t, is_Some (tasks' !! t) ↔ is_Some (s_tasks s !! t)) →
  (∀ f, Some (OfTask f) ∈ errs' → Some (OfTask f) ∈ s_errs s ∨ s_tasks s !! f_task f = Some (Done (Some f))) →
  closed' = (s_closed s ++ closes [c])%list → inv s'.
Proof.
  intros [I1 I2 I3 I4 I5 I6 I7 I8 I9] Hpc s' L He Ht Hdom Herr Hcl. unfold at_pc in I1. rewrite Hpc in I1. destruct I1 as (Hc & pre & Hp & Hex & Hcs).
  assert (receiver_runs s' = receiver_runs s) as Hr by (unfold receiver_runs, s'; apply bool_decide_ext; apply Hdom).
  destruct L as (L1 & L2 & L3 & L4).
  assert (∀ f, s_tasks s !! f_task f = Some (Done (Some f)) → tasks' !! f_task f = Some (Done (Some f))) as Hdone.
  { intros f H. rewrite <- H. apply L1. by rewrite H. }
  constructor; cbn [s' s_tasks s_closing s_closed s_errs s_cause s_router_running s_root_done]; try done.
  - unfold at_pc. cbn [s' s_pc s_closing s_closed]. split; [done|]. exists (pre ++ [c])%list. rewrite Hr, Hp, <- app_assoc. split; [done|]. split.
    + apply Forall_app. split; [|by apply Forall_singleton]. by apply (Forall_later s s' _ (conj L1 (conj L2 (conj L3 L4)))).
    + rewrite Hcl, Hcs. unfold closes. by rewrite omap_app.
  - congruence.
  - intros H. apply I3. by apply Hdom.
  - intros t f [H%Ht|H%Ht]; destruct H as [H|[? _]]; try done; by eauto.
  - intros f Hf. apply Hdone. by apply I5.
  - intros f Hf. apply Hdone. apply Herr in Hf as [Hf|Hf]; [by apply I7|done].
  - intros t H. cbn [told_to_stop s_pc]. destruct (Ht _ _ H) as [H'|[_ ->]].
    + apply I9 in H'. rewrite Hpc in H'. cbn [told_to_stop] in H'. by apply not_elem_of_cons in H' as [_ ?].
    + pose proof (shutdown_NoDup (receiver_runs s)) as Hnd. rewrite Hp in Hnd. by apply NoDup_app in Hnd as (_ & _ & [? _]%NoDup_cons).
Qed.

Lemma lifecycle_step_inv s s' : step s s' → inv s → inv s'.
Proof.
  intros Hs I. destruct Hs as [|Hr|t c Ht|t c e Ht|t f Ht Hl|Hpc|Hpc Hr|Hpc Hd|f q Hpc Hq|t rest Hpc|t err rest Hpc Ht|t rest Hpc Ht|p err rest Hpc|Hpc].
  - by destruct I.
  - by destruct I.
  - eapply inv_task; [done|exact Ht|by left].
  - eapply inv_task; [done|exact Ht|right; by eexists].
  - by apply inv_send.
  - by apply inv_start.
  - by apply inv_running.
  - by apply inv_shut.
  - apply inv_shut; [done|done|done|]. by intros ? [= <-].
  - apply (inv_command s (Cancel t)); try done.
    + unfold later. cbn [s_tasks s_errs s_closed]. split_and!; try done.
      * intros u Hu. repeat case_match; try done. rewrite lookup_insert_ne; [done|]. intros ->.
        match goal with H : s_tasks s !! _ = _ |- _ => by rewrite H in Hu end.
      * intros u Hu. repeat case_match; try done. intros H1%lookup_insert_Some. naive_solver.
    + cbn [executed s_tasks]. intros Hx. destruct (s_tasks s !! t) as [[c|f|err]|] eqn:E; by simplify_map_eq.
    + intros u k Hk. repeat case_match; auto. apply lookup_insert_Some in Hk as [[-> <-]|[_ Hk]]; auto.
    + intros u. repeat case_match; try done. destruct (decide (u = t)) as [->|]; [|by rewrite lookup_insert_ne].
      rewrite lookup_insert_eq. split; by eauto.
    + auto.
    + by rewrite app_nil_r.
  - apply (inv_command s (Wait t)); try done.
    + unfold later, add_err. cbn [s_tasks s_errs s_closed]. split_and!; try done. intros i Hi. apply elem_of_app. by left.
    + cbn [executed s_tasks s_errs]. rewrite Ht. split; [done|]. intros f [= ->]. apply elem_of_app. right. by left.
    + auto.
    + intros f [Hf|Hf%list_elem_of_singleton]%elem_of_app; [by left|right]. destruct err as [g|]; [|done].
      cbn in Hf. injection Hf as ->. by rewrite (inv_own _ I t g (or_intror Ht)).
    + by rewrite app_nil_r.
  - apply (inv_command s (Wait t)); try done.
    + unfold later, add_err. cbn [s_tasks s_errs s_closed]. split_and!; try done. intros i Hi. apply elem_of_app. by left.
    + cbn [executed s_tasks s_errs]. by rewrite Ht.
    + auto.
    + intros f [Hf|Hf%list_elem_of_singleton]%elem_of_app; [by left|done].
    + by rewrite app_nil_r.
  - apply (inv_command s (Close p)); try done.
    + unfold later, add_err. cbn [s_tasks s_errs s_closed]. split_and!; try done; intros i Hi; apply elem_of_app; by left.
    + cbn [executed s_closed]. apply elem_of_app. right. by left.
    + auto.
    + intros f [Hf|Hf%list_elem_of_singleton]%elem_of_app; [by left|]. by destruct err.
  - destruct I as [I1 I2 I3 I4 I5 I6 I7 I8 I9]. constructor; try done.
    unfold at_pc in *. rewrite Hpc in I1. cbn [with_pc s_pc s_closing s_closed s_cause s_errs]. destruct I1 as (Hc & pre & Hp & Hex & Hcs).
    rewrite app_nil_r in Hp. subst pre. by split_and!.
Qed.

Lemma lifecycle_reachable_inv s : rtc step init s → inv s.
Proof. intros H. exact (rtc_invariant _ _ lifecycle_step_inv _ _ H lifecycle_init_inv). Qed.

(** ** What the shutdown has done by the time a part is closed *)

(** The commands before the first [Close p]. *)
Fixpoint before (p : part) (l : list command) : list command :=
  match l with
  | [] => []
  | Close q :: l => if bool_decide (q = p) then [] else Close q :: before p l
  | c :: l => c :: before p l
  end.

Lemma before_executed s pre rest p :
  Forall (executed s) pre → s_closed s = closes pre → p ∈ s_closed s → Forall (executed s) (before p (pre ++ rest)).
Proof.
  intros Hex Hcs Hp. rewrite Hcs in Hp. clear Hcs. induction Hex as [|c pre Hc Hex IH]; [by apply not_elem_of_nil in Hp|].
  destruct c as [t|t|q]; cbn [before app closes omap list_omap] in *; [constructor; [done|by apply IH]..|].
  case_bool_decide as Hq; [constructor|]. constructor; [done|]. apply IH. unfold closes in Hp. cbn [omap list_omap] in Hp.
  by apply elem_of_cons in Hp as [->|Hp].
Qed.

Lemma closed_before s p : inv s → p ∈ s_closed s → Forall (executed s) (before p (shutdown (receiver_runs s))).
Proof.
  intros I Hp. pose proof (inv_pc _ I) as H. unfold at_pc in H.
  destruct (s_closing s) eqn:Ec; [|destruct (inv_quiet _ I Ec) as (Hcs & _); rewrite Hcs in Hp; by apply not_elem_of_nil in Hp].
  destruct (s_pc s) as [| | |rest|r]; [naive_solver..| |].
  - destruct H as (_ & pre & -> & Hex & Hcs). by apply before_executed.
  - destruct H as (_ & Hex & Hcs & _). rewrite <- (app_nil_r (shutdown _)). by apply before_executed.
Qed.

(** A task that was told to stop was told so in its turn. *)
Lemma cancelled_before s t :
  inv s → s_tasks s !! t = Some (Running true) →
  ∃ pre rest, shutdown (receiver_runs s) = (pre ++ rest)%list ∧ Cancel t ∉ rest ∧ Forall (executed s) pre.
Proof.
  intros I Ht. pose proof (inv_pc _ I) as H. pose proof (inv_cancelled _ I t Ht) as Hc. unfold at_pc in H.
  destruct (s_pc s) as [| | |rest|r]; try done.
  - destruct H as (_ & pre & Hp & Hex & _). by exists pre, rest.
  - destruct H as (_ & Hex & _). exists (shutdown (receiver_runs s)), []. rewrite app_nil_r. split_and!; try done. by apply not_elem_of_nil.
Qed.

Lemma bus_before_admin r n : Cancel TAdmin ∉ skipn n (shutdown r) → Close PBus ∈ firstn n (shutdown r).
Proof.
  intros H. apply (bool_decide_eq_true_1 (Close PBus ∈ _)). apply (bool_decide_eq_true_2 (Cancel TAdmin ∉ _)) in H. revert H.
  destruct r; do 17 (destruct n as [|n]; [by vm_compute|]); intros _; by vm_compute.
Qed.

(** C16: the order of the lifecycle, in every interleaving.  The receiver serves only once the
    router delivers to every sink.  The router is closed only after the
    receiver has stopped, or its socket was closed when it never ran; the sinks only after the
    router, the lag poller, the health sampler and the recovery loop have ended; the bus only
    after the sinks; and the admin server is told to stop only after the bus is closed, having
    reported the shutdown all along. *)
Theorem shutdown_order s :
  rtc step init s →
  (is_Some (s_tasks s !! TReceiver) → s_router_running s = true) ∧
  (PRouter ∈ s_closed s → ended (s_tasks s !! TReceiver) ∧ (s_tasks s !! TReceiver = None → PReceiverSocket ∈ s_closed s)) ∧
  (PSinks ∈ s_closed s → PRouter ∈ s_closed s ∧ Forall (λ t, ended (s_tasks s !! t)) [TRouter; TRecovery; TLag; THealth]) ∧
  (PBus ∈ s_closed s → PSinks ∈ s_closed s) ∧
  (s_tasks s !! TAdmin = Some (Running true) → PBus ∈ s_closed s) ∧
  (s_closed s ≠ [] → s_closing s = true).
Proof.
  intros I%lifecycle_reachable_inv.
  assert (receiver_runs s = true ∨ (receiver_runs s = false ∧ s_tasks s !! TReceiver = None)) as Hr.
  { unfold receiver_runs. case_bool_decide as H; [by left|right]. split; [done|]. by apply eq_None_not_Some. }
  split_and!.
  - apply (inv_receiver _ I).
  - intros H%(closed_before _ _ I). destruct Hr as [Hr|[Hr Hn]]; rewrite Hr in H; cbn in H.
    + repeat apply Forall_cons in H as [? H]. cbn in *. split; [naive_solver|].
      intros Hn. unfold receiver_runs in Hr. by rewrite Hn in Hr.
    + repeat apply Forall_cons in H as [? H]. by rewrite Hn.
  - intros H%(closed_before _ _ I). destruct Hr as [Hr|[Hr Hn]]; rewrite Hr in H; cbn in H;
      repeat apply Forall_cons in H as [? H]; cbn in *; (split; [done|]); repeat constructor; naive_solver.
  - intros H%(closed_before _ _ I). destruct Hr as [Hr|[Hr Hn]]; rewrite Hr in H; cbn in H;
      repeat apply Forall_cons in H as [? H]; done.
  - intros H. destruct (cancelled_before _ _ I H) as (pre & rest & Hp & Hc & Hex).
    assert (Close PBus ∈ pre) as Hin; [|rewrite Forall_forall in Hex; by apply (Hex _ Hin)].
    assert (pre = firstn (length pre) (shutdown (receiver_runs s))) as -> by (by rewrite Hp, take_app_length).
    apply (bus_before_admin _ (length pre)). by rewrite Hp, drop_app_length.
  - intros H. destruct (s_closing s) eqn:Ec; [done|]. by destruct (inv_quiet _ I Ec) as (Hcs & _).
Qed.


(** ** Nothing blocks *)

Lemma all_tids (l : list tid) : NoDup l → (length l ≤ 6)%nat.
Proof.
  intros Hn. apply (submseteq_length l [TAdmin; TRouter; TLag; THealth; TRecovery; TReceiver]).
  apply NoDup_submseteq; [done|]. intros [] _; set_solver.
Qed.

Lemma failures_room s t f : inv s → s_tasks s !! t = Some (Sending f) → (length (s_failures s) < failures_cap)%nat.
Proof.
  intros I _. pose proof (all_tids _ (inv_once _ I)) as H. unfold sent in H.
  rewrite length_fmap, length_app in H. unfold failures_cap. lia.
Qed.

Lemma wait_after_cancel r n t rest : skipn n (shutdown r) = Wait t :: rest → Cancel t ∈ firstn n (shutdown r).
Proof.
  intros H. apply (bool_decide_eq_true_1 (Cancel t ∈ _)). revert H.
  destruct r; do 17 (destruct n as [|n]; [intros H; vm_compute in H; try done; injection H as <- <-; by vm_compute|]); done.
Qed.

Lemma waits_for_stopped s t rest : inv s → s_pc s = Shutting (Wait t :: rest) → s_tasks s !! t ≠ Some (Running false).
Proof.
  intros I Hpc. pose proof (inv_pc _ I) as H. unfold at_pc in H. rewrite Hpc in H. destruct H as (_ & pre & Hp & Hex & _).
  assert (Cancel t ∈ pre) as Hin; [|rewrite Forall_forall in Hex; exact (Hex _ Hin)].
  assert (pre = firstn (length pre) (shutdown (receiver_runs s))) as -> by (by rewrite Hp, take_app_length).
  apply (wait_after_cancel _ (length pre) t rest). by rewrite Hp, drop_app_length.
Qed.

(** A task that was told to stop ends, and sends its failure if it has one. *)
Lemma task_can_end s t :
  inv s → s_tasks s !! t ≠ Some (Running false) →
  ∃ s', rtc step s s' ∧ s_pc s' = s_pc s ∧ ended (s_tasks s' !! t).
Proof.
  intros I Ht. destruct (s_tasks s !! t) as [[c|f|err]|] eqn:E.
  - exists (with_task s t (Done None)). split; [apply rtc_once; by eapply task_ends|]. split; [done|]. cbn. by rewrite lookup_insert_eq.
  - eexists. split; [apply rtc_once, (task_sends _ t f); [done|by eapply failures_room]|]. split; [done|]. cbn. by rewrite lookup_insert_eq.
  - exists s. by rewrite E.
  - exists s. by rewrite E.
Qed.

Lemma shutdown_ends rest : ∀ s, inv s → s_pc s = Shutting rest → ∃ s' r, rtc step s s' ∧ s_pc s' = Returned r.
Proof.
  induction rest as [|c rest IH]; intros s I Hpc.
  { eexists _, _. split; [apply rtc_once; by apply main_return|done]. }
  assert (∃ s1, rtc step s s1 ∧ s_pc s1 = Shutting rest) as (s1 & H1 & Hpc1).
  { destruct c as [t|t|p].
    - eexists. split; [apply rtc_once; by eapply main_cancel|done].
    - destruct (task_can_end s t I (waits_for_stopped _ _ _ I Hpc)) as (s1 & H1 & Hpc1 & He). rewrite Hpc in Hpc1.
      destruct (s_tasks s1 !! t) as [[c|f|err]|] eqn:E; try done.
      + eexists. split; [eapply rtc_r; [exact H1|by eapply main_wait]|done].
      + eexists. split; [eapply rtc_r; [exact H1|by eapply main_no_task]|done].
    - eexists. split; [apply rtc_once; by apply (main_close _ p None)|done]. }
  destruct (IH s1 (rtc_invariant _ _ lifecycle_step_inv _ _ H1 I) Hpc1) as (s2 & r & H2 & Hr).
  exists s2, r. split; [by etrans|done].
Qed.

(** A shutdown ends.  [run] never waits for a task it has not told to stop, a task that failed
    always has room on [failures] to say so, and once a signal has come, from wherever the main
    goroutine and the tasks are, there is a way for [run] to return. *)
Lemma run_ends s :
  rtc step init s →
  (∀ t rest, s_pc s = Shutting (Wait t :: rest) → s_tasks s !! t ≠ Some (Running false)) ∧
  (∀ t f, s_tasks s !! t = Some (Sending f) → (length (s_failures s) < failures_cap)%nat) ∧
  (s_root_done s = true → ∃ s' r, rtc step s s' ∧ s_pc s' = Returned r).
Proof.
  intros I%lifecycle_reachable_inv. split; [|split]; [intros t rest; by apply waits_for_stopped|intros t f; by apply failures_room|].
  intros Hd.
  assert (∀ s, inv s → s_pc s = WaitRunning ∨ s_pc s = Serving → s_root_done s = true → ∃ s' r, rtc step s s' ∧ s_pc s' = Returned r) as Hsel.
  { intros s1 I1 Hpc H1. pose proof (main_signal s1 Hpc H1) as Hs.
    destruct (shutdown_ends _ _ (lifecycle_step_inv _ _ Hs I1) eq_refl) as (s2 & r & H2 & Hr). exists s2, r. split; [by eapply rtc_l|done]. }
  destruct (s_pc s) as [| | |rest|r] eqn:Hpc; [|apply Hsel; auto..| |by exists s, r].
  - pose proof (main_start s Hpc) as Hs.
    destruct (Hsel _ (lifecycle_step_inv _ _ Hs I) (or_introl eq_refl) Hd) as (s2 & r & H2 & Hr). exists s2, r. split; [by eapply rtc_l|done].
  - by eapply shutdown_ends.
Qed.

(** ** What [run] returns *)

Lemma outcome_None cause errs : outcome cause errs = None ↔ cause = None ∧ Forall (λ i, i = None) errs.
Proof.
  unfold outcome, dropCause. destruct cause as [f|].
  - split; [|by intros []]. intros H. assert (errors_join [f_error <$> Some f; errors_join ((λ i, Some (item_error i)) <$>
      filter (λ i, kept (Some f) i = true) (omap id errs))] = None) as Hj by (by destruct (errors_join ((λ i, Some (item_error i)) <$> _))).
    apply errors_join_None, Forall_cons in Hj as [Hj _]. done.
  - assert (filter (λ i, kept None i = true) (omap id errs) = omap id errs) as ->.
    { induction (omap id errs) as [|i l IH]; [done|]. rewrite filter_cons_True, IH; [done|]. by destruct i. }
    destruct (errors_join _) as [e|] eqn:E.
    + split; [|]. { intros H. by apply errors_join_None, Forall_cons in H as [_ [H _]%Forall_cons]. }
      intros [_ H]. exfalso. assert (omap id errs = []) as Hn; [|by rewrite Hn in E].
      clear E. induction H as [|i l -> _ IH]; [done|]. exact IH.
    + split; [intros _; split; [done|]|done]. apply errors_join_None in E. rewrite Forall_forall. intros [i|] Hi; [|done].
      exfalso. rewrite Forall_forall in E. assert (Some (item_error i) = None) as He; [|done]. apply E. apply list_elem_of_fmap.
      exists i. split; [done|]. apply list_elem_of_omap. by exists (Some i).
Qed.

(** C15: what [run] returns: by then every task has ended, the router, the sinks and the bus are
    closed, and the receiver's socket too if it never ran.  It returns nil exactly when no task
    failed and no call of the shutdown returned an error, and then only because of a signal; the
    failure that caused a shutdown is reported once, ahead of the others. *)
Theorem run_returns s r :
  rtc step init s → s_pc s = Returned r →
  (∀ t, ended (s_tasks s !! t)) ∧ PRouter ∈ s_closed s ∧ PSinks ∈ s_closed s ∧ PBus ∈ s_closed s ∧
  (s_tasks s !! TReceiver = None → PReceiverSocket ∈ s_closed s) ∧
  (r = None ↔ (∀ t f, s_tasks s !! t ≠ Some (Done (Some f))) ∧ (∀ e, Some (OfCall e) ∉ s_errs s)) ∧
  (r = None → s_root_done s = true) ∧
  (∀ c f, s_cause s = Some c → OfTask f ∈ dropCause (s_errs s) (s_cause s) → f_task f ≠ f_task c).
Proof.
  intros I%lifecycle_reachable_inv Hpc. pose proof (inv_pc _ I) as H. unfold at_pc in H. rewrite Hpc in H.
  destruct H as (Hc & Hex & Hcl & ->). rewrite Forall_forall in Hex.
  assert (∀ t, executed s (Wait t)) as Hw.
  { intros t. destruct (receiver_runs s) eqn:Er; rewrite ?Er in Hex; [apply Hex; destruct t; vm_compute; repeat constructor|].
    destruct t; try by (apply Hex; vm_compute; repeat constructor). unfold receiver_runs in Er. apply bool_decide_eq_false in Er.
    apply eq_None_not_Some in Er. cbn [executed]. by rewrite Er. }
  split_and!.
  - intros t. apply Hw.
  - apply (Hex (Close PRouter)). destruct (receiver_runs s); vm_compute; repeat constructor.
  - apply (Hex (Close PSinks)). destruct (receiver_runs s); vm_compute; repeat constructor.
  - apply (Hex (Close PBus)). destruct (receiver_runs s); vm_compute; repeat constructor.
  - intros Hn. apply (Hex (Close PReceiverSocket)). unfold receiver_runs. rewrite Hn. rewrite bool_decide_false by (by intros []). by left.
  - rewrite outcome_None. split.
    + intros [Hca He]. rewrite Forall_forall in He. split; [|intros e H; by apply He in H].
      intros t f Hd. by apply (proj2 (Hw t)), He in Hd.
    + intros [Ht He]. split.
      * destruct (s_cause s) as [f|] eqn:Ec; [|done]. exfalso. apply (Ht (f_task f) f), (inv_sent _ I). unfold sent. rewrite Ec. by left.
      * apply Forall_forall. intros [[f|e]|] Hi; [|by apply He in Hi|done]. exfalso. by apply (Ht (f_task f) f), (inv_errs _ I).
  - intros [Hca _]%outcome_None. by apply (inv_clean _ I).
  - intros c f -> Hf. unfold dropCause in Hf. apply list_elem_of_filter in Hf as [Hk _]. cbn in Hk.
    by apply negb_true_iff, bool_decide_eq_false in Hk.
Qed.
End Run.

(** ** Witnesses *)

Ltac go := match goal with |- rtc _ ?s _ => let s' := eval vm_compute in s in change s with s' end.
Tactic Notation "take_step" uconstr(l) := go; eapply rtc_l; [apply l; first [by vm_compute | vm_compute; lia]|].

(** A start, the failure of the receiver, and the shutdown it causes. *)
Definition ex_failure : failure := mkFailure TReceiver (EWrap "receiver" (errorf "serve")).

Lemma ex_run : ∃ s, rtc (step false) init s ∧ s_pc s = Returned (Some (f_error ex_failure)) ∧ s_root_done s = true.
Proof.
  eexists. split.
  - take_step (main_start false). take_step (env_router false). take_step (main_running false).
    take_step (task_fails false _ TReceiver false (errorf "serve")). take_step (task_sends false _ TReceiver ex_failure).
    go. eapply rtc_l; [apply (main_failure false _ ex_failure []); [right; by vm_compute|by vm_compute]|].
    take_step (main_cancel false _ TReceiver). go. eapply rtc_l; [eapply (main_wait false _ TReceiver); by vm_compute|].
    take_step (main_close false _ PRouter None).
    take_step (main_cancel false _ TRouter). take_step (task_ends false _ TRouter true).
    go. eapply rtc_l; [eapply (main_wait false _ TRouter); by vm_compute|].
    take_step (main_cancel false _ TRecovery). take_step (main_no_task false _ TRecovery).
    take_step (main_cancel false _ TLag). take_step (task_ends false _ TLag true).
    go. eapply rtc_l; [eapply (main_wait false _ TLag); by vm_compute|].
    take_step (main_cancel false _ THealth). take_step (task_ends false _ THealth true).
    go. eapply rtc_l; [eapply (main_wait false _ THealth); by vm_compute|].
    take_step (main_close false _ PSinks None). take_step (main_close false _ PBus None).
    take_step (env_signal false).
    take_step (main_cancel false _ TAdmin). take_step (task_ends false _ TAdmin true).
    go. eapply rtc_l; [eapply (main_wait false _ TAdmin); by vm_compute|].
    take_step (main_return false). go. apply rtc_refl.
  - by vm_compute.
Qed.

Lemma shutdown_order_witness : ∃ s r, s_pc s = Returned r ∧ (PBus ∈ s_closed s → PSinks ∈ s_closed s).
Proof.
  destruct ex_run as (s & H & Hr & _). exists s. eexists. split; [exact Hr|].
  exact (proj1 (proj2 (proj2 (proj2 (shutdown_order false s H))))).
Defined.

Lemma run_ends_witness : ∃ s' r, rtc (step false) init s' ∧ s_pc s' = Returned r.
Proof.
  set (s := mkState Start ∅ [] true false false None [] []).
  assert (rtc (step false) init s) as H by (apply rtc_once, env_signal).
  destruct (proj2 (proj2 (run_ends false s H)) eq_refl) as (s' & r & H' & Hr).
  exists s', r. split; [by etrans|exact Hr].
Defined.

Lemma run_returns_witness : ∃ s r, s_pc s = Returned r ∧ r ≠ None ∧ PSinks ∈ s_closed s.
Proof.
  destruct ex_run as (s & H & Hr & _). exists s. eexists. split; [exact Hr|]. split; [done|].
  exact (proj1 (proj2 (proj2 (run_returns false s _ H Hr)))).
Defined.
