(* ===== verification/Embedded.v ===== *)
(** * [internal/bus/natsjs/embedded.go], and the construction of the bus over it

    [reserveStore], [StartEmbedded], [StopEmbedded] and [releaseStore] as a step relation over
    the threads of the process, the table of open stores and the servers that are running: a
    call is cut where it takes or leaves the table's mutex and where a server starts or ends.
    A server is the number of its start; a directory is its absolute name.  Then [New] and
    [connect] of driver.go: which resources a bus holds, on every path. *)

From S2P Require Import Prelude.
From S2P Require Import Errors.
From S2P Require Import GoText.
From S2P Require Import Bus.
From S2P Require Import Config.
From S2P Require Import Nats.

(** ** The store directories *)

(** A call in progress. *)
Inductive call : Type :=
  | Reserved (dir : string)                (* StartEmbedded, after reserveStore *)
  | Launching (dir : string) (srv : nat)   (* its server was started *)
  | Failing (dir : string)                 (* startServer failed; before releaseStore *)
  | Stopping (srv : nat)                   (* StopEmbedded, before the shutdown *)
  | Stopped (srv : nat).                   (* ... after WaitForShutdown *)

Record stores := mkStores {
  openStores : gmap string (option nat);   (* nil while the server starts *)
  running : gmap nat string;               (* the servers that use a directory *)
  calls : gmap nat call;                   (* the calls in progress, by thread *)
  started : nat }.                         (* servers started so far *)

Definition with_call (s : stores) (t : nat) (c : call) : stores :=
  mkStores (openStores s) (running s) (<[t := c]> (calls s)) (started s).
Definition returns (s : stores) (t : nat) : stores :=
  mkStores (openStores s) (running s) (delete t (calls s)) (started s).

(** [delete(openStores.servers, dir)] for the directory of [srv]. *)
Definition forget (srv : nat) (m : gmap string (option nat)) : gmap string (option nat) :=
  filter (λ kv, kv.2 ≠ Some srv) m.

Inductive step (s : stores) : stores → Prop :=
  | step_reserve t dir :                   (* reserveStore takes a free directory *)
      calls s !! t = None → openStores s !! dir = None →
      step s (with_call (mkStores (<[dir := None]> (openStores s)) (running s) (calls s) (started s)) t (Reserved dir))
  | step_taken t dir :                     (* ... and returns an error on another *)
      calls s !! t = None → is_Some (openStores s !! dir) → step s s
  | step_launch t dir :                    (* server.NewServer and Start *)
      calls s !! t = Some (Reserved dir) →
      step s (with_call (mkStores (openStores s) (<[started s := dir]> (running s)) (calls s) (S (started s))) t
                (Launching dir (started s)))
  | step_no_server t dir :                 (* NewServer fails *)
      calls s !! t = Some (Reserved dir) → step s (with_call s t (Failing dir))
  | step_not_ready t dir srv :             (* shut down after readyTimeout *)
      calls s !! t = Some (Launching dir srv) →
      step s (with_call (mkStores (openStores s) (delete srv (running s)) (calls s) (started s)) t (Failing dir))
  | step_release t dir :                   (* releaseStore, and StartEmbedded returns the error *)
      calls s !! t = Some (Failing dir) →
      step s (returns (mkStores (delete dir (openStores s)) (running s) (calls s) (started s)) t)
  | step_register t dir srv :              (* StartEmbedded returns the server *)
      calls s !! t = Some (Launching dir srv) →
      step s (returns (mkStores (<[dir := Some srv]> (openStores s)) (running s) (calls s) (started s)) t)
  | step_stop t srv :                      (* StopEmbedded of a server that was returned, maybe stopped already *)
      calls s !! t = None → (srv < started s)%nat → (∀ u d, calls s !! u ≠ Some (Launching d srv)) →
      step s (with_call s t (Stopping srv))
  | step_shutdown t srv :                  (* Shutdown and WaitForShutdown *)
      calls s !! t = Some (Stopping srv) →
      step s (with_call (mkStores (openStores s) (delete srv (running s)) (calls s) (started s)) t (Stopped srv))
  | step_forget t srv :                    (* the loop over the table *)
      calls s !! t = Some (Stopped srv) →
      step s (returns (mkStores (forget srv (openStores s)) (running s) (calls s) (started s)) t).

Definition init : stores := mkStores ∅ ∅ ∅ 0.

(** A thread that starts a server on [dir]. *)
Definition starts_on (dir : string) (c : call) : Prop :=
  match c with Reserved d | Launching d _ | Failing d => d = dir | _ => False end.

Definition some_call (s : stores) (P : call → Prop) : Prop := ∃ t c, calls s !! t = Some c ∧ P c.

Record inv (s : stores) : Prop := {
  inv_start t c dir : calls s !! t = Some c → starts_on dir c → openStores s !! dir = Some None;
  inv_one t u c c' dir : calls s !! t = Some c → calls s !! u = Some c' → starts_on dir c → starts_on dir c' → t = u;
  inv_reserved dir : openStores s !! dir = Some None → some_call s (starts_on dir);
  inv_running srv dir : running s !! srv = Some dir →
    openStores s !! dir = Some (Some srv) ∨ some_call s (λ c, c = Launching dir srv);
  inv_launching t dir srv : calls s !! t = Some (Launching dir srv) → running s !! srv = Some dir;
  inv_held dir srv : openStores s !! dir = Some (Some srv) →
    running s !! srv = Some dir ∨ some_call s (λ c, c = Stopped srv);
  inv_stopped t srv : calls s !! t = Some (Stopped srv) → running s !! srv = None;
  inv_stopping t u d srv : calls s !! t = Some (Stopping srv) ∨ calls s !! t = Some (Stopped srv) →
    calls s !! u ≠ Some (Launching d srv);
  inv_bound srv : is_Some (running s !! srv) → (srv < started s)%nat;
  inv_bound_call t srv : calls s !! t = Some (Stopping srv) ∨ calls s !! t = Some (Stopped srv) → (srv < started s)%nat;
  inv_bound_open srv dir : openStores s !! dir = Some (Some srv) → (srv < started s)%nat }.

Ltac elims :=
  repeat match goal with
  | H : _ ∧ _ |- _ => destruct H
  | H : _ ∨ _ |- _ => destruct H
  | H : is_Some _ |- _ => destruct H
  | H : <[_ := _]> _ !! _ = Some _ |- _ => apply lookup_insert_Some in H
  | H : delete _ _ !! _ = Some _ |- _ => apply lookup_delete_Some in H
  | H : filter _ _ !! _ = Some _ |- _ => apply map_lookup_filter_Some in H
  end; simplify_eq; cbn [starts_on fst snd] in *; simplify_eq.

Lemma inv_init : inv init.
Proof. constructor; cbn [calls openStores running started init]; intros; elims; by simplify_map_eq. Qed.

(** A call other than the one the thread had is still there when that thread goes on. *)
Lemma some_call_with s o r n t c (P : call → Prop) :
  some_call s P → (∀ c, calls s !! t = Some c → ¬ P c) → some_call (with_call (mkStores o r (calls s) n) t c) P.
Proof.
  intros (u & c' & Hu & HP) Ht. exists u, c'. split; [|done]. cbn [calls with_call].
  rewrite lookup_insert_ne; [done|]. intros ->. by eapply Ht.
Qed.
Lemma some_call_new s t c (P : call → Prop) : P c → some_call (with_call s t c) P.
Proof. intros HP. exists t, c. split; [|done]. cbn [calls with_call]. by rewrite lookup_insert_eq. Qed.
Lemma some_call_returns s o r n t (P : call → Prop) :
  some_call s P → (∀ c, calls s !! t = Some c → ¬ P c) → some_call (returns (mkStores o r (calls s) n) t) P.
Proof.
  intros (u & c' & Hu & HP) Ht. exists u, c'. split; [|done]. cbn [calls returns].
  rewrite lookup_delete_ne; [done|]. intros ->. by eapply Ht.
Qed.

(** A step that leaves the table and the servers alone. *)
Lemma with_call_eta s t c : with_call s t c = with_call (mkStores (openStores s) (running s) (calls s) (started s)) t c.
Proof. by destruct s. Qed.

Ltac at_key a b := let E := fresh in destruct (decide (a = b)) as [E|E]; [try subst a; try subst b|].

Ltac open_step :=
  cbn [calls openStores running started with_call returns] in *; unfold forget in *; intros; elims;
  try match goal with
  | |- _ !! _ ≠ _ => intros ?; elims
  | |- <[?a := _]> _ !! ?b = _ => at_key a b; simplify_map_eq
  | |- delete ?a _ !! ?b = _ => at_key a b; simplify_map_eq
  | |- <[?a := _]> _ !! ?b = _ ∨ _ => at_key a b; simplify_map_eq
  | |- delete ?a _ !! ?b = _ ∨ _ => at_key a b; simplify_map_eq
  end.

(** The parts of the invariant that say which calls must exist, once the rest is by cases. *)
Ltac calls_kept :=
  match goal with
  | |- some_call (with_call _ _ _) _ =>
      first [by apply some_call_new | apply some_call_with; [by eauto|intros; simplify_eq/=; congruence]]
  | |- some_call (returns _ _) _ => apply some_call_returns; [by eauto|intros; simplify_eq/=; congruence]
  end.

Lemma one_launching s t u d d' srv :
  inv s → calls s !! t = Some (Launching d srv) → calls s !! u = Some (Launching d' srv) → t = u ∧ d = d'.
Proof.
  intros I Ht Hu. pose proof (inv_launching _ I _ _ _ Ht). pose proof (inv_launching _ I _ _ _ Hu).
  assert (d = d') as -> by congruence. split; [|done]. by eapply (inv_one _ I _ _ _ _ d' Ht Hu).
Qed.

Lemma one_starting s t u c c' d :
  inv s → calls s !! t = Some c → calls s !! u = Some c' → t ≠ u → starts_on d c → starts_on d c' → False.
Proof. intros I Ht Hu Hne Hs Hs'. by apply Hne, (inv_one _ I _ _ _ _ d Ht Hu). Qed.

(** What the starting calls say of the table. *)
Ltac learn H := let T := type of H in
  lazymatch goal with _ : T |- _ => fail | _ => pose proof H end.
Ltac starting :=
  match goal with
  | H1 : ∀ t c dir, calls ?s !! t = Some c → starts_on dir c → _ = _ |- _ =>
      repeat match goal with
      | Hc : calls s !! _ = Some ?c, Hs : starts_on ?d ?c |- _ => learn (H1 _ _ _ Hc Hs)
      | Hc : calls s !! _ = Some (Reserved _) |- _ => learn (H1 _ _ _ Hc eq_refl)
      | Hc : calls s !! _ = Some (Launching _ _) |- _ => learn (H1 _ _ _ Hc eq_refl)
      | Hc : calls s !! _ = Some (Failing _) |- _ => learn (H1 _ _ _ Hc eq_refl)
      end
  end.

(** Every server met so far is older than the next one. *)
Ltac bounds :=
  match goal with
  | H9 : ∀ srv, is_Some (running ?s !! srv) → _, H10 : ∀ t srv, calls ?s !! t = _ ∨ calls ?s !! t = _ → (_ < _)%nat,
    H11 : ∀ srv dir, openStores ?s !! dir = Some (Some srv) → (_ < _)%nat |- _ =>
      repeat match goal with
      | H : running s !! _ = Some _ |- _ => learn (H9 _ (mk_is_Some _ _ H))
      | H : calls s !! _ = Some (Stopping _) |- _ => learn (H10 _ _ (or_introl H))
      | H : calls s !! _ = Some (Stopped _) |- _ => learn (H10 _ _ (or_intror H))
      | H : openStores s !! _ = Some (Some _) |- _ => learn (H11 _ _ H)
      | H5 : ∀ t dir srv, calls s !! t = Some (Launching dir srv) → _, H : calls s !! _ = Some (Launching _ _) |- _ =>
          learn (H5 _ _ _ H)
      end
  end.

(** Every part of the invariant after a step. *)
Ltac by_cases :=
  open_step;
  try match goal with
  | H4 : ∀ srv dir, running ?s !! srv = Some dir → _ ∨ _, H : running ?s !! _ = Some _ |- _ ∨ some_call _ _ =>
      destruct (H4 _ _ H)
  | H6 : ∀ dir srv, openStores ?s !! dir = Some (Some srv) → _ ∨ _, H : openStores ?s !! _ = Some (Some _) |- _ ∨ some_call _ _ =>
      destruct (H6 _ _ H)
  end;
  try match goal with |- some_call (with_call _ _ ?c) (starts_on ?d) =>
      let d' := match c with Reserved ?x => x | Launching ?x _ => x | Failing ?x => x end in
      destruct (decide (d' = d)) as [->|]; [by apply some_call_new|] end;
  first [by eauto | by (starting; congruence) | by (bounds; lia) | calls_kept | right; calls_kept | left; by simplify_map_eq
        | match goal with
          | H2 : ∀ t u c c' dir, calls ?s !! t = Some c → calls ?s !! u = Some c' → _ |- _ =>
              first [by (eapply H2; [eassumption|eassumption|done|eassumption])
                    | by (eapply H2; [eassumption|eassumption|eassumption|done])]
          | H8 : ∀ t u d srv, calls ?s !! t = Some (Stopping srv) ∨ _ → _ |- _ => exfalso; eapply H8; by eauto
          end | idtac].

Lemma inv_reserve s t dir :
  inv s → calls s !! t = None → openStores s !! dir = None →
  inv (with_call (mkStores (<[dir := None]> (openStores s)) (running s) (calls s) (started s)) t (Reserved dir)).
Proof.
  intros I; pose proof I as [H1 H2 H3 H4 H5 H6 H7 H8 H9 H10 H11]; intros Ht; intros; constructor; by_cases.

Qed.

Lemma inv_launch s t dir :
  inv s → calls s !! t = Some (Reserved dir) →
  inv (with_call (mkStores (openStores s) (<[started s := dir]> (running s)) (calls s) (S (started s))) t (Launching dir (started s))).
Proof.
  intros I; pose proof I as [H1 H2 H3 H4 H5 H6 H7 H8 H9 H10 H11]; intros Ht; intros; constructor; by_cases.

Qed.

Lemma inv_no_server s t dir :
  inv s → calls s !! t = Some (Reserved dir) →
  inv (with_call (mkStores (openStores s) (running s) (calls s) (started s)) t (Failing dir)).
Proof.
  intros I; pose proof I as [H1 H2 H3 H4 H5 H6 H7 H8 H9 H10 H11]; intros Ht; intros; constructor; by_cases.

Qed.

Lemma inv_not_ready s t dir srv :
  inv s → calls s !! t = Some (Launching dir srv) →
  inv (with_call (mkStores (openStores s) (delete srv (running s)) (calls s) (started s)) t (Failing dir)).
Proof.
  intros I; pose proof I as [H1 H2 H3 H4 H5 H6 H7 H8 H9 H10 H11]; intros Ht; intros; constructor; by_cases.
  - exfalso. destruct (one_launching s t t0 dir dir0 srv0 I) as [? _]; done.
  - exfalso. pose proof (H1 _ _ _ Ht eq_refl). pose proof (H5 _ _ _ Ht).
    match goal with H : openStores s !! dir0 = _ |- _ => destruct (H6 _ _ H) as [?|(u & ? & Hu & ->)] end; [congruence|].
    by apply (H8 u t dir srv0 (or_intror Hu)).
Qed.

Lemma inv_release s t dir :
  inv s → calls s !! t = Some (Failing dir) →
  inv (returns (mkStores (delete dir (openStores s)) (running s) (calls s) (started s)) t).
Proof.
  intros I; pose proof I as [H1 H2 H3 H4 H5 H6 H7 H8 H9 H10 H11]; intros Ht; intros; constructor; by_cases.
  exfalso. by eapply (one_starting s t t0).
Qed.

Lemma inv_register s t dir srv :
  inv s → calls s !! t = Some (Launching dir srv) →
  inv (returns (mkStores (<[dir := Some srv]> (openStores s)) (running s) (calls s) (started s)) t).
Proof.
  intros I; pose proof I as [H1 H2 H3 H4 H5 H6 H7 H8 H9 H10 H11]; intros Ht; intros; constructor; by_cases.
  - exfalso. by eapply (one_starting s t t0).
  - left. match goal with H : running s !! srv0 = _ |- _ => destruct (H4 _ _ H) as [Ho|(u & ? & Hu & ->)] end.
    + by rewrite (H1 _ _ _ Ht eq_refl) in Ho.
    + assert (t = u) as <- by (by eapply (H2 t u _ _ dir0 Ht Hu)). congruence.
Qed.

Lemma inv_stop s t srv :
  inv s → calls s !! t = None → (srv < started s)%nat → (∀ u d, calls s !! u ≠ Some (Launching d srv)) →
  inv (with_call (mkStores (openStores s) (running s) (calls s) (started s)) t (Stopping srv)).
Proof.
  intros I; pose proof I as [H1 H2 H3 H4 H5 H6 H7 H8 H9 H10 H11]; intros Ht; intros; constructor; by_cases.
  match goal with H : ∀ u d, calls s !! u ≠ Some (Launching d _), H' : calls s !! _ = Some (Launching _ _) |- _ =>
    by apply H in H' end.
Qed.

Lemma inv_shutdown s t srv :
  inv s → calls s !! t = Some (Stopping srv) →
  inv (with_call (mkStores (openStores s) (delete srv (running s)) (calls s) (started s)) t (Stopped srv)).
Proof.
  intros I; pose proof I as [H1 H2 H3 H4 H5 H6 H7 H8 H9 H10 H11]; intros Ht; intros; constructor; by_cases.

Qed.

Lemma inv_forget s t srv :
  inv s → calls s !! t = Some (Stopped srv) →
  inv (returns (mkStores (forget srv (openStores s)) (running s) (calls s) (started s)) t).
Proof.
  intros I; pose proof I as [H1 H2 H3 H4 H5 H6 H7 H8 H9 H10 H11]; intros Ht; intros; constructor; by_cases.
  - apply map_lookup_filter_Some. split; [by eauto|done].
  - match goal with H : running s !! srv0 = _ |- _ => destruct (H4 _ _ H) as [Ho|?] end; [left|right; calls_kept].
    apply map_lookup_filter_Some. split; [done|]. intros [= ->]. pose proof (H7 _ _ Ht). congruence.
  - match goal with H : calls s !! u = _ |- _ => eapply H8; [|exact H] end. by eauto.
Qed.

Lemma step_inv s s' : step s s' → inv s → inv s'.
Proof.
  intros Hs I. destruct Hs.
  - by apply inv_reserve.
  - done.
  - by apply inv_launch.
  - rewrite with_call_eta. by apply inv_no_server.
  - by eapply inv_not_ready.
  - by apply inv_release.
  - by apply inv_register.
  - rewrite with_call_eta. by apply inv_stop.
  - by apply inv_shutdown.
  - by apply inv_forget.
Qed.

Lemma reachable_inv s : rtc step init s → inv s.
Proof. intros H. exact (rtc_invariant _ _ step_inv _ _ H inv_init). Qed.

(** C28: in every interleaving of starts and stops, failed ones included, no two servers run on
    one store directory. *)
Theorem stores_exclusive s srv srv' dir :
  rtc step init s → running s !! srv = Some dir → running s !! srv' = Some dir → srv = srv'.
Proof.
  intros I%reachable_inv Hr Hr'.
  destruct (inv_running _ I _ _ Hr) as [Ho|(t & ? & Ht & ->)], (inv_running _ I _ _ Hr') as [Ho'|(t' & ? & Ht' & ->)].
  - congruence.
  - by rewrite (inv_start _ I _ _ _ Ht' eq_refl) in Ho.
  - by rewrite (inv_start _ I _ _ _ Ht eq_refl) in Ho'.
  - assert (t = t') as <- by (by eapply (inv_one _ I _ _ _ _ dir Ht Ht')). congruence.
Qed.

(** No reservation is leaked: when no call is in progress the directories that are taken are
    exactly those of the servers that run; so a stopped server's directory, and that of a start
    that failed, can be used again. *)
Lemma stores_quiescent s dir :
  rtc step init s → calls s = ∅ →
  (is_Some (openStores s !! dir) ↔ ∃ srv, running s !! srv = Some dir).
Proof.
  intros I%reachable_inv Hc.
  assert (∀ P, some_call s P → False) as Hno by (intros P (t & c & Ht & _); rewrite Hc in Ht; by rewrite lookup_empty in Ht).
  split.
  - intros [[srv|] Ho].
    + exists srv. destruct (inv_held _ I _ _ Ho) as [?|?%Hno]; done.
    + by apply (inv_reserved _ I), Hno in Ho.
  - intros [srv Hr]. destruct (inv_running _ I _ _ Hr) as [->|?%Hno]; [by eexists|done].
Qed.

(** ** [New]: what a bus owns *)

(** The servers a bus started that run and its connections that are open, and the fields
    [b.srv] and [b.nc] through which it releases them. *)
Record owned := mkOwned { w_servers : nat; w_conns : nat; b_srv : bool; b_nc : bool }.
Definition owns_nothing : owned := mkOwned 0 0 false false.

(** How the calls of a construction end. *)
Record opening := mkOpening {
  op_embedded : option error;          (* StartEmbedded *)
  op_jwt : option error;               (* nkeys.ParseDecoratedJWT *)
  op_seed : option error;              (* parseSeed *)
  op_connect : option error;           (* nats.Connect *)
  op_jetstream : option error;         (* jetstream.New *)
  op_stream : option error }.          (* EnsureStream *)

Inductive credential : Type := JWTAndSeed (creds : string) | CredentialsFile (path : string).

Definition credentialsOption (o : opening) (creds : string) : result (option credential) :=
  let creds := TrimSpace creds in
  if bool_decide (creds = "") then Ok None
  else if HasPrefix creds "-----BEGIN" then
    match op_jwt o with
    | Some e => Err (EWrap "natsjs: credentials" e)
    | None => match op_seed o with
              | Some e => Err (EWrap "natsjs: credentials" e)
              | None => Ok (Some (JWTAndSeed creds))
              end
    end
  else Ok (Some (CredentialsFile creds)).

Definition stopServer (w : owned) : owned :=
  if b_srv w then mkOwned (w_servers w - 1) (w_conns w) false (b_nc w) else w.

(** The end of [connect], once the options are known. *)
Definition dial (o : opening) (w : owned) : option error * owned :=
  match op_connect o with
  | Some e => (Some (EWrap "natsjs: connect" e), stopServer w)
  | None =>
      let w := mkOwned (w_servers w) (S (w_conns w)) (b_srv w) (b_nc w) in
      match op_jetstream o with
      | Some e =>
          (Some (EWrap "natsjs: jetstream" e), stopServer (mkOwned (w_servers w) (w_conns w - 1) (b_srv w) (b_nc w)))
      | None => (None, mkOwned (w_servers w) (w_conns w) (b_srv w) true)
      end
  end.

(** [inProcess] is the option [WithInProcess]. *)
Definition connect (inProcess : bool) (cfg : NatsConfig) (o : opening) (w : owned) : option error * owned :=
  if inProcess then dial o w
  else if nj_Embedded cfg then
    match op_embedded o with
    | Some e => (Some e, w)
    | None => dial o (mkOwned (S (w_servers w)) (w_conns w) true (b_nc w))
    end
  else match credentialsOption o (nj_Credentials cfg) with
       | Err e => (Some e, w)
       | Ok _ => dial o w
       end.

(** What [Close] of a bus that is open releases. *)
Definition release (w : owned) : owned :=
  stopServer (if b_nc w then mkOwned (w_servers w) (w_conns w - 1) (b_srv w) (b_nc w) else w).

Definition New (inProcess : bool) (cfg : NatsConfig) (topic : string) (o : opening) : option error * owned :=
  if bool_decide (topic = "") then (Some (errorf "natsjs: topic is required"), owns_nothing)
  else
    match (if inProcess then validateBroker cfg else Validate cfg) with
    | Some e => (Some (EWrap "natsjs: invalid config" e), owns_nothing)
    | None =>
        match connect inProcess cfg o owns_nothing with
        | (Some e, w) => (Some e, w)
        | (None, w) =>
            match op_stream o with
            | Some e => (Some e, release w)
            | None => (None, w)
            end
        end
    end.

(** The construction of a bus is all or nothing: when it fails, at whichever call, no server it
    started runs and no connection is open; when it succeeds the bus owns one connection, and a
    server exactly when the configuration asks for one and none was given, with a configuration
    that was checked; and its [Close] releases both. *)
Lemma New_releases inProcess cfg topic o r w :
  New inProcess cfg topic o = (r, w) →
  match r with
  | Some _ => w_servers w = 0 ∧ w_conns w = 0
  | None =>
      topic ≠ "" ∧ nats_valid (if inProcess then mkNatsConfig true "-" (nj_URL cfg) (nj_Credentials cfg) (nj_Stream cfg)
          (nj_Retention cfg) (nj_DedupWindow cfg) (nj_AckWait cfg) (nj_NakDelayMin cfg) (nj_NakDelayMax cfg) else cfg) ∧
      w_conns w = 1 ∧ w_servers w = (if nj_Embedded cfg && negb inProcess then 1 else 0) ∧
      w_servers (release w) = 0 ∧ w_conns (release w) = 0
  end.
Proof.
  unfold New. case_bool_decide; [by intros [= <- <-]|].
  destruct (if inProcess then _ else _) as [e|] eqn:Ev; [by intros [= <- <-]|].
  assert (nats_valid (if inProcess then mkNatsConfig true "-" (nj_URL cfg) (nj_Credentials cfg) (nj_Stream cfg)
     (nj_Retention cfg) (nj_DedupWindow cfg) (nj_AckWait cfg) (nj_NakDelayMin cfg) (nj_NakDelayMax cfg) else cfg)) as Hv.
  { apply nats_Validate_None. destruct inProcess; exact Ev. }
  unfold connect, dial, release, stopServer.
  destruct inProcess; [|destruct (nj_Embedded cfg); [destruct (op_embedded o)|destruct (credentialsOption _ _)]];
    try destruct (op_connect o); try destruct (op_jetstream o); try destruct (op_stream o); intros [= <- <-];
    rewrite ?andb_false_r; by split_and?.
Qed.

(** ** Witnesses *)



Ltac go := match goal with |- rtc _ ?s _ => let s' := eval vm_compute in s in change s with s' end.

(** A server that is started and stopped, and one started after it on the same directory. *)
Lemma ex_restarted : ∃ s, rtc step init s ∧ calls s = ∅ ∧ running s !! 1 = Some "data" ∧ running s !! 0 = None.
Proof.
  eexists. split.
  - eapply rtc_l; [apply (step_reserve _ 7 "data"); by vm_compute|].
    go. eapply rtc_l; [apply (step_launch _ 7 "data"); by vm_compute|].
    go. eapply rtc_l; [apply (step_register _ 7 "data" 0); by vm_compute|].
    go. eapply rtc_l; [apply (step_stop _ 8 0); [by vm_compute|cbn; lia|]|].
    { intros u d. by destruct u. }
    go. eapply rtc_l; [apply (step_shutdown _ 8 0); by vm_compute|].
    go. eapply rtc_l; [apply (step_forget _ 8 0); by vm_compute|].
    go. eapply rtc_l; [apply (step_reserve _ 9 "data"); by vm_compute|].
    go. eapply rtc_l; [apply (step_launch _ 9 "data"); by vm_compute|].
    go. eapply rtc_l; [apply (step_register _ 9 "data" 1); by vm_compute|]. go. apply rtc_refl.
  - by vm_compute.
Qed.

Lemma stores_exclusive_witness : ∃ s, rtc step init s ∧ running s !! 1 = Some "data" ∧ (∀ srv, running s !! srv = Some "data" → srv = 1).
Proof.
  destruct ex_restarted as (s & H & _ & Hr & _). exists s. split_and!; [done..|].
  intros srv Hs. by apply (stores_exclusive s srv 1 "data" H Hs Hr).
Defined.

Lemma stores_quiescent_witness : ∃ s, rtc step init s ∧ is_Some (openStores s !! "data").
Proof.
  destruct ex_restarted as (s & H & Hc & Hr & _). exists s. split; [done|].
  apply (stores_quiescent s "data" H Hc). by exists 1.
Defined.

Lemma New_releases_witness :
  w_servers (snd (New false DefaultConfig "deliveries" (mkOpening None None None None None (Some (errorf "stream"))))) = 0.
Proof. exact (proj1 (New_releases false DefaultConfig "deliveries" (mkOpening None None None None None (Some (errorf "stream"))) _ _ (surjective_pairing _))). Defined.
