(* ===== verification/TestServer.v ===== *)
(** * [TestServer] of [internal/bus/natsjs/embedded.go]: a broker that tests can stop

    An embedded server on a directory of its own, stopped and started again on the same data.
    [StartEmbedded] and [StopEmbedded] are those of Embedded.v, which shows that they keep the
    directory exclusive; here the start is its outcome, a server or an error, and the stop is the
    server that is handed to it.  A call holds the server's mutex, so calls are a sequence. *)

From S2P Require Import Prelude.
From S2P Require Import Errors.
From S2P Require Import GoTime.
From S2P Require Import Config.
From S2P Require Import Nats.

Local Open Scope Z_scope.

Definition ErrServerStopped : error := errorf "natsjs: test server is stopped".

Record TestServer := mkTestServer { ts_dir : string; ts_srv : option nat }.

(** [Start]: the error [Fatalf] is called with, if any; [None] of the server while one runs. *)
Definition Start (StartEmbedded : string → result nat) (ts : TestServer) : option error * TestServer :=
  match ts_srv ts with
  | Some _ => (None, ts)
  | None => match StartEmbedded (ts_dir ts) with
            | Ok srv => (None, mkTestServer (ts_dir ts) (Some srv))
            | Err e => (Some (EWrap "start test server" e), ts)
            end
  end.

(** [Stop]: the server that [StopEmbedded] gets. *)
Definition Stop (ts : TestServer) : option nat * TestServer := (ts_srv ts, mkTestServer (ts_dir ts) None).

Definition Running (ts : TestServer) : bool := match ts_srv ts with Some _ => true | None => false end.

Definition InProcessConn {C} (conn : nat → result C) (ts : TestServer) : result C :=
  match ts_srv ts with Some srv => conn srv | None => Err ErrServerStopped end.

Definition StoreDir (ts : TestServer) : string := ts_dir ts.

(** [NewTestServer]; the cleanup it registers is [Stop]. *)
Definition NewTestServer (StartEmbedded : string → result nat) (dir : string) : option error * TestServer :=
  Start StartEmbedded (mkTestServer dir None).

Definition TestConfig (ts : TestServer) : NatsConfig :=
  let c := DefaultConfig in
  mkNatsConfig (nj_Embedded c) (ts_dir ts) (nj_URL c) (nj_Credentials c) (nj_Stream c) Hour Minute (10 * Second)
    (50 * Millisecond) (500 * Millisecond).

(** ** What a test does to it *)

Inductive op : Type := OStart (StartEmbedded : string → result nat) | OStop.

(** The servers that were started and stopped, in order. *)
Record history := mkHistory { hi_ts : TestServer; hi_started : list nat; hi_stopped : list nat }.

Definition run_op (h : history) (o : op) : history :=
  match o with
  | OStart f =>
      let ts := snd (Start f (hi_ts h)) in
      let fresh := if Running (hi_ts h) then [] else match ts_srv ts with Some srv => [srv] | None => [] end in
      mkHistory ts (hi_started h ++ fresh) (hi_stopped h)
  | OStop =>
      let '(srv, ts) := Stop (hi_ts h) in
      mkHistory ts (hi_started h) (hi_stopped h ++ match srv with Some srv => [srv] | None => [] end)
  end.

Definition run_ops (h : history) (ops : list op) : history := fold_left run_op ops h.

(** Every server that was started was stopped, but the one that runs. *)
Definition balanced (dir : string) (h : history) : Prop :=
  ts_dir (hi_ts h) = dir ∧
  hi_started h = (hi_stopped h ++ match ts_srv (hi_ts h) with Some srv => [srv] | None => [] end)%list.

Lemma run_op_balanced dir h o : balanced dir h → balanced dir (run_op h o).
Proof.
  unfold balanced. destruct h as [[d [srv|]] l1 l2]; cbn; intros [-> H]; destruct o as [f|]; cbn;
    [by rewrite app_nil_r|by rewrite app_nil_r|unfold Start; cbn|].
  - destruct (f dir); cbn; rewrite H, !app_nil_r; done.
  - by rewrite !app_nil_r in *.
Qed.

(** Whatever a test does, its data stays in one directory, servers run one at a time, each is
    stopped once and in the order they were started; after the cleanup none is left. *)
Lemma test_server_balanced dir ops :
  let h := run_ops (mkHistory (mkTestServer dir None) [] []) ops in
  balanced dir h ∧ let h' := run_op h OStop in hi_stopped h' = hi_started h' ∧ Running (hi_ts h') = false.
Proof.
  cbv zeta. assert (∀ h, balanced dir h → balanced dir (run_ops h ops)) as Hb.
  { unfold run_ops. induction ops as [|o ops IH]; intros h Hh; [done|]. by apply IH, run_op_balanced. }
  specialize (Hb (mkHistory (mkTestServer dir None) [] []) ltac:(done)). split; [done|].
  apply (run_op_balanced _ _ OStop) in Hb as [_ ->]. cbn. by rewrite app_nil_r.
Qed.

(** A client gets a connection exactly while the server runs, so it keeps trying until [Start]. *)
Lemma InProcessConn_running {C} (conn : nat → result C) ts :
  (Running ts = false → InProcessConn conn ts = Err ErrServerStopped) ∧
  ∀ srv, ts_srv ts = Some srv → InProcessConn conn ts = conn srv.
Proof. unfold InProcessConn, Running. destruct (ts_srv ts); naive_solver. Qed.

(** The configuration a test gets is one [New] accepts, and its redeliveries are quick. *)
Lemma TestConfig_valid ts delivered :
  ts_dir ts ≠ "" →
  Validate (TestConfig ts) = None ∧
  50 * Millisecond ≤ NakDelay (nj_NakDelayMin (TestConfig ts)) (nj_NakDelayMax (TestConfig ts)) delivered ≤ 500 * Millisecond.
Proof.
  intros Hd. split; [|by apply NakDelay_range]. apply nats_Validate_None. constructor; try done.
  all: cbn; unfold minWindow, Hour, Minute, Second, Millisecond; try lia.
Qed.
