(* ===== verification/NatsSub.v ===== *)
(** * [internal/bus/natsjs/subscriber.go]: one durable consumer

    [Subscribe], [loop], [deliver], [await] and [Close] as a step relation over the fetch loops of
    a consumer and the deliveries they receive.  A delivery is the number of its fetch: a message
    that the broker hands out again is another delivery.  What a delivery is answered with is
    [Nats.await]. *)

From S2P Require Import Prelude.
From S2P Require Import Errors.
From S2P Require Import Nats.

(** What the broker is told of a delivery. *)
Inductive told : Type := TAck | TNak (delay : Duration) | TNakNow.

Definition told_of (b : broker_call) : list told :=
  match b with DoubleAck => [TAck] | NakWithDelay d => [TNak d] | NoCall => [] end.

(** How far [Close] is. *)
Inductive closing : Set := Open | WaitLoops | WaitInflight | Closed.

Record subscriber := mkSubscriber {
  lifetime_over : bool;                    (* s.cancel was called *)
  subscribing : gset nat;                  (* Subscribe calls past the check of the lifetime *)
  loops : gmap nat (option nat);           (* the fetch loops, with the delivery deliver offers *)
  inflight : gset nat;                     (* deliveries await waits for *)
  answers : gmap nat bool;                 (* what the handlers said: acked or nacked *)
  calls : list (nat * told);               (* the calls to the broker, the last one first *)
  expired : gset nat;                      (* deliveries whose ack wait is over *)
  fetched : nat;
  close : closing;
  late : gset nat }.                       (* the Subscribe calls in progress when Close found no loop *)

Definition fresh_subscriber : subscriber := mkSubscriber false ∅ ∅ ∅ ∅ [] ∅ 0 Open ∅.

Section Subscriber.
(** The bus's configuration, and the delivery count of each delivery, if its metadata is read. *)
Variable cfg : NatsConfig.
Variable delivered : nat → option Z.

Definition answer_of (acked : bool) : answer := if acked then Acked else Nacked.

Definition set_loop (s : subscriber) (l : nat) (m : option nat) : subscriber :=
  mkSubscriber (lifetime_over s) (subscribing s) (<[l := m]> (loops s)) (inflight s) (answers s) (calls s)
    (expired s) (fetched s) (close s) (late s).

Inductive step (s : subscriber) : subscriber → Prop :=
  | step_subscribe l :                     (* Subscribe: the lifetime is not over *)
      lifetime_over s = false → l ∉ subscribing s → loops s !! l = None →
      step s (mkSubscriber (lifetime_over s) ({[l]} ∪ subscribing s) (loops s) (inflight s) (answers s) (calls s)
                (expired s) (fetched s) (close s) (late s))
  | step_start l :                         (* ... s.loops.Add(1) and the goroutine *)
      l ∈ subscribing s → loops s !! l = None →
      step s (mkSubscriber (lifetime_over s) (subscribing s ∖ {[l]}) (<[l := None]> (loops s)) (inflight s) (answers s)
                (calls s) (expired s) (fetched s) (close s) (late s))
  | step_fetch l :                         (* a message of a batch *)
      loops s !! l = Some None →
      step s (mkSubscriber (lifetime_over s) (subscribing s) (<[l := Some (fetched s)]> (loops s)) (inflight s) (answers s)
                (calls s) (expired s) (S (fetched s)) (close s) (late s))
  | step_hand l m :                        (* deliver: out <- wm, and the goroutine of await *)
      loops s !! l = Some (Some m) →
      step s (mkSubscriber (lifetime_over s) (subscribing s) (<[l := None]> (loops s)) ({[m]} ∪ inflight s) (answers s)
                (calls s) (expired s) (fetched s) (close s) (late s))
  | step_hand_over l m :                   (* deliver: ctx.Done(), by the caller or by the lifetime *)
      loops s !! l = Some (Some m) →
      step s (mkSubscriber (lifetime_over s) (subscribing s) (<[l := None]> (loops s)) (inflight s) (answers s)
                ((m, TNakNow) :: calls s) (expired s) (fetched s) (close s) (late s))
  | step_loop_ends l :                     (* loop returns: the context is done *)
      loops s !! l = Some None →
      step s (mkSubscriber (lifetime_over s) (subscribing s) (delete l (loops s)) (inflight s) (answers s)
                (calls s) (expired s) (fetched s) (close s) (late s))
  | step_answer m acked :                  (* a handler acks or nacks: the first answer counts *)
      m ∈ inflight s → answers s !! m = None →
      step s (mkSubscriber (lifetime_over s) (subscribing s) (loops s) (inflight s) (<[m := acked]> (answers s))
                (calls s) (expired s) (fetched s) (close s) (late s))
  | step_await m acked :                   (* await: Acked or Nacked *)
      m ∈ inflight s → answers s !! m = Some acked →
      step s (mkSubscriber (lifetime_over s) (subscribing s) (loops s) (inflight s ∖ {[m]}) (answers s)
                (((λ c, (m, c)) <$> told_of (await cfg (delivered m) (answer_of acked))) ++ calls s)%list
                (expired s) (fetched s) (close s) (late s))
  | step_ack_wait m :                      (* await: the timer, even when an answer is ready *)
      m ∈ inflight s →
      step s (mkSubscriber (lifetime_over s) (subscribing s) (loops s) (inflight s ∖ {[m]}) (answers s)
                (((λ c, (m, c)) <$> told_of (await cfg (delivered m) AckWaitOver)) ++ calls s)%list
                ({[m]} ∪ expired s) (fetched s) (close s) (late s))
  | step_close :                           (* Close: s.cancel() *)
      close s = Open →
      step s (mkSubscriber true (subscribing s) (loops s) (inflight s) (answers s) (calls s)
                (expired s) (fetched s) WaitLoops (late s))
  | step_loops_done :                      (* s.loops.Wait() returns *)
      close s = WaitLoops → loops s = ∅ →
      step s (mkSubscriber (lifetime_over s) (subscribing s) (loops s) (inflight s) (answers s) (calls s)
                (expired s) (fetched s) WaitInflight (subscribing s))
  | step_closed :                          (* every message answered, or closeTimeout *)
      close s = WaitInflight →
      step s (mkSubscriber (lifetime_over s) (subscribing s) (loops s) (inflight s) (answers s) (calls s)
                (expired s) (fetched s) Closed (late s)).

(** ** Where a delivery is *)

(** The calls to the broker about a delivery. *)
Definition told_to (l : list (nat * told)) (m : nat) : list told := (filter (λ mc, mc.1 = m) l).*2.

Lemma told_to_app m ts l m' :
  told_to (((λ c, (m, c)) <$> ts) ++ l) m' = ((if decide (m' = m) then ts else []) ++ told_to l m')%list.
Proof.
  unfold told_to. induction ts as [|c ts IH]; cbn [fmap list_fmap app]; [by destruct (decide _)|].
  rewrite filter_cons. cbn [fst]. destruct (decide (m = m')) as [->|Hne].
  - cbn [fmap list_fmap snd]. rewrite IH. by rewrite !decide_True.
  - rewrite IH. by rewrite !decide_False by congruence.
Qed.

Lemma told_to_cons m c l m' : told_to ((m, c) :: l) m' = ((if decide (m' = m) then [c] else []) ++ told_to l m')%list.
Proof. exact (told_to_app m [c] l m'). Qed.

(** A delivery is in one place: not fetched yet; offered by the loop that fetched it; with a
    handler; given back, unseen by a handler; answered as its handler said; or its ack wait is
    over. *)
Inductive place (s : subscriber) (m : nat) : Prop :=
  | PNew :
      (fetched s ≤ m)%nat → (∀ l, loops s !! l ≠ Some (Some m)) → m ∉ inflight s → m ∉ expired s →
      told_to (calls s) m = [] → answers s !! m = None → place s m
  | POffered l :
      (m < fetched s)%nat → (∀ l', loops s !! l' = Some (Some m) ↔ l' = l) → m ∉ inflight s → m ∉ expired s →
      told_to (calls s) m = [] → answers s !! m = None → place s m
  | PInflight :
      (m < fetched s)%nat → (∀ l, loops s !! l ≠ Some (Some m)) → m ∈ inflight s → m ∉ expired s →
      told_to (calls s) m = [] → place s m
  | PReturned :
      (m < fetched s)%nat → (∀ l, loops s !! l ≠ Some (Some m)) → m ∉ inflight s → m ∉ expired s →
      told_to (calls s) m = [TNakNow] → answers s !! m = None → place s m
  | PAnswered acked :
      (m < fetched s)%nat → (∀ l, loops s !! l ≠ Some (Some m)) → m ∉ inflight s → m ∉ expired s →
      told_to (calls s) m = told_of (await cfg (delivered m) (answer_of acked)) → answers s !! m = Some acked → place s m
  | PExpired :
      (m < fetched s)%nat → (∀ l, loops s !! l ≠ Some (Some m)) → m ∉ inflight s → m ∈ expired s →
      told_to (calls s) m = [] → place s m.

(** A step that does not touch a delivery leaves it where it is. *)
Lemma place_kept s s' m :
  place s m → (∀ l, loops s' !! l = Some (Some m) ↔ loops s !! l = Some (Some m)) →
  (m ∈ inflight s' ↔ m ∈ inflight s) → (m ∈ expired s' ↔ m ∈ expired s) → told_to (calls s') m = told_to (calls s) m →
  answers s' !! m = answers s !! m → ((m < fetched s')%nat ↔ (m < fetched s)%nat) → place s' m.
Proof.
  intros H Hl Hi He Ht Ha Hf. destruct H as [H|l H| |H|acked H|H].
  - apply PNew; [lia|intros l; rewrite Hl; auto|by rewrite Hi|by rewrite He|congruence|congruence].
  - apply (POffered _ _ l); [lia|intros l'; rewrite Hl; auto|by rewrite Hi|by rewrite He|congruence|congruence].
  - apply PInflight; [lia|intros l; rewrite Hl; auto|by rewrite Hi|by rewrite He|congruence].
  - apply PReturned; [lia|intros l; rewrite Hl; auto|by rewrite Hi|by rewrite He|congruence|congruence].
  - apply (PAnswered _ _ acked); [lia|intros l; rewrite Hl; auto|by rewrite Hi|by rewrite He|congruence|congruence].
  - apply PExpired; [lia|intros l; rewrite Hl; auto|by rewrite Hi|by rewrite He|congruence].
Qed.

(** The loops after one of them changed what it offers. *)
Lemma loops_insert (ls : gmap nat (option nat)) l (o : option nat) m l' :
  o ≠ Some m → <[l := o]> ls !! l' = Some (Some m) ↔ l' ≠ l ∧ ls !! l' = Some (Some m).
Proof. intros Ho. rewrite lookup_insert_Some. naive_solver. Qed.
Lemma loops_same (ls : gmap nat (option nat)) l o o' m l' :
  ls !! l = Some o' → o ≠ Some m → o' ≠ Some m → <[l := o]> ls !! l' = Some (Some m) ↔ ls !! l' = Some (Some m).
Proof. intros Hl Ho Ho'. rewrite lookup_insert_Some. naive_solver. Qed.

Ltac fields := cbn [loops inflight expired calls answers fetched].
Ltac untouched H := apply (place_kept _ _ _ H); fields; intros; rewrite ?told_to_cons, ?told_to_app, ?decide_False by done.

Lemma step_place s s' m : step s s' → place s m → place s' m.
Proof.
  intros Hs H. destruct Hs as [l|l Hin Hl|l Hl|l m0 Hl|l m0 Hl|l Hl|m0 acked Hm Ha|m0 acked Hm Ha|m0 Hm|Hc|Hc Hl|Hc].
  - by untouched H.
  - untouched H; [|done..]. rewrite lookup_insert_Some. naive_solver.
  - destruct (decide (m = fetched s)) as [->|Hne].
    + destruct H as [H1 H2 H3 H4 H5 H6|? H1|H1|H1|? H1|H1]; [|lia..]. apply (POffered _ _ l); fields; [lia| |done..].
      intros l'. rewrite lookup_insert_Some. naive_solver.
    + untouched H; [|done..|lia]. by apply (loops_same _ _ _ _ _ _ Hl); congruence.
  - destruct (decide (m = m0)) as [->|Hne].
    + destruct H as [? H1|l' H1 H2 H3 H4 H5 H6|? H1|? H1|? ? H1|? H1]; [exfalso; by eapply H1| |exfalso; by eapply H1..].
      apply PInflight; fields; [done| |set_solver|done..].
      intros l2. rewrite loops_insert by done. intros [? ?%H2]. apply H2 in Hl. congruence.
    + untouched H; [|set_solver|done..]. by apply (loops_same _ _ _ _ _ _ Hl); congruence.
  - destruct (decide (m = m0)) as [->|Hne].
    + destruct H as [? H1|l' H1 H2 H3 H4 H5 H6|? H1|? H1|? ? H1|? H1]; [exfalso; by eapply H1| |exfalso; by eapply H1..].
      apply PReturned; fields; [done| |done..| |done].
      * intros l2. rewrite loops_insert by done. intros [? ?%H2]. apply H2 in Hl. congruence.
      * by rewrite told_to_cons, H5, decide_True.
    + untouched H; [|done..]. by apply (loops_same _ _ _ _ _ _ Hl); congruence.
  - untouched H; [|done..]. rewrite lookup_delete_Some. naive_solver.
  - destruct (decide (m = m0)) as [->|Hne].
    + destruct H as [H1 H2 H3|l' H1 H2 H3|H1 H2 H3 H4 H5|H1 H2 H3|acked' H1 H2 H3|H1 H2 H3]; [done..| |done|done|done].
      by apply PInflight.
    + untouched H; try done. by rewrite lookup_insert_ne.
  - destruct (decide (m = m0)) as [->|Hne].
    + destruct H as [H1 H2 H3|l' H1 H2 H3|H1 H2 H3 H4 H5|H1 H2 H3|acked' H1 H2 H3|H1 H2 H3]; [done..| |done|done|done].
      apply (PAnswered _ _ acked); fields; [done|done|set_solver|done| |done].
      by rewrite told_to_app, H5, decide_True, app_nil_r.
    + untouched H; [done|set_solver|done..].
  - destruct (decide (m = m0)) as [->|Hne].
    + destruct H as [H1 H2 H3|l' H1 H2 H3|H1 H2 H3 H4 H5|H1 H2 H3|acked' H1 H2 H3|H1 H2 H3]; [done..| |done|done|done].
      apply PExpired; fields; [done|done|set_solver|set_solver|done].
    + untouched H; [done|set_solver|set_solver|done..].
  - by untouched H.
  - by untouched H.
  - by untouched H.
Qed.

Lemma fresh_place m : place fresh_subscriber m.
Proof. apply PNew; cbn [fresh_subscriber fetched loops inflight expired calls answers told_to]; try done; lia. Qed.

Lemma reachable_place s m : rtc step fresh_subscriber s → place s m.
Proof. intros H. exact (rtc_invariant step (λ s, place s m) (λ s s', step_place s s' m) _ _ H (fresh_place m)). Qed.

(** C27: in every interleaving of fetch loops, handlers, timers and [Close], the broker is told
    at most one thing of a delivery: an ack only if the handler acked it, a nack with a delay
    between the configured bounds only if the handler nacked it, an immediate nack only if no
    handler saw it.  A delivery of which the broker is told nothing is still offered or with a
    handler, or its ack wait is over, so the broker redelivers it: none is lost. *)
Theorem delivery_answered s m :
  rtc step fresh_subscriber s → (0 < nj_NakDelayMin cfg ≤ nj_NakDelayMax cfg)%Z → (m < fetched s)%nat →
  match told_to (calls s) m with
  | [] => (∃ l, loops s !! l = Some (Some m)) ∨ m ∈ inflight s ∨ m ∈ expired s
  | [TAck] => answers s !! m = Some true
  | [TNak d] => answers s !! m = Some false ∧ (nj_NakDelayMin cfg ≤ d ≤ nj_NakDelayMax cfg)%Z
  | [TNakNow] => answers s !! m = None ∧ m ∉ inflight s
  | _ => False
  end.
Proof.
  intros H%(reachable_place _ m) Hb Hm.
  destruct H as [|l _ Hl _ _ -> _|_ _ Hi _ ->|_ _ Hi _ -> Ha|acked _ _ _ _ -> Ha|_ _ _ He ->]; [lia|left; exists l; by apply Hl|auto..| |auto].
  destruct acked; [done|]. cbn [answer_of await told_of]. split; [done|].
  unfold nakDelay. destruct (delivered m) as [n|]; [by apply NakDelay_range|lia].
Qed.

(** ** [Close] *)

Record closing_inv (s : subscriber) : Prop := {
  ci_over : close s ≠ Open → lifetime_over s = true;
  ci_late : close s = WaitInflight ∨ close s = Closed → subscribing s ∪ dom (loops s) ⊆ late s }.

Lemma step_closing s s' : step s s' → closing_inv s → closing_inv s'.
Proof.
  intros Hs [H1 H2]. destruct Hs; constructor; cbn [close lifetime_over subscribing loops late]; intros Hc; try by auto.
  - exfalso. assert (close s ≠ Open) as Hn by (destruct Hc; congruence). apply H1 in Hn. congruence.
  - specialize (H2 Hc). rewrite dom_insert_L. intros x [Hx|[Hx%elem_of_singleton|Hx]%elem_of_union]%elem_of_union.
    + apply H2, elem_of_union_l. by apply elem_of_difference in Hx as [? _].
    + subst x. by apply H2, elem_of_union_l.
    + by apply H2, elem_of_union_r.
  - rewrite dom_insert_lookup_L by (by eexists). auto.
  - rewrite dom_insert_lookup_L by (by eexists). auto.
  - rewrite dom_insert_lookup_L by (by eexists). auto.
  - specialize (H2 Hc). etrans; [|exact H2]. apply union_mono_l. rewrite dom_delete_L. apply subseteq_difference_l. done.
  - by destruct Hc.
  - apply H1. congruence.
  - match goal with H : loops s = ∅ |- _ => rewrite H end. by rewrite dom_empty_L, (right_id_L ∅ (∪)).
  - apply H1. congruence.
Qed.

Lemma reachable_closing s : rtc step fresh_subscriber s → closing_inv s.
Proof. intros H. apply (rtc_invariant _ _ step_closing _ _ H). constructor; [done|]. by intros []. Qed.

Definition quiet (s : subscriber) : Prop :=
  close s = Closed ∧ lifetime_over s = true ∧ subscribing s = ∅ ∧ loops s = ∅.

Lemma loops_step_quiet s s' : step s s' → quiet s → quiet s' ∧ fetched s' = fetched s ∧ inflight s' ⊆ inflight s.
Proof.
  intros Hs (Hc & Hl & Hs' & Hlo). unfold quiet.
  destruct Hs as [l|l Hin Hi|l Hi|l m0 Hi|l m0 Hi|l Hi|m0 acked Hm Ha|m0 acked Hm Ha|m0 Hm|Ho|Ho Hi|Ho];
    cbn [close lifetime_over subscribing loops fetched inflight]; try congruence; try (by split_and!).
  - rewrite Hs' in Hin. set_solver.
  - by rewrite Hlo, lookup_empty in Hi.
  - by rewrite Hlo, lookup_empty in Hi.
  - by rewrite Hlo, lookup_empty in Hi.
  - by rewrite Hlo, lookup_empty in Hi.
  - split_and!; [done..|set_solver].
  - split_and!; [done..|set_solver].
Qed.

(** Once [Close] has returned, and unless a [Subscribe] was in progress when it did, no
    message is fetched or handed to a handler any more; what is still with a handler can only
    be answered or expire. *)
Lemma closed_delivers_nothing s s' :
  rtc step fresh_subscriber s → close s = Closed → late s = ∅ → rtc step s s' →
  fetched s' = fetched s ∧ inflight s' ⊆ inflight s ∧ loops s' = ∅.
Proof.
  intros H Hc Hl Hs. assert (quiet s) as Hq.
  { destruct (reachable_closing _ H) as [H1 H2]. specialize (H2 (or_intror Hc)). rewrite Hl in H2. split_and!; [done| |set_solver|].
    - apply H1. by rewrite Hc.
    - apply dom_empty_inv_L. set_solver. }
  clear H Hc Hl. induction Hs as [|s1 s2 s3 H1 _ IH]; [by destruct Hq as (_ & _ & _ & ?)|].
  destruct (loops_step_quiet _ _ H1 Hq) as (Hq2 & Hf & Hi). destruct (IH Hq2) as (? & ? & ?). split_and!; [congruence|set_solver|done].
Qed.
End Subscriber.

(** ** Witnesses *)

Ltac go := match goal with |- rtc _ ?s _ => let s' := eval vm_compute in s in change s with s' end.

(** One message acked, one given back, then [Close]. *)
Lemma ex_closed :
  ∃ s, rtc (step DefaultConfig (λ _, Some 3%Z)) fresh_subscriber s ∧ close s = Closed ∧ late s = ∅ ∧ fetched s = 3%nat ∧
    told_to (calls s) 0 = [TAck] ∧ told_to (calls s) 1 = [TNak (20 * Second)%Z] ∧ told_to (calls s) 2 = [TNakNow].
Proof.
  eexists. split.
  - eapply rtc_l; [apply (step_subscribe _ _ _ 5); [done|by vm_compute|done]|]. go.
    eapply rtc_l; [apply (step_start _ _ _ 5); by vm_compute|]. go.
    eapply rtc_l; [apply (step_fetch _ _ _ 5); by vm_compute|]. go.
    eapply rtc_l; [apply (step_hand _ _ _ 5 0); by vm_compute|]. go.
    eapply rtc_l; [apply (step_fetch _ _ _ 5); by vm_compute|]. go.
    eapply rtc_l; [apply (step_hand _ _ _ 5 1); by vm_compute|]. go.
    eapply rtc_l; [apply (step_fetch _ _ _ 5); by vm_compute|]. go.
    eapply rtc_l; [apply (step_answer _ _ _ 0 true); by vm_compute|]. go.
    eapply rtc_l; [apply (step_answer _ _ _ 1 false); by vm_compute|]. go.
    eapply rtc_l; [apply step_close; done|]. go.
    eapply rtc_l; [apply (step_hand_over _ _ _ 5 2); by vm_compute|]. go.
    eapply rtc_l; [apply (step_await _ _ _ 1 false); by vm_compute|]. go.
    eapply rtc_l; [apply (step_loop_ends _ _ _ 5); by vm_compute|]. go.
    eapply rtc_l; [apply step_loops_done; by vm_compute|]. go.
    eapply rtc_l; [apply (step_await _ _ _ 0 true); by vm_compute|]. go.
    eapply rtc_l; [apply step_closed; done|]. go. apply rtc_refl.
  - by vm_compute.
Qed.

Lemma delivery_answered_witness :
  ∃ s, answers s !! 0%nat = Some true ∧ told_to (calls s) 0 = [TAck].
Proof.
  destruct ex_closed as (s & H & _ & _ & Hf & H0 & _). exists s. split; [|done].
  pose proof (delivery_answered DefaultConfig (λ _, Some 3%Z) s 0 H ltac:(by vm_compute) ltac:(rewrite Hf; lia)) as Ha.
  by rewrite H0 in Ha.
Defined.

Lemma closed_delivers_nothing_witness :
  ∃ s, close s = Closed ∧ loops s = ∅.
Proof.
  destruct ex_closed as (s & H & Hc & Hl & _). exists s. split; [done|].
  exact (proj2 (proj2 (closed_delivers_nothing _ _ s s H Hc Hl (rtc_refl _ _)))).
Defined.
