(* ===== verification/Otlp.v ===== *)
(** * [internal/otlp]: telemetry types, retry classification and the export loop

    types.go: spans, log records, attributes and their OTLP values.  retry.go: [classify],
    [parseRetryAfter], [finalize], [backoffDelay].  client.go: the export loop.  A transport
    is a parameter: the answer of each attempt.  The environment of an attempt also says what
    the contexts and the clock answer.  HTTP-date parsing ([http.ParseTime]) and the text of
    values outside the listed Go types ([%v]) are parameters. *)

From S2P Require Import Prelude.
From S2P Require Import Errors.
From S2P Require Import GoText.
From S2P Require Import GoNum.
From S2P Require Import GoTime.

Local Open Scope Z_scope.

(** ** types.go *)

Definition ScopeName : string := "antwatcher".
Definition ServiceName : string := "antwatcher".
Definition AttrServiceName : string := "service.name".
Definition AttrServiceVersion : string := "service.version".

Definition SpanKindInternal : Z := 1.

Definition StatusUnset : Z := 0.
Definition StatusOk : Z := 1.
Definition StatusError : Z := 2.

Record Status := mkStatus { sta_Code : Z; sta_Message : string }.

(** A Go value in an attribute map.  Floats are their bits; a nested map is an association
    list with distinct keys; [GOther] is a value rendered by its text. *)
Inductive gvalue : Set :=
  | GNil
  | GString (s : string)
  | GBool (b : bool)
  | GInt (z : Z)                     (* int, int8 .. int64, uint8 .. uint32 *)
  | GUint (u : Z)                    (* uint, uint64 *)
  | GFloat (bits : Z)
  | GBytes (bs : string)
  | GTime (t : Time)
  | GStrings (l : list string)
  | GSlice (l : list gvalue)
  | GMap (l : list (string * gvalue))
  | GOther (text : string).

(** [commonpb.AnyValue] *)
Inductive anyvalue : Set :=
  | AVNone
  | AVString (s : string)
  | AVBool (b : bool)
  | AVInt (z : Z)
  | AVDouble (bits : Z)
  | AVBytes (bs : string)
  | AVArray (l : list anyvalue)
  | AVKvlist (l : list (string * anyvalue)).

Definition uintValue (u : Z) : anyvalue :=
  if int64_max <? u then AVString (format_uint u) else AVInt u.

Definition key_le {A} (a b : string * A) : Prop := String.leb (fst a) (fst b) = true.

#[export] Instance key_le_dec {A} (a b : string * A) : Decision (key_le a b).
Proof. unfold key_le. apply _. Defined.

Fixpoint AnyValue (v : gvalue) : anyvalue :=
  match v with
  | GNil => AVNone
  | GString s => AVString s
  | GBool b => AVBool b
  | GInt z => AVInt z
  | GUint u => uintValue u
  | GFloat bits => AVDouble bits
  | GBytes bs => AVBytes bs
  | GTime t => AVString (Format_RFC3339Nano (UTC t))
  | GStrings l => AVArray (AVString <$> l)
  | GSlice l => AVArray (map AnyValue l)
  | GMap l => AVKvlist (merge_sort key_le (map (λ kv, (fst kv, AnyValue (snd kv))) l))
  | GOther text => AVString text
  end.

(** [Attributes]: the key/values sorted by key. *)
Definition Attributes (m : gmap string gvalue) : list (string * anyvalue) :=
  merge_sort key_le ((λ kv, (fst kv, AnyValue (snd kv))) <$> map_to_list m).

Record Span := mkSpan {
  sp_TraceID : list Z; sp_SpanID : list Z; sp_ParentSpanID : list Z; sp_Name : string; sp_Kind : Z;
  sp_Start : Time; sp_End : Time; sp_Attributes : gmap string gvalue; sp_Status : Status }.

Definition SeverityInfo : Z := 9.
Definition SeverityWarn : Z := 13.
Definition SeverityError : Z := 17.

Record LogRecord := mkLogRecord {
  lr_Time : Time; lr_ObservedTime : Time; lr_Severity : Z; lr_SeverityText : string; lr_Body : string;
  lr_Attributes : gmap string gvalue; lr_TraceID : list Z; lr_SpanID : list Z }.

Definition zero_id (n : nat) : list Z := replicate n 0.

Definition DefaultResource (version : string) : gmap string gvalue :=
  <[AttrServiceName := GString ServiceName]> (<[AttrServiceVersion := GString version]> ∅).

Definition scopeVersion (res : gmap string gvalue) : string :=
  match res !! AttrServiceVersion with Some (GString s) => s | _ => "" end.

(** [unixNano]: the zero time is 0, otherwise the 64-bit count read as unsigned. *)
Definition unixNano (t : Time) : Z := if IsZero t then 0 else wrapu64 (UnixNano t).

(** The protobuf messages. *)
Record SpanPB := mkSpanPB {
  pb_TraceId : list Z; pb_SpanId : list Z; pb_ParentSpanId : list Z; pb_Name : string; pb_Kind : Z;
  pb_Start : Z; pb_End : Z; pb_Attributes : list (string * anyvalue); pb_Status : Status }.

Record LogRecordPB := mkLogRecordPB {
  lpb_Time : Z; lpb_Observed : Z; lpb_Severity : Z; lpb_SeverityText : string; lpb_Body : anyvalue;
  lpb_Attributes : list (string * anyvalue); lpb_TraceId : list Z; lpb_SpanId : list Z }.

(** A zero identifier is left out. *)
Definition id_pb (n : nat) (id : list Z) : list Z := if bool_decide (id = zero_id n) then [] else id.

Definition Span_proto (s : Span) : SpanPB :=
  mkSpanPB (sp_TraceID s) (sp_SpanID s) (id_pb 8 (sp_ParentSpanID s)) (sp_Name s) (sp_Kind s)
    (unixNano (sp_Start s)) (unixNano (sp_End s)) (Attributes (sp_Attributes s)) (sp_Status s).

Definition LogRecord_proto (r : LogRecord) : LogRecordPB :=
  mkLogRecordPB (unixNano (lr_Time r)) (unixNano (lr_ObservedTime r)) (lr_Severity r) (lr_SeverityText r)
    (AnyValue (GString (lr_Body r))) (Attributes (lr_Attributes r)) (id_pb 16 (lr_TraceID r)) (id_pb 8 (lr_SpanID r)).

Record ScopePB (A : Type) := mkScopePB {
  sc_Resource : list (string * anyvalue); sc_Name : string; sc_Version : string; sc_Items : list A }.
Arguments mkScopePB {A} _ _ _ _.

Definition ResourceSpans (res : gmap string gvalue) (spans : list Span) : ScopePB SpanPB :=
  mkScopePB (Attributes res) ScopeName (scopeVersion res) (Span_proto <$> spans).

Definition ResourceLogs (res : gmap string gvalue) (records : list LogRecord) : ScopePB LogRecordPB :=
  mkScopePB (Attributes res) ScopeName (scopeVersion res) (LogRecord_proto <$> records).

(** ** retry.go *)

Record verdict := mkVerdict { v_retryable : bool; v_wait : Duration }.

(** gRPC codes. *)
Definition codes_retryable : list Z := [1; 4; 10; 11; 14; 15].
Definition code_ResourceExhausted : Z := 8.

Definition retryInfoDelay (info : option Z) : Duration * bool :=
  match info with Some d => (Z.max d 0, true) | None => (0, false) end.

Definition retryInfo (info : option Z) : Duration := fst (retryInfoDelay info).

Definition as_http (e : error) : option (Z * Z) :=
  match e with ELeaf (LHTTP code _ after) => Some (code, after) | _ => None end.
Definition as_grpc (e : error) : option (Z * option Z) :=
  match e with ELeaf (LGRPC code info) => Some (code, info) | _ => None end.

Definition classify_grpc (code : Z) (info : option Z) : verdict :=
  if bool_decide (code ∈ codes_retryable) then mkVerdict true (retryInfo info)
  else if code =? code_ResourceExhausted then
    match retryInfoDelay info with
    | (wait, true) => mkVerdict true wait
    | (_, false) => mkVerdict false 0
    end
  else mkVerdict false 0.

Definition classify (e : error) : verdict :=
  match errors_as as_http e with
  | Some (code, after) =>
      if (code =? 429) || (code =? 502) || (code =? 503) || (code =? 504)
      then mkVerdict true after else mkVerdict false 0
  | None =>
      match errors_as as_grpc e with
      | Some (code, info) => if code =? 0 then mkVerdict true 0 else classify_grpc code info
      | None => mkVerdict true 0
      end
  end.

Section RetryAfter.
Variable http_ParseTime : string → option Time.

(** [parseRetryAfter]; the product of two durations wraps. *)
Definition parseRetryAfter (h : string) (now : Time) : Duration :=
  if bool_decide (h = "") then 0
  else match parse_int h with
       | Some secs => Z.max (wrap64 (secs * Second)) 0
       | None => match http_ParseTime h with
                 | Some t => Z.max (Sub t now) 0
                 | None => 0
                 end
       end.
End RetryAfter.

Definition finalize (ctx : option error) (err : error) : error :=
  match ctx with
  | Some e => e
  | None =>
      let wrapped := EWrap "otlp export" err in
      if v_retryable (classify err) then wrapped else permanent wrapped
  end.

(** [n] more doublings of [d]. *)
Fixpoint double_loop (n : nat) (d : Duration) : Duration :=
  match n with
  | O => d
  | S n => let d := wrap64 (d * 2) in if Minute <? d then Minute else double_loop n d
  end.

Definition backoffDelay (base : Duration) (n : Z) : Duration :=
  if (base <=? 0) || (n <=? 0) then 0 else double_loop (Z.to_nat (n - 1)) base.

(** ** client.go: the export loop *)

(** What the environment answers around attempt [n]: [ctx.Err()] before it, the attempt's
    outcome (rejected count and server message), [ctx.Err()] when finalizing, the time left
    until the deadline if there is one, and what [sleep] returns. *)
Record attemptEnv := mkAttemptEnv {
  ae_before : option error;
  ae_outcome : (Z * string) + error;
  ae_final : option error;
  ae_deadline : option Duration;
  ae_sleep : option error }.

(** The outcome of an export: its error, the attempts made, the waits, the rejected count. *)
Record exported := mkExported {
  ex_err : option error; ex_attempts : Z; ex_waits : list Duration; ex_rejected : Z }.

Record RetryConfig := mkRetryConfig { rt_Attempts : Z; rt_Backoff : Duration; rt_Timeout : Duration }.

Section ExportLoop.
Variable cfg : RetryConfig.
Variable env : Z → attemptEnv.

(** The loop from attempt [n] on; [None] when the fuel runs out. *)
Fixpoint export_loop (fuel : nat) (n : Z) (waits : list Duration) : option exported :=
  match fuel with
  | O => None
  | S f =>
      let a := env n in
      match ae_before a with
      | Some e => Some (mkExported (Some e) n waits 0)
      | None =>
          match ae_outcome a with
          | inl (rejected, _) => Some (mkExported None (n + 1) waits (Z.max rejected 0))
          | inr err =>
              let v := classify err in
              let stop := Some (mkExported (Some (finalize (ae_final a) err)) (n + 1) waits 0) in
              if negb (v_retryable v) || (rt_Attempts cfg <=? n) then stop
              else
                let delay := if v_wait v =? 0 then backoffDelay (rt_Backoff cfg) (n + 1) else v_wait v in
                let late := match ae_deadline a with Some remaining => remaining <=? delay | None => false end in
                if late || (rt_Timeout cfg <? delay) then stop
                else match ae_sleep a with
                     | Some e => Some (mkExported (Some e) (n + 1) (waits ++ [delay])%list 0)
                     | None => export_loop f (n + 1) (waits ++ [delay])%list
                     end
          end
      end
  end.
End ExportLoop.

(** [export]: [Retry.Attempts + 1] iterations are enough (see [export_total]). *)
Definition export (cfg : RetryConfig) (env : Z → attemptEnv) : option exported :=
  export_loop cfg env (S (Z.to_nat (rt_Attempts cfg))) 0 [].

(** [ExportSpans] and [ExportLogs]: an empty batch is a no-op. *)
Definition ExportBatch {A} (cfg : RetryConfig) (batch : list A) (env : Z → attemptEnv) : option exported :=
  match batch with
  | [] => Some (mkExported None 0 [] 0)
  | _ => export cfg env
  end.

(** ** Lemmas *)

Lemma finalize_permanent err :
  IsPermanent err = false → IsPermanent (finalize None err) = negb (v_retryable (classify err)).
Proof.
  intros H. unfold finalize. destruct (v_retryable (classify err)); cbn [negb].
  - by rewrite IsPermanent_wrap.
  - apply IsPermanent_permanent.
Qed.

(** What an export that returned error [e] after [n] attempts saw. *)
Definition failure_cause (env : Z → attemptEnv) (n : Z) (e : error) : Prop :=
  (∃ k, ae_before (env k) = Some e ∨ ae_final (env k) = Some e ∨ ae_sleep (env k) = Some e) ∨
  (∃ err, ae_outcome (env (n - 1)) = inr err ∧ e = finalize None err).

Lemma export_loop_total cfg env fuel n (waits : list Duration) :
  0 ≤ n ≤ rt_Attempts cfg → rt_Attempts cfg - n < Z.of_nat fuel →
  Forall (λ d : Duration, d ≤ rt_Timeout cfg) waits → Z.of_nat (length waits) ≤ n →
  ∃ r, export_loop cfg env fuel n waits = Some r ∧ ex_attempts r ≤ rt_Attempts cfg + 1 ∧
    Forall (λ d : Duration, d ≤ rt_Timeout cfg) (ex_waits r) ∧ Z.of_nat (length (ex_waits r)) ≤ rt_Attempts cfg.
Proof.
  revert n waits. induction fuel as [|f IH]; intros n waits Hn Hf Hw Hl; [lia|]. cbn [export_loop].
  destruct (ae_before (env n)). { eexists. split; [done|]. simpl. split_and!; [lia|done|lia]. }
  destruct (ae_outcome (env n)) as [[rej msg]|err]. { eexists. split; [done|]. simpl. split_and!; [lia|done|lia]. }
  cbv zeta. destruct (negb (v_retryable (classify err)) || (rt_Attempts cfg <=? n)) eqn:Es; to_prop.
  { eexists. split; [done|]. simpl. split_and!; [lia|done|lia]. }
  set (delay := if v_wait (classify err) =? 0 then backoffDelay (rt_Backoff cfg) (n + 1) else v_wait (classify err)).
  destruct (_ || (rt_Timeout cfg <? delay)) eqn:Ed; to_prop.
  { eexists. split; [done|]. simpl. split_and!; [lia|done|lia]. }
  assert (Forall (λ d : Duration, d ≤ rt_Timeout cfg) (waits ++ [delay])) as Hw'.
  { apply Forall_app. split; [done|]. by apply Forall_singleton. }
  destruct (ae_sleep (env n)).
  { eexists. split; [done|]. simpl. split_and!; [lia|done|]. rewrite length_app. simpl. lia. }
  apply IH; [lia|lia|done|]. rewrite length_app. simpl. lia.
Qed.

Lemma export_loop_outcome cfg env fuel n waits r :
  export_loop cfg env fuel n waits = Some r →
  match ex_err r with
  | None => ∃ rej msg, ae_outcome (env (ex_attempts r - 1)) = inl (rej, msg) ∧ ex_rejected r = Z.max rej 0
  | Some e => failure_cause env (ex_attempts r) e
  end.
Proof.
  revert n waits. induction fuel as [|f IH]; intros n waits H; [done|]. cbn [export_loop] in H.
  destruct (ae_before (env n)) eqn:Eb. { injection H as <-. left. exists n. by left. }
  destruct (ae_outcome (env n)) as [[rej msg]|err] eqn:Eo.
  { injection H as <-. simpl. replace (n + 1 - 1) with n by lia. by exists rej, msg. }
  cbv zeta in H.
  assert (∀ r, Some (mkExported (Some (finalize (ae_final (env n)) err)) (n + 1) waits 0) = Some r →
    match ex_err r with None => False | Some e => failure_cause env (ex_attempts r) e end) as Hstop.
  { intros r' [= <-]. simpl. destruct (ae_final (env n)) eqn:Ef; [left; exists n; naive_solver|].
    right. exists err. by replace (n + 1 - 1) with n by lia. }
  destruct (_ || _); [apply Hstop in H; by destruct (ex_err r)|].
  destruct (_ || _); [apply Hstop in H; by destruct (ex_err r)|].
  destruct (ae_sleep (env n)) eqn:Es; [|by eapply IH].
  injection H as <-. left. exists n. naive_solver.
Qed.

Lemma double_loop_spec n d :
  0 < d ≤ Minute → double_loop n d = Z.min (d * 2 ^ Z.of_nat n) Minute.
Proof.
  revert d. induction n as [|n IH]; intros d Hd; cbn [double_loop].
  - change (2 ^ Z.of_nat 0) with 1. lia.
  - rewrite Nat2Z.inj_succ, Z.pow_succ_r by lia.
    assert (0 < 2 ^ Z.of_nat n) by (apply Z.pow_pos_nonneg; lia).
    rewrite wrap64_id by (unfold in_int64, int64_min, int64_max, Minute in *; lia). cbv zeta.
    destruct (Minute <? d * 2) eqn:E; to_prop.
    + rewrite Z.min_r; [done|]. nia.
    + rewrite IH by lia. f_equal. lia.
Qed.

#[export] Instance key_le_total {A} : Total (key_le (A := A)).
Proof. intros a b. apply String.leb_total. Qed.

#[export] Instance key_le_trans {A} : Transitive (key_le (A := A)).
Proof. intros a b c. apply string_leb_trans. Qed.

(** ** Properties *)

(** C36: an export always ends: with at most [Retry.Attempts] retries after the first attempt,
    each preceded by a wait that is no longer than one attempt's timeout. *)
Theorem export_total cfg env :
  0 ≤ rt_Attempts cfg →
  ∃ r, export cfg env = Some r ∧ ex_attempts r ≤ rt_Attempts cfg + 1 ∧
    Forall (λ d : Duration, d ≤ rt_Timeout cfg) (ex_waits r) ∧ Z.of_nat (length (ex_waits r)) ≤ rt_Attempts cfg.
Proof. intros H. apply export_loop_total; [lia|lia|constructor|simpl; lia]. Qed.

(** What the result of an export means.  No error is returned exactly for an attempt the
    server accepted (with the rejected items counted); an error is either a context's error,
    or the last attempt's failure, and then it is permanent exactly when the OTLP rules say
    that failure must not be retried. *)
Lemma export_outcome cfg env r :
  export cfg env = Some r →
  match ex_err r with
  | None => ∃ rej msg, ae_outcome (env (ex_attempts r - 1)) = inl (rej, msg) ∧ ex_rejected r = Z.max rej 0
  | Some e =>
      (∃ k, ae_before (env k) = Some e ∨ ae_final (env k) = Some e ∨ ae_sleep (env k) = Some e) ∨
      ∃ err, ae_outcome (env (ex_attempts r - 1)) = inr err ∧
        (IsPermanent err = false → IsPermanent e = negb (v_retryable (classify err)))
  end.
Proof.
  intros H%export_loop_outcome. destruct (ex_err r) as [e|]; [|done].
  destruct H as [H|(err & H & ->)]; [by left|right]. exists err. split; [done|]. apply finalize_permanent.
Qed.

(** The backoff doubles from the base and saturates at one minute, without overflow. *)
Lemma backoffDelay_spec base n :
  0 < base ≤ Minute → 1 ≤ n → backoffDelay base n = Z.min (base * 2 ^ (n - 1)) Minute.
Proof.
  intros Hb Hn. unfold backoffDelay.
  rewrite (proj2 (Z.leb_gt base 0)), (proj2 (Z.leb_gt n 0)) by lia. cbn [orb].
  rewrite double_loop_spec by done. by rewrite Z2Nat.id by lia.
Qed.

(** A Retry-After of a number of seconds is that wait as long as it fits a [Duration], and
    no header, however large or malformed, makes the wait negative. *)
Lemma parseRetryAfter_seconds pt secs now h :
  0 ≤ secs ≤ 9223372036 →
  parseRetryAfter pt (format_int secs) now = secs * Second ∧ 0 ≤ parseRetryAfter pt h now.
Proof.
  intros Hs. split.
  - unfold parseRetryAfter. rewrite bool_decide_false by apply format_int_nonempty.
    rewrite parse_int_format by (unfold in_int64, int64_min, int64_max; lia).
    rewrite wrap64_id by (unfold in_int64, int64_min, int64_max, Second; lia). unfold Second. lia.
  - unfold parseRetryAfter. repeat case_match; lia.
Qed.

(** The attributes of a telemetry item are exported sorted by key, each key of the map
    once with the OTLP form of its value, so that equal maps export as equal bytes. *)
Lemma Attributes_sorted m :
  StronglySorted key_le (Attributes m) ∧ NoDup (fst <$> Attributes m) ∧
  (∀ k v, (k, v) ∈ Attributes m ↔ ∃ g, m !! k = Some g ∧ v = AnyValue g).
Proof.
  assert (Attributes m ≡ₚ ((λ kv : string * gvalue, (fst kv, AnyValue (snd kv))) <$> map_to_list m)) as Hp
    by apply merge_sort_Permutation.
  split_and!.
  - apply (StronglySorted_merge_sort key_le).
  - rewrite Hp, <- list_fmap_compose. unfold compose. cbn [fst]. apply NoDup_fst_map_to_list.
  - intros k v. rewrite Hp, list_elem_of_fmap. split.
    + intros ([k' g] & Heq & Hin%elem_of_map_to_list). simplify_eq/=. by exists g.
    + intros (g & Hm & ->). exists (k, g). split; [done|]. by apply elem_of_map_to_list.
Qed.

(** A Retry-After that overflows [Duration] is read as a shorter, here sub-second, wait. *)
Lemma parseRetryAfter_overflow pt now :
  parseRetryAfter pt "18446744074" now = 290448384.
Proof. vm_compute. reflexivity. Qed.

(** ** Witnesses *)

Definition ex_retry : RetryConfig := mkRetryConfig 2 Second Minute.
Definition ex_unavailable : error := ELeaf (LHTTP 503 "" 0).
Definition ex_env (n : Z) : attemptEnv := mkAttemptEnv None (inr ex_unavailable) None None None.
Definition ex_export : exported :=
  mkExported (Some (EWrap "otlp export" ex_unavailable)) 3 [Second; 2 * Second] 0.

Lemma export_total_witness : ∃ r, export ex_retry ex_env = Some r ∧ ex_attempts r ≤ 3.
Proof.
  destruct (export_total ex_retry ex_env ltac:(discriminate)) as (r & H1 & H2 & _).
  exists r. split; [exact H1|exact H2].
Defined.

Lemma export_outcome_witness :
  export ex_retry ex_env = Some ex_export ∧ IsPermanent (EWrap "otlp export" ex_unavailable) = false.
Proof.
  assert (export ex_retry ex_env = Some ex_export) as H by (vm_compute; reflexivity).
  split; [exact H|]. pose proof (export_outcome ex_retry ex_env ex_export H) as [(k & Hk)|(err & He & Hp)].
  - destruct Hk as [Hk|[Hk|Hk]]; discriminate Hk.
  - injection He as <-. apply Hp. reflexivity.
Defined.

Lemma backoffDelay_spec_witness : backoffDelay (500 * Millisecond) 3 = 2 * Second.
Proof. rewrite (backoffDelay_spec (500 * Millisecond) 3); [reflexivity|split; [reflexivity|discriminate]|discriminate]. Defined.

Lemma parseRetryAfter_seconds_witness : parseRetryAfter (λ _, None) "120" zero_time = 2 * Minute.
Proof. apply (parseRetryAfter_seconds (λ _, None) 120 zero_time ""). split; discriminate. Defined.
