(* ===== verification/OtlpClient.v ===== *)
(** * [internal/otlp]: the configuration block and the client

    config.go: the block, its defaults, [Validate] and [target].  client.go: [New], the TLS
    files, the two transports and one OTLP/HTTP request; the export loop around them is in
    Otlp.v.  [url.Parse], [mime.ParseMediaType], protobuf, gzip, the gRPC client, the reading
    of certificates and the network are parameters; so is the order in which Go ranges over a
    map. *)

From S2P Require Import Prelude.
From S2P Require Import Errors.
From S2P Require Import GoText.
From S2P Require Import GoTime.
From S2P Require Import Yaml.
From S2P Require Import Redact.
From S2P Require Import Event.
From S2P Require Recovery.
From S2P Require Config.
From S2P Require Import Otlp.

Local Open Scope Z_scope.

(** ** config.go *)

Definition ProtocolGRPC : string := "grpc".
Definition ProtocolHTTP : string := "http".
Definition CompressionNone : string := "none".
Definition CompressionGzip : string := "gzip".

Record TLSConfig := mkTLSConfig { tl_CAFile : string; tl_CertFile : string; tl_KeyFile : string; tl_ServerName : string }.

#[export] Instance TLSConfig_eq_dec : EqDecision TLSConfig.
Proof. solve_decision. Defined.

Record Retry := mkRetry { re_Attempts : Z; re_Backoff : Duration }.

Record Config := mkConfig {
  oc_Endpoint : string; oc_Protocol : string; oc_Insecure : bool; oc_TLS : TLSConfig;
  oc_Headers : gmap string Secret; oc_Timeout : Duration; oc_Compression : string; oc_Retry : Retry }.

Definition no_tls : TLSConfig := mkTLSConfig "" "" "" "".

Definition DefaultConfig : Config :=
  mkConfig "" ProtocolGRPC false no_tls ∅ (10 * Second) CompressionNone (mkRetry 2 (500 * Millisecond)).

Record target := mkTarget { tg_hostPort : string; tg_tls : bool; tg_basePath : string }.

(** [*url.URL], as [target] reads it. *)
Record URL := mkURL {
  ur_Scheme : string; ur_User : bool; ur_Host : string; ur_Path : string; ur_RawQuery : string; ur_Fragment : string }.

Definition is_digit (c : ascii) : bool := (48 <=? byte_of c) && (byte_of c <=? 57).

(** The host and the port of [u.Host]: [u.Hostname()] and [u.Port()]. *)
Definition split_host (h : string) : string * string :=
  let '(host, port) :=
    match Config.cut_last ":"%char h with
    | Some (a, b) => if string_forall is_digit b then (a, b) else (h, "")
    | None => (h, "")
    end in
  (match strip_prefix "[" host with
   | Some r => match strip_suffix "]" r with Some inner => inner | None => host end
   | None => host
   end, port).

Definition Hostname (u : URL) : string := fst (split_host (ur_Host u)).
Definition Port (u : URL) : string := snd (split_host (ur_Host u)).

Definition JoinHostPort (host port : string) : string :=
  if contains_char ":"%char host then "[" +:+ host +:+ "]:" +:+ port else host +:+ ":" +:+ port.

Definition Describe (decode : Node → Config → result Config) (raw : Node) : result Config :=
  DecodeStrict decode raw DefaultConfig.

Section Config.
Variable url_Parse : string → result URL.

(** The part of [target] after the scheme is known. *)
Definition url_target (u : URL) (useTLS : bool) : result target :=
  if bool_decide (ur_Host u = "") then Err (errorf "has no host")
  else if ur_User u || negb (bool_decide (ur_RawQuery u = "")) || negb (bool_decide (ur_Fragment u = ""))
       then Err (errorf "must not carry credentials, a query, or a fragment")
  else
    let hostPort :=
      if bool_decide (Port u = "") then JoinHostPort (Hostname u) (if useTLS then "443" else "80") else ur_Host u in
    Ok (mkTarget hostPort useTLS (TrimSuffix (ur_Path u) "/")).

(** [Config.target] *)
Definition target_of (c : Config) : result target :=
  let ep := oc_Endpoint c in
  if negb (Contains ep "://") then
    if contains_char "/"%char ep || contains_char "?"%char ep || contains_char "#"%char ep
    then Err (errorf "a path requires a scheme (http:// or https://)")
    else match Config.SplitHostPort ep with
         | None => Err (errorf "must be host:port or a URL")
         | Some _ => Ok (mkTarget ep (negb (oc_Insecure c)) "")
         end
  else match url_Parse ep with
       | Err e => Err e
       | Ok u =>
           if String.eqb (ur_Scheme u) "http" then url_target u false
           else if String.eqb (ur_Scheme u) "https" then
             if oc_Insecure c then Err (errorf "uses https but insecure is true") else url_target u true
           else Err (errorf "scheme must be http or https")
       end.

Local Abbreviation problem := Recovery.problem.

Definition endpoint_problems (c : Config) : list error :=
  if bool_decide (oc_Endpoint c = "") then [errorf "endpoint is required"]
  else match target_of c with
       | Err e => [EWrap "endpoint" e]
       | Ok tgt => problem (negb (tg_tls tgt) && negb (bool_decide (oc_TLS c = no_tls)))
                     "tls settings are set but the endpoint is plaintext (insecure or http://)"
       end.

Definition blank (k : string) : bool := bool_decide (TrimSpace k = "").

(** The empty header names; how many there are does not depend on the order of the map. *)
Definition header_problems (h : gmap string Secret) : list error :=
  (λ _, errorf "headers: empty header name") <$> List.filter blank (fst <$> map_to_list h).

Definition Validate (c : Config) : option error :=
  join_problems (
    endpoint_problems c
    ++ problem (negb (String.eqb (oc_Protocol c) ProtocolGRPC || String.eqb (oc_Protocol c) ProtocolHTTP)) "protocol must be grpc or http"
    ++ problem (negb (String.eqb (oc_Compression c) CompressionNone || String.eqb (oc_Compression c) CompressionGzip)) "compression must be none or gzip"
    ++ problem (oc_Timeout c <=? 0) "timeout must be > 0"
    ++ problem (re_Attempts (oc_Retry c) <? 0) "retry.attempts must be >= 0"
    ++ problem (re_Backoff (oc_Retry c) <? 0) "retry.backoff must be >= 0"
    ++ problem (negb (Bool.eqb (bool_decide (tl_CertFile (oc_TLS c) = "")) (bool_decide (tl_KeyFile (oc_TLS c) = ""))))
         "tls.cert_file and tls.key_file must be set together"
    ++ header_problems (oc_Headers c))%list.
End Config.

(** The part of the block the export loop reads. *)
Definition retry_config (c : Config) : RetryConfig :=
  mkRetryConfig (re_Attempts (oc_Retry c)) (re_Backoff (oc_Retry c)) (oc_Timeout c).

(** ** client.go: TLS, transports and [New] *)

Definition SignalTraces : string := "traces".
Definition SignalLogs : string := "logs".
Definition tracesPath : string := "/v1/traces".
Definition logsPath : string := "/v1/logs".
Definition contentTypeProtobuf : string := "application/x-protobuf".
Definition maxErrorMessage : Z := 512.

(** [*tls.Config]: the name to verify, the CA bundle that replaces the system roots, and the
    certificate and key of the client; TLS 1.2 is the minimum. *)
Record tlsClient := mkTlsClient { tc_ServerName : string; tc_RootCAs : option string; tc_Certificate : option (string * string) }.

Record httpTransport := mkHttpTransport {
  ht_tls : option tlsClient; ht_tracesURL : string; ht_logsURL : string; ht_headers : gmap string string; ht_gzip : bool;
  ht_userAgent : string }.

(** What [grpc.NewClient] is given, and the metadata of every call. *)
Record grpcTransport := mkGrpcTransport {
  gt_tls : option tlsClient; gt_hostPort : string; gt_userAgent : string; gt_gzip : bool; gt_md : gmap string (list string) }.

Inductive transport := TGrpc (t : grpcTransport) | THttp (t : httpTransport).

Definition transport_tls (t : transport) : option tlsClient :=
  match t with TGrpc t => gt_tls t | THttp t => ht_tls t end.

Record Client := mkClient { cl_cfg : Config; cl_resource : gmap string gvalue; cl_tr : transport }.

(** [Resource] is [None] when its attributes are nil. *)
Record Options := mkOptions { op_Version : string; op_Resource : option (gmap string gvalue) }.

Section New.
Variable url_Parse : string → result URL.
(** The files: their content, whether it holds certificates, and a certificate with its key. *)
Variable ReadFile : string → result string.
Variable hasCerts : string → bool.
Variable LoadX509KeyPair : string → string → result (string * string).
(** [grpc.NewClient], which does not connect. *)
Variable grpc_NewClient : grpcTransport → option error.
(** The order of [range]. *)
Variable range : gmap string string → list (string * string).

Definition tls_build (t : TLSConfig) : result tlsClient :=
  let roots :=
    if bool_decide (tl_CAFile t = "") then Ok None
    else match ReadFile (tl_CAFile t) with
         | Err e => Err (EWrap "read ca_file" e)
         | Ok pem => if hasCerts pem then Ok (Some pem) else Err (errorf "ca_file: no certificates found")
         end in
  match roots with
  | Err e => Err e
  | Ok roots =>
      if bool_decide (tl_CertFile t = "") then Ok (mkTlsClient (tl_ServerName t) roots None)
      else match LoadX509KeyPair (tl_CertFile t) (tl_KeyFile t) with
           | Err e => Err (EWrap "load cert_file/key_file" e)
           | Ok cert => Ok (mkTlsClient (tl_ServerName t) roots (Some cert))
           end
  end.

(** [md.Append]: keys are lower case. *)
Definition md_append (md : gmap string (list string)) (kv : string * Secret) : gmap string (list string) :=
  let k := ToLower (fst kv) in <[k := (default [] (md !! k) ++ [Reveal (snd kv)])%list]> md.

Definition newGRPCTransport (c : Config) (tgt : target) (tls : option tlsClient) (userAgent : string) : result grpcTransport :=
  let t := mkGrpcTransport tls (tg_hostPort tgt) userAgent (String.eqb (oc_Compression c) CompressionGzip)
             (foldl md_append ∅ (range (oc_Headers c))) in
  match grpc_NewClient t with Some e => Err (EWrap "grpc client" e) | None => Ok t end.

Definition newHTTPTransport (c : Config) (tgt : target) (tls : option tlsClient) (userAgent : string) : httpTransport :=
  let base := (if tg_tls tgt then "https" else "http") +:+ "://" +:+ tg_hostPort tgt +:+ tg_basePath tgt in
  mkHttpTransport tls (base +:+ tracesPath) (base +:+ logsPath) (Reveal <$> oc_Headers c)
    (String.eqb (oc_Compression c) CompressionGzip) userAgent.

Definition new_transport (c : Config) (tgt : target) (tls : option tlsClient) (userAgent : string) : result transport :=
  if String.eqb (oc_Protocol c) ProtocolGRPC then
    match newGRPCTransport c tgt tls userAgent with Ok t => Ok (TGrpc t) | Err e => Err e end
  else if String.eqb (oc_Protocol c) ProtocolHTTP then Ok (THttp (newHTTPTransport c tgt tls userAgent))
  else Err (errorf "protocol").

Definition New (c : Config) (opts : Options) : result Client :=
  match Validate url_Parse c with
  | Some e => Err e
  | None =>
      match target_of url_Parse c with
      | Err e => Err (EWrap "endpoint" e)
      | Ok tgt =>
          let built := if tg_tls tgt
                       then match tls_build (oc_TLS c) with Ok t => Ok (Some t) | Err e => Err (EWrap "tls" e) end
                       else Ok None in
          match built with
          | Err e => Err e
          | Ok tls =>
              let version := if bool_decide (op_Version opts = "") then "dev" else op_Version opts in
              match new_transport c tgt tls ("antwatcher/" +:+ version) with
              | Err e => Err e
              | Ok tr => Ok (mkClient c (default (DefaultResource version) (op_Resource opts)) tr)
              end
          end
      end
  end.
End New.

(** ** client.go: one request *)

(** [ExportTraceServiceRequest] and [ExportLogsServiceRequest]. *)
Inductive export_request := TracesReq (r : ScopePB SpanPB) | LogsReq (r : ScopePB LogRecordPB).

Record request := mkRequest { rq_url : string; rq_headers : Header; rq_body : string }.

(** [rs_data] and [rs_readErr] are what reading at most [maxResponseBytes] of the body gave. *)
Record response := mkResponse { rs_StatusCode : Z; rs_Header : Header; rs_data : string; rs_readErr : option error }.

Definition url_of (t : httpTransport) (req : export_request) : string :=
  match req with TracesReq _ => ht_tracesURL t | LogsReq _ => ht_logsURL t end.

Definition set_header (h : Header) (kv : string * string) : Header := <[CanonicalHeaderKey (fst kv) := [snd kv]]> h.

Definition ellipsis : string := u3 226 128 166.

Definition truncate (s : string) : string :=
  if slen s <=? maxErrorMessage then s else String.substring 0 (Z.to_nat maxErrorMessage) s +:+ ellipsis.

Section Request.
Variable Marshal : export_request → result string.
Variable gzip : string → result string.
(** The error of [http.NewRequestWithContext] for a URL. *)
Variable NewRequest : string → option error.
Variable range : gmap string string → list (string * string).
Variable ParseMediaType : string → option string.
(** The rejected count and the message of a decoded response, as far as it could be decoded. *)
Variable Unmarshal : string → Z * string.
(** The message of a [google.rpc.Status]. *)
Variable status_message : string → option string.
Variable http_ParseTime : string → option Time.
(** [err.Error()] *)
Variable error_text : error → string.

Definition isProtobuf (contentType : string) : bool :=
  match ParseMediaType contentType with Some mt => String.eqb mt contentTypeProtobuf | None => false end.

Definition errorMessage (contentType data : string) : string :=
  if bool_decide (data = "") then ""
  else if isProtobuf contentType then
    match status_message data with
    | Some m => if bool_decide (m = "") then "" else truncate m
    | None => ""
    end
  else truncate (TrimSpace data).

(** The request [post] sends: its URL, headers and body. *)
Definition prepare (t : httpTransport) (req : export_request) : result request :=
  match Marshal req with
  | Err e => Err (EWrap "marshal request" e)
  | Ok body =>
      let zipped := if ht_gzip t then match gzip body with Err e => Err (EWrap "gzip request" e) | Ok z => Ok z end else Ok body in
      match zipped with
      | Err e => Err e
      | Ok body =>
          match NewRequest (url_of t req) with
          | Some e => Err e
          | None =>
              let own := [("Content-Type", contentTypeProtobuf); ("User-Agent", ht_userAgent t)]
                         ++ (if ht_gzip t then [("Content-Encoding", "gzip")] else []) in
              Ok (mkRequest (url_of t req) (foldl set_header ∅ (own ++ range (ht_headers t))) body)
          end
      end
  end%list.

Definition success (r : response) : bool := (200 <=? rs_StatusCode r) && (rs_StatusCode r <=? 299).

(** What [post] makes of the response; the fields of a partial success, or the error. *)
Definition answer (r : response) (now : Time) : (Z * string) + error :=
  let contentType := header_get (rs_Header r) "Content-Type" in
  if negb (success r) then
    let msg := errorMessage contentType (rs_data r) in
    let msg := match rs_readErr r with Some e => TrimSpace (msg +:+ "; response body: " +:+ error_text e) | None => msg end in
    inr (ELeaf (LHTTP (rs_StatusCode r) msg (parseRetryAfter http_ParseTime (header_get (rs_Header r) "Retry-After") now)))
  else match rs_readErr r with
       | Some _ => inl (0, "")
       | None => if negb (bool_decide (rs_data r = "")) && isProtobuf contentType then inl (Unmarshal (rs_data r)) else inl (0, "")
       end.

(** [client.Do] is [send]. *)
Definition post (t : httpTransport) (req : export_request) (send : request → result response) (now : Time) : (Z * string) + error :=
  match prepare t req with
  | Err e => inr e
  | Ok rq => match send rq with Err e => inr e | Ok r => answer r now end
  end.

(** ** client.go: exports *)

(** What an attempt meets: the contexts, the collector behind either transport, the clock. *)
Record exchange := mkExchange {
  xc_before : option error; xc_send : request → result response; xc_call : export_request → (Z * string) + error; xc_now : Time;
  xc_final : option error; xc_deadline : option Duration; xc_sleep : option error }.

Definition attempt (c : Client) (req : export_request) (x : exchange) : (Z * string) + error :=
  match cl_tr c with
  | TGrpc _ => xc_call x req
  | THttp t => post t req (xc_send x) (xc_now x)
  end.

Definition attempts (c : Client) (req : export_request) (x : Z → exchange) (n : Z) : attemptEnv :=
  mkAttemptEnv (xc_before (x n)) (attempt c req (x n)) (xc_final (x n)) (xc_deadline (x n)) (xc_sleep (x n)).

Definition spans_request (c : Client) (spans : list Span) : export_request := TracesReq (ResourceSpans (cl_resource c) spans).
Definition logs_request (c : Client) (records : list LogRecord) : export_request := LogsReq (ResourceLogs (cl_resource c) records).

Definition ExportSpans (c : Client) (spans : list Span) (x : Z → exchange) : option exported :=
  ExportBatch (retry_config (cl_cfg c)) spans (attempts c (spans_request c spans) x).

Definition ExportLogs (c : Client) (records : list LogRecord) (x : Z → exchange) : option exported :=
  ExportBatch (retry_config (cl_cfg c)) records (attempts c (logs_request c records) x).

(** The client was given an answer of success: a gRPC answer, or a response with a 2xx status to
    the HTTP request.  A collector may have accepted a request whose answer was lost, and an answer
    of success may reject some of the items. *)
Definition answered_ok (c : Client) (req : export_request) (x : exchange) : bool :=
  match cl_tr c with
  | TGrpc _ => match xc_call x req with inl _ => true | inr _ => false end
  | THttp t =>
      match prepare t req with
      | Err _ => false
      | Ok rq => match xc_send x rq with Ok r => success r | Err _ => false end
      end
  end.

(** ** Lemmas *)

Lemma attempt_accepted c req x :
  answered_ok c req x = match attempt c req x with inl _ => true | inr _ => false end.
Proof.
  unfold answered_ok, attempt, post. destruct (cl_tr c) as [|t]; [done|]. destruct (prepare t req); [|done].
  destruct (xc_send x _) as [r|]; [|done]. unfold answer. destruct (success r); cbn [negb]; [|done]. by repeat case_match.
Qed.
End Request.

(** An attempt that succeeded is the last one, and the export's answer is its success. *)
Lemma export_loop_last cfg env fuel n (waits : list Duration) r :
  export_loop cfg env fuel n waits = Some r →
  n ≤ ex_attempts r ∧ (ex_err r = None → n < ex_attempts r) ∧
  ∀ k, n ≤ k < ex_attempts r →
    match ae_outcome (env k) with inl _ => true | inr _ => false end = bool_decide (k = ex_attempts r - 1 ∧ ex_err r = None).
Proof.
  revert n waits. induction fuel as [|f IH]; intros n waits H; [done|]. cbn [export_loop] in H.
  destruct (ae_before (env n)). { injection H as <-. simpl. split_and!; [lia|done|]. intros k Hk. lia. }
  destruct (ae_outcome (env n)) as [[rej msg]|err] eqn:Eo.
  { injection H as <-. simpl. split_and!; [lia|lia|]. intros k Hk. assert (k = n) as -> by lia. rewrite Eo.
    rewrite bool_decide_true; [done|]. split; [lia|done]. }
  cbv zeta in H.
  assert (∀ e w, r = mkExported (Some e) (n + 1) w 0 → n ≤ ex_attempts r ∧ (ex_err r = None → n < ex_attempts r) ∧
    ∀ k, n ≤ k < ex_attempts r →
      match ae_outcome (env k) with inl _ => true | inr _ => false end = bool_decide (k = ex_attempts r - 1 ∧ ex_err r = None)) as Hstop.
  { intros e w ->. simpl. split_and!; [lia|done|]. intros k Hk. assert (k = n) as -> by lia. rewrite Eo.
    rewrite bool_decide_false; [done|]. by intros [_ ?]. }
  destruct (_ || _); [injection H as <-; by eapply Hstop|].
  destruct (_ || _); [injection H as <-; by eapply Hstop|].
  destruct (ae_sleep (env n)); [injection H as <-; by eapply Hstop|].
  apply IH in H as (H1 & H2 & H3). split_and!; [lia|intros He; specialize (H2 He); lia|].
  intros k Hk. destruct (decide (k = n)) as [->|]; [|apply H3; lia]. rewrite Eo.
  rewrite bool_decide_false; [done|]. intros [-> He]. specialize (H2 He). lia.
Qed.

(** The items an outcome rejects, as far as they are counted. *)
Definition rejected_in (o : (Z * string) + error) : Z := match o with inl (n, _) => Z.max n 0 | inr _ => 0 end.

Lemma export_loop_rejected cfg env fuel n (waits : list Duration) r :
  export_loop cfg env fuel n waits = Some r →
  ex_rejected r = match ex_err r with None => rejected_in (ae_outcome (env (ex_attempts r - 1))) | Some _ => 0 end.
Proof.
  revert n waits. induction fuel as [|f IH]; intros n waits H; [done|]. cbn [export_loop] in H.
  destruct (ae_before (env n)); [by injection H as <-|].
  destruct (ae_outcome (env n)) as [[rej msg]|err] eqn:Eo.
  { injection H as <-. cbn [ex_rejected ex_err ex_attempts]. replace (n + 1 - 1) with n by lia. by rewrite Eo. }
  cbv zeta in H. do 2 (destruct (_ || _); [by injection H as <-|]). destruct (ae_sleep (env n)); [by injection H as <-|]. by apply IH in H.
Qed.

(** The fuel of [export] is always enough. *)
Lemma export_some cfg env : ∃ r, export cfg env = Some r.
Proof.
  destruct (Z.le_gt_cases 0 (rt_Attempts cfg)) as [H|H].
  - destruct (export_loop_total cfg env (S (Z.to_nat (rt_Attempts cfg))) 0 []) as (r & Hr & _);
      [lia|lia|constructor|simpl; lia|]. by exists r.
  - unfold export. replace (Z.to_nat (rt_Attempts cfg)) with 0%nat by lia. cbn [export_loop].
    repeat (case_match; [by eexists|]). destruct (ae_outcome _) as [[? ?]|err]; [by eexists|]. cbv zeta.
    rewrite (proj2 (Z.leb_le (rt_Attempts cfg) 0)) by lia. rewrite orb_true_r. by eexists.
Qed.

(** An empty batch is not sent; another one is exported over the client's attempts. *)
Lemma ExportBatch_last {A} cfg (batch : list A) env :
  batch ≠ [] → ∃ r, ExportBatch cfg batch env = Some r ∧ 0 ≤ ex_attempts r ∧ (ex_err r = None → 0 < ex_attempts r) ∧
  ex_rejected r = match ex_err r with None => rejected_in (ae_outcome (env (ex_attempts r - 1))) | Some _ => 0 end ∧
  ∀ k, 0 ≤ k < ex_attempts r →
    match ae_outcome (env k) with inl _ => true | inr _ => false end = bool_decide (k = ex_attempts r - 1 ∧ ex_err r = None).
Proof.
  intros Hb. destruct (export_some cfg env) as [r Hr]. exists r. destruct batch; [done|]. split; [done|].
  pose proof (export_loop_rejected _ _ _ _ _ _ Hr). apply export_loop_last in Hr as (H0 & H1 & H2). by split_and!.
Qed.

Section Accepted.
Variable Marshal : export_request → result string.
Variable gzip : string → result string.
Variable NewRequest : string → option error.
Variable range : gmap string string → list (string * string).
Variable ParseMediaType : string → option string.
Variable Unmarshal : string → Z * string.
Variable status_message : string → option string.
Variable http_ParseTime : string → option Time.
Variable error_text : error → string.

Local Abbreviation ExportSpans := (ExportSpans Marshal gzip NewRequest range ParseMediaType Unmarshal status_message http_ParseTime error_text).
Local Abbreviation ExportLogs := (ExportLogs Marshal gzip NewRequest range ParseMediaType Unmarshal status_message http_ParseTime error_text).
Local Abbreviation answered_ok := (answered_ok Marshal gzip NewRequest range).

(** The items the answer of success rejects: they are lost to this collector. *)
Definition rejected_by (c : Client) (req : export_request) (x : exchange) : Z :=
  rejected_in (attempt Marshal gzip NewRequest range ParseMediaType Unmarshal status_message http_ParseTime error_text c req x).

(** The answer of an export that returned is that of the collector. *)
Definition reports (c : Client) (req : export_request) (x : Z → exchange) (r : exported) : Prop :=
  0 ≤ ex_attempts r ∧ (ex_err r = None → 0 < ex_attempts r) ∧
  ex_rejected r = match ex_err r with None => rejected_by c req (x (ex_attempts r - 1)) | Some _ => 0 end ∧
  ∀ k, 0 ≤ k < ex_attempts r → answered_ok c req (x k) = bool_decide (k = ex_attempts r - 1 ∧ ex_err r = None).

Lemma ExportSpans_accepted c spans x :
  spans ≠ [] → ∃ r, ExportSpans c spans x = Some r ∧ reports c (spans_request c spans) x r.
Proof.
  intros Hb. destruct (ExportBatch_last (retry_config (cl_cfg c)) spans (attempts Marshal gzip NewRequest range ParseMediaType
    Unmarshal status_message http_ParseTime error_text c (spans_request c spans) x) Hb) as (r & Hr & H0 & H1 & H2' & H2).
  exists r. split; [exact Hr|]. split_and!; [done..|]. intros k Hk. rewrite <- (H2 k Hk). apply attempt_accepted.
Qed.

Lemma ExportLogs_accepted c records x :
  records ≠ [] → ∃ r, ExportLogs c records x = Some r ∧ reports c (logs_request c records) x r.
Proof.
  intros Hb. destruct (ExportBatch_last (retry_config (cl_cfg c)) records (attempts Marshal gzip NewRequest range ParseMediaType
    Unmarshal status_message http_ParseTime error_text c (logs_request c records) x) Hb) as (r & Hr & H0 & H1 & H2' & H2).
  exists r. split; [exact Hr|]. split_and!; [done..|]. intros k Hk. rewrite <- (H2 k Hk). apply attempt_accepted.
Qed.
End Accepted.

(** What a block that passes the checks is like. *)
Lemma validate_block_None url_Parse c :
  Validate url_Parse c = None →
  (∃ tgt, target_of url_Parse c = Ok tgt ∧ (tg_tls tgt = false → oc_TLS c = no_tls)) ∧
  (oc_Protocol c = ProtocolGRPC ∨ oc_Protocol c = ProtocolHTTP) ∧ 0 < oc_Timeout c ∧ 0 ≤ re_Attempts (oc_Retry c) ∧
  0 ≤ re_Backoff (oc_Retry c).
Proof.
  unfold Validate. intros H%join_problems_None. repeat (apply app_nil in H as [? H]). rewrite !Config.problem_nil in *. to_prop.
  split_and!; try lia.
  - unfold endpoint_problems in *. case_match; [done|]. destruct (target_of url_Parse c) as [tgt|]; [|done].
    exists tgt. split; [done|]. intros Ht. rewrite Config.problem_nil, Ht in *. cbn in *. to_prop. done.
  - match goal with H : _ = true ∨ _ = true |- _ => destruct H as [H%String.eqb_eq|H%String.eqb_eq]; [by left|by right] end.
Qed.

(** The transport of a block whose protocol is one of the two. *)
Lemma new_transport_spec grpc_NewClient range c tgt tls ua :
  oc_Protocol c = ProtocolGRPC ∨ oc_Protocol c = ProtocolHTTP →
  match new_transport grpc_NewClient range c tgt tls ua with
  | Ok tr =>
      transport_tls tr = tls ∧
      match tr with
      | TGrpc t => oc_Protocol c = ProtocolGRPC ∧ gt_hostPort t = tg_hostPort tgt ∧ grpc_NewClient t = None
      | THttp t =>
          let base := (if tg_tls tgt then "https://" else "http://") +:+ tg_hostPort tgt +:+ tg_basePath tgt in
          oc_Protocol c = ProtocolHTTP ∧ ht_tracesURL t = base +:+ tracesPath ∧ ht_logsURL t = base +:+ logsPath
      end
  | Err e => oc_Protocol c = ProtocolGRPC ∧ ∃ t e', gt_hostPort t = tg_hostPort tgt ∧ grpc_NewClient t = Some e'
  end.
Proof.
  unfold new_transport, newGRPCTransport, newHTTPTransport. intros [Hp|Hp]; rewrite Hp.
  - change (String.eqb ProtocolGRPC ProtocolGRPC) with true. cbv iota.
    destruct (grpc_NewClient _) as [e'|] eqn:Eg; [|done]. split; [done|]. eexists _, e'. by split; [|exact Eg].
  - change (String.eqb ProtocolHTTP ProtocolGRPC) with false. change (String.eqb ProtocolHTTP ProtocolHTTP) with true.
    cbv iota. split; [done|]. cbn [ht_tracesURL ht_logsURL]. by destruct (tg_tls tgt).
Qed.

(** ** Properties *)

(** The endpoint asks for TLS: its scheme is https, or it has none and [Insecure] is not set. *)
Definition secure (url_Parse : string → result URL) (c : Config) : bool :=
  if Contains (oc_Endpoint c) "://"
  then match url_Parse (oc_Endpoint c) with Ok u => String.eqb (ur_Scheme u) "https" | Err _ => false end
  else negb (oc_Insecure c).

Lemma target_secure url_Parse c tgt : target_of url_Parse c = Ok tgt → tg_tls tgt = secure url_Parse c.
Proof.
  unfold target_of, secure. destruct (Contains _ _); cbn [negb].
  - destruct (url_Parse _) as [u|]; [|done]. unfold url_target.
    destruct (String.eqb_spec (ur_Scheme u) "http") as [->|]; [repeat case_match; intros; by simplify_eq/=|].
    destruct (String.eqb _ "https"); [|done]. repeat case_match; intros; by simplify_eq/=.
  - repeat case_match; intros; by simplify_eq/=.
Qed.

Section Theorems.
Variable url_Parse : string → result URL.
Variable ReadFile : string → result string.
Variable hasCerts : string → bool.
Variable LoadX509KeyPair : string → string → result (string * string).
Variable grpc_NewClient : grpcTransport → option error.
Variable range : gmap string string → list (string * string).
Variable Marshal : export_request → result string.
Variable gzip : string → result string.
Variable NewRequest : string → option error.
Variable ParseMediaType : string → option string.
Variable Unmarshal : string → Z * string.
Variable status_message : string → option string.
Variable http_ParseTime : string → option Time.
Variable error_text : error → string.

Local Abbreviation New := (New url_Parse ReadFile hasCerts LoadX509KeyPair grpc_NewClient range).
Local Abbreviation ExportSpans := (ExportSpans Marshal gzip NewRequest range ParseMediaType Unmarshal status_message http_ParseTime error_text).
Local Abbreviation ExportLogs := (ExportLogs Marshal gzip NewRequest range ParseMediaType Unmarshal status_message http_ParseTime error_text).
Local Abbreviation answered_ok := (answered_ok Marshal gzip NewRequest range).

(** A block is turned into a client exactly when its checks pass, its TLS files can be read
    and, for gRPC, the client library accepts the target; no error of the network is possible.
    The connection uses TLS exactly when the endpoint asks for it, TLS settings are never
    ignored on a plaintext connection, and the requests go to the host, port and path of the
    endpoint with the scheme of the connection. *)
Lemma New_spec c opts :
  match Validate url_Parse c with
  | Some e => New c opts = Err e
  | None =>
      ∃ tgt, target_of url_Parse c = Ok tgt ∧ (secure url_Parse c = false → oc_TLS c = no_tls) ∧
      match New c opts with
      | Ok cl =>
          cl_cfg cl = c ∧ (is_Some (transport_tls (cl_tr cl)) ↔ secure url_Parse c = true) ∧
          match cl_tr cl with
          | TGrpc t => oc_Protocol c = ProtocolGRPC ∧ gt_hostPort t = tg_hostPort tgt ∧ grpc_NewClient t = None
          | THttp t =>
              let base := (if secure url_Parse c then "https://" else "http://") +:+ tg_hostPort tgt +:+ tg_basePath tgt in
              oc_Protocol c = ProtocolHTTP ∧ ht_tracesURL t = base +:+ tracesPath ∧ ht_logsURL t = base +:+ logsPath
          end
      | Err e =>
          (secure url_Parse c = true ∧ ∃ e', tls_build ReadFile hasCerts LoadX509KeyPair (oc_TLS c) = Err e') ∨
          (oc_Protocol c = ProtocolGRPC ∧ ∃ t e', gt_hostPort t = tg_hostPort tgt ∧ grpc_NewClient t = Some e')
      end
  end.
Proof.
  unfold OtlpClient.New. destruct (Validate url_Parse c) as [e|] eqn:Ev; [done|].
  destruct (validate_block_None _ _ Ev) as ((tgt & Ht & Hp) & Hproto & _). exists tgt. rewrite Ht.
  rewrite (target_secure _ _ _ Ht) in Hp. split_and!; [done|exact Hp|]. rewrite (target_secure _ _ _ Ht).
  set (ua := "antwatcher/" +:+ _).
  assert (∀ tls, _) as Hnew by (intros tls; exact (new_transport_spec grpc_NewClient range c tgt tls ua Hproto)).
  rewrite (target_secure _ _ _ Ht) in Hnew. destruct (secure url_Parse c) eqn:Es.
  - destruct (tls_build _ _ _ _) as [t|e]; [|left; split; [done|by eexists]]. specialize (Hnew (Some t)).
    destruct (new_transport _ _ _ _ _ _) as [tr|e]; [|by right]. cbn [cl_cfg cl_tr]. destruct Hnew as [-> Hnew].
    split_and!; [done| |exact Hnew]. split; [done|by eexists].
  - specialize (Hnew None). destruct (new_transport _ _ _ _ _ _) as [tr|e]; [|by right]. cbn [cl_cfg cl_tr].
    destruct Hnew as [-> Hnew]. split_and!; [done| |exact Hnew]. split; [by intros []|done].
Qed.

(** An export of a non-empty batch always returns, and its answer is the collector's: it
    returns no error exactly when the last attempt was answered with success (a gRPC answer, or a 2xx
    response, whatever happened to its body), and no attempt before the last one was, so that
    a batch that was answered with success is never sent again. *)
Lemma accepted_once c spans records x :
  spans ≠ [] → records ≠ [] →
  (∃ r, ExportSpans c spans x = Some r ∧ (ex_err r = None → 0 < ex_attempts r) ∧
     ∀ k, 0 ≤ k < ex_attempts r →
       answered_ok c (spans_request c spans) (x k) = bool_decide (k = ex_attempts r - 1 ∧ ex_err r = None)) ∧
  (∃ r, ExportLogs c records x = Some r ∧ (ex_err r = None → 0 < ex_attempts r) ∧
     ∀ k, 0 ≤ k < ex_attempts r →
       answered_ok c (logs_request c records) (x k) = bool_decide (k = ex_attempts r - 1 ∧ ex_err r = None)).
Proof.
  intros Hs Hr. split.
  - destruct (ExportSpans_accepted Marshal gzip NewRequest range ParseMediaType Unmarshal status_message http_ParseTime error_text
      c spans x Hs) as (r & H & _ & H1 & _ & H'). by exists r.
  - destruct (ExportLogs_accepted Marshal gzip NewRequest range ParseMediaType Unmarshal status_message http_ParseTime error_text
      c records x Hr) as (r & H & _ & H1 & _ & H'). by exists r.
Qed.
End Theorems.

(** ** Examples *)

Definition ex_url (s : string) : result URL := Ok (mkURL "http" false "collector:4318" "/otlp/" "" "").

Definition ex_config : Config :=
  mkConfig "http://collector:4318/otlp/" ProtocolHTTP false no_tls {[ "Authorization" := "k" ]} (10 * Second) CompressionNone
    (mkRetry 2 (500 * Millisecond)).

Definition ex_client : result Client :=
  New ex_url (λ _, Err (errorf "no file")) (λ _, false) (λ _ _, Err (errorf "no file")) (λ _, None) map_to_list ex_config
    (mkOptions "" None).

(** The transport of the example; the fields that matter. *)
Example ex_client_url :
  match ex_client with
  | Ok (mkClient _ _ (THttp t)) => ht_logsURL t = "http://collector:4318/otlp/v1/logs" ∧ ht_tls t = None ∧ ht_userAgent t = "antwatcher/dev"
  | _ => False
  end.
Proof. vm_compute. done. Qed.

(** A host without a port gets the one of its scheme. *)
Example ex_target :
  target_of (λ _, Ok (mkURL "https" false "[::1]" "" "" "")) (mkConfig "https://[::1]" ProtocolHTTP false no_tls ∅ 1 "none" (mkRetry 0 0))
  = Ok (mkTarget "[::1]:443" true "").
Proof. vm_compute. done. Qed.

(** The collector answers 503, then 200 with a body that cannot be read. *)
Definition ex_exchange (n : Z) : exchange :=
  mkExchange None
    (λ _, if n =? 0 then Ok (mkResponse 503 ∅ "busy" None) else Ok (mkResponse 200 ∅ "" (Some (errorf "unexpected EOF"))))
    (λ _, inr (errorf "not grpc")) zero_time None None None.

Definition ex_http : Client :=
  match ex_client with Ok c => c | Err _ => mkClient ex_config ∅ (TGrpc (mkGrpcTransport None "" "" false ∅)) end.

Definition ex_record : LogRecord := mkLogRecord zero_time zero_time 9 "INFO" "ping" ∅ (zero_id 16) (zero_id 8).

Lemma accepted_once_witness :
  ∃ r, ExportLogs (λ _, Ok "body") Ok (λ _, None) map_to_list (λ _, None) (λ _, (0, "")) (λ _, None) (λ _, None) (λ _, "")
         ex_http [ex_record] ex_exchange = Some r ∧ ex_attempts r = 2 ∧
    answered_ok (λ _, Ok "body") Ok (λ _, None) map_to_list ex_http (logs_request ex_http [ex_record]) (ex_exchange 1) = true.
Proof.
  destruct (accepted_once map_to_list (λ _, Ok "body") Ok (λ _, None) (λ _, None) (λ _, (0, "")) (λ _, None) (λ _, None) (λ _, "")
    ex_http [mkSpan [] [] [] "" 1 zero_time zero_time ∅ (mkStatus 0 "")] [ex_record] ex_exchange) as [_ (r & Hr & _ & H)]; [done|done|].
  exists r. split; [exact Hr|]. assert (ex_attempts r = 2 ∧ ex_err r = None) as [Ha He].
  { vm_compute in Hr. injection Hr as <-. done. }
  split; [exact Ha|]. rewrite (H 1) by lia. rewrite bool_decide_true; [done|]. rewrite Ha. by split.
Defined.
