(* ===== verification/Archive.v ===== *)
(** * [internal/sink/archive]: one JSON line per event

    record.go: [Encode], [Decode] and the reader.  sink.go: [Process].  A file is its bytes;
    the reader reads from bytes in memory, so the only error of the underlying reader is the
    end of the file. *)

From S2P Require Import Prelude.
From S2P Require Import Errors.
From S2P Require Import GoText.
From S2P Require Import GoNum.
From S2P Require Import GoTime.
From S2P Require Import GoJson.
From S2P Require Import JsonText.
From S2P Require Import Event.

Local Open Scope Z_scope.

(** ** record.go: encoding *)

(** A member left out when its value is empty ([omitempty]). *)
Definition omit_string (key s : string) : list (string * json) :=
  if bool_decide (s = "") then [] else [(key, JStr (quote_string s))].
Definition omit_int (key : string) (z : Z) : list (string * json) :=
  if z =? 0 then [] else [(key, JNum (format_int z))].

(** [Record], as the encoder writes it: [payload] is the parsed payload. *)
Definition record_head (env : Envelope) : list (string * json) :=
  ([("schema_version", JNum (format_int (e_SchemaVersion env)))]
    ++ [("delivery_guid", JStr (quote_string (e_DeliveryGUID env)))]
    ++ [("event", JStr (quote_string (e_Event env)))]
    ++ omit_string "action" (e_Action env)
    ++ omit_string "hook_id" (e_HookID env)
    ++ [("received_at", JStr (Format_RFC3339Nano (UTC (e_ReceivedAt env))))]
    ++ omit_int "repository_id" (e_RepositoryID env)
    ++ omit_string "repository" (e_Repository env)
    ++ omit_string "forwarded_by" (e_ForwardedBy env)
    ++ omit_int "forward_hops" (e_ForwardHops env))%list.

Definition record_json (env : Envelope) (payload : json) : json := JObj (record_head env ++ [("payload", payload)]).

(** [Encode].  The encoder refuses a payload that is not JSON and a time whose year does not
    have four digits ([Time.MarshalJSON]). *)
Definition Encode (env : Envelope) : result string :=
  if bool_decide (TrimSpace (e_Payload env) = "") then Err (Permanentf "encode archive record: empty payload")
  else
    let year := Year (UTC (e_ReceivedAt env)) in
    if negb ((0 <=? year) && (year <? 10000)) then Err (permanent (EWrap "encode archive record" (errorf "year outside of range")))
    else match json_parse (e_Payload env) with
         | None => Err (permanent (EWrap "encode archive record" (errorf "invalid payload")))
         | Some payload => Ok (json_print (record_json env payload) +:+ String nl "")
         end.

(** ** record.go: decoding *)

(** The last member that selects the field [name], as its source text. *)
Definition dec_raw (name : string) (l : list (string * string)) (raw : string) : string :=
  foldl (λ raw kv, if String.eqb (fold_name name) (fold_name (unquote (fst kv))) then snd kv else raw) raw l.

Definition zero_envelope : Envelope := mkEnvelope 0 "" "" "" "" zero_time 0 "" "" 0 "".

(** [json.Unmarshal] of a line into a [Record], as the envelope with the same fields. *)
Definition unmarshal_record (line : string) : option Envelope :=
  v ← json_parse line;
  dec_object zero_envelope (λ l,
    ver ← dec_member "schema_version" dec_int64 0 l;
    guid ← dec_member "delivery_guid" dec_string "" l;
    ev ← dec_member "event" dec_string "" l;
    act ← dec_member "action" dec_string "" l;
    hook ← dec_member "hook_id" dec_string "" l;
    recv ← dec_member "received_at" dec_time zero_time l;
    repoID ← dec_member "repository_id" dec_int64 0 l;
    repo ← dec_member "repository" dec_string "" l;
    by_ ← dec_member "forwarded_by" dec_string "" l;
    hops ← dec_member "forward_hops" dec_int64 0 l;
    Some (mkEnvelope ver guid ev act hook recv repoID repo by_ hops (dec_raw "payload" (object_sources line) ""))) v.

Definition Decode (line : string) : result Envelope :=
  match unmarshal_record line with
  | None => Err (EWrap "decode archive record" (errorf "json"))
  | Some rec =>
      if bool_decide (e_DeliveryGUID rec = "") then Err (errorf "decode archive record: missing delivery_guid")
      else if bool_decide (e_Event rec = "") then Err (errorf "decode archive record: missing event")
      else if bool_decide (e_Payload rec = "") || bool_decide (e_Payload rec = "null")
           then Err (errorf "decode archive record: missing payload")
      else Ok (mkEnvelope (e_SchemaVersion rec) (e_DeliveryGUID rec) (e_Event rec) (e_Action rec) (e_HookID rec)
                 (UTC (e_ReceivedAt rec)) (e_RepositoryID rec) (e_Repository rec) (e_ForwardedBy rec)
                 (e_ForwardHops rec) (e_Payload rec))
  end.

(** ** record.go: the reader *)

(** The lines [ReadBytes] returns: each with its newline, the last one possibly without. *)
Fixpoint read_lines (s : string) : list string :=
  match s with
  | EmptyString => []
  | String c s' =>
      if bool_decide (c = nl) then String c "" :: read_lines s'
      else match read_lines s' with [] => [String c ""] | l :: ls => String c l :: ls end
  end.

(** [ReadAll]: [n] lines were read before. *)
Fixpoint read_all (n : Z) (lines : list string) : list Envelope * option error :=
  match lines with
  | [] => ([], None)
  | line :: lines =>
      let trimmed := TrimSpace line in
      if bool_decide (trimmed = "") then read_all (n + 1) lines
      else match Decode trimmed with
           | Err e => ([], Some (EWrap ("line " +:+ format_int (n + 1)) e))
           | Ok env => let '(envs, err) := read_all (n + 1) lines in (env :: envs, err)
           end
  end.

Definition ReadAll (file : string) : list Envelope * option error := read_all 0 (read_lines file).

(** ** sink.go *)

Section Process.
Context {W : Type}.
(** [writer.Append]. *)
Variable Append : Envelope → W → option error * W.

Definition Process (env : Envelope) (w : W) : option error * W :=
  let '(err, w') := Append env w in
  match err with
  | Some e => (Some (EWrap "archive" e), w')
  | None => (None, w')
  end.
End Process.

(** ** Lemmas: times are plain text *)

(** The characters of a time in UTC. *)
Definition time_char (c : ascii) : bool := is_digit c || existsb (Ascii.eqb c) ["-"%char; ":"%char; "."%char; "T"%char; "Z"%char].


Lemma time_digit d : 0 ≤ d < 10 → time_char (digit d) = true.
Proof.
  intros. unfold time_char, is_digit. rewrite byte_digit by lia. by rewrite !(proj2 (Z.leb_le _ _)) by lia.
Qed.

Lemma time_pad2 n : 0 ≤ n < 100 → string_forall time_char (pad2 n) = true.
Proof. intros. unfold pad2. cbn [string_forall]. by rewrite !time_digit by dm_lia. Qed.

Lemma time_pad4 n : 0 ≤ n < 10000 → string_forall time_char (pad4 n) = true.
Proof.
  intros. unfold pad4. rewrite (proj2 (Z.ltb_lt _ _)) by lia. by rewrite string_forall_app, !time_pad2 by dm_lia.
Qed.

Lemma time_frac k n : 0 ≤ n < 10 ^ Z.of_nat k → string_forall time_char (frac_digits k n) = true.
Proof.
  revert n. induction k as [|k IH]; intros n Hn; [done|]. cbn [frac_digits]. destruct (n =? 0); [done|].
  rewrite Nat2Z.inj_succ, Z.pow_succ_r in Hn by lia. assert (0 < 10 ^ Z.of_nat k) by (apply Z.pow_pos_nonneg; lia).
  cbn [string_forall]. rewrite time_digit, IH; [done|by apply Z.mod_pos_bound|].
  split; [apply Z.div_pos; lia|apply Z.div_lt_upper_bound; lia].
Qed.

Lemma Format_chars t : utc_4digit t → string_forall time_char (Format_RFC3339Nano t) = true.
Proof.
  destruct t as [ns off]. intros [Hoff Hy]. simpl in Hoff. subst off.
  unfold Year in Hy. unfold Format_RFC3339Nano. cbn [t_ns t_off] in *. cbv zeta.
  pose proof (civil_roundtrip ((ns + 0 * Second) / day_ns)) as Hc.
  destruct (civil_of_days _) as [[y m] d]. destruct Hc as [_ [Hm Hd]].
  set (rem := (ns + 0 * Second) mod day_ns).
  assert (0 ≤ rem < day_ns) by (apply Z.mod_pos_bound; done).
  assert (0 ≤ rem / Second < 86400) by (unfold day_ns, Second in *; dm_lia).
  assert (d < 100) by (unfold days_in in Hd; break; lia).
  assert (0 ≤ rem mod Second < Second) by (apply Z.mod_pos_bound; done).
  unfold fmt_year. rewrite (proj2 (Z.ltb_ge _ _)) by lia. change (fmt_zone 0) with "Z".
  rewrite !string_forall_app, time_pad4, !time_pad2 by (lia || dm_lia). cbn [andb].
  unfold fmt_frac. destruct (_ =? 0); [done|]. cbn [string_forall]. rewrite time_frac by done. done.
Qed.

Lemma time_char_ascii c : time_char c = true → plain c = true ∧ byte_of c < 128.
Proof. destruct c as [[] [] [] [] [] [] [] []]; vm_compute; try discriminate; by split. Qed.

Lemma Format_plain t : utc_4digit t → string_forall plain (Format_RFC3339Nano t) = true.
Proof. intros H%Format_chars. eapply string_forall_impl; [|exact H]. intros c Hc. by apply time_char_ascii. Qed.

(** ** Lemmas: the record *)

(** What an envelope must satisfy to be read back: integers at their width, text in UTF-8, a
    four-digit year, and a payload [v] that is not null and nested less than the decoder's
    limit of 10000 (the record around it is one more level). *)
Record archivable (env : Envelope) (v : json) : Prop := {
  ar_version : in_int64 (e_SchemaVersion env);
  ar_repo : in_int64 (e_RepositoryID env);
  ar_hops : in_int64 (e_ForwardHops env);
  ar_text : Forall (λ s, ValidString s = true)
    [e_DeliveryGUID env; e_Event env; e_Action env; e_HookID env; e_Repository env; e_ForwardedBy env];
  ar_guid : e_DeliveryGUID env ≠ "";
  ar_event : e_Event env ≠ "";
  ar_time : utc_4digit (UTC (e_ReceivedAt env));
  ar_payload : json_parse (e_Payload env) = Some v;
  ar_depth : json_ok 1 v;
  ar_null : v ≠ JNull }.

(** The envelope an archive gives back. *)
Definition archived (env : Envelope) (v : json) : Envelope :=
  mkEnvelope (e_SchemaVersion env) (e_DeliveryGUID env) (e_Event env) (e_Action env) (e_HookID env)
    (UTC (e_ReceivedAt env)) (e_RepositoryID env) (e_Repository env) (e_ForwardedBy env) (e_ForwardHops env) (json_print v).

Lemma member_ok_string key s : raw_ok key → Forall (λ kv, raw_ok (fst kv) ∧ json_ok 1 (snd kv)) [(key, JStr (quote_string s))].
Proof. intros Hk. apply Forall_singleton. split; [done|]. apply quote_string_spec. Qed.

Lemma omit_string_ok key s : raw_ok key → Forall (λ kv, raw_ok (fst kv) ∧ json_ok 1 (snd kv)) (omit_string key s).
Proof. intros Hk. unfold omit_string. case_bool_decide; [constructor|]. by apply member_ok_string. Qed.

Lemma omit_int_ok key z : raw_ok key → Forall (λ kv, raw_ok (fst kv) ∧ json_ok 1 (snd kv)) (omit_int key z).
Proof. intros Hk. unfold omit_int. destruct (z =? 0); [constructor|]. apply Forall_singleton. split; [done|]. apply num_ok_format. Qed.

Lemma record_head_ok env :
  utc_4digit (UTC (e_ReceivedAt env)) → Forall (λ kv, raw_ok (fst kv) ∧ json_ok 1 (snd kv)) (record_head env).
Proof.
  intros Ht. unfold record_head.
  assert (∀ key, string_forall plain key = true → raw_ok key) as Hk by apply plain_raw_ok.
  rewrite !Forall_app, !Forall_cons, !Forall_nil. cbn [fst snd json_ok].
  repeat first [exact (proj1 (quote_string_spec _)) | apply num_ok_format | apply omit_string_ok
    | apply omit_int_ok | apply Hk | split]; try done. by apply Format_plain.
Qed.

Lemma record_json_ok env v : utc_4digit (UTC (e_ReceivedAt env)) → json_ok 1 v → json_ok 0 (record_json env v).
Proof.
  intros Ht Hv. apply json_ok_obj. split; [done|]. apply Forall_app. split; [by apply record_head_ok|].
  apply Forall_singleton. split; [|done]. by apply plain_raw_ok.
Qed.

(** ** Lemmas: decoding a record *)

Lemma dec_member_app {B} name (d : dec B) b l1 l2 :
  dec_member name d b (l1 ++ l2) = b' ← dec_member name d b l1; dec_member name d b' l2.
Proof.
  revert b. induction l1 as [|[k v] l1 IH]; intros b; [done|]. rewrite <- app_comm_cons. cbn [dec_member].
  destruct (String.eqb _ _); [|apply IH]. destruct (d b v); [apply IH|done].
Qed.

(** The key [key] does not select the field [name]. *)
Definition other_key (name key : string) : bool := negb (String.eqb (fold_name name) (fold_name (unquote key))).

Lemma dec_other {B} name (d : dec B) b l :
  forallb (λ kv, other_key name (fst kv)) l = true → dec_member name d b l = Some b.
Proof.
  induction l as [|[k v] l IH]; [done|]. cbn [forallb fst dec_member]. unfold other_key at 1.
  intros [H1%negb_true_iff H2]%andb_true_iff. rewrite H1. by apply IH.
Qed.

Lemma other_omit_string name key s :
  other_key name key = true → forallb (λ kv, other_key name (fst kv)) (omit_string key s) = true.
Proof. intros H. unfold omit_string. case_bool_decide; [done|]. cbn. by rewrite H. Qed.

Lemma other_omit_int name key z :
  other_key name key = true → forallb (λ kv, other_key name (fst kv)) (omit_int key z) = true.
Proof. intros H. unfold omit_int. destruct (z =? 0); [done|]. cbn. by rewrite H. Qed.

Lemma dec_own_string key s :
  String.eqb (fold_name key) (fold_name (unquote key)) = true → ValidString s = true →
  dec_member key dec_string "" [(key, JStr (quote_string s))] = Some s ∧
  dec_member key dec_string "" (omit_string key s) = Some s.
Proof.
  intros Hk Hs. assert (dec_member key dec_string "" [(key, JStr (quote_string s))] = Some s) as H.
  { cbn [dec_member dec_string]. by rewrite Hk, unquote_quote. }
  split; [done|]. unfold omit_string. case_bool_decide; [by subst|done].
Qed.

Lemma dec_own_int key z :
  String.eqb (fold_name key) (fold_name (unquote key)) = true → in_int64 z →
  dec_member key dec_int64 0 [(key, JNum (format_int z))] = Some z ∧ dec_member key dec_int64 0 (omit_int key z) = Some z.
Proof.
  intros Hk Hz. assert (dec_member key dec_int64 0 [(key, JNum (format_int z))] = Some z) as H.
  { cbn [dec_member dec_int64]. by rewrite Hk, parse_int_format. }
  split; [done|]. unfold omit_int. destruct (z =? 0) eqn:E; [by to_prop; subst|done].
Qed.

Lemma dec_raw_last name l k x raw :
  other_key name k = false → dec_raw name (l ++ [(k, x)]) raw = x.
Proof.
  intros H. unfold dec_raw, other_key in *. rewrite foldl_app. cbn [foldl fst snd]. apply negb_false_iff in H. by rewrite H.
Qed.

(** Step over the members of other fields, then read the field's own. *)
Ltac other_members := repeat
  (rewrite ?dec_member_app; rewrite dec_other by first [reflexivity | apply other_omit_string; reflexivity | apply other_omit_int; reflexivity];
   cbn [mbind option_bind]).
Ltac own_member H := other_members; rewrite ?dec_member_app, H; cbn [mbind option_bind]; other_members; reflexivity.

Lemma unmarshal_archived env v ws :
  archivable env v → lexs LIdle "" ws = Some [] →
  unmarshal_record (json_print (record_json env v) +:+ ws) = Some (archived env v).
Proof.
  intros [Hver Hrepo Hhops Htext Hguid Hev Ht Hp Hd Hn] Hws.
  repeat (apply Forall_cons in Htext as [? Htext]).
  unfold unmarshal_record. pose proof (record_json_ok env v Ht Hd) as Hok.
  destruct (object_sources_print _ ws Hok Hws) as [Hparse Hsrc]. unfold record_json. rewrite Hparse, Hsrc.
  cbn [mbind option_bind dec_object].
  rewrite map_app. cbn [map fst snd]. rewrite dec_raw_last by reflexivity. clear Hparse Hsrc. unfold record_head.
  match goal with |- context [dec_member "schema_version" _ _ ?l] => set (members := l) end.
  assert (dec_member "schema_version" dec_int64 0 members = Some (e_SchemaVersion env)) as ->
    by (unfold members; own_member (proj1 (dec_own_int "schema_version" _ eq_refl Hver))).
  assert (dec_member "delivery_guid" dec_string "" members = Some (e_DeliveryGUID env)) as ->
    by (unfold members; own_member (proj1 (dec_own_string "delivery_guid" (e_DeliveryGUID env) eq_refl ltac:(done)))).
  assert (dec_member "event" dec_string "" members = Some (e_Event env)) as ->
    by (unfold members; own_member (proj1 (dec_own_string "event" (e_Event env) eq_refl ltac:(done)))).
  assert (dec_member "action" dec_string "" members = Some (e_Action env)) as ->
    by (unfold members; own_member (proj2 (dec_own_string "action" (e_Action env) eq_refl ltac:(done)))).
  assert (dec_member "hook_id" dec_string "" members = Some (e_HookID env)) as ->
    by (unfold members; own_member (proj2 (dec_own_string "hook_id" (e_HookID env) eq_refl ltac:(done)))).
  assert (dec_member "repository_id" dec_int64 0 members = Some (e_RepositoryID env)) as ->
    by (unfold members; own_member (proj2 (dec_own_int "repository_id" _ eq_refl Hrepo))).
  assert (dec_member "repository" dec_string "" members = Some (e_Repository env)) as ->
    by (unfold members; own_member (proj2 (dec_own_string "repository" (e_Repository env) eq_refl ltac:(done)))).
  assert (dec_member "forwarded_by" dec_string "" members = Some (e_ForwardedBy env)) as ->
    by (unfold members; own_member (proj2 (dec_own_string "forwarded_by" (e_ForwardedBy env) eq_refl ltac:(done)))).
  assert (dec_member "forward_hops" dec_int64 0 members = Some (e_ForwardHops env)) as ->
    by (unfold members; own_member (proj2 (dec_own_int "forward_hops" _ eq_refl Hhops))).
  assert (dec_member "received_at" dec_time zero_time members = Some (UTC (e_ReceivedAt env))) as ->; [|done].
  assert (dec_member "received_at" dec_time zero_time
    [("received_at", JStr (Format_RFC3339Nano (UTC (e_ReceivedAt env))))] = Some (UTC (e_ReceivedAt env))) as Hr.
  { cbn [dec_member dec_time]. change (String.eqb _ _) with true. cbv beta iota. by rewrite Parse_Format. }
  unfold members. own_member Hr.
Qed.

Lemma json_print_null v : json_print v = "null" → json_ok 0 v → v = JNull.
Proof.
  intros H Hok. pose proof (json_parse_print v Hok) as Hp. rewrite H in Hp. vm_compute in Hp. by injection Hp.
Qed.

Lemma json_print_nonempty v : json_ok 0 v → json_print v ≠ "".
Proof. intros Hok H. pose proof (json_parse_print v Hok) as Hp. rewrite H in Hp. by vm_compute in Hp. Qed.

(** The line of an envelope, without its newline. *)
Definition body_of (env : Envelope) (v : json) : string := json_print (record_json env v).

Lemma Decode_body env v ws :
  archivable env v → lexs LIdle "" ws = Some [] → Decode (body_of env v +:+ ws) = Ok (archived env v).
Proof.
  intros Ha Hws. unfold Decode, body_of. rewrite unmarshal_archived by done. destruct Ha.
  assert (json_ok 0 v) as Hv by (by apply (json_parse_ok (e_Payload env))).
  cbn [archived e_DeliveryGUID e_Event e_Payload]. rewrite !bool_decide_false by done.
  rewrite (bool_decide_false (json_print v = "")) by (by apply json_print_nonempty).
  rewrite (bool_decide_false (json_print v = "null")); [done|]. intros H. by apply ar_null0, json_print_null.
Qed.

Lemma body_braces env v : ∃ s, body_of env v = String "{"%char (s +:+ "}").
Proof. eexists. unfold body_of, record_json. cbn [json_print]. rewrite sapp_cons, sapp_nil_l. reflexivity. Qed.

Lemma body_no_ctl env v : archivable env v → no_ctl (body_of env v) = true.
Proof. intros []. eapply json_print_no_ctl. by apply record_json_ok. Qed.

(** *** Trimming a line *)

Fixpoint last_char (d : ascii) (s : string) : ascii := match s with EmptyString => d | String c s => last_char c s end.

Lemma last_char_app d s c : last_char d (s +:+ String c "") = c.
Proof. revert d. induction s as [|x s IH]; intros d; [done|]. rewrite sapp_cons. apply IH. Qed.

Lemma last_char_suffix d s p : p ≠ "" → last_char d (s +:+ p) = last_char d p.
Proof.
  intros Hp. revert d. induction s as [|x s IH]; intros d; [done|]. rewrite sapp_cons. cbn [last_char]. rewrite IH.
  by destruct p.
Qed.

Lemma strip_suffix_other p s c :
  p ≠ "" → last_char c p ≠ c → strip_suffix p (s +:+ String c "") = None.
Proof.
  intros Hp Hc. destruct (strip_suffix p (s +:+ String c "")) as [r|] eqn:E; [|done].
  apply strip_suffix_Some in E. apply (f_equal (last_char c)) in E. by rewrite last_char_app, last_char_suffix in E.
Qed.

Lemma strip_suffix_same s c : strip_suffix (String c "") (s +:+ String c "") = Some s.
Proof.
  induction s as [|x s IH]; [rewrite sapp_nil_l; cbn [strip_suffix]; by rewrite bool_decide_true|]. rewrite sapp_cons. cbn [strip_suffix].
  rewrite bool_decide_false; [by rewrite IH|]. intros [= _ H]. by destruct s.
Qed.

Lemma trim_right_brace n s : trim_right n (s +:+ "}") = s +:+ "}".
Proof.
  destruct n as [|n]; [done|]. cbn [trim_right].
  assert (∀ l, Forall (λ p, p ≠ "" ∧ last_char "}"%char p ≠ "}"%char) l →
    first_some (λ p, strip_suffix p (s +:+ "}")) l = None) as H.
  { induction 1 as [|p l [H1 H2] _ IH]; [done|]. cbn [first_some]. by rewrite strip_suffix_other. }
  rewrite H; [done|]. apply (bool_decide_eq_true_1 _). vm_compute. reflexivity.
Qed.

Lemma TrimSpace_line s : TrimSpace (String "{"%char (s +:+ "}") +:+ String nl "") = String "{"%char (s +:+ "}").
Proof.
  set (t := s +:+ "}"). unfold TrimSpace.
  assert (∀ n r, trim_left n (String "{"%char r) = String "{"%char r) as Hl by (intros [|n] r; reflexivity).
  rewrite sapp_cons, Hl. cbv zeta. cbn [String.length trim_right].
  assert (first_some (λ p, strip_suffix p (String "{"%char (t +:+ String nl ""))) spaces = Some (String "{"%char t)) as ->.
  { change spaces with (chr 9 :: chr 10 :: drop 2 spaces). cbn [first_some].
    rewrite <- (sapp_cons "{"%char t). rewrite strip_suffix_other by done.
    change (chr 10) with (String nl ""). by rewrite strip_suffix_same. }
  subst t. rewrite <- (sapp_cons "{"%char s). apply trim_right_brace.
Qed.

Lemma TrimSpace_body env v : TrimSpace (body_of env v +:+ String nl "") = body_of env v.
Proof. destruct (body_braces env v) as [s ->]. apply TrimSpace_line. Qed.

Lemma read_lines_line s rest : no_ctl s = true → read_lines (s +:+ String nl rest) = (s +:+ String nl "") :: read_lines rest.
Proof.
  induction s as [|c s IH]; intros H; [by cbn [read_lines]; rewrite sapp_nil_l; cbn [read_lines]; rewrite bool_decide_true|].
  rewrite !sapp_cons. cbn [read_lines]. unfold no_ctl in H. cbn [string_forall] in H. apply andb_true_iff in H as [Hc H].
  rewrite bool_decide_false; [by rewrite IH|]. intros ->. done.
Qed.

Lemma read_all_lines envs vs n :
  Forall2 archivable envs vs →
  read_all n (zip_with (λ e v, body_of e v +:+ String nl "") envs vs) = (zip_with archived envs vs, None).
Proof.
  intros H. revert n. induction H as [|env v envs vs Ha _ IH]; intros n; [done|]. cbn [zip_with read_all].
  rewrite TrimSpace_body. rewrite bool_decide_false by (destruct (body_braces env v) as [s ->]; done).
  rewrite <- (sapp_nil_r (body_of env v)) at 1. rewrite Decode_body by done. by rewrite IH.
Qed.

Lemma Encode_ok env v :
  archivable env v → bool_decide (TrimSpace (e_Payload env) = "") = false → Encode env = Ok (body_of env v +:+ String nl "").
Proof.
  intros [] H. unfold Encode. rewrite H. destruct ar_time0 as [_ [H1 H2]].
  rewrite (proj2 (Z.leb_le _ _)), (proj2 (Z.ltb_lt _ _)) by lia. cbn [andb negb]. by rewrite ar_payload0.
Qed.

(** Whatever the envelope, what [Encode] writes is exactly one line. *)
Lemma Encode_line env line : Encode env = Ok line → ∃ body, line = body +:+ String nl "" ∧ no_ctl body = true.
Proof.
  unfold Encode. intros H. destruct (bool_decide (TrimSpace (e_Payload env) = "")); [done|].
  destruct (negb _) eqn:Hy; [done|]. destruct (json_parse (e_Payload env)) as [v|] eqn:E; [|done].
  injection H as <-. exists (body_of env v). split; [done|]. to_prop. apply json_parse_ok in E.
  assert (utc_4digit (UTC (e_ReceivedAt env))) as Ht by (split; [done|lia]).
  unfold body_of, record_json. cbn [json_print]. rewrite !no_ctl_app. cbn [andb].
  rewrite no_ctl_join; [done..|]. apply Forall_fmap, Forall_app. split.
  - eapply Forall_impl; [by apply record_head_ok|]. intros [k x] [[_ Hk] Hx%json_print_no_ctl]. cbn [fst snd compose] in *.
    by rewrite !no_ctl_app, no_ctl_quoted, Hx.
  - apply Forall_singleton. unfold compose. cbn [fst snd]. rewrite !no_ctl_app, (json_print_no_ctl 0 v) by done. done.
Qed.

(** ** Properties *)

(** C19: what is archived is read back, for an envelope with a GUID and an event, text in UTF-8,
    integers of their width, a UTC year of four digits, and a payload that is a JSON document other
    than null nested less than 10000 levels deep ([archivable]).  Decoding the line written for it
    gives the event, field by field, with its reception time in UTC and its payload as compact JSON:
    the same document without the white space between its tokens.  Outside of these conditions
    [Encode] may write a line [Decode] refuses: a payload that is null, for one. *)
Theorem Decode_Encode env v line :
  archivable env v → Encode env = Ok line →
  Decode line = Ok (archived env v) ∧ Compact (e_Payload env) = Some (e_Payload (archived env v)) ∧
  json_parse (e_Payload (archived env v)) = json_parse (e_Payload env).
Proof.
  intros Ha He. destruct (bool_decide (TrimSpace (e_Payload env) = "")) eqn:Ht; [unfold Encode in He; by rewrite Ht in He|].
  rewrite (Encode_ok env v Ha Ht) in He. injection He as <-. split; [by apply Decode_body|].
  destruct Ha. cbn [archived e_Payload]. unfold Compact. rewrite ar_payload0. split; [done|].
  apply json_parse_print. by apply (json_parse_ok (e_Payload env)).
Qed.

(** A file of archived events, one after the other, is read back in full and in order. *)
Lemma ReadAll_Encode envs vs lines :
  Forall2 archivable envs vs → Forall2 (λ env line, Encode env = Ok line) envs lines →
  ReadAll (sconcat lines) = (zip_with archived envs vs, None).
Proof.
  intros Ha He.
  assert (lines = zip_with (λ e v, body_of e v +:+ String nl "") envs vs) as ->.
  { revert lines He. induction Ha as [|env v envs vs Ha _ IH]; intros lines He; inversion He as [|? line ? ? Hl Hls]; subst; [done|].
    cbn [zip_with]. f_equal; [|by apply IH].
    destruct (bool_decide (TrimSpace (e_Payload env) = "")) eqn:Ht; [unfold Encode in Hl; by rewrite Ht in Hl|].
    rewrite (Encode_ok env v Ha Ht) in Hl. by injection Hl. }
  unfold ReadAll. clear He.
  assert (read_lines (sconcat (zip_with (λ e v, body_of e v +:+ String nl "") envs vs)) =
    zip_with (λ e v, body_of e v +:+ String nl "") envs vs) as ->; [|by apply read_all_lines].
  induction Ha as [|env v envs vs Ha _ IH]; [done|]. cbn [zip_with]. rewrite sconcat_cons, sapp_assoc, sapp_cons, sapp_nil_l.
  rewrite read_lines_line by (by apply body_no_ctl). by rewrite IH.
Qed.

(** ** Witnesses *)

Definition ex_archived_env : Envelope :=
  mkEnvelope 1 "g-1" "push" "" "" (mkTime (unix_epoch_ns + 1700000000 * Second) 0) 7 "o/r" "" 0 " { } ".

Lemma ex_archivable : archivable ex_archived_env (JObj []).
Proof.
  constructor; try discriminate; try (split; discriminate); try reflexivity.
  - repeat (apply Forall_cons; split; [reflexivity|]). apply Forall_nil_2.
  - apply (bool_decide_eq_true_1 _). vm_compute. reflexivity.
  - split; [reflexivity|exact I].
Qed.

Definition ex_line : string := match Encode ex_archived_env with Ok l => l | Err _ => "" end.

Lemma ex_line_ok : Encode ex_archived_env = Ok ex_line.
Proof. vm_compute. reflexivity. Qed.

Lemma Decode_Encode_witness : Decode ex_line = Ok (archived ex_archived_env (JObj [])).
Proof. exact (proj1 (Decode_Encode ex_archived_env (JObj []) ex_line ex_archivable ex_line_ok)). Defined.

Lemma ReadAll_Encode_witness :
  ReadAll (ex_line +:+ ex_line) = ([archived ex_archived_env (JObj []); archived ex_archived_env (JObj [])], None).
Proof.
  refine (ReadAll_Encode [ex_archived_env; ex_archived_env] [JObj []; JObj []] [ex_line; ex_line] _ _).
  - repeat (constructor; [exact ex_archivable|]). constructor.
  - repeat (constructor; [exact ex_line_ok|]). constructor.
Defined.
