(* ===== verification/Trace.v ===== *)
(** * [internal/sink/trace]: completed runs and jobs as spans

    project.go: [Project] and its helpers.  sink.go: [Process] over an exporter, whose effect
    on the outside world is a state the exporter threads. *)

From S2P Require Import Prelude.
From S2P Require Import Errors.
From S2P Require Import GoTime.
From S2P Require Import Event.
From S2P Require Import Model.
From S2P Require Import Otlp.

Local Open Scope Z_scope.

(** ** project.go *)

Definition PrefixRun : string := "run:".
Definition PrefixJob : string := "job:".
Definition PrefixStep : string := "step:".

Definition AttrRepository : string := "github.repository".
Definition AttrWorkflowName : string := "github.workflow.name".
Definition AttrWorkflowPath : string := "github.workflow.path".
Definition AttrRunID : string := "github.run_id".
Definition AttrRunNumber : string := "github.run_number".
Definition AttrRunAttempt : string := "github.run_attempt".
Definition AttrEvent : string := "github.event".
Definition AttrHeadBranch : string := "github.head_branch".
Definition AttrHeadSHA : string := "github.head_sha".
Definition AttrActor : string := "github.actor".
Definition AttrConclusion : string := "github.conclusion".
Definition AttrHTMLURL : string := "github.html_url".
Definition AttrJobID : string := "github.job_id".
Definition AttrRunnerName : string := "github.runner_name".
Definition AttrRunnerGroup : string := "github.runner_group".
Definition AttrLabels : string := "github.labels".
Definition AttrStepNumber : string := "github.step.number".
Definition AttrStepConclusion : string := "github.step.conclusion".

Definition conclusionSuccess : string := "success".
Definition conclusionFailure : string := "failure".
Definition conclusionTimedOut : string := "timed_out".

Definition status (conclusion : option string) : Status :=
  match conclusion with
  | None => mkStatus StatusUnset ""
  | Some c =>
      if String.eqb c conclusionSuccess then mkStatus StatusOk ""
      else if String.eqb c conclusionFailure || String.eqb c conclusionTimedOut then mkStatus StatusError c
      else mkStatus StatusUnset ""
  end.

Definition setString (attrs : gmap string gvalue) (key : string) (v : option string) : gmap string gvalue :=
  match v with Some s => <[key := GString s]> attrs | None => attrs end.

Definition orTime (t : option Time) (fallback : Time) : Time :=
  match t with None => fallback | Some t => if IsZero t then fallback else t end.

Definition runSpan (r : Run) : Span :=
  let attrs : gmap string gvalue := list_to_map
    [(AttrRepository, GString (r_Repository r)); (AttrWorkflowPath, GString (r_WorkflowPath r));
     (AttrRunID, GInt (r_RunID r)); (AttrRunNumber, GInt (r_RunNumber r));
     (AttrRunAttempt, GInt (r_RunAttempt r)); (AttrEvent, GString (r_TriggerEvent r));
     (AttrHeadSHA, GString (r_HeadSHA r)); (AttrHTMLURL, GString (r_HTMLURL r))] in
  let attrs := setString attrs AttrWorkflowName (r_WorkflowName r) in
  let attrs := setString attrs AttrHeadBranch (r_HeadBranch r) in
  let attrs := setString attrs AttrActor (r_Actor r) in
  let attrs := setString attrs AttrConclusion (r_Conclusion r) in
  let name := default (r_WorkflowPath r) (r_WorkflowName r) in
  mkSpan (Run_TraceID r) (Run_SpanID r) (zero_id 8) (PrefixRun +:+ name) SpanKindInternal
    (orTime (r_StartedAt r) (r_CreatedAt r)) (r_UpdatedAt r) attrs (status (r_Conclusion r)).

(** The span of one step, when it has both timestamps. *)
Definition stepSpan (j : Job) (s : Step) : option Span :=
  match s_StartedAt s, s_CompletedAt s with
  | Some started, Some completed =>
      let attrs := setString {[AttrStepNumber := GInt (s_Number s)]} AttrStepConclusion (s_Conclusion s) in
      Some (mkSpan (Job_TraceID j) (Step_SpanID s j) (Job_SpanID j) (PrefixStep +:+ s_Name s) SpanKindInternal
              started completed attrs (status (s_Conclusion s)))
  | _, _ => None
  end.

Definition jobAttrs (j : Job) : gmap string gvalue :=
  let attrs : gmap string gvalue := list_to_map
    [(AttrRepository, GString (j_Repository j)); (AttrRunID, GInt (j_RunID j));
     (AttrRunAttempt, GInt (j_RunAttempt j)); (AttrJobID, GInt (j_JobID j));
     (AttrHeadSHA, GString (j_HeadSHA j)); (AttrHTMLURL, GString (j_HTMLURL j))] in
  let attrs := setString attrs AttrWorkflowName (j_WorkflowName j) in
  let attrs := setString attrs AttrHeadBranch (j_HeadBranch j) in
  let attrs := setString attrs AttrRunnerName (j_RunnerName j) in
  let attrs := setString attrs AttrRunnerGroup (j_RunnerGroup j) in
  let attrs := setString attrs AttrConclusion (j_Conclusion j) in
  match j_Labels j with [] => attrs | labels => <[AttrLabels := GStrings labels]> attrs end.

Definition jobSpans (exec : Execution) (j : Job) : list Span :=
  mkSpan (Job_TraceID j) (Job_SpanID j) (Job_ParentSpanID j) (PrefixJob +:+ j_Name j) SpanKindInternal
    (orTime (j_StartedAt j) (j_CreatedAt j)) (orTime (j_CompletedAt j) (EventTime exec))
    (jobAttrs j) (status (j_Conclusion j))
  :: omap (stepSpan j) (j_Steps j).

Definition Project (exec : Execution) : result (list Span) :=
  match x_Kind exec, x_Run exec, x_Job exec with
  | KindRun, Some r, _ => if String.eqb (r_Status r) StatusCompleted then Ok [runSpan r] else Err (esent ErrSkipped)
  | KindJob, _, Some j => if String.eqb (j_Status j) StatusCompleted then Ok (jobSpans exec j) else Err (esent ErrSkipped)
  | _, _, _ => Err (esent ErrSkipped)
  end.

(** ** sink.go *)

Section Process.
Context {W : Type}.
(** [exporter.ExportSpans]. *)
Variable ExportSpans : list Span → W → option error * W.

Definition Process (env : Envelope) (w : W) : option error * W :=
  match Normalize env with
  | Err e => (Some (permanent e), w)
  | Ok exec =>
      match Project exec with
      | Err e => (Some e, w)
      | Ok spans =>
          let '(err, w') := ExportSpans spans w in
          match err with
          | Some e => (Some (EWrap "export spans" e), w')
          | None => (None, w')
          end
      end
  end.
End Process.

(** ** Lemmas *)

(** The completed entity of an execution. *)
Definition completed (exec : Execution) : bool :=
  match x_Kind exec, x_Run exec, x_Job exec with
  | KindRun, Some r, _ => String.eqb (r_Status r) StatusCompleted
  | KindJob, _, Some j => String.eqb (j_Status j) StatusCompleted
  | _, _, _ => false
  end.

(** The span [s] is in the trace [trace], under [parent]. *)
Definition in_trace (trace parent : list Z) (s : Span) : Prop := sp_TraceID s = trace ∧ sp_ParentSpanID s = parent.

Definition step_ran (s : Step) : bool := bool_decide (is_Some (s_StartedAt s)) && bool_decide (is_Some (s_CompletedAt s)).

Lemma stepSpan_ran j s : is_Some (stepSpan j s) ↔ step_ran s = true.
Proof.
  unfold stepSpan, step_ran.
  destruct (s_StartedAt s), (s_CompletedAt s); simpl; split; intros H; try done; by destruct H.
Qed.

Lemma stepSpan_in_trace j s sp :
  stepSpan j s = Some sp → in_trace (Job_TraceID j) (Job_SpanID j) sp ∧ sp_SpanID sp = StepSpanID (j_JobID j) (s_Number s) ∧
    Some (sp_Start sp) = s_StartedAt s ∧ Some (sp_End sp) = s_CompletedAt s.
Proof.
  unfold stepSpan. destruct (s_StartedAt s), (s_CompletedAt s); intros [= <-]. by repeat split.
Qed.

Lemma omap_Forall2 {A B} (f : A → option B) (p : A → bool) (R : A → B → Prop) l :
  (∀ a, is_Some (f a) ↔ p a = true) → (∀ a b, f a = Some b → R a b) →
  Forall2 R (filter (λ a, p a = true) l) (omap f l).
Proof.
  intros Hp HR. induction l as [|a l IH]; [constructor|]. cbn [omap list_omap]. rewrite filter_cons.
  destruct (f a) eqn:E; case_decide as Hd.
  - constructor; [by apply HR|exact IH].
  - destruct Hd. apply Hp. by eexists.
  - apply Hp in Hd. rewrite E in Hd. by destruct Hd.
  - exact IH.
Qed.

(** ** Properties *)

(** C37: a completed job projects to the tree the trace is drawn from: a job span under the
    root span any run event of the same attempt produces, in that run's trace, and below it one
    span for every step that has both timestamps, in payload order, with exactly those times. *)
Theorem job_spans_tree x j r :
  x_Kind x = KindJob → x_Job x = Some j → j_Status j = StatusCompleted →
  r_RepositoryID r = j_RepositoryID j → r_RunID r = j_RunID j → r_RunAttempt r = j_RunAttempt j →
  ∃ job steps, Project x = Ok (job :: steps) ∧
    in_trace (sp_TraceID (runSpan r)) (sp_SpanID (runSpan r)) job ∧
    Forall2 (λ s sp, in_trace (sp_TraceID (runSpan r)) (sp_SpanID job) sp ∧
                     sp_SpanID sp = StepSpanID (j_JobID j) (s_Number s) ∧
                     Some (sp_Start sp) = s_StartedAt s ∧ Some (sp_End sp) = s_CompletedAt s)
      (filter (λ s, step_ran s = true) (j_Steps j)) steps.
Proof.
  intros Hk Hj Hs H1 H2 H3. unfold Project. rewrite Hk, Hj, Hs, String.eqb_refl. unfold jobSpans.
  eexists _, _. split; [by destruct (x_Run x)|]. unfold in_trace. cbn [sp_TraceID sp_ParentSpanID sp_SpanID runSpan].
  unfold Run_TraceID, Run_SpanID. rewrite H1, H2, H3. split; [done|].
  apply omap_Forall2; [apply stepSpan_ran|apply stepSpan_in_trace].
Qed.

(** A redelivery re-exports identical spans: what is exported depends on the reported run
    or job only, not on the delivery (its GUID, its headers, when it was received), as long as
    a completed job says when it completed. *)
Lemma spans_idempotent x y :
  x_Kind x = x_Kind y → x_Run x = x_Run y → x_Job x = x_Job y →
  (∀ j, x_Job x = Some j → ∃ t, j_CompletedAt j = Some t ∧ IsZero t = false) →
  Project x = Project y.
Proof.
  intros Hk Hr Hj Hc. unfold Project. rewrite <- Hk, <- Hr, <- Hj. destruct (x_Kind x); [done|done|].
  destruct (x_Job x) as [j|] eqn:E; [|done]. destruct (Hc j eq_refl) as (t & Ht & Hz).
  unfold jobSpans. rewrite Ht. cbn [orTime]. by rewrite Hz.
Qed.

(** The trace sink's answer on every envelope.  A payload that does not decode is
    permanent; an event that is not a completed run or job is skipped; neither touches the
    exporter.  Anything else is one export of the projected spans, whose error keeps the
    classification the exporter gave it. *)
Lemma Process_spec {W} (export : list Span → W → option error * W) env w :
  match Normalize env with
  | Err e => Process export env w = (Some (permanent e), w) ∧ IsPermanent (permanent e) = true
  | Ok x =>
      if completed x
      then ∃ spans, Project x = Ok spans ∧ spans ≠ [] ∧
             (Process export env w).2 = (export spans w).2 ∧
             (Process export env w).1 = EWrap "export spans" <$> (export spans w).1 ∧
             IsPermanent <$> (Process export env w).1 = IsPermanent <$> (export spans w).1
      else Process export env w = (Some (esent ErrSkipped), w)
  end.
Proof.
  unfold Process. destruct (Normalize env) as [x|e]; [|split; [done|apply IsPermanent_permanent]].
  assert (match Project x with Ok l => completed x = true ∧ l ≠ [] | Err e => completed x = false ∧ e = esent ErrSkipped end) as HP.
  { unfold Project, completed. destruct (x_Kind x), (x_Run x), (x_Job x); try done; by destruct (String.eqb _ _). }
  destruct (Project x) as [spans|e]; destruct HP as [-> HP].
  - exists spans. split; [done|]. split; [done|]. destruct (export spans w) as [[e|] w']; simpl; [|done].
    by rewrite IsPermanent_wrap.
  - by rewrite HP.
Qed.

(** ** Witnesses *)

Definition ex_step (n : Z) (ran : bool) : Step :=
  let t := if ran then Some (mkTime 1700000000 0) else None in
  mkStep n "build" "completed" (Some "success") t t.
Definition ex_job : Job :=
  mkJob 7 "o/r" 42 1 99 "build" None "completed" (Some "failure") (mkTime 1700000000 0) None
    (Some (mkTime 1700000060 0)) None None ["self-hosted"] None "abc" "" [ex_step 1 true; ex_step 2 false].
Definition ex_run : Run :=
  mkRun 7 "o/r" 3 None ".github/workflows/ci.yml" 42 5 1 "completed" (Some "failure") (mkTime 1700000000 0)
    (mkTime 1700000060 0) None "push" None "abc" None "".
Definition ex_job_env (guid : string) (at_ : Z) : Envelope :=
  mkEnvelope 1 guid "workflow_job" "completed" "" (mkTime at_ 0) 7 "o/r" "" 0 "{}".
Definition ex_job_exec (guid : string) (at_ : Z) : Execution := mkExecution KindJob None (Some ex_job) (ex_job_env guid at_).

Lemma job_spans_tree_witness :
  ∃ job step, Project (ex_job_exec "g" 0) = Ok [job; step] ∧
    sp_ParentSpanID job = sp_SpanID (runSpan ex_run) ∧ sp_ParentSpanID step = sp_SpanID job.
Proof.
  destruct (job_spans_tree (ex_job_exec "g" 0) ex_job ex_run eq_refl eq_refl eq_refl eq_refl eq_refl eq_refl)
    as (job & steps & H1 & [_ H2] & H3).
  assert (filter (λ s, step_ran s = true) (j_Steps ex_job) = [ex_step 1 true]) as Hf by (vm_compute; reflexivity).
  rewrite Hf in H3. inversion H3 as [|? step ? rest [[_ Hp] _] Hrest]; subst. inversion Hrest; subst.
  exists job, step. split; [exact H1|]. split; [exact H2|exact Hp].
Defined.

Lemma spans_idempotent_witness : Project (ex_job_exec "g" 0) = Project (ex_job_exec "h" 1800000000).
Proof.
  apply (spans_idempotent (ex_job_exec "g" 0) (ex_job_exec "h" 1800000000) eq_refl eq_refl eq_refl).
  intros j [= <-]. exists (mkTime 1700000060 0). split; reflexivity.
Defined.
