(* ===== verification/Log.v ===== *)
(** * [internal/sink/log]: one log record per event

    project.go: [Project] and its helpers.  sink.go: [Process] over a writer, whose effect on
    the outside world is a state the writer threads.  The attribute keys shared with the trace
    class are spelled again, as in the source. *)

From S2P Require Import Prelude.
From S2P Require Import Errors.
From S2P Require Import GoTime.
From S2P Require Import Event.
From S2P Require Import Model.
From S2P Require Import Otlp.
From S2P Require Trace.

Local Open Scope Z_scope.

(** ** project.go *)

Definition AttrDeliveryGUID : string := "github.delivery_guid".
Definition AttrHookID : string := "github.hook_id".
Definition AttrWebhookEvent : string := "github.webhook.event".
Definition AttrWebhookAction : string := "github.webhook.action".
Definition AttrRepositoryID : string := "github.repository_id".
Definition AttrRepository : string := "github.repository".
Definition AttrKind : string := "antwatcher.kind".
Definition AttrReceivedAt : string := "antwatcher.received_at".
Definition AttrSchemaVersion : string := "antwatcher.schema_version".

Definition AttrWorkflowID : string := "github.workflow.id".
Definition AttrWorkflowName : string := "github.workflow.name".
Definition AttrWorkflowPath : string := "github.workflow.path".
Definition AttrRunID : string := "github.run_id".
Definition AttrRunNumber : string := "github.run_number".
Definition AttrRunAttempt : string := "github.run_attempt".
Definition AttrJobID : string := "github.job_id".
Definition AttrJobName : string := "github.job.name".
Definition AttrStatus : string := "github.status".
Definition AttrConclusion : string := "github.conclusion".
Definition AttrEvent : string := "github.event".
Definition AttrHeadBranch : string := "github.head_branch".
Definition AttrHeadSHA : string := "github.head_sha".
Definition AttrActor : string := "github.actor".
Definition AttrRunnerName : string := "github.runner_name".
Definition AttrRunnerGroup : string := "github.runner_group".
Definition AttrLabels : string := "github.labels".
Definition AttrHTMLURL : string := "github.html_url".

Definition AttrStepsTotal : string := "github.steps.total".
Definition AttrStepsCompleted : string := "github.steps.completed".
Definition AttrStepsFailed : string := "github.steps.failed".
Definition AttrStepsSkipped : string := "github.steps.skipped".

Definition SeverityTextInfo : string := "INFO".
Definition SeverityTextWarn : string := "WARN".
Definition SeverityTextError : string := "ERROR".

Definition conclusionFailure : string := "failure".
Definition conclusionTimedOut : string := "timed_out".
Definition conclusionCancelled : string := "cancelled".
Definition conclusionSkipped : string := "skipped".

(** [body]: the parts that are empty are dropped. *)
Definition body (env : Envelope) (name : string) : string :=
  e_Event env +:+ (if bool_decide (e_Action env = "") then "" else " " +:+ e_Action env)
              +:+ (if bool_decide (name = "") then "" else ": " +:+ name).

Definition runName (r : Run) : string := match r_WorkflowName r with Some n => n | None => r_WorkflowPath r end.

Definition setString (attrs : gmap string gvalue) (key : string) (v : option string) : gmap string gvalue :=
  match v with Some s => <[key := GString s]> attrs | None => attrs end.

Definition envelopeAttributes (env : Envelope) (kind : Kind) : gmap string gvalue :=
  let attrs : gmap string gvalue := list_to_map
    [(AttrDeliveryGUID, GString (e_DeliveryGUID env)); (AttrWebhookEvent, GString (e_Event env));
     (AttrKind, GString (Kind_String kind));
     (AttrReceivedAt, GString (Format_RFC3339Nano (UTC (e_ReceivedAt env))));
     (AttrSchemaVersion, GInt (e_SchemaVersion env))] in
  let attrs := if bool_decide (e_Action env = "") then attrs else <[AttrWebhookAction := GString (e_Action env)]> attrs in
  let attrs := if bool_decide (e_HookID env = "") then attrs else <[AttrHookID := GString (e_HookID env)]> attrs in
  let attrs := if e_RepositoryID env =? 0 then attrs else <[AttrRepositoryID := GInt (e_RepositoryID env)]> attrs in
  if bool_decide (e_Repository env = "") then attrs else <[AttrRepository := GString (e_Repository env)]> attrs.

(** The plain assignments [attrs[k] = v] of a list, in order. *)
Definition assign (attrs : gmap string gvalue) (kvs : list (string * gvalue)) : gmap string gvalue :=
  foldl (λ m kv, <[fst kv := snd kv]> m) attrs kvs.

Definition runAttributes (attrs : gmap string gvalue) (r : Run) : gmap string gvalue :=
  let attrs := assign attrs
    [(AttrRepositoryID, GInt (r_RepositoryID r)); (AttrRepository, GString (r_Repository r));
     (AttrWorkflowID, GInt (r_WorkflowID r)); (AttrWorkflowPath, GString (r_WorkflowPath r));
     (AttrRunID, GInt (r_RunID r)); (AttrRunNumber, GInt (r_RunNumber r));
     (AttrRunAttempt, GInt (r_RunAttempt r)); (AttrStatus, GString (r_Status r));
     (AttrEvent, GString (r_TriggerEvent r)); (AttrHeadSHA, GString (r_HeadSHA r));
     (AttrHTMLURL, GString (r_HTMLURL r))] in
  let attrs := setString attrs AttrWorkflowName (r_WorkflowName r) in
  let attrs := setString attrs AttrConclusion (r_Conclusion r) in
  let attrs := setString attrs AttrHeadBranch (r_HeadBranch r) in
  setString attrs AttrActor (r_Actor r).

(** The step counters: completed, failed, skipped. *)
Record stepCounts := mkStepCounts { n_completed : Z; n_failed : Z; n_skipped : Z }.

Definition count_step (c : stepCounts) (s : Step) : stepCounts :=
  let c := if String.eqb (s_Status s) StatusCompleted
           then mkStepCounts (n_completed c + 1) (n_failed c) (n_skipped c) else c in
  match s_Conclusion s with
  | None => c
  | Some co =>
      if String.eqb co conclusionFailure || String.eqb co conclusionTimedOut
      then mkStepCounts (n_completed c) (n_failed c + 1) (n_skipped c)
      else if String.eqb co conclusionSkipped
      then mkStepCounts (n_completed c) (n_failed c) (n_skipped c + 1)
      else c
  end.

Definition count_steps (steps : list Step) : stepCounts := foldl count_step (mkStepCounts 0 0 0) steps.

Definition jobAttributes (attrs : gmap string gvalue) (j : Job) : gmap string gvalue :=
  let attrs := assign attrs
    [(AttrRepositoryID, GInt (j_RepositoryID j)); (AttrRepository, GString (j_Repository j));
     (AttrRunID, GInt (j_RunID j)); (AttrRunAttempt, GInt (j_RunAttempt j));
     (AttrJobID, GInt (j_JobID j)); (AttrJobName, GString (j_Name j));
     (AttrStatus, GString (j_Status j)); (AttrHeadSHA, GString (j_HeadSHA j));
     (AttrHTMLURL, GString (j_HTMLURL j))] in
  let attrs := setString attrs AttrWorkflowName (j_WorkflowName j) in
  let attrs := setString attrs AttrConclusion (j_Conclusion j) in
  let attrs := setString attrs AttrHeadBranch (j_HeadBranch j) in
  let attrs := setString attrs AttrRunnerName (j_RunnerName j) in
  let attrs := setString attrs AttrRunnerGroup (j_RunnerGroup j) in
  let attrs := match j_Labels j with [] => attrs | labels => <[AttrLabels := GStrings labels]> attrs end in
  let c := count_steps (j_Steps j) in
  assign attrs
    [(AttrStepsTotal, GInt (Z.of_nat (length (j_Steps j)))); (AttrStepsCompleted, GInt (n_completed c));
     (AttrStepsFailed, GInt (n_failed c)); (AttrStepsSkipped, GInt (n_skipped c))].

Definition severity (conclusion : option string) : Z * string :=
  match conclusion with
  | None => (SeverityInfo, SeverityTextInfo)
  | Some c =>
      if String.eqb c conclusionFailure || String.eqb c conclusionTimedOut then (SeverityError, SeverityTextError)
      else if String.eqb c conclusionCancelled then (SeverityWarn, SeverityTextWarn)
      else (SeverityInfo, SeverityTextInfo)
  end.

Definition Project (exec : Execution) : LogRecord :=
  let env := x_Envelope exec in
  let attrs := envelopeAttributes env (x_Kind exec) in
  let rec name attrs sev trace span :=
    mkLogRecord (EventTime exec) (e_ReceivedAt env) (fst sev) (snd sev) (body env name) attrs trace span in
  let bare := rec "" attrs (severity None) (zero_id 16) (zero_id 8) in
  match x_Kind exec with
  | KindRun =>
      match x_Run exec with
      | Some r => rec (runName r) (runAttributes attrs r) (severity (r_Conclusion r)) (Run_TraceID r) (Run_SpanID r)
      | None => bare
      end
  | KindJob =>
      match x_Job exec with
      | Some j => rec (j_Name j) (jobAttributes attrs j) (severity (j_Conclusion j)) (Job_TraceID j) (Job_SpanID j)
      | None => bare
      end
  | KindNone => bare
  end.

(** ** sink.go *)

Section Process.
Context {W : Type}.
(** [writer.Write]. *)
Variable Write : LogRecord → W → option error * W.

Definition Process (env : Envelope) (w : W) : option error * W :=
  match Normalize env with
  | Err e => (Some (permanent e), w)
  | Ok exec =>
      let '(err, w') := Write (Project exec) w in
      match err with
      | Some e => (Some (EWrap "write log record" e), w')
      | None => (None, w')
      end
  end.
End Process.

(** ** Lemmas *)

Definition is_completed (s : Step) : bool := String.eqb (s_Status s) StatusCompleted.
Definition concluded_as (l : list string) (s : Step) : bool :=
  match s_Conclusion s with Some c => bool_decide (c ∈ l) | None => false end.

(** How many steps satisfy [p]. *)
Definition countb (p : Step → bool) (l : list Step) : Z := Z.of_nat (length (List.filter p l)).

Lemma countb_cons p s l : countb p (s :: l) = (if p s then 1 else 0) + countb p l.
Proof. unfold countb. cbn [List.filter]. destruct (p s); cbn [length]; lia. Qed.

Lemma countb_bound p l : 0 ≤ countb p l ≤ Z.of_nat (length l).
Proof. induction l as [|s l IH]; [done|]. rewrite countb_cons. cbn [length]. destruct (p s); lia. Qed.

Definition failed_conclusions : list string := [conclusionFailure; conclusionTimedOut].

Lemma concluded_as_spec s :
  (concluded_as failed_conclusions s, concluded_as [conclusionSkipped] s) =
  match s_Conclusion s with
  | None => (false, false)
  | Some co => if String.eqb co conclusionFailure || String.eqb co conclusionTimedOut then (true, false)
               else (false, String.eqb co conclusionSkipped)
  end.
Proof.
  unfold concluded_as, failed_conclusions. destruct (s_Conclusion s) as [co|]; [|done].
  destruct (String.eqb co conclusionFailure) eqn:E1, (String.eqb co conclusionTimedOut) eqn:E2,
    (String.eqb co conclusionSkipped) eqn:E3; to_prop; subst; try done; simpl; f_equal;
    (apply bool_decide_eq_true || apply bool_decide_eq_false); set_solver.
Qed.

Lemma count_steps_from c l :
  foldl count_step c l =
  mkStepCounts (n_completed c + countb is_completed l) (n_failed c + countb (concluded_as failed_conclusions) l)
               (n_skipped c + countb (concluded_as [conclusionSkipped]) l).
Proof.
  revert c. induction l as [|s l IH]; intros c; cbn [foldl].
  { destruct c. unfold countb. simpl. f_equal; lia. }
  rewrite IH, !countb_cons. pose proof (concluded_as_spec s) as Hs. unfold count_step, is_completed at 2.
  destruct (s_Conclusion s) as [co|]; repeat case_match; simplify_eq/=;
    rewrite ?H, ?H0; f_equal; lia.
Qed.

Lemma count_steps_spec l :
  count_steps l = mkStepCounts (countb is_completed l) (countb (concluded_as failed_conclusions) l)
                               (countb (concluded_as [conclusionSkipped]) l).
Proof. unfold count_steps. by rewrite count_steps_from. Qed.

Lemma failed_skipped_bound l :
  countb (concluded_as failed_conclusions) l + countb (concluded_as [conclusionSkipped]) l ≤ Z.of_nat (length l).
Proof.
  induction l as [|s l IH]; [done|]. rewrite !countb_cons. cbn [length].
  pose proof (concluded_as_spec s) as Hs. repeat case_match; simplify_eq/=; lia.
Qed.

Lemma lookup_setString_ne attrs key v k : key ≠ k → setString attrs key v !! k = attrs !! k.
Proof. intros H. destruct v; [by apply lookup_insert_ne|done]. Qed.

(** Look a concrete key up through assignments. *)
Ltac lookup_attr :=
  unfold assign; cbn [foldl fst snd];
  repeat first [ rewrite lookup_insert_eq; reflexivity
               | rewrite lookup_insert_ne by discriminate
               | rewrite lookup_setString_ne by discriminate ].

Definition all_keys_step : list string := [AttrStepsTotal; AttrStepsCompleted; AttrStepsFailed; AttrStepsSkipped].

Lemma jobAttributes_lookup attrs j :
  let m := jobAttributes attrs j in
  let count p := Some (GInt (countb p (j_Steps j))) in
  m !! AttrStepsTotal = Some (GInt (Z.of_nat (length (j_Steps j)))) ∧ m !! AttrStepsCompleted = count is_completed ∧
  m !! AttrStepsFailed = count (concluded_as failed_conclusions) ∧ m !! AttrStepsSkipped = count (concluded_as [conclusionSkipped]) ∧
  m !! AttrRepositoryID = Some (GInt (j_RepositoryID j)) ∧ m !! AttrRunID = Some (GInt (j_RunID j)) ∧
  m !! AttrRunAttempt = Some (GInt (j_RunAttempt j)) ∧ m !! AttrJobID = Some (GInt (j_JobID j)).
Proof.
  cbv zeta. unfold jobAttributes. rewrite count_steps_spec. cbn [n_completed n_failed n_skipped].
  split_and!; destruct (j_Labels j); lookup_attr.
Qed.

Lemma runAttributes_lookup attrs r :
  let m := runAttributes attrs r in
  m !! AttrRepositoryID = Some (GInt (r_RepositoryID r)) ∧ m !! AttrRunID = Some (GInt (r_RunID r)) ∧
  m !! AttrRunAttempt = Some (GInt (r_RunAttempt r)) ∧ m !! AttrWorkflowID = Some (GInt (r_WorkflowID r)).
Proof. cbv zeta. unfold runAttributes. split_and!; lookup_attr. Qed.

(** Every attribute of the envelope that an entity does not replace is kept. *)
Definition entity_keys : list string :=
  [AttrRepositoryID; AttrRepository; AttrWorkflowID; AttrWorkflowName; AttrWorkflowPath; AttrRunID; AttrRunNumber;
   AttrRunAttempt; AttrJobID; AttrJobName; AttrStatus; AttrConclusion; AttrEvent; AttrHeadBranch; AttrHeadSHA;
   AttrActor; AttrRunnerName; AttrRunnerGroup; AttrLabels; AttrHTMLURL;
   AttrStepsTotal; AttrStepsCompleted; AttrStepsFailed; AttrStepsSkipped].

Lemma lookup_assign_ne attrs kvs k : k ∉ (fst <$> kvs) → assign attrs kvs !! k = attrs !! k.
Proof.
  revert attrs. induction kvs as [|[k' v] kvs IH]; intros attrs Hk; [done|]. unfold assign. cbn [foldl fst snd].
  cbn [fmap list_fmap fst] in Hk. apply not_elem_of_cons in Hk as [Hne Hk].
  change (assign (<[k' := v]> attrs) kvs !! k = attrs !! k). rewrite IH by done. by apply lookup_insert_ne.
Qed.

(** A key outside [entity_keys] differs from each of them. *)
Ltac outside H := intros <-; apply H; apply (bool_decide_eq_true_1 _); vm_compute; reflexivity.

Lemma keys_subset k l : k ∉ entity_keys → bool_decide (Forall (λ k', k' ∈ entity_keys) l) = true → k ∉ l.
Proof. intros Hk Hl%bool_decide_eq_true Hin. rewrite Forall_forall in Hl. by apply Hk, Hl. Qed.

Lemma entity_keeps_envelope attrs k :
  k ∉ entity_keys →
  (∀ r, runAttributes attrs r !! k = attrs !! k) ∧ (∀ j, jobAttributes attrs j !! k = attrs !! k).
Proof.
  intros Hk. split; [intros r|intros j].
  - unfold runAttributes. rewrite !lookup_setString_ne by outside Hk.
    apply lookup_assign_ne. apply keys_subset; [done|]. vm_compute. reflexivity.
  - unfold jobAttributes. rewrite lookup_assign_ne by (apply keys_subset; [done|]; vm_compute; reflexivity).
    assert (∀ m : gmap string gvalue,
      (match j_Labels j with [] => m | labels => <[AttrLabels := GStrings labels]> m end) !! k = m !! k) as Hl.
    { intros m. destruct (j_Labels j); [done|]. rewrite lookup_insert_ne; [done|]. outside Hk. }
    rewrite Hl, !lookup_setString_ne by outside Hk.
    apply lookup_assign_ne. apply keys_subset; [done|]. vm_compute. reflexivity.
Qed.

Lemma severity_status c :
  fst (severity c) = SeverityError ↔ sta_Code (Trace.status c) = StatusError.
Proof.
  unfold severity, Trace.status. destruct c as [c|]; [|by split].
  change Trace.conclusionFailure with conclusionFailure. change Trace.conclusionTimedOut with conclusionTimedOut.
  destruct (String.eqb c conclusionFailure) eqn:E1; [apply String.eqb_eq in E1 as ->; by split|].
  destruct (String.eqb c conclusionTimedOut) eqn:E2; [apply String.eqb_eq in E2 as ->; by split|]. cbn [orb].
  destruct (String.eqb c Trace.conclusionSuccess) eqn:E3, (String.eqb c conclusionCancelled); by split.
Qed.

(** ** Properties *)

(** A log record and the span of the same run or job carry the same trace and span ids
    and agree on what a failure is: the record is an error exactly when the span is.  A record
    of any other event carries no ids. *)
Lemma record_correlates x :
  (∀ span rest, Trace.Project x = Ok (span :: rest) →
     lr_TraceID (Project x) = sp_TraceID span ∧ lr_SpanID (Project x) = sp_SpanID span ∧
     (lr_Severity (Project x) = SeverityError ↔ sta_Code (sp_Status span) = StatusError)) ∧
  (x_Kind x = KindNone → lr_TraceID (Project x) = zero_id 16 ∧ lr_SpanID (Project x) = zero_id 8).
Proof.
  split.
  - intros span rest. unfold Trace.Project, Project. destruct (x_Kind x), (x_Run x) as [r|], (x_Job x) as [j|]; try done.
    all: destruct (String.eqb _ _); [|done]; intros [= <- _]; split_and!; [done|done|apply severity_status].
  - intros Hk. unfold Project. by rewrite Hk.
Qed.

(** A job record shows its steps without their spans: the step attributes count the
    steps reported, those completed, those that failed or timed out and those skipped, failed
    and skipped are disjoint, and the identity attributes are the entity's own. *)
Lemma job_record_counts x j :
  x_Kind x = KindJob → x_Job x = Some j →
  let m := lr_Attributes (Project x) in
  let steps := j_Steps j in
  m !! AttrStepsTotal = Some (GInt (Z.of_nat (length steps))) ∧
  m !! AttrStepsCompleted = Some (GInt (countb is_completed steps)) ∧
  m !! AttrStepsFailed = Some (GInt (countb (concluded_as failed_conclusions) steps)) ∧
  m !! AttrStepsSkipped = Some (GInt (countb (concluded_as [conclusionSkipped]) steps)) ∧
  countb is_completed steps ≤ Z.of_nat (length steps) ∧
  countb (concluded_as failed_conclusions) steps + countb (concluded_as [conclusionSkipped]) steps ≤ Z.of_nat (length steps) ∧
  m !! AttrRepositoryID = Some (GInt (j_RepositoryID j)) ∧ m !! AttrRunID = Some (GInt (j_RunID j)) ∧
  m !! AttrRunAttempt = Some (GInt (j_RunAttempt j)) ∧ m !! AttrJobID = Some (GInt (j_JobID j)).
Proof.
  intros Hk Hj. cbv zeta. unfold Project. rewrite Hk, Hj. cbn [lr_Attributes].
  destruct (jobAttributes_lookup (envelopeAttributes (x_Envelope x) KindJob) j) as (? & ? & ? & ? & ? & ? & ? & ?).
  split_and!; try assumption; [apply countb_bound|apply failed_skipped_bound].
Qed.

(** The log sink's answer on every envelope: a payload that does not decode is permanent
    and writes nothing; every other event, modelled or not, is one write of its record, never
    skipped, carrying the delivery's GUID, event and reception time, and the writer's
    classification of a failure is kept. *)
Lemma Process_logs_everything {W} (write : LogRecord → W → option error * W) env w :
  match Normalize env with
  | Err e => Process write env w = (Some (permanent e), w)
  | Ok x =>
      let m := lr_Attributes (Project x) in
      (Process write env w).2 = (write (Project x) w).2 ∧
      (Process write env w).1 = EWrap "write log record" <$> (write (Project x) w).1 ∧
      IsPermanent <$> (Process write env w).1 = IsPermanent <$> (write (Project x) w).1 ∧
      m !! AttrDeliveryGUID = Some (GString (e_DeliveryGUID env)) ∧ m !! AttrWebhookEvent = Some (GString (e_Event env)) ∧
      lr_ObservedTime (Project x) = e_ReceivedAt env
  end.
Proof.
  unfold Process. destruct (Normalize env) as [x|e] eqn:E; [|done]. cbv zeta.
  assert (x_Envelope x = env) as Hx.
  { unfold Normalize in E. destruct (String.eqb _ _); [destruct (decodeRun env); simpl in E; by simplify_eq |].
    destruct (String.eqb _ _); [destruct (decodeJob env); simpl in E |]; by simplify_eq. }
  assert (∀ k, k ∉ entity_keys → lr_Attributes (Project x) !! k = envelopeAttributes env (x_Kind x) !! k) as Ha.
  { intros k Hk. unfold Project. rewrite Hx. destruct (x_Kind x), (x_Run x), (x_Job x); try done;
      by apply entity_keeps_envelope. }
  split_and!.
  - by destruct (write (Project x) w) as [[e|] w'].
  - by destruct (write (Project x) w) as [[e|] w'].
  - destruct (write (Project x) w) as [[e|] w']; simpl; [by rewrite IsPermanent_wrap|done].
  - rewrite Ha by (apply (bool_decide_eq_true_1 _); vm_compute; reflexivity). unfold envelopeAttributes.
    repeat case_match; lookup_attr; reflexivity.
  - rewrite Ha by (apply (bool_decide_eq_true_1 _); vm_compute; reflexivity). unfold envelopeAttributes.
    repeat case_match; lookup_attr; reflexivity.
  - unfold Project. rewrite Hx. by destruct (x_Kind x), (x_Run x), (x_Job x).
Qed.

(** ** Witnesses *)

Lemma job_record_counts_witness :
  lr_Attributes (Project (Trace.ex_job_exec "g" 0)) !! AttrStepsTotal = Some (GInt 2).
Proof. exact (proj1 (job_record_counts (Trace.ex_job_exec "g" 0) Trace.ex_job eq_refl eq_refl)). Defined.
