(* ===== verification/Stdout.v ===== *)
(** * [internal/sink/log/drivers/stdout]: log records printed as JSON lines

    driver.go: the block and its checks, [Encode] of a record, and [Write].  [json.Marshal] is
    the printing of a JSON value with its three HTML characters escaped; the attribute values
    it is given by the log class are strings, integers and lists of strings, and the encoding
    of the remaining kinds is a parameter.  A stream is its bytes. *)

From S2P Require Import Prelude.
From S2P Require Import Errors.
From S2P Require Import GoText.
From S2P Require Import GoNum.
From S2P Require Import GoTime.
From S2P Require Import GoJson.
From S2P Require Import JsonText.
From S2P Require Import Yaml.
From S2P Require Import Event.
From S2P Require Import Model.
From S2P Require Import Otlp.
From S2P Require Archive.
From S2P Require Log.

Local Open Scope Z_scope.

Definition StreamStdout : string := "stdout".
Definition StreamStderr : string := "stderr".

Record Config := mkConfig { sc_Stream : string; sc_Pretty : bool }.

Definition DefaultConfig : Config := mkConfig StreamStdout false.

Definition Validate (c : Config) : option error :=
  if String.eqb (sc_Stream c) StreamStdout || String.eqb (sc_Stream c) StreamStderr then None
  else Some (errorf "stream must be stdout or stderr").

Definition Describe (decode : Node → Config → result Config) (raw : Node) : result Config :=
  DecodeStrict decode raw DefaultConfig.

(** The stream a sink prints to, and whether it indents. *)
Record Writer := mkWriter { wr_stderr : bool; wr_pretty : bool }.

Definition Factory (decode : Node → Config → result Config) (raw : Node) : result Writer :=
  match Describe decode raw with
  | Err e => Err e
  | Ok cfg =>
      match Validate cfg with
      | Some e => Err e
      | None => Ok (mkWriter (String.eqb (sc_Stream cfg) StreamStderr) (sc_Pretty cfg))
      end
  end.

(** ** The document *)

Record Doc := mkDoc {
  dc_Time : string; dc_ObservedTime : string; dc_Severity : string; dc_SeverityNumber : Z; dc_Body : string;
  dc_TraceID : string; dc_SpanID : string; dc_Attributes : gmap string gvalue }.

Definition formatTime (t : Time) : string := if IsZero t then "" else Format_RFC3339Nano (UTC t).

(** The hex form of an identifier of [n] bytes, empty for the zero one. *)
Definition hex_id (n : nat) (id : list Z) : string := if bool_decide (id = zero_id n) then "" else hex_encode id.

Definition Encode (rec : LogRecord) : Doc :=
  mkDoc (formatTime (lr_Time rec)) (formatTime (lr_ObservedTime rec)) (lr_SeverityText rec) (lr_Severity rec) (lr_Body rec)
    (hex_id 16 (lr_TraceID rec)) (hex_id 8 (lr_SpanID rec)) (lr_Attributes rec).

(** A rune as [json.Marshal] writes it: the HTML characters are escaped too. *)
Definition quote_rune_html (r : rune_item) : string :=
  match r with
  | RuneOK (String c EmptyString) =>
      if bool_decide (c ∈ ["<"%char; ">"%char; "&"%char])
      then "\u00" +:+ String (hex_digit (byte_of c / 16)) (String (hex_digit (byte_of c mod 16)) "")
      else quote_rune r
  | _ => quote_rune r
  end.

Definition quote_html (s : string) : string := sconcat (map quote_rune_html (runes s)).

Definition jstr (s : string) : json := JStr (quote_html s).

(** The members of a map: sorted by key, the keys quoted. *)
Definition sorted_members (l : list (string * json)) : list (string * json) :=
  (λ kj, (quote_html (fst kj), snd kj)) <$> merge_sort key_le l.

Section Marshal.
(** The encoding of floats, bytes, times and other values; [None] is an error. *)
Variable encode_other : gvalue → option json.

Fixpoint gjson (v : gvalue) : option json :=
  match v with
  | GNil => Some JNull
  | GString s => Some (jstr s)
  | GBool b => Some (JBool b)
  | GInt z => Some (JNum (format_int z))
  | GUint u => Some (JNum (format_uint u))
  | GStrings l => Some (JArr (jstr <$> l))
  | GSlice l =>
      JArr <$> foldr (λ v acc, match gjson v, acc with Some j, Some l => Some (j :: l) | _, _ => None end) (Some []) l
  | GMap l =>
      (λ l, JObj (sorted_members l)) <$>
        foldr (λ kv acc, match gjson (snd kv), acc with Some j, Some l => Some ((fst kv, j) :: l) | _, _ => None end) (Some []) l
  | v => encode_other v
  end.

(** The members of the attribute map. *)
Definition attributes_json (m : gmap string gvalue) : option (list (string * json)) :=
  sorted_members <$> mapM (λ kv, pair (fst kv) <$> gjson (snd kv)) (map_to_list m).

Definition omit (key s : string) : list (string * json) := if bool_decide (s = "") then [] else [(key, jstr s)].

(** The document of a record, with the members that are empty left out. *)
Definition doc_json (d : Doc) : option json :=
  attrs ← attributes_json (dc_Attributes d);
  Some (JObj ([("time", jstr (dc_Time d))]
    ++ omit "observed_time" (dc_ObservedTime d)
    ++ [("severity", jstr (dc_Severity d))]
    ++ [("severity_number", JNum (format_int (dc_SeverityNumber d)))]
    ++ [("body", jstr (dc_Body d))]
    ++ omit "trace_id" (dc_TraceID d)
    ++ omit "span_id" (dc_SpanID d)
    ++ match attrs with [] => [] | _ => [("attributes", JObj attrs)] end)%list).

(** [json.MarshalIndent(v, "", "  ")], nested under [d] brackets. *)
Definition line_break (d : nat) : string := String nl (String.concat "" (replicate d "  ")).

Fixpoint json_indent (d : nat) (v : json) : string :=
  match v with
  | JArr [] => "[]"
  | JArr l => "[" +:+ Join (map (λ v, line_break (S d) +:+ json_indent (S d) v) l) "," +:+ line_break d +:+ "]"
  | JObj [] => "{}"
  | JObj l =>
      "{" +:+ Join (map (λ kv, line_break (S d) +:+ quoted (fst kv) +:+ ": " +:+ json_indent (S d) (snd kv)) l) ","
          +:+ line_break d +:+ "}"
  | v => json_print v
  end.

(** ** Writing *)

(** What the stream does with one write: all of it, or an error after some bytes. *)
Definition write_call := option (nat * error).

Definition write_stream (o : write_call) (data stream : string) : option error * string :=
  match o with
  | None => (None, stream +:+ data)
  | Some (n, e) => (Some e, stream +:+ String.substring 0 n data)
  end.

(** [Writer.Write]; [ctx] is [ctx.Err()]. *)
Definition Write (w : Writer) (ctx : option error) (o : write_call) (rec : LogRecord) (stream : string) : option error * string :=
  match ctx with
  | Some e => (Some e, stream)
  | None =>
      match doc_json (Encode rec) with
      | None => (Some (permanent (EWrap "encode log record" (errorf "json"))), stream)
      | Some doc =>
          let data := (if wr_pretty w then json_indent 0 doc else json_print doc) +:+ String nl "" in
          match write_stream o data stream with
          | (Some e, stream) => (Some (EWrap "write log record" e), stream)
          | (None, stream) => (None, stream)
          end
      end
  end.
End Marshal.

(** ** Lemmas: strings *)

Lemma quotes_rune_html r : rune_ok r → quotes_as (quote_rune_html r) r.
Proof.
  intros Hok. destruct r as [bs|c]; [|by apply quotes_rune]. destruct bs as [|c [|c' bs]]; [by apply quotes_rune| |by apply quotes_rune].
  unfold quote_rune_html. case_bool_decide as Hc; [|by apply quotes_rune].
  repeat (apply elem_of_cons in Hc as [->|Hc]); [..|by apply not_elem_of_nil in Hc];
    (split_and!; [vm_compute; reflexivity..|intros t; reflexivity]).
Qed.

Lemma quote_html_spec s : raw_ok (quote_html s) ∧ unescape (quote_html s) = coerce_utf8 s.
Proof. apply (quote_all_spec quote_rune_html), quotes_rune_html. Qed.

Lemma unquote_html s : ValidString s = true → unquote (quote_html s) = s.
Proof.
  intros Hv. unfold unquote. destruct (quote_html_spec s) as [_ ->]. by rewrite !coerce_valid by (by rewrite ?coerce_valid).
Qed.

(** Runes of ASCII text are its bytes. *)
Lemma ValidString_plain s : string_forall (λ c, byte_of c <? 128) s = true → ValidString s = true.
Proof.
  unfold ValidString. induction s as [|c s IH]; [done|]. cbn [string_forall]. intros [Hc Hs]%andb_true_iff. to_prop.
  assert (seq_len (byte_of c) (byte_at s 0) (byte_at s 1) (byte_at s 2) = 1) as Hl.
  { unfold seq_len. by rewrite (proj2 (Z.ltb_lt _ _)) by lia. }
  cbn [runes]. rewrite Hl. cbn. by apply IH.
Qed.

Lemma hex_digit_ascii d : 0 ≤ d < 16 → byte_of (hex_digit d) <? 128 = true.
Proof. intros Hd. unfold hex_digit. destruct (d <? 10) eqn:E; to_prop; rewrite byte_of_of by lia; apply Z.ltb_lt; lia. Qed.

Lemma hex_id_valid n id : Forall (λ b, 0 ≤ b < 256) id → ValidString (hex_id n id) = true.
Proof.
  intros H. unfold hex_id. case_bool_decide; [done|]. apply ValidString_plain. clear -H. induction H as [|b bs Hb _ IH]; [done|].
  cbn [hex_encode string_forall]. rewrite IH, !hex_digit_ascii; [done| |]; [apply Z.mod_pos_bound; lia|].
  split; [apply Z.div_pos; lia|apply Z.div_lt_upper_bound; lia].
Qed.

Lemma formatTime_valid t : utc_4digit (UTC t) → ValidString (formatTime t) = true.
Proof.
  intros H. unfold formatTime. destruct (IsZero t); [done|]. apply ValidString_plain.
  eapply string_forall_impl; [|exact (Archive.Format_chars _ H)]. intros c Hc. apply Z.ltb_lt, Archive.time_char_ascii, Hc.
Qed.

(** ** Lemmas: documents *)

Lemma jstr_ok k s : json_ok k (jstr s).
Proof. apply quote_html_spec. Qed.

(** The values the log class puts in its attributes. *)
Definition simple (v : gvalue) : bool := match v with GString _ | GInt _ | GStrings _ => true | _ => false end.

Definition simple_json (v : gvalue) : json :=
  match v with
  | GInt z => JNum (format_int z)
  | GStrings l => JArr (jstr <$> l)
  | GString s => jstr s
  | _ => JNull
  end.

Lemma simple_gjson other v : simple v = true → gjson other v = Some (simple_json v).
Proof. by destruct v. Qed.

Lemma simple_json_ok v : json_ok 2 (simple_json v).
Proof.
  destruct v; try done; [apply jstr_ok|apply num_ok_format|].
  apply json_ok_arr. split; [done|]. apply Forall_fmap, Forall_forall. intros s _. apply jstr_ok.
Qed.

(** The attributes of a simple map: its entries, sorted. *)
Definition simple_members (m : gmap string gvalue) : list (string * json) :=
  sorted_members ((λ kv, (fst kv, simple_json (snd kv))) <$> map_to_list m).

(** Attributes with readable keys and simple values. *)
Definition clean (m : gmap string gvalue) : Prop := map_Forall (λ k v, ValidString k = true ∧ simple v = true) m.

Lemma attributes_simple other m :
  clean m → attributes_json other m = Some (simple_members m).
Proof.
  intros Hm. unfold attributes_json, simple_members. assert (∀ l : list (string * gvalue), Forall (λ kv, simple (snd kv) = true) l →
    mapM (λ kv, pair (fst kv) <$> gjson other (snd kv)) l = Some ((λ kv, (fst kv, simple_json (snd kv))) <$> l)) as H.
  { intros l. induction 1 as [|[k v] l Hv _ IH]; [done|]. cbn [mapM fst snd] in *. cbn in Hv.
    rewrite (simple_gjson other v Hv). cbn. by rewrite IH. }
  rewrite H; [done|]. apply Forall_forall. intros [k v] Hin%elem_of_map_to_list. by apply (Hm k v).
Qed.

Lemma simple_members_ok m : Forall (λ kv, raw_ok (fst kv) ∧ json_ok 2 (snd kv)) (simple_members m).
Proof.
  unfold simple_members, sorted_members. apply Forall_fmap. rewrite merge_sort_Permutation. apply Forall_fmap, Forall_forall.
  intros [k v] _. cbn. split; [apply quote_html_spec|apply simple_json_ok].
Qed.

Lemma simple_members_nil m : simple_members m = [] ↔ m = ∅.
Proof.
  unfold simple_members, sorted_members. rewrite <- map_to_list_empty_iff. split; [|by intros ->].
  intros H%fmap_nil_inv. pose proof (merge_sort_Permutation key_le ((λ kv : string * gvalue, (fst kv, simple_json (snd kv))) <$> map_to_list m)) as Hp.
  rewrite H in Hp. apply Permutation_nil_l in Hp. symmetry in Hp. by apply fmap_nil_inv in Hp.
Qed.

(** ** Reading a line back *)

(** What a reader of the lines decodes: the fields of the document, and the attributes with
    their keys unquoted. *)
Record reading := mkReading {
  rd_time : string; rd_observed : string; rd_severity : string; rd_number : Z; rd_body : string; rd_trace : string;
  rd_span : string; rd_attributes : list (string * json) }.

Definition dec_map : dec (list (string * json)) := λ a v,
  match v with JObj l => Some ((λ kv, (unquote (fst kv), snd kv)) <$> l) | _ => None end.

Definition read_doc (line : string) : option reading :=
  v ← json_parse line;
  dec_object (mkReading "" "" "" 0 "" "" "" []) (λ l,
    time ← dec_member "time" dec_string "" l;
    observed ← dec_member "observed_time" dec_string "" l;
    severity ← dec_member "severity" dec_string "" l;
    number ← dec_member "severity_number" dec_int64 0 l;
    body ← dec_member "body" dec_string "" l;
    trace ← dec_member "trace_id" dec_string "" l;
    span ← dec_member "span_id" dec_string "" l;
    attributes ← dec_member "attributes" dec_map [] l;
    Some (mkReading time observed severity number body trace span attributes)) v.

(** A record that can be read back: text in UTF-8, years of four digits, bytes in the
    identifiers, simple attributes. *)
Record printable (rec : LogRecord) : Prop := {
  pr_text : ValidString (lr_SeverityText rec) = true ∧ ValidString (lr_Body rec) = true;
  pr_number : in_int64 (lr_Severity rec);
  pr_times : utc_4digit (UTC (lr_Time rec)) ∧ utc_4digit (UTC (lr_ObservedTime rec));
  pr_ids : Forall (λ b, 0 ≤ b < 256) (lr_TraceID rec) ∧ Forall (λ b, 0 ≤ b < 256) (lr_SpanID rec);
  pr_attributes : clean (lr_Attributes rec) }.

(** The fields of a record. *)
Definition reading_of (rec : LogRecord) : reading :=
  mkReading (formatTime (lr_Time rec)) (formatTime (lr_ObservedTime rec)) (lr_SeverityText rec) (lr_Severity rec) (lr_Body rec)
    (hex_id 16 (lr_TraceID rec)) (hex_id 8 (lr_SpanID rec))
    (merge_sort key_le ((λ kv, (fst kv, simple_json (snd kv))) <$> map_to_list (lr_Attributes rec))).

Definition doc_members (d : Doc) (attrs : list (string * json)) : list (string * json) :=
  ([("time", jstr (dc_Time d))] ++ omit "observed_time" (dc_ObservedTime d) ++ [("severity", jstr (dc_Severity d))]
    ++ [("severity_number", JNum (format_int (dc_SeverityNumber d)))] ++ [("body", jstr (dc_Body d))]
    ++ omit "trace_id" (dc_TraceID d) ++ omit "span_id" (dc_SpanID d)
    ++ match attrs with [] => [] | _ => [("attributes", JObj attrs)] end)%list.

Lemma omit_ok key s : raw_ok key → Forall (λ kv, raw_ok (fst kv) ∧ json_ok 1 (snd kv)) (omit key s).
Proof. intros Hk. unfold omit. case_bool_decide; [constructor|]. apply Forall_singleton. split; [done|]. apply jstr_ok. Qed.

Lemma doc_ok d attrs :
  Forall (λ kv, raw_ok (fst kv) ∧ json_ok 2 (snd kv)) attrs → json_ok 0 (JObj (doc_members d attrs)).
Proof.
  intros Ha. apply json_ok_obj. split; [done|]. unfold doc_members.
  assert (∀ key, string_forall plain key = true → raw_ok key) as Hk by apply plain_raw_ok.
  assert (Forall (λ kv, raw_ok (fst kv) ∧ json_ok 1 (snd kv)) match attrs with [] => [] | _ => [("attributes", JObj attrs)] end) as Hattrs.
  { destruct attrs; [constructor|]. apply Forall_singleton. split; [by apply Hk|]. by apply json_ok_obj. }
  rewrite !Forall_app, !Forall_cons, !Forall_nil. cbn [fst snd].
  repeat first [apply jstr_ok | apply num_ok_format | apply omit_ok | exact Hattrs | apply Hk | split]; done.
Qed.

Lemma other_omit name key s :
  Archive.other_key name key = true → forallb (λ kv, Archive.other_key name (fst kv)) (omit key s) = true.
Proof. intros H. unfold omit. case_bool_decide; [done|]. cbn. by rewrite H. Qed.

Lemma other_attributes name attrs :
  Archive.other_key name "attributes" = true →
  forallb (λ kv, Archive.other_key name (fst kv)) match attrs with [] => [] | _ => [("attributes", JObj attrs)] end = true.
Proof. intros H. destruct attrs; [done|]. cbn [forallb fst]. by rewrite H. Qed.

Lemma own_string key s :
  String.eqb (fold_name key) (fold_name (unquote key)) = true → ValidString s = true →
  dec_member key dec_string "" [(key, jstr s)] = Some s ∧ dec_member key dec_string "" (omit key s) = Some s.
Proof.
  intros Hk Hs. assert (dec_member key dec_string "" [(key, jstr s)] = Some s) as H.
  { cbn [dec_member dec_string jstr]. by rewrite Hk, unquote_html. }
  split; [done|]. unfold omit. case_bool_decide; [by subst|done].
Qed.

Lemma own_attributes attrs :
  dec_member "attributes" dec_map [] match attrs with [] => [] | _ => [("attributes", JObj attrs)] end
  = Some ((λ kv, (unquote (fst kv), snd kv)) <$> attrs).
Proof. by destruct attrs. Qed.

Lemma unquote_members m :
  clean m →
  (λ kv : string * json, (unquote (fst kv), snd kv)) <$> simple_members m
  = merge_sort key_le ((λ kv, (fst kv, simple_json (snd kv))) <$> map_to_list m).
Proof.
  intros Hm. unfold simple_members, sorted_members. rewrite <- list_fmap_compose. rewrite <- (list_fmap_id (merge_sort _ _)) at 2.
  apply list_fmap_ext. intros i [k v] Hi%list_elem_of_lookup_2. cbn. unfold id. f_equal. apply unquote_html.
  rewrite merge_sort_Permutation in Hi. apply list_elem_of_fmap in Hi as ([k' v'] & [= -> ->] & Hin%elem_of_map_to_list).
  by apply (Hm k' v').
Qed.

Ltac skip_members := repeat
  (rewrite ?Archive.dec_member_app;
   rewrite Archive.dec_other by first [reflexivity | apply other_omit; reflexivity | apply other_attributes; reflexivity];
   cbn [mbind option_bind]).
Ltac own_field H := skip_members; rewrite ?Archive.dec_member_app, H; cbn [mbind option_bind]; skip_members; reflexivity.

Lemma read_doc_members rec :
  printable rec → read_doc (json_print (JObj (doc_members (Encode rec) (simple_members (lr_Attributes rec))))) = Some (reading_of rec).
Proof.
  intros [[Hs Hb] Hn [Ht Ho] [Hi1 Hi2] Ha]. unfold read_doc.
  rewrite json_parse_print by apply doc_ok, simple_members_ok. cbn [mbind option_bind dec_object].
  unfold reading_of. rewrite <- (unquote_members _ Ha). unfold Encode, doc_members.
  cbn [dc_Time dc_ObservedTime dc_Severity dc_SeverityNumber dc_Body dc_TraceID dc_SpanID].
  set (attrs := simple_members _). clearbody attrs.
  match goal with |- context [dec_member "time" _ _ ?l] => set (members := l) end.
  assert (dec_member "time" dec_string "" members = Some (formatTime (lr_Time rec))) as ->
    by (unfold members; own_field (proj1 (own_string "time" _ eq_refl (formatTime_valid _ Ht)))).
  assert (dec_member "observed_time" dec_string "" members = Some (formatTime (lr_ObservedTime rec))) as ->
    by (unfold members; own_field (proj2 (own_string "observed_time" _ eq_refl (formatTime_valid _ Ho)))).
  assert (dec_member "severity" dec_string "" members = Some (lr_SeverityText rec)) as ->
    by (unfold members; own_field (proj1 (own_string "severity" _ eq_refl Hs))).
  assert (dec_member "severity_number" dec_int64 0 members = Some (lr_Severity rec)) as ->
    by (unfold members; own_field (proj1 (Archive.dec_own_int "severity_number" _ eq_refl Hn))).
  assert (dec_member "body" dec_string "" members = Some (lr_Body rec)) as ->
    by (unfold members; own_field (proj1 (own_string "body" _ eq_refl Hb))).
  assert (dec_member "trace_id" dec_string "" members = Some (hex_id 16 (lr_TraceID rec))) as ->
    by (unfold members; own_field (proj2 (own_string "trace_id" _ eq_refl (hex_id_valid 16 _ Hi1)))).
  assert (dec_member "span_id" dec_string "" members = Some (hex_id 8 (lr_SpanID rec))) as ->
    by (unfold members; own_field (proj2 (own_string "span_id" _ eq_refl (hex_id_valid 8 _ Hi2)))).
  cbn [mbind option_bind].
  assert (dec_member "attributes" dec_map [] members = Some ((λ kv, (unquote (fst kv), snd kv)) <$> attrs)) as ->
    by (unfold members; skip_members; apply own_attributes).
  done.
Qed.

Lemma doc_json_simple other rec :
  clean (lr_Attributes rec) →
  doc_json other (Encode rec) = Some (JObj (doc_members (Encode rec) (simple_members (lr_Attributes rec)))).
Proof. intros H. unfold doc_json. cbn [dc_Attributes Encode]. by rewrite attributes_simple. Qed.

(** ** Lemmas: the attributes of a projected record are clean *)

Lemma clean_insert (m : gmap string gvalue) k v : ValidString k = true → simple v = true → clean m → clean (<[k := v]> m).
Proof. intros Hk Hv Hm. apply map_Forall_insert_2; [by split|done]. Qed.

Lemma clean_assign m kvs :
  Forall (λ kv, ValidString (fst kv) = true ∧ simple (snd kv) = true) kvs → clean m → clean (Log.assign m kvs).
Proof.
  intros H. revert m. unfold Log.assign. induction H as [|[k v] kvs [Hk Hv] _ IH]; intros m Hm; [done|]. cbn [foldl fst snd].
  apply IH. by apply clean_insert.
Qed.

Lemma clean_setString m k v : ValidString k = true → clean m → clean (Log.setString m k v).
Proof. intros Hk Hm. unfold Log.setString. destruct v; [by apply clean_insert|done]. Qed.

Lemma clean_envelope env kind : clean (Log.envelopeAttributes env kind).
Proof.
  unfold Log.envelopeAttributes. cbv zeta.
  repeat case_match; repeat (apply clean_insert; [reflexivity..|]); apply map_Forall_empty.
Qed.

Lemma clean_Project exec : clean (lr_Attributes (Log.Project exec)).
Proof.
  assert (∀ m r, clean m → clean (Log.runAttributes m r)) as Hr.
  { intros m r Hm. unfold Log.runAttributes. repeat (apply clean_setString; [reflexivity|]). apply clean_assign; [repeat constructor|done]. }
  assert (∀ m j, clean m → clean (Log.jobAttributes m j)) as Hj.
  { intros m j Hm. unfold Log.jobAttributes. apply clean_assign; [repeat constructor|].
    assert (∀ m', clean m' → clean match j_Labels j with [] => m' | labels => <[Log.AttrLabels := GStrings labels]> m' end) as Hl.
    { intros m' Hm'. destruct (j_Labels j); [done|]. by apply clean_insert. }
    apply Hl. repeat (apply clean_setString; [reflexivity|]). apply clean_assign; [repeat constructor|done]. }
  pose proof (clean_envelope (x_Envelope exec) (x_Kind exec)) as He.
  unfold Log.Project. cbv zeta. repeat case_match; cbn [lr_Attributes]; auto.
Qed.

(** A compact write of a clean record is one line. *)
Lemma Write_line other stderr rec stream :
  clean (lr_Attributes rec) →
  ∃ line, Write other (mkWriter stderr false) None None rec stream = (None, stream +:+ (line +:+ String nl "")) ∧
    contains_char nl line = false ∧ (printable rec → read_doc line = Some (reading_of rec)).
Proof.
  intros Hc. exists (json_print (JObj (doc_members (Encode rec) (simple_members (lr_Attributes rec))))).
  unfold Write. rewrite doc_json_simple by done. cbn [wr_pretty write_stream]. split_and!; [done| |apply read_doc_members].
  eapply contains_no_ctl, (json_print_no_ctl 0), doc_ok, simple_members_ok.
Qed.

(** Nothing is written once the context ended or when the record cannot be encoded, and the
    error of a failed write keeps its classification. *)
Lemma Write_failure other w ctx o rec stream e stream' :
  Write other w ctx o rec stream = (Some e, stream') →
  (ctx = Some e ∧ stream' = stream) ∨ (ctx = None ∧ IsPermanent e = true ∧ stream' = stream) ∨
  (∃ n e', o = Some (n, e') ∧ IsPermanent e = IsPermanent e' ∧ ∃ data, stream' = stream +:+ data).
Proof.
  unfold Write, write_stream. destruct ctx as [e'|]; [intros [= <- <-]; by left|].
  destruct (doc_json _ _); [|intros [= <- <-]; right; left; by rewrite IsPermanent_permanent].
  destruct o as [[n e']|]; [|done]. intros [= <- <-]. right. right. exists n, e'. rewrite IsPermanent_wrap.
  split_and!; [done..|]. by eexists.
Qed.

(** ** Properties *)

(** The log sink over this driver prints one line per event: an event the model can read
    adds exactly one line, without a newline inside, to a stream that takes the write, and the
    fields and attributes of the record of the event are read back from it; another event adds
    nothing and is refused for good. *)
Lemma process_prints_line other stderr env stream :
  match Normalize env with
  | Err e => Log.Process (Write other (mkWriter stderr false) None None) env stream = (Some (permanent e), stream)
  | Ok exec =>
      ∃ line, Log.Process (Write other (mkWriter stderr false) None None) env stream = (None, stream +:+ (line +:+ String nl "")) ∧
        contains_char nl line = false ∧
        (printable (Log.Project exec) → read_doc line = Some (reading_of (Log.Project exec)))
  end.
Proof.
  unfold Log.Process. destruct (Normalize env) as [exec|e]; [|done].
  destruct (Write_line other stderr (Log.Project exec) stream (clean_Project exec)) as (line & Hw & Hl). exists line.
  rewrite Hw. by split.
Qed.

(** ** Examples *)

Definition ex_rec : LogRecord :=
  mkLogRecord (mkTime (Second + 5) 0) zero_time 17 "ERROR" "a<b" (<["k" := GInt 1]> {["j" := GStrings ["x"]]}) (zero_id 16)
    [0; 0; 0; 0; 0; 0; 0; 255].

Example ex_line :
  read_doc (snd (Write (λ _, None) (mkWriter false false) None None ex_rec "")) =
  Some (mkReading "0001-01-01T00:00:01.000000005Z" "" "ERROR" 17 "a<b" "" "00000000000000ff"
          [("j", JArr [JStr "x"]); ("k", JNum "1")]).
Proof. vm_compute. reflexivity. Qed.

(** A stream that takes three bytes of the line and fails. *)
Example ex_partial :
  slen (snd (Write (λ _, None) (mkWriter false true) None (Some (3%nat, errorf "broken pipe")) ex_rec "")) = 3.
Proof. vm_compute. reflexivity. Qed.
