(* ===== verification/OtlpSinks.v ===== *)
(** * [internal/sink/log/drivers/otlp] and [internal/sink/trace/drivers/otlp]

    The two drivers that put the OTLP client of OtlpClient.v behind the log and trace classes,
    and what the composed sinks guarantee: an event is acknowledged exactly when the collector
    answered the request with its record or its spans with success. *)

From S2P Require Import Prelude.
From S2P Require Import Errors.
From S2P Require Import GoTime.
From S2P Require Import Yaml.
From S2P Require Import Event.
From S2P Require Import Model.
From S2P Require Import Otlp.
From S2P Require Import OtlpClient.
From S2P Require Trace.
From S2P Require Log.

Local Open Scope Z_scope.

Section Drivers.
Variable decode : Node → Config → result Config.
Variable New : Config → Options → result Client.

(** [Factory] of the log driver, and of the trace driver. *)
Definition log_Factory (raw : Node) (version : string) : result Client :=
  match DecodeStrict decode raw DefaultConfig with
  | Err e => Err e
  | Ok cfg => New cfg (mkOptions version None)
  end.

Definition trace_Factory (raw : Node) (version : string) : result Client :=
  match DecodeStrict decode raw DefaultConfig with
  | Err e => Err e
  | Ok cfg => New cfg (mkOptions version None)
  end.
End Drivers.

Section Sinks.
Variable Marshal : export_request → result string.
Variable gzip : string → result string.
Variable NewRequest : string → option error.
Variable range : gmap string string → list (string * string).
Variable ParseMediaType : string → option string.
Variable Unmarshal : string → Z * string.
Variable status_message : string → option string.
Variable http_ParseTime : string → option Time.
Variable error_text : error → string.

Local Abbreviation ExportSpans := (ExportSpans Marshal gzip NewRequest range ParseMediaType Unmarshal status_message http_ParseTime error_text).
Local Abbreviation ExportLogs := (ExportLogs Marshal gzip NewRequest range ParseMediaType Unmarshal status_message http_ParseTime error_text).
Local Abbreviation answered_ok := (answered_ok Marshal gzip NewRequest range).
Local Abbreviation rejected_by := (rejected_by Marshal gzip NewRequest range ParseMediaType Unmarshal status_message http_ParseTime error_text).

(** An export answers with its error and uses up its attempts; it never runs out of fuel. *)
Definition answer_of (o : option exported) (x : Z → exchange) : option error * (Z → exchange) :=
  match o with
  | Some r => (ex_err r, λ k, x (k + ex_attempts r))
  | None => (Some (errorf "unreachable"), x)
  end.

(** [writer.Write] of the log driver: one record per request. *)
Definition log_Write (c : Client) (rec : LogRecord) (x : Z → exchange) : option error * (Z → exchange) :=
  answer_of (ExportLogs c [rec] x) x.

(** The exporter of the trace driver is the client itself. *)
Definition trace_Export (c : Client) (spans : list Span) (x : Z → exchange) : option error * (Z → exchange) :=
  answer_of (ExportSpans c spans x) x.

(** The answer [err] of a sink that exported [req] with the result [r]: it acknowledges exactly
    when the last attempt was answered with success, no attempt before it was, and what that answer
    rejects is counted. *)
Definition acks_with (c : Client) (req : export_request) (x : Z → exchange) (r : exported) (err : option error) : Prop :=
  0 ≤ ex_attempts r ∧ (err = None → 0 < ex_attempts r) ∧
  ex_rejected r = match err with None => rejected_by c req (x (ex_attempts r - 1)) | Some _ => 0 end ∧
  ∀ k, 0 ≤ k < ex_attempts r → answered_ok c req (x k) = bool_decide (k = ex_attempts r - 1 ∧ err = None).

Lemma acks_wrap c req x r err text : acks_with c req x r err → acks_with c req x r (EWrap text <$> err).
Proof.
  intros (H0 & H1 & H2 & H3). split; [done|]. split; [destruct err; [done|intros _; by apply H1]|]. split; [by destruct err|].
  intros k Hk. rewrite (H3 k Hk). apply bool_decide_ext. destruct err; split; intros [? ?]; by simplify_eq.
Qed.

Lemma log_Write_acks c rec x :
  ∃ r, ExportLogs c [rec] x = Some r ∧ snd (log_Write c rec x) = (λ k, x (k + ex_attempts r)) ∧
    acks_with c (logs_request c [rec]) x r (fst (log_Write c rec x)).
Proof.
  destruct (ExportLogs_accepted Marshal gzip NewRequest range ParseMediaType Unmarshal status_message http_ParseTime error_text
    c [rec] x ltac:(done)) as (r & Hr & Ha). exists r. unfold log_Write. by rewrite Hr.
Qed.

Lemma trace_Export_acks c spans x :
  spans ≠ [] →
  ∃ r, ExportSpans c spans x = Some r ∧ snd (trace_Export c spans x) = (λ k, x (k + ex_attempts r)) ∧
    acks_with c (spans_request c spans) x r (fst (trace_Export c spans x)).
Proof.
  intros Hs. destruct (ExportSpans_accepted Marshal gzip NewRequest range ParseMediaType Unmarshal status_message http_ParseTime
    error_text c spans x Hs) as (r & Hr & Ha). exists r. unfold trace_Export. by rewrite Hr.
Qed.

(** ** Properties *)

(** C26: the log and trace sinks over OTLP acknowledge an event exactly when the collector answered
    the request with it with success.  For every event, and whatever the collector, the contexts and
    the clock answer: an event that cannot be read is refused for good and one without spans skipped,
    without any request; otherwise the log sink sends the one record of the event, the trace sink
    the spans of the event, again and again until an attempt is answered with success or the retries
    end, and returns no error exactly when the last attempt was; after an answer of success nothing
    is sent again.  An answer of success may reject items: those are lost to the collector, and
    counted.  A request the collector took whose answer was lost is, to the client, not answered. *)
Theorem otlp_sinks_ack c env x :
  match Normalize env with
  | Err e =>
      Log.Process (log_Write c) env x = (Some (permanent e), x) ∧ Trace.Process (trace_Export c) env x = (Some (permanent e), x)
  | Ok exec =>
      (∃ r, ExportLogs c [Log.Project exec] x = Some r ∧
        snd (Log.Process (log_Write c) env x) = (λ k, x (k + ex_attempts r)) ∧
        acks_with c (logs_request c [Log.Project exec]) x r (fst (Log.Process (log_Write c) env x))) ∧
      match Trace.Project exec with
      | Err e => e = esent ErrSkipped ∧ Trace.Process (trace_Export c) env x = (Some e, x)
      | Ok spans =>
          ∃ r, ExportSpans c spans x = Some r ∧
            snd (Trace.Process (trace_Export c) env x) = (λ k, x (k + ex_attempts r)) ∧
            acks_with c (spans_request c spans) x r (fst (Trace.Process (trace_Export c) env x))
      end
  end.
Proof.
  pose proof (Trace.Process_spec (trace_Export c) env x) as Ht. pose proof (Log.Process_logs_everything (log_Write c) env x) as Hl.
  destruct (Normalize env) as [exec|e]; [|by split; [|apply Ht]]. cbv zeta in Hl. destruct Hl as (Hl1 & Hl2 & _). split.
  - destruct (log_Write_acks c (Log.Project exec) x) as (r & Hr & Hn & Ha). exists r. split; [done|]. rewrite Hl1, Hl2, Hn. split; [done|]. by apply acks_wrap.
  - destruct (Trace.completed exec) eqn:Ec.
    + destruct Ht as (spans & -> & Hne & H1 & H2 & _). destruct (trace_Export_acks c spans x Hne) as (r & Hr & Hn & Ha).
      exists r. split; [done|]. rewrite H1, H2, Hn. split; [done|]. by apply acks_wrap.
    + rewrite Ht. assert (Trace.Project exec = Err (esent ErrSkipped)) as ->; [|done].
      unfold Trace.Project, Trace.completed in *. by repeat case_match.
Qed.
End Sinks.
