(* ===== verification/Analytics.v ===== *)
(** * [internal/sink/analytics]: runs, jobs and steps as warehouse rows

    schema.go: the portable schema of the base table and its check.  record.go: [Record],
    [Fields] and [Project].  sink.go: [Process] over a writer, with the schema ensured once
    through [SingleFlight].  A [Type] is a string, as in the source. *)

From S2P Require Import Prelude.
From S2P Require Import Errors.
From S2P Require Import GoTime.
From S2P Require Import Event.
From S2P Require Import Model.
From S2P Require Import SingleFlight.

Local Open Scope Z_scope.

(** ** schema.go *)

Definition TypeString : string := "string".
Definition TypeInt64 : string := "int64".
Definition TypeTimestamp : string := "timestamp".
Definition TypeBool : string := "bool".
Definition TypeStringArray : string := "string_array".

Record Column := mkColumn { c_Name : string; c_Type : string; c_Required : bool; c_Description : string }.

#[export] Instance Column_eq_dec : EqDecision Column.
Proof. solve_decision. Defined.

Record Partition := mkPartition { pt_Column : string; pt_Granularity : string }.
Record Schema := mkSchema { sch_Columns : list Column; sch_PartitionBy : Partition; sch_ClusterBy : list string }.

Definition ViewSuffix : string := "_current".

Definition ColRecordID : string := "record_id".
Definition ColKind : string := "kind".
Definition ColRepositoryID : string := "repository_id".
Definition ColRepository : string := "repository".
Definition ColWorkflowID : string := "workflow_id".
Definition ColWorkflowName : string := "workflow_name".
Definition ColWorkflowPath : string := "workflow_path".
Definition ColRunID : string := "run_id".
Definition ColRunNumber : string := "run_number".
Definition ColRunAttempt : string := "run_attempt".
Definition ColJobID : string := "job_id".
Definition ColJobName : string := "job_name".
Definition ColStepNumber : string := "step_number".
Definition ColStepName : string := "step_name".
Definition ColStatus : string := "status".
Definition ColConclusion : string := "conclusion".
Definition ColStatusRank : string := "status_rank".
Definition ColCreatedAt : string := "created_at".
Definition ColStartedAt : string := "started_at".
Definition ColCompletedAt : string := "completed_at".
Definition ColQueuedMs : string := "queued_ms".
Definition ColDurationMs : string := "duration_ms".
Definition ColTriggerEvent : string := "trigger_event".
Definition ColHeadBranch : string := "head_branch".
Definition ColHeadSHA : string := "head_sha".
Definition ColActor : string := "actor".
Definition ColRunnerName : string := "runner_name".
Definition ColRunnerGroup : string := "runner_group".
Definition ColLabels : string := "labels".
Definition ColHTMLURL : string := "html_url".
Definition ColEventTime : string := "event_time".
Definition ColReceivedAt : string := "received_at".
Definition ColDeliveryGUID : string := "delivery_guid".
Definition ColSchemaVersion : string := "schema_version".

Definition Current : Schema := mkSchema
  [mkColumn ColRecordID TypeString true "entity identity, stable across events and redeliveries";
   mkColumn ColKind TypeString true "run, job, or step";
   mkColumn ColRepositoryID TypeInt64 true "GitHub repository id";
   mkColumn ColRepository TypeString false "owner/name";
   mkColumn ColWorkflowID TypeInt64 false "workflow definition id (run rows)";
   mkColumn ColWorkflowName TypeString false "workflow display name";
   mkColumn ColWorkflowPath TypeString false "workflow file path (run rows)";
   mkColumn ColRunID TypeInt64 true "workflow run id";
   mkColumn ColRunNumber TypeInt64 false "human-visible run counter (run rows)";
   mkColumn ColRunAttempt TypeInt64 true "run attempt, 1 for the first";
   mkColumn ColJobID TypeInt64 false "job id (job and step rows)";
   mkColumn ColJobName TypeString false "job display name (job and step rows)";
   mkColumn ColStepNumber TypeInt64 false "1-based step index (step rows)";
   mkColumn ColStepName TypeString false "step display name (step rows)";
   mkColumn ColStatus TypeString false "queued, in_progress, completed, ...";
   mkColumn ColConclusion TypeString false "success, failure, cancelled, skipped, ... once completed";
   mkColumn ColStatusRank TypeInt64 true "lifecycle order of status: completed 3, in_progress 2, scheduled 1, unknown 0";
   mkColumn ColCreatedAt TypeTimestamp false "entity created (run and job rows)";
   mkColumn ColStartedAt TypeTimestamp false "entity started";
   mkColumn ColCompletedAt TypeTimestamp false "entity completed";
   mkColumn ColQueuedMs TypeInt64 false "started_at - created_at once started";
   mkColumn ColDurationMs TypeInt64 false "completed_at - started_at once completed";
   mkColumn ColTriggerEvent TypeString false "event that triggered the run (run rows)";
   mkColumn ColHeadBranch TypeString false "branch of the head commit";
   mkColumn ColHeadSHA TypeString false "head commit sha";
   mkColumn ColActor TypeString false "login that created the run (run rows)";
   mkColumn ColRunnerName TypeString false "runner that picked the job up (job and step rows)";
   mkColumn ColRunnerGroup TypeString false "runner group (job and step rows)";
   mkColumn ColLabels TypeStringArray false "runner labels requested by the job (job and step rows)";
   mkColumn ColHTMLURL TypeString false "GitHub page of the entity";
   mkColumn ColEventTime TypeTimestamp true "when the reported transition happened; partition column";
   mkColumn ColReceivedAt TypeTimestamp true "when antwatcher received the delivery";
   mkColumn ColDeliveryGUID TypeString true "X-GitHub-Delivery of the source webhook";
   mkColumn ColSchemaVersion TypeInt64 true "antwatcher envelope schema version"]
  (mkPartition ColEventTime "day") [ColRepository; ColKind].

Definition ColumnNames (s : Schema) : list string := c_Name <$> sch_Columns s.

Definition find_column (name : string) (cs : list Column) : option Column :=
  List.find (λ c, String.eqb (c_Name c) name) cs.
Definition Schema_Column (s : Schema) (name : string) : option Column := find_column name (sch_Columns s).

Definition known_type (t : string) : bool :=
  bool_decide (t ∈ [TypeString; TypeInt64; TypeTimestamp; TypeBool; TypeStringArray]).

(** The loop of [Validate] over the columns, with the names seen. *)
Fixpoint validate_columns (seen : gset string) (cs : list Column) : option error :=
  match cs with
  | [] => None
  | c :: cs =>
      if bool_decide (c_Name c = "") then Some (errorf "analytics schema: column with empty name")
      else if bool_decide (c_Name c ∈ seen) then Some (errorf "analytics schema: duplicate column")
      else if negb (known_type (c_Type c)) then Some (errorf "analytics schema: column has unknown type")
      else validate_columns ({[c_Name c]} ∪ seen) cs
  end.

Definition validate_partition (s : Schema) : option error :=
  if bool_decide (pt_Column (sch_PartitionBy s) = "") then None
  else match Schema_Column s (pt_Column (sch_PartitionBy s)) with
       | None => Some (errorf "analytics schema: partition column does not exist")
       | Some c =>
           if negb (String.eqb (c_Type c) TypeTimestamp) then Some (errorf "analytics schema: partition column type")
           else if negb (String.eqb (pt_Granularity (sch_PartitionBy s)) "day")
                then Some (errorf "analytics schema: partition granularity is not supported")
           else None
       end.

Fixpoint validate_cluster (s : Schema) (names : list string) : option error :=
  match names with
  | [] => None
  | name :: names =>
      match Schema_Column s name with
      | None => Some (errorf "analytics schema: cluster column does not exist")
      | Some _ => validate_cluster s names
      end
  end.

Definition Validate (s : Schema) : option error :=
  match validate_columns ∅ (sch_Columns s) with
  | Some e => Some e
  | None => match validate_partition s with
            | Some e => Some e
            | None => validate_cluster s (sch_ClusterBy s)
            end
  end.

Definition ViewName (table : string) : string := table +:+ ViewSuffix.

Definition CurrentViewSQL (table : string) : string :=
  "SELECT * FROM `" +:+ table +:+ "` QUALIFY ROW_NUMBER() OVER (PARTITION BY " +:+ ColRecordID +:+
  " ORDER BY " +:+ ColStatusRank +:+ " DESC, " +:+ ColEventTime +:+ " DESC, " +:+ ColReceivedAt +:+ " DESC) = 1".

(** ** record.go *)

Record Row := mkRow {
  an_RecordID : string; an_Kind : RecordKind;
  an_RepositoryID : Z; an_Repository : option string; an_WorkflowID : option Z;
  an_WorkflowName : option string; an_WorkflowPath : option string;
  an_RunID : Z; an_RunNumber : option Z; an_RunAttempt : Z; an_JobID : option Z; an_JobName : option string;
  an_StepNumber : option Z; an_StepName : option string;
  an_Status : option string; an_Conclusion : option string; an_StatusRank : Z;
  an_CreatedAt : option Time; an_StartedAt : option Time; an_CompletedAt : option Time;
  an_QueuedMs : option Z; an_DurationMs : option Z;
  an_TriggerEvent : option string; an_HeadBranch : option string; an_HeadSHA : option string;
  an_Actor : option string; an_RunnerName : option string; an_RunnerGroup : option string;
  an_Labels : list string; an_HTMLURL : option string;
  an_EventTime : Time; an_ReceivedAt : Time; an_DeliveryGUID : string; an_SchemaVersion : Z }.

(** The dynamic values of [Fields]. *)
Inductive fval : Set := FStr (s : string) | FInt (z : Z) | FTime (t : Time) | FStrs (l : list string).

Definition setStr (f : gmap string fval) (key : string) (v : option string) : gmap string fval :=
  match v with Some s => <[key := FStr s]> f | None => f end.
Definition setInt (f : gmap string fval) (key : string) (v : option Z) : gmap string fval :=
  match v with Some z => <[key := FInt z]> f | None => f end.
Definition setTime (f : gmap string fval) (key : string) (v : option Time) : gmap string fval :=
  match v with Some t => <[key := FTime t]> f | None => f end.

Definition required_fields (r : Row) : list (string * fval) :=
  [(ColRecordID, FStr (an_RecordID r)); (ColKind, FStr (RecordKind_string (an_Kind r)));
   (ColRepositoryID, FInt (an_RepositoryID r)); (ColRunID, FInt (an_RunID r));
   (ColRunAttempt, FInt (an_RunAttempt r)); (ColStatusRank, FInt (an_StatusRank r));
   (ColEventTime, FTime (an_EventTime r)); (ColReceivedAt, FTime (an_ReceivedAt r));
   (ColDeliveryGUID, FStr (an_DeliveryGUID r)); (ColSchemaVersion, FInt (an_SchemaVersion r))].

Definition Fields (r : Row) : gmap string fval :=
  let f : gmap string fval := list_to_map (required_fields r) in
  let f := setStr f ColRepository (an_Repository r) in
  let f := setInt f ColWorkflowID (an_WorkflowID r) in
  let f := setStr f ColWorkflowName (an_WorkflowName r) in
  let f := setStr f ColWorkflowPath (an_WorkflowPath r) in
  let f := setInt f ColRunNumber (an_RunNumber r) in
  let f := setInt f ColJobID (an_JobID r) in
  let f := setStr f ColJobName (an_JobName r) in
  let f := setInt f ColStepNumber (an_StepNumber r) in
  let f := setStr f ColStepName (an_StepName r) in
  let f := setStr f ColStatus (an_Status r) in
  let f := setStr f ColConclusion (an_Conclusion r) in
  let f := setTime f ColCreatedAt (an_CreatedAt r) in
  let f := setTime f ColStartedAt (an_StartedAt r) in
  let f := setTime f ColCompletedAt (an_CompletedAt r) in
  let f := setInt f ColQueuedMs (an_QueuedMs r) in
  let f := setInt f ColDurationMs (an_DurationMs r) in
  let f := setStr f ColTriggerEvent (an_TriggerEvent r) in
  let f := setStr f ColHeadBranch (an_HeadBranch r) in
  let f := setStr f ColHeadSHA (an_HeadSHA r) in
  let f := setStr f ColActor (an_Actor r) in
  let f := setStr f ColRunnerName (an_RunnerName r) in
  let f := setStr f ColRunnerGroup (an_RunnerGroup r) in
  let f := match an_Labels r with [] => f | labels => <[ColLabels := FStrs labels]> f end in
  setStr f ColHTMLURL (an_HTMLURL r).

Definition nonEmpty (s : string) : option string := if bool_decide (s = "") then None else Some s.
Definition nonZero (t : Time) : option Time := if IsZero t then None else Some t.

(** [cloneLabels]: the copy of an empty slice is nil. *)
Definition cloneLabels (labels : list string) : list string := labels.

Definition timings (status : string) (created started completed : option Time) : option Z * option Z :=
  let rank := StatusRank status in
  (if RankInProgress <=? rank then
     match created, started with Some c, Some s => Some (Milliseconds (Sub s c)) | _, _ => None end
   else None,
   if RankCompleted <=? rank then
     match started, completed with Some s, Some c => Some (Milliseconds (Sub c s)) | _, _ => None end
   else None).

Definition runRecord (exec : Execution) (r : Run) : Row :=
  let env := x_Envelope exec in
  let created := nonZero (r_CreatedAt r) in
  let completed := if String.eqb (r_Status r) StatusCompleted then nonZero (r_UpdatedAt r) else None in
  let '(queued, duration) := timings (r_Status r) created (r_StartedAt r) completed in
  mkRow (Run_RecordID r) RecordRun (r_RepositoryID r) (nonEmpty (r_Repository r)) (Some (r_WorkflowID r))
    (r_WorkflowName r) (nonEmpty (r_WorkflowPath r)) (r_RunID r) (Some (r_RunNumber r)) (r_RunAttempt r)
    None None None None (nonEmpty (r_Status r)) (r_Conclusion r) (StatusRank (r_Status r))
    created (r_StartedAt r) completed queued duration
    (nonEmpty (r_TriggerEvent r)) (r_HeadBranch r) (nonEmpty (r_HeadSHA r)) (r_Actor r) None None
    [] (nonEmpty (r_HTMLURL r))
    (UTC (EventTime exec)) (UTC (e_ReceivedAt env)) (e_DeliveryGUID env) (e_SchemaVersion env).

Definition jobRecord (exec : Execution) (j : Job) : Row :=
  let env := x_Envelope exec in
  let created := nonZero (j_CreatedAt j) in
  let '(queued, duration) := timings (j_Status j) created (j_StartedAt j) (j_CompletedAt j) in
  mkRow (Job_RecordID j) RecordJob (j_RepositoryID j) (nonEmpty (j_Repository j)) None
    (j_WorkflowName j) None (j_RunID j) None (j_RunAttempt j)
    (Some (j_JobID j)) (nonEmpty (j_Name j)) None None (nonEmpty (j_Status j)) (j_Conclusion j) (StatusRank (j_Status j))
    created (j_StartedAt j) (j_CompletedAt j) queued duration
    None (j_HeadBranch j) (nonEmpty (j_HeadSHA j)) None (j_RunnerName j) (j_RunnerGroup j)
    (cloneLabels (j_Labels j)) (nonEmpty (j_HTMLURL j))
    (UTC (EventTime exec)) (UTC (e_ReceivedAt env)) (e_DeliveryGUID env) (e_SchemaVersion env).

Definition stepRecord (exec : Execution) (j : Job) (s : Step) : Row :=
  let env := x_Envelope exec in
  let status := if bool_decide (s_Status s = "") then j_Status j else s_Status s in
  let '(_, duration) := timings status None (s_StartedAt s) (s_CompletedAt s) in
  mkRow (Step_RecordID s j) RecordStep (j_RepositoryID j) (nonEmpty (j_Repository j)) None
    (j_WorkflowName j) None (j_RunID j) None (j_RunAttempt j)
    (Some (j_JobID j)) (nonEmpty (j_Name j)) (Some (s_Number s)) (nonEmpty (s_Name s))
    (nonEmpty status) (s_Conclusion s) (StatusRank status)
    None (s_StartedAt s) (s_CompletedAt s) None duration
    None (j_HeadBranch j) (nonEmpty (j_HeadSHA j)) None (j_RunnerName j) (j_RunnerGroup j)
    (cloneLabels (j_Labels j)) None
    (UTC (StepEventTime exec s)) (UTC (e_ReceivedAt env)) (e_DeliveryGUID env) (e_SchemaVersion env).

Definition Project (exec : Execution) : result (list Row) :=
  match x_Kind exec, x_Run exec, x_Job exec with
  | KindRun, Some r, _ => Ok [runRecord exec r]
  | KindJob, _, Some j => Ok (jobRecord exec j :: (stepRecord exec j <$> j_Steps j))
  | _, _, _ => Err (esent ErrSkipped)
  end.

(** ** sink.go *)

Section Process.
Context {W : Type}.
(** [writer.EnsureSchema] and [writer.Write]. *)
Variable EnsureSchema : Schema → W → option error * W.
Variable Write : list Row → W → option error * W.

(** [ensured.Do] by a caller nobody races with: [ready] is the flag of the [SingleFlight]
    (see [ensure_once_refines]). *)
Definition ensure_once (ready : option unit) (w : W) : option error * (option unit * W) :=
  match ready with
  | Some _ => (None, (ready, w))
  | None =>
      let '(err, w') := EnsureSchema Current w in
      match err with
      | None => (None, (Some (), w'))
      | Some e => (Some e, (None, w'))
      end
  end.

Definition ensureSchema (ensure : bool) (ready : option unit) (w : W) : option error * (option unit * W) :=
  if negb ensure then (None, (ready, w)) else ensure_once ready w.

Definition Process (ensure : bool) (ready : option unit) (env : Envelope) (w : W) : option error * (option unit * W) :=
  match Normalize env with
  | Err e => (Some (permanent e), (ready, w))
  | Ok exec =>
      match Project exec with
      | Err e => (Some e, (ready, w))
      | Ok records =>
          match ensureSchema ensure ready w with
          | (Some e, (ready', w')) => (Some (EWrap "ensure analytics schema" e), (ready', w'))
          | (None, (ready', w')) =>
              let '(err, w'') := Write records w' in
              match err with
              | Some e => (Some (EWrap "write analytics records" e), (ready', w''))
              | None => (None, (ready', w''))
              end
          end
      end
  end.

(** The calls one after the other. *)
Fixpoint process_all (ensure : bool) (ready : option unit) (envs : list Envelope) (w : W) : option unit * W :=
  match envs with
  | [] => (ready, w)
  | env :: envs => let '(_, (ready', w')) := Process ensure ready env w in process_all ensure ready' envs w'
  end.
End Process.

(** ** Lemmas: the schema *)

Lemma find_column_Some name cs c : find_column name cs = Some c → c ∈ cs ∧ c_Name c = name.
Proof. unfold find_column. intros [Hin Hn]%find_some. split; [by apply list_elem_of_In|by apply String.eqb_eq]. Qed.

Lemma find_column_unique cs c : NoDup (c_Name <$> cs) → c ∈ cs → find_column (c_Name c) cs = Some c.
Proof.
  unfold find_column. induction cs as [|c' cs IH]; [by intros _ ?%not_elem_of_nil|]. cbn [fmap list_fmap List.find].
  intros [Hn Hnd]%NoDup_cons [->|Hin]%elem_of_cons; [by rewrite String.eqb_refl|].
  destruct (String.eqb (c_Name c') (c_Name c)) eqn:E; [|by apply IH].
  apply String.eqb_eq in E. destruct Hn. rewrite E. by apply list_elem_of_fmap_2.
Qed.

Definition column_ok (c : Column) : Prop := c_Name c ≠ "" ∧ known_type (c_Type c) = true.

Lemma validate_columns_None seen cs :
  validate_columns seen cs = None ↔
  Forall column_ok cs ∧ NoDup (c_Name <$> cs) ∧ (∀ c, c ∈ cs → c_Name c ∉ seen).
Proof.
  revert seen. induction cs as [|c cs IH]; intros seen; cbn [validate_columns].
  { split; [|done]. intros _. split_and!; [constructor|constructor|by intros c ?%not_elem_of_nil]. }
  cbn [fmap list_fmap]. rewrite Forall_cons, NoDup_cons. unfold column_ok at 1.
  split.
  - repeat case_match; try done. to_prop. intros (Ha & Hb & Hs)%IH. split_and!; try done.
    + intros (c' & Heq & Hin)%list_elem_of_fmap. apply (Hs c' Hin). set_solver.
    + intros c' [->|Hin]%elem_of_cons; [done|]. specialize (Hs c' Hin). set_solver.
  - intros (((Hn & Ht) & Hall) & (Hnotin & Hnd) & Hseen).
    rewrite bool_decide_false by done. rewrite bool_decide_false by (apply Hseen; left). rewrite Ht. cbn [negb].
    apply IH. split_and!; [done|done|]. intros c' Hin [Heq%elem_of_singleton|Hs]%elem_of_union.
    + apply Hnotin. rewrite <- Heq. by apply list_elem_of_fmap_2.
    + apply (Hseen c'); [by right|done].
Qed.

Lemma validate_cluster_None s names :
  validate_cluster s names = None ↔ Forall (λ n, is_Some (Schema_Column s n)) names.
Proof.
  induction names as [|n names IH]; cbn [validate_cluster]; [by split; [constructor|]|].
  rewrite Forall_cons, <- IH. destruct (Schema_Column s n) as [c|].
  - split; [intros H; split; [by eexists|done]|by intros [_ ?]].
  - split; [done|]. by intros [[? ?] _].
Qed.

Lemma validate_partition_None s :
  validate_partition s = None ↔
  (pt_Column (sch_PartitionBy s) ≠ "" →
   pt_Granularity (sch_PartitionBy s) = "day" ∧
   ∃ c, Schema_Column s (pt_Column (sch_PartitionBy s)) = Some c ∧ c_Type c = TypeTimestamp).
Proof.
  unfold validate_partition. split.
  - repeat case_match; try done; to_prop; intros _ H'; [done|]. split; [done|]. by eexists.
  - intros H. case_match; [done|]. to_prop. destruct H as (Hg & c & -> & ->); [done|]. by rewrite Hg.
Qed.

(** The type of a dynamic value. *)
Definition type_of (v : fval) : string :=
  match v with FStr _ => TypeString | FInt _ => TypeInt64 | FTime _ => TypeTimestamp | FStrs _ => TypeStringArray end.

Definition column_type (k : string) : option string := c_Type <$> Schema_Column Current k.

(** A row as a map fits the current schema. *)
Definition fits (f : gmap string fval) : Prop := map_Forall (λ k v, column_type k = Some (type_of v)) f.

Lemma fits_insert f k v : column_type k = Some (type_of v) → fits f → fits (<[k := v]> f).
Proof. intros Hk Hf. by apply map_Forall_insert_2. Qed.

Lemma fits_setStr f k v : column_type k = Some TypeString → fits f → fits (setStr f k v).
Proof. intros Hk Hf. destruct v; [by apply fits_insert|done]. Qed.
Lemma fits_setInt f k v : column_type k = Some TypeInt64 → fits f → fits (setInt f k v).
Proof. intros Hk Hf. destruct v; [by apply fits_insert|done]. Qed.
Lemma fits_setTime f k v : column_type k = Some TypeTimestamp → fits f → fits (setTime f k v).
Proof. intros Hk Hf. destruct v; [by apply fits_insert|done]. Qed.

(** A key that is present stays present. *)
Lemma setStr_keeps f k v k' : is_Some (f !! k') → is_Some (setStr f k v !! k').
Proof. destruct v; [|done]. cbn [setStr]. rewrite lookup_insert_is_Some'. auto. Qed.
Lemma setInt_keeps f k v k' : is_Some (f !! k') → is_Some (setInt f k v !! k').
Proof. destruct v; [|done]. cbn [setInt]. rewrite lookup_insert_is_Some'. auto. Qed.
Lemma setTime_keeps f k v k' : is_Some (f !! k') → is_Some (setTime f k v !! k').
Proof. destruct v; [|done]. cbn [setTime]. rewrite lookup_insert_is_Some'. auto. Qed.

Create HintDb row.
#[export] Hint Resolve fits_setStr fits_setInt fits_setTime setStr_keeps setInt_keeps setTime_keeps : row.
#[export] Hint Extern 0 (column_type _ = _) => reflexivity : row.

Lemma Fields_fits r : fits (Fields r).
Proof.
  unfold Fields. cbv zeta. apply fits_setStr; [reflexivity|].
  match goal with |- fits (match _ with [] => ?f | _ => _ end) => assert (fits f) as Hf end.
  2: { destruct (an_Labels r); [done|]. apply fits_insert; [reflexivity|done]. }
  enough (fits (list_to_map (required_fields r))) by auto 50 with row.
  unfold required_fields. repeat (cbn [list_to_map foldr uncurry]; apply fits_insert; [reflexivity|]). apply map_Forall_empty.
Qed.

Lemma Fields_keeps r k : is_Some ((list_to_map (required_fields r) : gmap string fval) !! k) → is_Some (Fields r !! k).
Proof.
  intros H. unfold Fields. cbv zeta. apply setStr_keeps.
  match goal with |- is_Some (match _ with [] => ?f | _ => _ end !! _) => assert (is_Some (f !! k)) as Hf end.
  { auto 50 with row. }
  destruct (an_Labels r); [done|]. rewrite lookup_insert_is_Some'. auto.
Qed.

Definition required_names : list string := c_Name <$> List.filter c_Required (sch_Columns Current).

Lemma Fields_required r : Forall (λ k, is_Some (Fields r !! k)) required_names.
Proof.
  rewrite Forall_forall. intros k Hk. apply Fields_keeps.
  assert (k ∈ fst <$> required_fields r) as Hin.
  { change (fst <$> required_fields r) with
      [ColRecordID; ColKind; ColRepositoryID; ColRunID; ColRunAttempt; ColStatusRank; ColEventTime; ColReceivedAt;
       ColDeliveryGUID; ColSchemaVersion]. exact Hk. }
  destruct (list_to_map (required_fields r) !! k) eqn:E; [by eexists|].
  by apply not_elem_of_list_to_map in E.
Qed.

(** Each field of a row is a column of the current schema. *)
Lemma Fields_column r k v : Fields r !! k = Some v → ∃ c, Schema_Column Current k = Some c ∧ c_Type c = type_of v.
Proof.
  intros H%(map_Forall_lookup_1 _ _ _ _ (Fields_fits r)). unfold column_type in H.
  destruct (Schema_Column Current k) as [c|]; [|done]. injection H as H. by exists c.
Qed.

(** Each required column is a field of every row. *)
Lemma Fields_required_column r c : c ∈ sch_Columns Current → c_Required c = true → is_Some (Fields r !! c_Name c).
Proof.
  intros Hin Hr. pose proof (Fields_required r) as H. rewrite Forall_forall in H. apply H.
  unfold required_names. apply list_elem_of_fmap_2, list_elem_of_In, filter_In. by rewrite <- list_elem_of_In.
Qed.

(** ** Lemmas: the projection and the sink *)

Lemma ensure_once_refines {W} (ensure : Schema → W → option error * W) ready w t :
  let '(err, (ready', _)) := ensure_once ensure ready w in
  let s := mkFlight ready None 0 ∅ {[t := DoEnter]} in
  let answer := match (ensure Current w).1 with None => OOk () | Some e => OErr e end in
  let sched := match ready with Some _ => [(t, Go)] | None => [(t, Go); (t, Opened answer); (t, Go); (t, Go)] end in
  ∃ s', sf_run s sched = Some s' ∧ f_ready s' = ready' ∧
    f_threads s' !! t = Some (DoDone (match err with None => OOk () | Some e => OErr e end)).
Proof.
  unfold ensure_once. destruct ready as [[]|]; cbn [sf_run].
  - unfold sf_step. cbn [f_threads]. rewrite lookup_singleton_eq. eexists. split; [reflexivity|].
    split; [done|]. cbn [do_enter f_ready goto f_threads]. by rewrite lookup_insert_eq.
  - destruct (ensure Current w) as [err w']. cbn [fst].
    unfold sf_step at 1. cbn [f_threads]. rewrite lookup_singleton_eq. cbn [do_enter f_ready f_call f_next f_closed f_threads goto].
    destruct err as [e|]; cbn [fst].
    all: do 3 (unfold sf_step at 1; cbn [f_threads goto attempt_defer f_ready f_call f_next f_closed]; rewrite lookup_insert_eq).
    all: eexists; split; [reflexivity|]; split; [done|]; cbn [attempt_close goto f_threads]; by rewrite lookup_insert_eq.
Qed.

(** What an operation of a logging writer did: an [EnsureSchema] with its answer, or a write. *)
Inductive wop : Type := OpEnsure (answer : option error) | OpWrite (rows : list Row).

Section Logged.
(** The answers of the warehouse, which may depend on everything that happened before. *)
Variable ensure_answer : list wop → option error.
Variable write_answer : list wop → list Row → option error.

Definition log_ensure (_ : Schema) (h : list wop) : option error * list wop :=
  (ensure_answer h, (h ++ [OpEnsure (ensure_answer h)])%list).
Definition log_write (rows : list Row) (h : list wop) : option error * list wop :=
  (write_answer h rows, (h ++ [OpWrite rows])%list).
End Logged.

Definition is_failed_ensure (o : wop) : bool := match o with OpEnsure (Some _) => true | _ => false end.
Definition is_write (o : wop) : bool := match o with OpWrite _ => true | _ => false end.

(** Failed attempts, then at most one success, then only writes. *)
Definition ensured_history (ready : option unit) (h : list wop) : Prop :=
  ∃ failed writes, Forall (λ o, is_failed_ensure o = true) failed ∧ Forall (λ o, is_write o = true) writes ∧
    h = match ready with
        | None => failed
        | Some _ => (failed ++ OpEnsure None :: writes)%list
        end.

Lemma Process_history ea wa ready env h :
  ensured_history ready h →
  let '(_, (ready', h')) := Process (log_ensure ea) (log_write wa) true ready env h in
  ensured_history ready' h'.
Proof.
  intros (failed & writes & Hf & Hw & Hh). unfold Process.
  destruct (Normalize env) as [x|]; [|by exists failed, writes].
  destruct (Project x) as [rows|]; [|by exists failed, writes].
  unfold ensureSchema, ensure_once, log_ensure, log_write. cbn [negb]. destruct ready as [[]|].
  - destruct (wa h rows) as [e|]; exists failed, (writes ++ [OpWrite rows])%list;
      (split_and!; [done|by apply Forall_app; split; [|repeat constructor]|]); rewrite Hh, <- app_assoc; done.
  - destruct (ea h) as [e|].
    + exists (h ++ [OpEnsure (Some e)])%list, []. split_and!; [|constructor|done].
      rewrite Hh. apply Forall_app. split; [done|]. by repeat constructor.
    + destruct (wa _ rows) as [e|]; exists failed, [OpWrite rows];
        (split_and!; [done|by repeat constructor|]); rewrite Hh, <- app_assoc; done.
Qed.

Lemma is_utc_UTC t : is_utc (UTC t).
Proof. done. Qed.

(** What every row says of the delivery it came from. *)
Definition row_of_delivery (env : Envelope) (rank : Z) (r : Row) : Prop :=
  an_DeliveryGUID r = e_DeliveryGUID env ∧ an_SchemaVersion r = e_SchemaVersion env ∧
  an_ReceivedAt r = UTC (e_ReceivedAt env) ∧ is_utc (an_EventTime r) ∧ an_StatusRank r = StatusRank (default "" (an_Status r)) ∧
  (rank < RankCompleted → an_DurationMs r = None) ∧ (rank < RankInProgress → an_QueuedMs r = None).

Lemma StatusRank_nonEmpty s : StatusRank (default "" (nonEmpty s)) = StatusRank s.
Proof. unfold nonEmpty. case_bool_decide; [by subst|done]. Qed.

Lemma timings_None status c s e :
  (StatusRank status < RankCompleted → (timings status c s e).2 = None) ∧
  (StatusRank status < RankInProgress → (timings status c s e).1 = None).
Proof. unfold timings. cbn [fst snd]. split; intros H; [rewrite (proj2 (Z.leb_gt RankCompleted _))|rewrite (proj2 (Z.leb_gt RankInProgress _))]; done || lia. Qed.

Lemma runRecord_delivery x r : row_of_delivery (x_Envelope x) (StatusRank (r_Status r)) (runRecord x r).
Proof.
  unfold runRecord. cbv zeta. destruct (timings _ _ _ _) as [q d] eqn:E.
  repeat split; [symmetry; apply StatusRank_nonEmpty|..]; intros H; cbn [an_DurationMs an_QueuedMs].
  - change d with (q, d).2. rewrite <- E. by apply timings_None.
  - change q with (q, d).1. rewrite <- E. by apply timings_None.
Qed.

Lemma jobRecord_delivery x j : row_of_delivery (x_Envelope x) (StatusRank (j_Status j)) (jobRecord x j).
Proof.
  unfold jobRecord. cbv zeta. destruct (timings _ _ _ _) as [q d] eqn:E.
  repeat split; [symmetry; apply StatusRank_nonEmpty|..]; intros H; cbn [an_DurationMs an_QueuedMs].
  - change d with (q, d).2. rewrite <- E. by apply timings_None.
  - change q with (q, d).1. rewrite <- E. by apply timings_None.
Qed.

(** The status of a step row. *)
Definition step_status (j : Job) (s : Step) : string := if bool_decide (s_Status s = "") then j_Status j else s_Status s.

Lemma stepRecord_delivery x j s : row_of_delivery (x_Envelope x) (StatusRank (step_status j s)) (stepRecord x j s).
Proof.
  unfold stepRecord. cbv zeta. fold (step_status j s). destruct (timings _ _ _ _) as [q d] eqn:E.
  repeat split; [symmetry; apply StatusRank_nonEmpty|]. intros H. cbn [an_DurationMs].
  change d with (q, d).2. rewrite <- E. by apply timings_None.
Qed.

(** The join key of a row. *)
Definition row_key (r : Row) : Z * Z * Z := (an_RepositoryID r, an_RunID r, an_RunAttempt r).
Definition job_key (j : Job) : Z * Z * Z := (j_RepositoryID j, j_RunID j, j_RunAttempt j).

(** The columns a kind of row never has. *)
Definition sparse (r : Row) : Prop :=
  match an_Kind r with
  | RecordRun => an_JobID r = None ∧ an_JobName r = None ∧ an_StepNumber r = None ∧ an_StepName r = None ∧
                 an_RunnerName r = None ∧ an_RunnerGroup r = None ∧ an_Labels r = []
  | RecordJob => an_WorkflowID r = None ∧ an_WorkflowPath r = None ∧ an_RunNumber r = None ∧ an_TriggerEvent r = None ∧
                 an_Actor r = None ∧ an_StepNumber r = None ∧ an_StepName r = None
  | RecordStep => an_WorkflowID r = None ∧ an_WorkflowPath r = None ∧ an_RunNumber r = None ∧ an_TriggerEvent r = None ∧
                  an_Actor r = None ∧ an_CreatedAt r = None ∧ an_HTMLURL r = None
  end.

(** ** Properties *)

(** Every row fits the table: each field is a column of the current schema with a value
    of that column's type, and every required column is present. *)
Lemma Fields_conform r :
  (∀ k v, Fields r !! k = Some v → ∃ c, Schema_Column Current k = Some c ∧ c_Type c = type_of v) ∧
  (∀ c, c ∈ sch_Columns Current → c_Required c = true → is_Some (Fields r !! c_Name c)).
Proof.
  split; [apply Fields_column|apply Fields_required_column].
Qed.

(** [Validate] accepts exactly the well-formed schemas (distinct non-empty column names,
    known types, a timestamp partition column by day, existing cluster columns), and accepts
    the current one. *)
Lemma schema_valid_spec s :
  (Validate s = None ↔
   Forall column_ok (sch_Columns s) ∧ NoDup (ColumnNames s) ∧
   (pt_Column (sch_PartitionBy s) ≠ "" →
    pt_Granularity (sch_PartitionBy s) = "day" ∧
    ∃ c, Schema_Column s (pt_Column (sch_PartitionBy s)) = Some c ∧ c_Type c = TypeTimestamp) ∧
   Forall (λ n, is_Some (Schema_Column s n)) (sch_ClusterBy s)) ∧
  Validate Current = None.
Proof.
  split; [|vm_compute; reflexivity].
  rewrite <- validate_partition_None, <- validate_cluster_None. unfold Validate, ColumnNames.
  pose proof (validate_columns_None ∅ (sch_Columns s)) as Hc. split.
  - destruct (validate_columns _ _) as [e|]; [done|]. destruct (validate_partition s) as [e|]; [done|].
    intros ->. destruct Hc as [Hc _]. by destruct (Hc eq_refl) as (? & ? & _).
  - intros (H1 & H2 & -> & ->). destruct Hc as [_ ->]; [done|]. split; [done|]. split; [done|]. intros c _. apply not_elem_of_empty.
Qed.

(** A job event is one row for the job and one for each step in payload order, with their
    entity identities as record ids (so every event about the same job writes the same ids),
    the join key of the run attempt, the delivery they came from and no column their kind
    does not have; a duration only once completed, a queue time only once started. *)
Lemma job_rows x j :
  x_Kind x = KindJob → x_Job x = Some j →
  ∃ job steps, Project x = Ok (job :: steps) ∧
    an_Kind job = RecordJob ∧ Forall (λ r, an_Kind r = RecordStep) steps ∧
    an_RecordID <$> job :: steps = Job_RecordID j :: ((λ s, Step_RecordID s j) <$> j_Steps j) ∧
    Forall (λ r, row_key r = job_key j ∧ sparse r) (job :: steps) ∧
    row_of_delivery (x_Envelope x) (StatusRank (j_Status j)) job ∧
    Forall2 (λ s r, row_of_delivery (x_Envelope x) (StatusRank (step_status j s)) r) (j_Steps j) steps.
Proof.
  intros Hk Hj. unfold Project. rewrite Hk, Hj. exists (jobRecord x j), (stepRecord x j <$> j_Steps j).
  split; [by destruct (x_Run x)|].
  assert (∀ s, an_Kind (stepRecord x j s) = RecordStep ∧ an_RecordID (stepRecord x j s) = Step_RecordID s j ∧
    row_key (stepRecord x j s) = job_key j ∧ sparse (stepRecord x j s)) as Hs.
  { intros s. unfold stepRecord. cbv zeta. by destruct (timings _ _ _ _). }
  assert (an_Kind (jobRecord x j) = RecordJob ∧ an_RecordID (jobRecord x j) = Job_RecordID j ∧
    row_key (jobRecord x j) = job_key j ∧ sparse (jobRecord x j)) as (HJ1 & HJ2 & HJ3 & HJ4).
  { unfold jobRecord. cbv zeta. by destruct (timings _ _ _ _). }
  split_and!; [done|..].
  - apply Forall_fmap, Forall_true. intros s. apply Hs.
  - cbn [fmap list_fmap]. rewrite HJ2. f_equal. rewrite <- list_fmap_compose. apply list_fmap_ext. intros _ s _. apply Hs.
  - constructor; [done|]. apply Forall_fmap, Forall_true. intros s. apply Hs.
  - apply jobRecord_delivery.
  - apply Forall2_fmap_r, Forall_Forall2_diag, Forall_true. intros s. apply stepRecord_delivery.
Qed.

(** A run event is exactly one row, with the run attempt's identity as its record id, its
    join key, no column of a job or step, and the timings the status allows; an event without
    a run or job is skipped. *)
Lemma run_rows x :
  match x_Kind x, x_Run x, x_Job x with
  | KindRun, Some r, _ =>
      ∃ row, Project x = Ok [row] ∧ an_Kind row = RecordRun ∧ an_RecordID row = Run_RecordID r ∧
        row_key row = (r_RepositoryID r, r_RunID r, r_RunAttempt r) ∧ sparse row ∧
        row_of_delivery (x_Envelope x) (StatusRank (r_Status r)) row
  | KindJob, _, Some _ => is_Some (match Project x with Ok l => Some l | Err _ => None end)
  | _, _, _ => Project x = Err (esent ErrSkipped)
  end.
Proof.
  unfold Project. destruct (x_Kind x), (x_Run x) as [r|], (x_Job x) as [j|]; try done; try by eexists.
  all: exists (runRecord x r); split; [done|].
  all: split_and!; [..|apply runRecord_delivery]; unfold runRecord; cbv zeta; by destruct (timings _ _ _ _).
Qed.

(** Whatever deliveries arrive and whatever the warehouse answers, what a sink that manages
    its schema asks of the writer is a history of failed [EnsureSchema] attempts, then at most
    one that succeeds, then only writes: no row is written before the schema is ensured, and it
    is ensured once. *)
Lemma schema_before_rows ea wa envs :
  let '(ready, h) := process_all (log_ensure ea) (log_write wa) true None envs [] in
  ensured_history ready h.
Proof.
  assert (ensured_history None []) as H0 by (by exists [], []; split_and!; constructor).
  revert H0. generalize (@nil wop) as h. generalize (@None unit) as ready.
  induction envs as [|env envs IH]; intros ready h Hh; cbn [process_all]; [done|].
  pose proof (Process_history ea wa ready env h Hh) as Hs.
  destruct (Process _ _ _ _ _ _) as [err [ready' h']]. by apply IH.
Qed.

(** ** Witnesses *)

Definition ex_job : Job :=
  mkJob 7 "o/r" 42 1 99 "build" None "completed" (Some "failure") (mkTime 1700000000 0) None
    (Some (mkTime 1700000060 0)) None None [] None "abc" "" [mkStep 1 "s" "" None None None].
Definition ex_job_exec : Execution :=
  mkExecution KindJob None (Some ex_job) (mkEnvelope 1 "g" "workflow_job" "completed" "" (mkTime 5 0) 7 "o/r" "" 0 "{}").

Lemma job_rows_witness : ∃ job steps, Project ex_job_exec = Ok (job :: steps) ∧ an_Kind job = RecordJob.
Proof.
  destruct (job_rows ex_job_exec ex_job eq_refl eq_refl) as (job & steps & H1 & H2 & _).
  exists job, steps. split; [exact H1|exact H2].
Defined.
