(* ===== verification/BigQuery.v ===== *)
(** * [internal/sink/analytics/drivers/bigquery]: tables, rows and writes

    schema.go: the BigQuery form of the portable schema and the check of an existing table.
    encode.go: a row as a dynamic protobuf message.  errors.go: which failures a retry cannot
    change.  writer.go: [EnsureSchema], [Write] and [Close] of one caller; what concurrent
    writers and [Close] do to the shared stream is Lazy.v, and the set-up of a stream is
    BqOpener.v.  driver.go: the configuration and its checks.  The BigQuery clients, the
    schema adapters and [proto.Marshal] are third party and parameters. *)

From S2P Require Import Prelude.
From S2P Require Import Errors.
From S2P Require Import GoText.
From S2P Require Import GoNum.
From S2P Require Import GoTime.
From S2P Require Import Event.
From S2P Require Import Model.
From S2P Require Import SingleFlight.
From S2P Require Import Analytics.

Local Open Scope Z_scope.

(** ** schema.go *)

(** A [bq.FieldType] is a string. *)
Definition StringFieldType : string := "STRING".
Definition IntegerFieldType : string := "INTEGER".
Definition TimestampFieldType : string := "TIMESTAMP".
Definition BooleanFieldType : string := "BOOLEAN".

Record FieldSchema := mkField {
  fs_Name : string; fs_Type : string; fs_Required : bool; fs_Repeated : bool; fs_Description : string }.

#[export] Instance FieldSchema_eq_dec : EqDecision FieldSchema.
Proof. solve_decision. Defined.

Definition fieldType (t : string) : result (string * bool) :=
  if String.eqb t TypeString then Ok (StringFieldType, false)
  else if String.eqb t TypeInt64 then Ok (IntegerFieldType, false)
  else if String.eqb t TypeTimestamp then Ok (TimestampFieldType, false)
  else if String.eqb t TypeBool then Ok (BooleanFieldType, false)
  else if String.eqb t TypeStringArray then Ok (StringFieldType, true)
  else Err (errorf "unsupported column type").

Definition field_of (c : Column) : result FieldSchema :=
  match fieldType (c_Type c) with
  | Err e => Err (EWrap "column" e)
  | Ok (ft, repeated) => Ok (mkField (c_Name c) ft (c_Required c && negb repeated) repeated (c_Description c))
  end.

Fixpoint fields_of (cs : list Column) : result (list FieldSchema) :=
  match cs with
  | [] => Ok []
  | c :: cs =>
      match field_of c with
      | Err e => Err e
      | Ok f => match fields_of cs with Err e => Err e | Ok fs => Ok (f :: fs) end
      end
  end.

Definition TableSchema (s : Schema) : result (list FieldSchema) :=
  match Validate s with
  | Some e => Err e
  | None => fields_of (sch_Columns s)
  end.

(** [bq.TableMetadata]: the fields the program sets or reads. *)
Record TableMeta := mkMeta {
  md_Description : string; md_Schema : list FieldSchema;
  md_TimePartitioning : option (string * string);        (* type, field *)
  md_Clustering : option (list string); md_ViewQuery : string }.

Definition DayPartitioningType : string := "DAY".

Definition TableMetadata (s : Schema) : result TableMeta :=
  match TableSchema s with
  | Err e => Err e
  | Ok schema => Ok (mkMeta
      ("antwatcher analytics base table: one row per run, job, or step per webhook event (at-least-once); query the "
         +:+ ViewSuffix +:+ " view for the latest state per record_id")
      schema
      (if bool_decide (pt_Column (sch_PartitionBy s) = "") then None
       else Some (DayPartitioningType, pt_Column (sch_PartitionBy s)))
      (match sch_ClusterBy s with [] => None | fields => Some fields end) "")
  end.

Definition ViewMetadata (tableID : string) : TableMeta := mkMeta
  "antwatcher analytics current view: the latest state per record_id (highest status_rank, then latest event_time and received_at)"
  [] None None (CurrentViewSQL tableID).

(** The map from names to fields: a later field of the same name replaces an earlier one. *)
Definition byName (have : list FieldSchema) : gmap string FieldSchema :=
  foldl (λ m f, <[fs_Name f := f]> m) ∅ have.

(** The problem with one wanted column, if any. *)
Definition field_problem (m : gmap string FieldSchema) (f : FieldSchema) : option string :=
  match m !! fs_Name f with
  | None => Some "column is missing"
  | Some got =>
      if negb (String.eqb (fs_Type got) (fs_Type f)) then Some "column type"
      else if negb (eqb (fs_Repeated got) (fs_Repeated f)) then Some "column repeated"
      else if fs_Required got && negb (fs_Required f) then Some "column is REQUIRED but rows may leave it NULL"
      else None
  end.

Definition VerifySchema (s : Schema) (have : list FieldSchema) : option error :=
  match TableSchema s with
  | Err e => Some e
  | Ok want =>
      match omap (field_problem (byName have)) want with
      | [] => None
      | _ => Some (errorf "table schema mismatch")
      end
  end.

(** ** errors.go *)

Definition as_google (e : error) : option Z :=
  match e with ELeaf (LGoogle code) => Some code | _ => None end.
Definition as_status (e : error) : option Z :=
  match e with ELeaf (LGRPC code _) => Some code | _ => None end.

(** 400, 401, 403, 404, 409 and 412. *)
Definition permanent_http (code : Z) : bool := bool_decide (code ∈ [400; 401; 403; 404; 409; 412]).

(** InvalidArgument, PermissionDenied, Unauthenticated, NotFound, FailedPrecondition,
    OutOfRange, AlreadyExists and Unimplemented. *)
Definition permanent_code (code : Z) : bool := bool_decide (code ∈ [3; 7; 16; 5; 9; 11; 6; 12]).

Definition classify (e : error) : error :=
  if errors_is e CtxCanceled || errors_is e CtxDeadlineExceeded then e
  else match errors_as as_google e with
       | Some code => if permanent_http code then permanent e else e
       | None =>
           match errors_as as_status e with
           | Some code => if permanent_code code then permanent e else e
           | None => e
           end
       end.

Definition isNotFound (e : error) : bool :=
  match errors_as as_google e with Some code => code =? 404 | None => false end.
Definition isConflict (e : error) : bool :=
  match errors_as as_google e with Some code => code =? 409 | None => false end.

(** ** encode.go *)

(** The kinds of the descriptor's fields that the program sets; [KOther] stands for the rest. *)
Inductive wire_kind : Set := KString | KInt64 | KBool | KOther.

#[export] Instance wire_kind_eq_dec : EqDecision wire_kind.
Proof. solve_decision. Defined.

(** The values of a dynamic message. *)
Inductive pval : Set := PString (s : string) | PInt64 (z : Z) | PBool (b : bool) | PList (l : list string).

Section Encode.
(** A descriptor, its lookup of a field by name, and the serialisation of a message. *)
Context {D : Type}.
Variable ByName : D → string → option (wire_kind * bool).
Variable Marshal : gmap string pval → result string.

(** [msg.Set]: it panics when the value is not of the field's kind. *)
Definition set_scalar (fd : wire_kind * bool) (k : wire_kind) (name : string) (v : pval) (msg : gmap string pval)
    : outcome (gmap string pval) :=
  if bool_decide (fd = (k, false)) then OOk (<[name := v]> msg) else OPanic.

(** [msg.Mutable(fd).List()] and the appends to it; they panic when the field is no list of
    strings. *)
Definition append_list (fd : wire_kind * bool) (name : string) (l : list string) (msg : gmap string pval)
    : outcome (gmap string pval) :=
  if bool_decide (fd = (KString, true)) then
    OOk (<[name := PList ((match msg !! name with Some (PList l0) => l0 | _ => [] end) ++ l)%list]> msg)
  else OPanic.

Definition set_field (d : D) (msg : gmap string pval) (name : string) (value : fval) : outcome (gmap string pval) :=
  match ByName d name with
  | None => OErr (errorf "row: column is not in the table descriptor")
  | Some fd =>
      match value with
      | FStr s => set_scalar fd KString name (PString s) msg
      | FInt z => set_scalar fd KInt64 name (PInt64 z) msg
      | FTime t => set_scalar fd KInt64 name (PInt64 (UnixMicro t)) msg
      | FStrs l => append_list fd name l msg
      end
  end.

(** The loop over [rec.Fields()], in the order the map yields them. *)
Fixpoint message_from (d : D) (msg : gmap string pval) (fields : list (string * fval)) : outcome (gmap string pval) :=
  match fields with
  | [] => OOk msg
  | (name, value) :: fields =>
      match set_field d msg name value with
      | OOk msg' => message_from d msg' fields
      | o => o
      end
  end.

Definition Message (d : D) (fields : list (string * fval)) : outcome (gmap string pval) := message_from d ∅ fields.

Definition Encode (d : D) (fields : list (string * fval)) : outcome string :=
  match Message d fields with
  | OErr e => OErr e
  | OPanic => OPanic
  | OOk msg => match Marshal msg with
               | Err e => OErr (EWrap "marshal row" e)
               | Ok data => OOk data
               end
  end.
End Encode.

(** ** driver.go *)

Record Config := mkConfig {
  cfg_Project : string; cfg_Dataset : string; cfg_Table : string; cfg_CredentialsFile : string;
  cfg_EnsureTable : bool; cfg_EnsureView : bool }.

Definition DefaultConfig : Config := mkConfig "" "" "" "" true true.

Definition in_range (lo hi : Z) (c : ascii) : bool := (lo <=? byte_of c) && (byte_of c <=? hi).
Definition is_lower : ascii → bool := in_range 97 122.
Definition is_upper : ascii → bool := in_range 65 90.
Definition is_digit : ascii → bool := in_range 48 57.
Definition is_char (z : Z) (c : ascii) : bool := byte_of c =? z.

(** [[a-z0-9.-]] and [[a-z0-9-]] *)
Definition domain_char (c : ascii) : bool := is_lower c || is_digit c || is_char 46 c || is_char 45 c.
Definition project_char (c : ascii) : bool := is_lower c || is_digit c || is_char 45 c.

(** [[a-z0-9-]{4,28}[a-z0-9]]: all but the last character, then the last. *)
Fixpoint project_rest (n : Z) (s : string) : bool :=
  match s with
  | EmptyString => false
  | String c EmptyString => (is_lower c || is_digit c) && (4 <=? n) && (n <=? 28)
  | String c s => project_char c && project_rest (n + 1) s
  end.
Definition project_id (s : string) : bool :=
  match s with EmptyString => false | String c s => is_lower c && project_rest 0 s end.

(** [projectRE]: the optional domain ends at the only colon. *)
Definition project_match (s : string) : bool :=
  let '(before, after, found) := Cut s (of_byte 58) in
  if found then negb (bool_decide (before = "")) && string_forall domain_char before && project_id after
  else project_id s.

Definition dataset_char (c : ascii) : bool := is_lower c || is_upper c || is_digit c || is_char 95 c.
Definition dataset_match (s : string) : bool :=
  (1 <=? slen s) && (slen s <=? 1000) && string_forall dataset_char s.

Section Config.
(** [tableRE.MatchString]: a class of Unicode characters. *)
Variable table_match : string → bool.

Definition Config_Validate (c : Config) : option error :=
  if bool_decide (cfg_Project c = "") then Some (errorf "project is required")
  else if negb (project_match (cfg_Project c)) then Some (errorf "project is not a valid project id")
  else if bool_decide (cfg_Dataset c = "") then Some (errorf "dataset is required")
  else if negb (dataset_match (cfg_Dataset c)) then Some (errorf "dataset may contain only letters, digits, and underscores")
  else if bool_decide (cfg_Table c = "") then Some (errorf "table is required")
  else if negb (table_match (cfg_Table c)) then Some (errorf "table may contain only letters, marks, numbers, underscores, dashes, and spaces")
  else if HasSuffix (cfg_Table c) ViewSuffix then Some (errorf "table must not end with the suffix of the current view")
  else None.
End Config.

Definition TableID (c : Config) : string := cfg_Project c +:+ "." +:+ cfg_Dataset c +:+ "." +:+ cfg_Table c.
Definition ViewID (c : Config) : string := cfg_Project c +:+ "." +:+ cfg_Dataset c +:+ "." +:+ ViewName (cfg_Table c).

(** ** writer.go *)

(** A writer: the schema rows are encoded with, its descriptor once derived, [closed], and the
    stream once opened. *)
Record Writer (D A : Type) := mkWriter { w_schema : Schema; w_desc : option D; w_closed : bool; w_stream : option A }.
Arguments mkWriter {D A} _ _ _ _.
Arguments w_schema {D A} _.
Arguments w_desc {D A} _.
Arguments w_closed {D A} _.
Arguments w_stream {D A} _.

Section Writer.
(** A descriptor, an appender, and the state of the services behind the clients. *)
Context {D A W : Type}.
Variable cfg : Config.

(** [Table(id).Metadata] and [Table(id).Create]. *)
Variable Metadata : string → W → result TableMeta * W.
Variable Create : string → TableMeta → W → option error * W.

(** The [adapt] functions of [NewRowDescriptor], the stream opener, [Append] and [Close]. *)
Variable adapt : list FieldSchema → result D.
Variable open : D → W → result A * W.
Variable Append : A → list string → W → option error * W.
Variable CloseStream : A → W → option error * W.

Variable ByName : D → string → option (wire_kind * bool).
Variable Marshal : gmap string pval → result string.

(** The order in which ranging over the fields of a row yields them. *)
Variable ranged : gmap string fval → list (string * fval).

Definition NewWriter : Writer D A := mkWriter Current None false None.

Definition NewRowDescriptor (s : Schema) : result D :=
  match TableSchema s with
  | Err e => Err e
  | Ok schema => adapt schema
  end.

Definition ensureTable (id : string) (md : TableMeta) (verify : option (TableMeta → option error)) (w : W) : option error * W :=
  match Metadata id w with
  | (Ok have, w') =>
      (match verify with
       | Some verify => match verify have with Some e => Some (permanent e) | None => None end
       | None => None
       end, w')
  | (Err e, w') =>
      if negb (isNotFound e) then (Some (EWrap "metadata" (classify e)), w')
      else match Create id md w' with
           | (None, w'') => (None, w'')
           | (Some e, w'') => (if isConflict e then None else Some (EWrap "create" (classify e)), w'')
           end
  end.

(** The table, when it is to be ensured. *)
Definition ensure_base (s : Schema) (w : W) : option error * W :=
  if cfg_EnsureTable cfg then
    match TableMetadata s with
    | Err e => (Some (permanent e), w)
    | Ok md =>
        match ensureTable (cfg_Table cfg) md (Some (λ have, VerifySchema s (md_Schema have))) w with
        | (Some e, w') => (Some (EWrap "table" e), w')
        | r => r
        end
    end
  else (None, w).

Definition ensure_view (w : W) : option error * W :=
  if cfg_EnsureView cfg then
    match ensureTable (ViewName (cfg_Table cfg)) (ViewMetadata (TableID cfg)) None w with
    | (Some e, w') => (Some (EWrap "view" e), w')
    | r => r
    end
  else (None, w).

Definition EnsureSchema (s : Schema) (wr : Writer D A) (w : W) : option error * (Writer D A * W) :=
  match Validate s with
  | Some e => (Some (permanent e), (wr, w))
  | None =>
      let wr := mkWriter s None (w_closed wr) (w_stream wr) in
      match ensure_base s w with
      | (Some e, w') => (Some e, (wr, w'))
      | (None, w') => let '(err, w'') := ensure_view w' in (err, (wr, w''))
      end
  end.

Definition errWriterClosed : error := permanent (errorf "bigquery writer is closed").

(** The locked section of [streamFor]: the descriptor is derived once per schema. *)
Definition descriptor (wr : Writer D A) : result D * Writer D A :=
  match w_desc wr with
  | Some d => (Ok d, wr)
  | None =>
      match NewRowDescriptor (w_schema wr) with
      | Err e => (Err (permanent (EWrap "row descriptor" e)), wr)
      | Ok d => (Ok d, mkWriter (w_schema wr) (Some d) (w_closed wr) (w_stream wr))
      end
  end.

(** [stream.Do] by a caller nobody races with. *)
Definition open_once (d : D) (wr : Writer D A) (w : W) : result A * (Writer D A * W) :=
  match w_stream wr with
  | Some a => (Ok a, (wr, w))
  | None =>
      match open d w with
      | (Err e, w') => (Err e, (wr, w'))
      | (Ok a, w') => (Ok a, (mkWriter (w_schema wr) (w_desc wr) (w_closed wr) (Some a), w'))
      end
  end.

Definition streamFor (wr : Writer D A) (w : W) : result (A * D) * (Writer D A * W) :=
  if w_closed wr then (Err errWriterClosed, (wr, w))
  else match descriptor wr with
       | (Err e, wr) => (Err e, (wr, w))
       | (Ok d, wr) =>
           match open_once d wr w with
           | (Err e, s) => (Err (EWrap "open write stream" (classify e)), s)
           | (Ok a, s) => (Ok (a, d), s)
           end
       end.

Fixpoint encode_all (d : D) (records : list Row) : outcome (list string) :=
  match records with
  | [] => OOk []
  | r :: records =>
      match Encode ByName Marshal d (ranged (Fields r)) with
      | OOk row => match encode_all d records with OOk rows => OOk (row :: rows) | o => o end
      | OErr e => OErr (permanent (EWrap "encode" e))
      | OPanic => OPanic
      end
  end.

Definition Write (records : list Row) (wr : Writer D A) (w : W) : outcome unit * (Writer D A * W) :=
  match records with
  | [] => (OOk (), (wr, w))
  | _ =>
      match streamFor wr w with
      | (Err e, s) => (OErr e, s)
      | (Ok (stream, d), (wr, w)) =>
          match encode_all d records with
          | OErr e => (OErr e, (wr, w))
          | OPanic => (OPanic, (wr, w))
          | OOk rows =>
              match Append stream rows w with
              | (None, w) => (OOk (), (wr, w))
              | (Some e, w) => (OErr (EWrap "append" (classify e)), (wr, w))
              end
          end
      end
  end.

(** [w.cancel], which ends the context of the clients. *)
Variable cancel : W → W.

(** The [closers] in order; each is called whatever the others answered. *)
Fixpoint close_all (closers : list (W → option error * W)) (w : W) : list error * W :=
  match closers with
  | [] => ([], w)
  | c :: closers =>
      let '(err, w) := c w in
      let '(errs, w) := close_all closers w in
      (match err with Some e => e :: errs | None => errs end, w)
  end.

Definition Close (closers : list (W → option error * W)) (wr : Writer D A) (w : W) : option error * (Writer D A * W) :=
  if w_closed wr then (None, (wr, w))
  else
    let wr := mkWriter (w_schema wr) (w_desc wr) true (w_stream wr) in
    let '(errs, w) :=
      match w_stream wr with
      | Some a => let '(err, w) := CloseStream a w in
                  (match err with Some e => [EWrap "close write stream" e] | None => [] end, w)
      | None => ([], w)
      end in
    let '(errs', w) := close_all closers w in
    (join_problems (errs ++ errs')%list, (wr, cancel w)).

End Writer.

(** A [RowError] of an append: index, name of its code, message. *)
Record RowError := mkRowError { re_Index : Z; re_Code : string; re_Message : string }.

(** The loop of [describeRowErrors] with the total for the last line. *)
Fixpoint describe_from (total i : Z) (l : list RowError) : string :=
  match l with
  | [] => ""
  | re :: l =>
      if i =? 3 then "; and " +:+ format_int (total - 3) +:+ " more"
      else (if 0 <? i then "; " else "") +:+ "row " +:+ format_int (re_Index re) +:+ " " +:+ re_Code re +:+ ": "
             +:+ re_Message re +:+ describe_from total (i + 1) l
  end.

Definition describeRowErrors (l : list RowError) : string := describe_from (Z.of_nat (length l)) 0 l.

Definition withRowErrors (err : error) (l : list RowError) : error :=
  match l with [] => err | _ => EWrap "row errors" err end.

(** ** Lemmas: the schema *)

(** What [TableSchema] makes of a column. *)
Definition column_field (c : Column) (f : FieldSchema) : Prop :=
  fs_Name f = c_Name c ∧ fieldType (c_Type c) = Ok (fs_Type f, fs_Repeated f) ∧
  fs_Required f = c_Required c && negb (fs_Repeated f) ∧ fs_Description f = c_Description c.

Lemma fieldType_known t : known_type t = true → ∃ ft rep, fieldType t = Ok (ft, rep).
Proof.
  unfold known_type. intros H%bool_decide_eq_true. unfold fieldType.
  repeat match goal with |- context [String.eqb ?a ?b] => destruct (String.eqb a b) eqn:? end; try (by do 2 eexists).
  to_prop. exfalso. repeat (apply elem_of_cons in H as [H|H]; [done|]). by apply not_elem_of_nil in H.
Qed.

Lemma fields_of_Ok cs : Forall column_ok cs → ∃ fs, fields_of cs = Ok fs ∧ Forall2 column_field cs fs.
Proof.
  induction cs as [|c cs IH]; intros H; [by exists []|]. apply Forall_cons in H as [[_ Hc] H].
  destruct (IH H) as (fs & E & F). destruct (fieldType_known _ Hc) as (ft & rep & Ht).
  cbn [fields_of]. unfold field_of. rewrite Ht, E. eexists. split; [done|]. by constructor.
Qed.

Lemma Validate_columns s : Validate s = None → Forall column_ok (sch_Columns s) ∧ NoDup (ColumnNames s).
Proof.
  unfold Validate. destruct (validate_columns ∅ (sch_Columns s)) eqn:E; [done|]. intros _.
  apply validate_columns_None in E as (A & B & _). by split.
Qed.

Lemma TableSchema_Ok s : Validate s = None → ∃ fs, TableSchema s = Ok fs ∧ Forall2 column_field (sch_Columns s) fs.
Proof. intros H. unfold TableSchema. rewrite H. apply fields_of_Ok, Validate_columns, H. Qed.

Lemma TableSchema_inv s fs : TableSchema s = Ok fs → Validate s = None ∧ Forall2 column_field (sch_Columns s) fs.
Proof.
  intros H. assert (Validate s = None) as Hv by (unfold TableSchema in H; by destruct (Validate s)).
  split; [done|]. destruct (TableSchema_Ok s Hv) as (fs' & E & F). rewrite E in H. by injection H as <-.
Qed.

Lemma column_field_names cs fs : Forall2 column_field cs fs → fs_Name <$> fs = c_Name <$> cs.
Proof. induction 1 as [|c f cs fs [Hn _] _ IH]; [done|]. cbn [fmap list_fmap]. by rewrite Hn, IH. Qed.

Lemma byName_go (have : list FieldSchema) (m : gmap string FieldSchema) k :
  foldl (λ m f, <[fs_Name f := f]> m) m have !! k =
  match List.find (λ f, String.eqb (fs_Name f) k) (rev have) with Some f => Some f | None => m !! k end.
Proof.
  revert m. induction have as [|f have IH]; intros m; [done|]. cbn [foldl rev]. rewrite IH.
  assert (∀ l, List.find (λ g, String.eqb (fs_Name g) k) (l ++ [f]) =
    match List.find (λ g, String.eqb (fs_Name g) k) l with Some g => Some g
    | None => if String.eqb (fs_Name f) k then Some f else None end) as Hf.
  { induction l as [|g l IHl]; simpl; [by destruct (String.eqb _ _)|]. by destruct (String.eqb (fs_Name g) k). }
  rewrite Hf. destruct (List.find _ (rev have)); [done|].
  destruct (String.eqb (fs_Name f) k) eqn:E; to_prop; [by subst; rewrite lookup_insert_eq|by rewrite lookup_insert_ne].
Qed.

Lemma byName_In have k f : byName have !! k = Some f → f ∈ have ∧ fs_Name f = k.
Proof.
  unfold byName. rewrite byName_go, lookup_empty. destruct (List.find _ _) as [g|] eqn:E; [|done]. intros [= ->].
  apply find_some in E as [Hin Hk]. split; [|by apply String.eqb_eq in Hk].
  apply in_rev in Hin. by apply list_elem_of_In.
Qed.

Lemma byName_unique have f : NoDup (fs_Name <$> have) → f ∈ have → byName have !! fs_Name f = Some f.
Proof.
  intros Hnd Hin. destruct (byName have !! fs_Name f) as [g|] eqn:E.
  - apply byName_In in E as [Hg Hn]. f_equal. apply list_elem_of_lookup in Hin as [i Hi].
    apply list_elem_of_lookup in Hg as [j Hj].
    assert (i = j) as <-; [|congruence].
    apply (NoDup_lookup _ _ _ (fs_Name f) Hnd); rewrite list_lookup_fmap; [by rewrite Hi|by rewrite Hj; cbn; rewrite Hn].
  - unfold byName in E. rewrite byName_go, lookup_empty in E. destruct (List.find _ _) eqn:Ef; [done|].
    eapply find_none in Ef; [|apply (in_rev have), list_elem_of_In, Hin]. by rewrite String.eqb_refl in Ef.
Qed.

(** An existing field can hold the values of a wanted one. *)
Definition holds (got f : FieldSchema) : Prop :=
  fs_Type got = fs_Type f ∧ fs_Repeated got = fs_Repeated f ∧ (fs_Required got = true → fs_Required f = true).

Lemma field_problem_None m f : field_problem m f = None ↔ ∃ got, m !! fs_Name f = Some got ∧ holds got f.
Proof.
  unfold field_problem, holds. destruct (m !! fs_Name f) as [got|]; [|split; [done|by intros (? & ? & _)]].
  destruct (String.eqb (fs_Type got) (fs_Type f)) eqn:E1, (eqb (fs_Repeated got) (fs_Repeated f)) eqn:E2,
    (fs_Required got) eqn:E3, (fs_Required f) eqn:E4; cbn; apply String.eqb_eq in E1 || apply String.eqb_neq in E1;
    apply eqb_prop in E2 || apply eqb_false_iff in E2;
    (split; [try done; intros _; exists got; (split; [done|]); (split; [done|]); (split; [done|]); congruence|intros (g & [= <-] & H1 & H2 & H3); try done; try (by exfalso; auto); by specialize (H3 E3)]).
Qed.

Lemma omap_nil {X Y} (f : X → option Y) l : omap f l = [] ↔ Forall (λ x, f x = None) l.
Proof.
  induction l as [|x l IH]; [done|]. rewrite Forall_cons, <- IH. cbn [omap list_omap]. destruct (f x); naive_solver.
Qed.

Lemma VerifySchema_None s have :
  VerifySchema s have = None ↔
  ∃ want, TableSchema s = Ok want ∧ Forall (λ f, ∃ got, byName have !! fs_Name f = Some got ∧ holds got f) want.
Proof.
  unfold VerifySchema. destruct (TableSchema s) as [want|e]; [|split; [done|by intros (? & ? & _)]].
  assert (match omap (field_problem (byName have)) want with [] => None | _ => Some (errorf "table schema mismatch") end = None
    ↔ omap (field_problem (byName have)) want = []) as -> by (by destruct (omap _ _)).
  rewrite omap_nil. setoid_rewrite field_problem_None. split; [intros H; by exists want|]. by intros (w & [= ->] & H).
Qed.

(** The field of the table a column of the current schema corresponds to. *)
Lemma Current_field c : c ∈ sch_Columns Current → ∃ fs f, TableSchema Current = Ok fs ∧ f ∈ fs ∧ column_field c f.
Proof.
  intros Hin. destruct (TableSchema_Ok Current ltac:(vm_compute; reflexivity)) as (fs & E & F). exists fs.
  apply list_elem_of_lookup in Hin as [i Hi]. destruct (Forall2_lookup_l _ _ _ _ _ F Hi) as (f & Hf & Hc).
  exists f. split; [done|]. split; [by eapply list_elem_of_lookup_2|done].
Qed.

Lemma created_verifies s md : TableMetadata s = Ok md → VerifySchema s (md_Schema md) = None.
Proof.
  unfold TableMetadata. destruct (TableSchema s) as [fs|e] eqn:E; [|done]. intros [= <-]. cbn [md_Schema].
  apply VerifySchema_None. exists fs. split; [done|]. destruct (TableSchema_inv s fs E) as [Hv F].
  assert (NoDup (fs_Name <$> fs)) as Hnd by (rewrite (column_field_names _ _ F); by apply Validate_columns).
  rewrite Forall_forall. intros f Hf. exists f. split; [by apply byName_unique|]. by split_and!.
Qed.

(** ** Lemmas: the rows *)

(** The kind of the protobuf field of a column, and the value on the wire. *)
Definition kind_of (ft : string) : wire_kind :=
  if String.eqb ft StringFieldType then KString
  else if String.eqb ft IntegerFieldType || String.eqb ft TimestampFieldType then KInt64
  else if String.eqb ft BooleanFieldType then KBool else KOther.

Definition wire (v : fval) : pval :=
  match v with FStr s => PString s | FInt z => PInt64 z | FTime t => PInt64 (UnixMicro t) | FStrs l => PList l end.

(** What the documentation of the adapters promises of the descriptor of a schema: a field for
    each column, with the kind of its type, repeated as the column is. *)
Definition describes {D} (ByName : D → string → option (wire_kind * bool)) (d : D) (fs : list FieldSchema) : Prop :=
  ∀ f, f ∈ fs → ByName d (fs_Name f) = Some (kind_of (fs_Type f), fs_Repeated f).

(** The field of the descriptor a value of a row needs. *)
Definition field_for (v : fval) : wire_kind * bool :=
  match v with FStr _ => (KString, false) | FInt _ | FTime _ => (KInt64, false) | FStrs _ => (KString, true) end.

Section Rows.
Context {D : Type}.
Variable ByName : D → string → option (wire_kind * bool).

Lemma descriptor_field d fs r k v :
  TableSchema Current = Ok fs → describes ByName d fs → Fields r !! k = Some v → ByName d k = Some (field_for v).
Proof.
  intros Hfs Hd Hv. destruct (Fields_column r k v Hv) as (c & Hc & Ht).
  apply find_column_Some in Hc as [Hin <-]. destruct (Current_field c Hin) as (fs' & f & E & Hf & (Hn & Hty & _)).
  rewrite E in Hfs. injection Hfs as ->. rewrite <- Hn, (Hd f Hf). rewrite Ht in Hty.
  destruct v; injection Hty as <- <-; reflexivity.
Qed.

Lemma set_field_Ok d msg k v :
  ByName d k = Some (field_for v) → msg !! k = None → set_field ByName d msg k v = OOk (<[k := wire v]> msg).
Proof.
  intros Hf Hn. unfold set_field, set_scalar, append_list. rewrite Hf.
  destruct v; cbn [field_for wire]; rewrite bool_decide_true by done; [done..|]. by rewrite Hn.
Qed.

Lemma message_from_Ok d fields msg :
  Forall (λ kv, ByName d kv.1 = Some (field_for kv.2)) fields → NoDup fields.*1 → Forall (λ kv, msg !! kv.1 = None) fields →
  message_from ByName d msg fields = OOk ((wire <$> (list_to_map fields : gmap string fval)) ∪ msg).
Proof.
  revert msg. induction fields as [|[k v] fields IH]; intros msg H1 H2 H3; cbn [message_from].
  { f_equal. cbn. by rewrite fmap_empty, map_empty_union. }
  apply Forall_cons in H1 as [Hf H1]. apply Forall_cons in H3 as [Hn H3]. cbn [fmap list_fmap fst] in H2.
  apply NoDup_cons in H2 as [Hk H2]. rewrite (set_field_Ok d msg k v) by done. rewrite IH.
  - f_equal. change (list_to_map ((k, v) :: fields)) with (<[k := v]> (list_to_map fields) : gmap string fval).
    rewrite fmap_insert, <- insert_union_l, insert_union_r; [done|].
    by rewrite lookup_fmap, not_elem_of_list_to_map_1 by done.
  - done.
  - done.
  - rewrite Forall_forall in *. intros kv Hin. rewrite lookup_insert_ne; [by apply H3|]. intros ->. apply Hk.
    by apply list_elem_of_fmap_2.
Qed.

Lemma Message_row d fs r order :
  TableSchema Current = Ok fs → describes ByName d fs → order ≡ₚ map_to_list (Fields r) →
  Message ByName d order = OOk (wire <$> Fields r).
Proof.
  intros Hfs Hd Ho. unfold Message.
  assert (NoDup order.*1) as Hnd by (rewrite Ho; apply NoDup_fst_map_to_list).
  rewrite message_from_Ok; [|..|done|].
  - f_equal. rewrite (map_union_empty (M := gmap string)). f_equal.
    rewrite (list_to_map_proper order (map_to_list (Fields r))) by done. apply list_to_map_to_list.
  - rewrite Forall_forall. intros [k v] Hin. rewrite Ho in Hin. apply elem_of_map_to_list in Hin.
    by eapply descriptor_field.
  - rewrite Forall_forall. intros kv _. apply lookup_empty.
Qed.
End Rows.

(** ** Lemmas: the writer *)

Section WriterLemmas.
Context {D A W : Type}.
Variables (adapt : list FieldSchema → result D) (open : D → W → result A * W).
Variables (Append : A → list string → W → option error * W).
Variables (ByName : D → string → option (wire_kind * bool)) (Marshal : gmap string pval → result string).
Variable ranged : gmap string fval → list (string * fval).

Lemma streamFor_Ok (wr wr' : Writer D A) a d w w' :
  streamFor adapt open wr w = (Ok (a, d), (wr', w')) →
  w_closed wr = false ∧ w_desc wr' = Some d ∧ w_stream wr' = Some a ∧ w_schema wr' = w_schema wr ∧
  (w_desc wr = Some d ∨ NewRowDescriptor adapt (w_schema wr) = Ok d).
Proof.
  unfold streamFor, descriptor, open_once. destruct (w_closed wr); [done|].
  destruct (w_desc wr) as [d0|] eqn:Ed.
  - destruct (w_stream wr) as [a0|] eqn:Es; [intros [= <- <- <- <-]; auto 10|].
    destruct (open d0 w) as [[a1|e] w1]; [|done]. intros [= <- <- <- <-]. cbn. rewrite Ed. auto 10.
  - destruct (NewRowDescriptor adapt (w_schema wr)) as [d0|e] eqn:En; [|done]. cbn [w_stream w_schema w_desc w_closed].
    destruct (w_stream wr) as [a0|] eqn:Es; [intros [= <- <- <- <-]; cbn; auto 10|].
    destruct (open d0 w) as [[a1|e] w1]; [|done]. intros [= <- <- <- <-]. cbn. auto 10.
Qed.

Lemma encode_all_Ok d records rows :
  encode_all ByName Marshal ranged d records = OOk rows ↔
  Forall2 (λ r row, Encode ByName Marshal d (ranged (Fields r)) = OOk row) records rows.
Proof.
  revert rows. induction records as [|r records IH]; intros rows; cbn [encode_all].
  - split; [intros [= <-]; constructor|by inversion 1].
  - split.
    + destruct (Encode _ _ _ _) as [row|e|] eqn:E; try done.
      destruct (encode_all _ _ _ _ _) as [rows'|e|]; try done. intros [= <-]. constructor; [done|]. by apply IH.
    + inversion 1 as [|? row ? rows' Hr Hrs]; subst. rewrite Hr. by rewrite (proj2 (IH rows') Hrs).
Qed.

(** Rows of the current schema never make the encoder panic. *)
Lemma encode_all_no_panic d fs records :
  TableSchema Current = Ok fs → describes ByName d fs → (∀ m, ranged m ≡ₚ map_to_list m) →
  encode_all ByName Marshal ranged d records ≠ OPanic.
Proof.
  intros Hfs Hd Hr. induction records as [|r records IH]; cbn [encode_all]; [done|].
  unfold Encode. rewrite (Message_row ByName d fs r) by done. destruct (Marshal _); [|done].
  by destruct (encode_all _ _ _ _ _).
Qed.
End WriterLemmas.

(** ** Properties *)

(** A table that passes [VerifySchema] holds every row: for each field of a row the table
    has a column of the type and repetition the value needs, and a REQUIRED column of the table
    that belongs to the schema is never NULL in a row. *)
Lemma verified_table_holds_rows have r :
  VerifySchema Current have = None →
  (∀ k v, Fields r !! k = Some v → ∃ got, byName have !! k = Some got ∧
     fieldType (type_of v) = Ok (fs_Type got, fs_Repeated got)) ∧
  (∀ c got, c ∈ sch_Columns Current → byName have !! c_Name c = Some got → fs_Required got = true →
     is_Some (Fields r !! c_Name c)).
Proof.
  intros (want & Hw & Hall)%VerifySchema_None. rewrite Forall_forall in Hall. split.
  - intros k v Hv. destruct (Fields_column r k v Hv) as (c & Hc & <-).
    apply find_column_Some in Hc as [Hin <-]. destruct (Current_field c Hin) as (fs & f & E & Hf & (Hn & Hty & _)).
    rewrite E in Hw. injection Hw as ->. destruct (Hall f Hf) as (got & Hg & Ht & Hrep & _). exists got.
    rewrite <- Hn. split; [done|]. by rewrite Ht, Hrep.
  - intros c got Hin Hg Hreq. destruct (Current_field c Hin) as (fs & f & E & Hf & (Hn & _ & Hr & _)).
    rewrite E in Hw. injection Hw as ->. destruct (Hall f Hf) as (got' & Hg' & _ & _ & Hreq').
    rewrite Hn, Hg in Hg'. injection Hg' as <-. specialize (Hreq' Hreq). rewrite Hr in Hreq'.
    apply andb_true_iff in Hreq' as [Hc _]. exact (Fields_required_column r c Hin Hc).
Qed.

(** The table [EnsureSchema] creates for a schema passes the check [EnsureSchema] makes of a
    table that exists, for every valid schema: a restart accepts what the first start made. *)
Lemma created_table_verifies s md : TableMetadata s = Ok md → VerifySchema s (md_Schema md) = None.
Proof. apply created_verifies. Qed.

(** A schema is accepted exactly when it is valid: every type [Validate] knows has a BigQuery
    type. *)
Lemma TableSchema_total s : (∃ fs, TableSchema s = Ok fs) ↔ Validate s = None.
Proof.
  split; [by intros (fs & [H _]%TableSchema_inv)|]. intros (fs & H & _)%TableSchema_Ok. by exists fs.
Qed.

(** A table with an additional REQUIRED column passes the check although no row fills it. *)
Lemma VerifySchema_extra_required :
  ∃ have, VerifySchema Current have = None ∧
    ∃ f, f ∈ have ∧ fs_Required f = true ∧ ∀ r, Fields r !! fs_Name f = None.
Proof.
  pose (extra := mkField "extra" StringFieldType true false "").
  exists (extra :: match TableSchema Current with Ok fs => fs | Err _ => [] end). split; [vm_compute; reflexivity|].
  exists extra. split; [left|]. split; [done|]. intros r. destruct (Fields r !! fs_Name extra) as [v|] eqn:E; [|done].
  pose proof (map_Forall_lookup_1 _ _ _ _ (Fields_fits r) E) as H. vm_compute in H. done.
Qed.

(** Every row of the current schema is encoded in full, whatever order the fields come in:
    with the descriptor of the table the message has, for each field, its value in the wire form
    of its column, and nothing else; the encoder neither fails nor panics. *)
Lemma Message_complete {D} (ByName : D → string → option (wire_kind * bool)) d fs r order :
  TableSchema Current = Ok fs → describes ByName d fs → order ≡ₚ map_to_list (Fields r) →
  ∃ msg, Message ByName d order = OOk msg ∧ ∀ k, msg !! k = wire <$> Fields r !! k.
Proof.
  intros H1 H2 H3. exists (wire <$> Fields r). split; [by eapply Message_row|]. intros k. apply lookup_fmap.
Qed.

(** A write of rows succeeds only when the writer is open and the service confirmed one
    append of exactly those rows, in order, each encoded with the descriptor of the writer's
    schema; the stream stays open for the next write. *)
Lemma Write_acked {D A W} adapt open Append ByName Marshal ranged records (wr wr' : Writer D A) (w w' : W) :
  Write adapt open Append ByName Marshal ranged records wr w = (OOk (), (wr', w')) → records ≠ [] →
  ∃ stream d rows w1,
    w_closed wr = false ∧ w_stream wr' = Some stream ∧ w_desc wr' = Some d ∧
    (w_desc wr = Some d ∨ NewRowDescriptor adapt (w_schema wr) = Ok d) ∧
    Forall2 (λ r row, Encode ByName Marshal d (ranged (Fields r)) = OOk row) records rows ∧
    Append stream rows w1 = (None, w').
Proof.
  unfold Write. intros H Hne. destruct records as [|r records]; [done|].
  destruct (streamFor adapt open wr w) as [[[stream d]|e] [wr1 w1]] eqn:Es; [|done].
  apply streamFor_Ok in Es as (H1 & H2 & H3 & _ & H5).
  destruct (encode_all _ _ _ d (r :: records)) as [rows|e|] eqn:Ee; try done.
  destruct (Append stream rows w1) as [[e|] w2] eqn:Ea; [done|]. injection H as <- <-.
  exists stream, d, rows, w1. split_and!; try done. by apply encode_all_Ok.
Qed.

(** Which failures of BigQuery a retry can change: a context error is left alone; of the
    others, exactly the listed HTTP statuses and gRPC codes become permanent; the cause stays
    in the chain. *)
Lemma classify_spec e :
  (∀ s, errors_is (classify e) s = errors_is e s) ∧
  IsPermanent (classify e) =
    (IsPermanent e ||
     (negb (errors_is e CtxCanceled || errors_is e CtxDeadlineExceeded) &&
      match errors_as as_google e, errors_as as_status e with
      | Some code, _ => bool_decide (code ∈ [400; 401; 403; 404; 409; 412])
      | None, Some code => bool_decide (code ∈ [3; 5; 6; 7; 9; 11; 12; 16])
      | None, None => false
      end)).
Proof.
  assert (∀ code, permanent_code code = bool_decide (code ∈ [3; 5; 6; 7; 9; 11; 12; 16])) as Hc
    by (intros code; unfold permanent_code; apply bool_decide_ext; set_solver).
  unfold classify. destruct (errors_is e CtxCanceled || errors_is e CtxDeadlineExceeded);
    [split; [done|by rewrite orb_false_r]|].
  destruct (errors_as as_google e) as [code|].
  - unfold permanent_http. destruct (bool_decide (code ∈ [400; 401; 403; 404; 409; 412])).
    + split; [intros s; apply errors_is_permanent|]. by rewrite IsPermanent_permanent, orb_true_r.
    + split; [done|]. by rewrite orb_false_r.
  - destruct (errors_as as_status e) as [code|]; [|split; [done|by rewrite orb_false_r]]. rewrite <- Hc.
    destruct (permanent_code code).
    + split; [intros s; apply errors_is_permanent|]. by rewrite IsPermanent_permanent, orb_true_r.
    + split; [done|]. by rewrite orb_false_r.
Qed.

(** Rows never make [Write] panic: whatever the services answer, a writer of the current schema
    whose descriptor is the one of the table returns. *)
Lemma Write_no_panic {D A W} adapt open Append ByName Marshal ranged records (wr : Writer D A) (w : W) fs :
  TableSchema Current = Ok fs → (∀ fs d, adapt fs = Ok d → describes ByName d fs) →
  (∀ m, ranged m ≡ₚ map_to_list m) → w_schema wr = Current →
  (∀ d, w_desc wr = Some d → describes ByName d fs) →
  (Write adapt open Append ByName Marshal ranged records wr w).1 ≠ OPanic.
Proof.
  intros Hfs Ha Hr Hs Hd. revert Hfs. unfold Write. destruct records as [|r records]; [done|].
  destruct (streamFor adapt open wr w) as [[[stream d]|e] [wr1 w1]] eqn:Es; [|done].
  apply streamFor_Ok in Es as (_ & _ & _ & _ & Hdesc).
  intros Hfs. assert (describes ByName d fs) as Hdd.
  { destruct Hdesc as [H|H]; [by apply Hd|]. unfold NewRowDescriptor in H. rewrite Hs, Hfs in H. by apply Ha. }
  pose proof (encode_all_no_panic ByName Marshal ranged d fs (r :: records) Hfs Hdd Hr) as Hn. clear Hfs.
  destruct (encode_all _ _ _ d (r :: records)) as [rows|e|]; try done. by destruct (Append stream rows w1) as [[e|] w2].
Qed.

(** A metadata service that answers: it returns what was created, says 404 for what was not,
    and creates what is missing. *)
Class TableService {W} (Metadata : string → W → result TableMeta * W) (Create : string → TableMeta → W → option error * W) := {
  tables : W → gmap string TableMeta;
  tables_get id w md : tables w !! id = Some md → Metadata id w = (Ok md, w);
  tables_missing id w : tables w !! id = None → ∃ e, Metadata id w = (Err e, w) ∧ isNotFound e = true;
  tables_create id w md : tables w !! id = None → ∃ w', Create id md w = (None, w') ∧ tables w' = <[id := md]> (tables w) }.

Section Service.
Context {D A W : Type} (cfg : Config).
Context (Metadata : string → W → result TableMeta * W) (Create : string → TableMeta → W → option error * W).
Context `{!TableService Metadata Create}.

Lemma ensureTable_missing id md verify w : tables w !! id = None →
  ∃ w', ensureTable Metadata Create id md verify w = (None, w') ∧ tables w' = <[id := md]> (tables w).
Proof.
  intros H. unfold ensureTable. destruct (tables_missing id w H) as (e & -> & ->). cbn [negb].
  destruct (tables_create id w md H) as (w' & -> & Hw). by exists w'.
Qed.

Lemma ensureTable_present id md have verify w : tables w !! id = Some have →
  (∀ v, verify = Some v → v have = None) → ensureTable Metadata Create id md verify w = (None, w).
Proof.
  intros H Hv. unfold ensureTable. rewrite (tables_get id w have H). destruct verify as [v|]; [|done]. by rewrite (Hv v).
Qed.

Lemma ViewName_ne t : ViewName t ≠ t.
Proof.
  unfold ViewName. intros H. apply (f_equal String.length) in H. rewrite string_length_app in H. cbn in H. lia.
Qed.

(** The result of [EnsureSchema] on the writer. *)
Definition ensured (s : Schema) (wr : Writer D A) : Writer D A := mkWriter s None (w_closed wr) (w_stream wr).

(** On a service that has neither, [EnsureSchema] creates the base table and the view over
    it, and from then on every [EnsureSchema], by this writer or by one of a later process,
    succeeds and changes nothing. *)
Lemma EnsureSchema_establishes s md (wr : Writer D A) w :
  cfg_EnsureTable cfg = true → cfg_EnsureView cfg = true → TableMetadata s = Ok md →
  tables w !! cfg_Table cfg = None → tables w !! ViewName (cfg_Table cfg) = None →
  ∃ w', EnsureSchema cfg Metadata Create s wr w = (None, (ensured s wr, w')) ∧
    tables w' = <[ViewName (cfg_Table cfg) := ViewMetadata (TableID cfg)]> (<[cfg_Table cfg := md]> (tables w)) ∧
    ∀ wr', EnsureSchema cfg Metadata Create s wr' w' = (None, (ensured s wr', w')).
Proof.
  intros Ht Hv Hmd H1 H2. pose proof (ViewName_ne (cfg_Table cfg)) as Hne.
  assert (Validate s = None) as Hval.
  { unfold TableMetadata in Hmd. destruct (TableSchema s) as [fs|] eqn:E; [|done]. by apply TableSchema_inv in E as [? _]. }
  pose proof (created_verifies s md Hmd) as Hver.
  destruct (ensureTable_missing (cfg_Table cfg) md (Some (λ have, VerifySchema s (md_Schema have))) w H1) as (w1 & E1 & T1).
  destruct (ensureTable_missing (ViewName (cfg_Table cfg)) (ViewMetadata (TableID cfg)) None w1) as (w2 & E2 & T2).
  { by rewrite T1, lookup_insert_ne. }
  exists w2. split; [|split; [by rewrite T2, T1|]].
  - unfold EnsureSchema, ensure_base, ensure_view. by rewrite Hval, Ht, Hv, Hmd, E1, E2.
  - intros wr'. unfold EnsureSchema, ensure_base, ensure_view. rewrite Hval, Ht, Hv, Hmd.
    rewrite (ensureTable_present _ _ md); [|by rewrite T2, T1, lookup_insert_ne, lookup_insert_eq|by intros v [= <-]].
    rewrite (ensureTable_present _ _ (ViewMetadata (TableID cfg))); [done|by rewrite T2, lookup_insert_eq|done].
Qed.
End Service.

(** ** The configuration *)

(** No character of [s] satisfies [f]. *)
Lemma string_forall_absent f c s : string_forall f s = true → f c = false → contains_char c s = false.
Proof.
  intros H Hc. induction s as [|d s IH]; [done|]. cbn in *. to_prop. rewrite IH by done.
  rewrite bool_decide_false; [done|]. intros ->. congruence.
Qed.

Lemma project_rest_chars n s c : project_rest n s = true → project_char c = false → contains_char c s = false.
Proof.
  revert n. induction s as [|d s IH]; intros n H Hc; [done|].
  assert (project_char d = true ∧ contains_char c s = false) as [Hd Hs].
  { destruct s as [|d' s'].
    - change ((is_lower d || is_digit d) && (4 <=? n) && (n <=? 28) = true) in H. split; [|done]. unfold project_char.
      by destruct (is_lower d), (is_digit d).
    - change (project_char d && project_rest (n + 1) (String d' s') = true) in H. to_prop. split; [done|]. by eapply IH. }
  cbn. rewrite Hs, bool_decide_false; [done|]. intros ->. congruence.
Qed.

Lemma Cut_found s sep b a f : Cut s sep = (b, a, f) → f = true → s = b +:+ String sep a.
Proof.
  revert b a. induction s as [|c s IH]; intros b a; cbn; [by intros [= <- <- <-]|].
  case_bool_decide; [subst; by intros [= <- <- <-] _|]. destruct (Cut s sep) as [[b' a'] f'].
  intros [= <- <- <-] ->. rewrite sapp_cons. f_equal. by apply IH.
Qed.

Definition backtick : ascii := of_byte 96.

Lemma project_match_quote s : project_match s = true → contains_char backtick s = false.
Proof.
  assert (∀ t, project_id t = true → contains_char backtick t = false) as Hid.
  { intros [|d t]; [done|]. cbn. intros H. to_prop. rewrite (project_rest_chars _ _ _ H0) by reflexivity.
    rewrite bool_decide_false; [done|]. intros <-. by vm_compute in H. }
  unfold project_match. destruct (Cut s (of_byte 58)) as [[b a] f] eqn:E. destruct f; [|apply Hid].
  intros H. to_prop. rewrite (Cut_found _ _ _ _ _ E eq_refl), contains_char_app.
  rewrite (string_forall_absent domain_char) by done. cbn. by rewrite Hid.
Qed.

Lemma ViewSuffix_quote : contains_char backtick ViewSuffix = false.
Proof. reflexivity. Qed.

(** With a valid block the identifiers that are spliced between backticks into the SQL of the
    view contain none, so the quoted identifier is the whole of it; and the base table is never
    the view of another. *)
Lemma Config_Validate_quoted table_match c :
  (∀ t, table_match t = true → contains_char backtick t = false) → Config_Validate table_match c = None →
  contains_char backtick (TableID c) = false ∧ contains_char backtick (ViewID c) = false ∧
  ∀ t, cfg_Table c ≠ ViewName t.
Proof.
  intros Htm H. unfold Config_Validate in H. repeat case_match; try done. to_prop.
  assert (contains_char backtick (cfg_Project c) = false) as Hp by (by apply project_match_quote).
  assert (contains_char backtick (cfg_Dataset c) = false) as Hd.
  { match goal with Hx : dataset_match _ = true |- _ => unfold dataset_match in Hx end. to_prop.
    by eapply string_forall_absent. }
  assert (contains_char backtick (cfg_Table c) = false) as Ht by (by apply Htm).
  unfold TableID, ViewID, ViewName. rewrite !contains_char_app, Hp, Hd, Ht, ViewSuffix_quote. split_and!; try done.
  intros t E. match goal with Hx : HasSuffix _ _ = false |- _ => rename Hx into Hs end. rewrite E in Hs.
  unfold HasSuffix in Hs. assert (∃ r, strip_suffix ViewSuffix (t +:+ ViewSuffix) = Some r) as [r Hr]; [|by rewrite Hr in Hs].
  clear. induction t as [|d t IH]; [by eexists|]. rewrite sapp_cons. cbn [strip_suffix].
  case_bool_decide; [by eexists|]. destruct IH as [r ->]. by eexists.
Qed.

(** ** Witnesses *)

Definition ex_fields : list FieldSchema := match TableSchema Current with Ok fs => fs | Err _ => [] end.
Lemma ex_fields_eq : TableSchema Current = Ok ex_fields.
Proof. vm_compute. reflexivity. Qed.

Definition ex_row : Row := jobRecord ex_job_exec ex_job.

Lemma verified_table_holds_rows_witness :
  ∃ got, byName ex_fields !! ColEventTime = Some got ∧
    fieldType (type_of (FTime (an_EventTime ex_row))) = Ok (fs_Type got, fs_Repeated got).
Proof.
  apply (proj1 (verified_table_holds_rows ex_fields ex_row ltac:(vm_compute; reflexivity)) ColEventTime).
  vm_compute. reflexivity.
Defined.

Lemma created_table_verifies_witness : VerifySchema Current ex_fields = None.
Proof.
  exact (created_table_verifies Current
    (match TableMetadata Current with Ok md => md | Err _ => ViewMetadata "" end) ltac:(vm_compute; reflexivity)).
Defined.

(** The descriptor of a schema as the list of its fields. *)
Definition ex_ByName (d : list FieldSchema) (k : string) : option (wire_kind * bool) :=
  (λ f, (kind_of (fs_Type f), fs_Repeated f)) <$> byName d !! k.

Lemma ex_describes : describes ex_ByName ex_fields ex_fields.
Proof.
  intros f Hf. unfold ex_ByName. rewrite byName_unique; [done| |done]. apply (bool_decide_unpack (NoDup (fs_Name <$> ex_fields))).
  vm_compute. exact I.
Qed.

Lemma Message_complete_witness :
  ∃ msg, Message ex_ByName ex_fields (map_to_list (Fields ex_row)) = OOk msg ∧ ∀ k, msg !! k = wire <$> Fields ex_row !! k.
Proof. exact (Message_complete ex_ByName ex_fields ex_fields ex_row _ ex_fields_eq ex_describes (reflexivity _)). Defined.

(** A service that confirms every append and keeps the rows. *)
Definition ex_Append (_ : unit) (rows : list string) (w : list string) : option error * list string := (None, (w ++ rows)%list).
Definition ex_write : outcome unit * (Writer (list FieldSchema) unit * list string) :=
  Write Ok (λ _ w, (Ok (), w)) ex_Append ex_ByName (λ m, Ok "row") (λ m, map_to_list m) [ex_row] NewWriter [].

Lemma Write_acked_witness : w_closed (NewWriter (D := list FieldSchema) (A := unit)) = false ∧ (ex_write.2).2 = ["row"].
Proof.
  split; [|vm_compute; reflexivity].
  destruct (Write_acked Ok (λ _ w, (Ok (), w)) ex_Append ex_ByName (λ m, Ok "row") (λ m, map_to_list m) [ex_row]
    NewWriter ((ex_write.2).1) ([] : list string) ((ex_write.2).2)) as (st & d & rows & w1 & H & _).
  - vm_compute. reflexivity.
  - intros H. discriminate H.
  - exact H.
Defined.

Definition ex_Metadata (id : string) (w : gmap string TableMeta) : result TableMeta * gmap string TableMeta :=
  (match w !! id with Some md => Ok md | None => Err (ELeaf (LGoogle 404)) end, w).
Definition ex_Create (id : string) (md : TableMeta) (w : gmap string TableMeta) : option error * gmap string TableMeta :=
  (None, <[id := md]> w).

#[export] Instance ex_service : TableService ex_Metadata ex_Create.
Proof.
  refine {| tables := λ w, w |}.
  - intros id w md H. unfold ex_Metadata. by rewrite H.
  - intros id w H. unfold ex_Metadata. rewrite H. by eexists.
  - intros id w md _. by eexists.
Defined.

Definition ex_config : Config := mkConfig "my-project" "ds" "runs" "" true true.

Lemma EnsureSchema_establishes_witness :
  ∃ w' : gmap string TableMeta, w' !! "runs_current" = Some (ViewMetadata "my-project.ds.runs") ∧
    ∀ wr', EnsureSchema ex_config ex_Metadata ex_Create Current wr' w' = (None, (ensured (D := unit) (A := unit) Current wr', w')).
Proof.
  destruct (EnsureSchema_establishes ex_config ex_Metadata ex_Create Current
    (match TableMetadata Current with Ok md => md | Err _ => ViewMetadata "" end)
    (NewWriter (D := unit) (A := unit)) ∅)
    as (w' & _ & H & Hagain); [reflexivity|reflexivity|vm_compute; reflexivity|reflexivity|reflexivity|].
  exists w'. split; [|exact Hagain]. cbn in H. rewrite H. reflexivity.
Defined.
