(* ===== verification/BqOpener.v ===== *)
(** * [managedOpener] of [bigquery/writer.go]: setting up a stream under two contexts

    The goroutine that watches the context of the write and the call that sets the stream up
    are two threads over [setupDone], [abandoned] and the cancellation of the stream's own
    context; one step is what a thread does between two points where the other can act.
    [client.NewManagedStream] is third party: its answer is a choice of the environment. *)

From S2P Require Import Prelude.
From S2P Require Import Errors.

(** The watcher: before its [select], parked in it, after it took [ctx.Done()], after
    [abandoned.Store(true)], returned. *)
Inductive watcher : Set := WReady | WParked | WPicked | WStored | WEnd.

Section Opener.
(** Managed streams. *)
Context {MS : Type}.

(** The call: inside [NewManagedStream], after it, after [close(setupDone)], returned. *)
Inductive caller : Type :=
  | CSetup
  | CAnswered (r : result MS)
  | CSignalled (r : result MS)
  | CReturned (r : result MS).

Record opening := mkOpening {
  op_watcher : watcher;
  op_caller : caller;
  op_ctx : option error;               (* ctx.Err() *)
  op_setupDone : bool;
  op_abandoned : bool;
  op_cancelled : bool;                 (* the context of the stream *)
  op_msClosed : bool }.

Definition opener_init : opening := mkOpening WReady CSetup None false false false false.

Inductive ochoice : Type :=
  | OCtxEnds (e : error)
  | OSelect (ctxDone : bool)           (* the watcher's select takes a ready case *)
  | OPark                              (* ... or waits *)
  | OWatcher                           (* the watcher's next statement *)
  | OAnswer (r : result MS)            (* NewManagedStream returns *)
  | OCaller.                           (* the caller's next statement *)

Definition set_watcher (s : opening) (w : watcher) : opening :=
  mkOpening w (op_caller s) (op_ctx s) (op_setupDone s) (op_abandoned s) (op_cancelled s) (op_msClosed s).
Definition set_caller (s : opening) (c : caller) : opening :=
  mkOpening (op_watcher s) c (op_ctx s) (op_setupDone s) (op_abandoned s) (op_cancelled s) (op_msClosed s).

(** A parked watcher takes the first case that becomes ready. *)
Definition wake (s : opening) (w : watcher) : watcher := match op_watcher s with WParked => w | w' => w' end.

(** The code after [close(setupDone)]. *)
Definition conclude (s : opening) (r : result MS) : opening :=
  match r with
  | Err err =>
      let answer := match op_ctx s with
                    | Some ctxErr => if op_abandoned s then EWrap "" ctxErr else err
                    | None => err
                    end in
      mkOpening (op_watcher s) (CReturned (Err answer)) (op_ctx s) (op_setupDone s) (op_abandoned s) true (op_msClosed s)
  | Ok ms =>
      if op_abandoned s then
        mkOpening (op_watcher s) (CReturned (Err (default (errorf "") (op_ctx s)))) (op_ctx s) (op_setupDone s)
          (op_abandoned s) (op_cancelled s) true
      else set_caller s (CReturned (Ok ms))
  end.

Definition opener_step (s : opening) (ch : ochoice) : option opening :=
  match ch, op_watcher s, op_caller s with
  | OCtxEnds e, _, _ =>
      match op_ctx s with
      | Some _ => None
      | None => Some (mkOpening (wake s WPicked) (op_caller s) (Some e) (op_setupDone s) (op_abandoned s)
                        (op_cancelled s) (op_msClosed s))
      end
  | OSelect true, WReady, _ => match op_ctx s with Some _ => Some (set_watcher s WPicked) | None => None end
  | OSelect false, WReady, _ => if op_setupDone s then Some (set_watcher s WEnd) else None
  | OPark, WReady, _ =>
      match op_ctx s with
      | None => if op_setupDone s then None else Some (set_watcher s WParked)
      | Some _ => None
      end
  | OWatcher, WPicked, _ =>
      Some (mkOpening WStored (op_caller s) (op_ctx s) (op_setupDone s) true (op_cancelled s) (op_msClosed s))
  | OWatcher, WStored, _ =>
      Some (mkOpening WEnd (op_caller s) (op_ctx s) (op_setupDone s) (op_abandoned s) true (op_msClosed s))
  | OAnswer r, _, CSetup => Some (set_caller s (CAnswered r))
  | OCaller, _, CAnswered r =>
      Some (mkOpening (wake s WEnd) (CSignalled r) (op_ctx s) true (op_abandoned s) (op_cancelled s) (op_msClosed s))
  | OCaller, _, CSignalled r => Some (conclude s r)
  | _, _, _ => None
  end.

Fixpoint opener_run (s : opening) (sched : list ochoice) : option opening :=
  match sched with
  | [] => Some s
  | ch :: sched => s' ← opener_step s ch; opener_run s' sched
  end.

(** ** The invariant, as a decision on the state *)

Definition is_watcher (w w' : watcher) : bool :=
  match w, w' with
  | WReady, WReady | WParked, WParked | WPicked, WPicked | WStored, WStored | WEnd, WEnd => true
  | _, _ => false
  end.
Definition failed (c : caller) : bool := match c with CReturned (Err _) => true | _ => false end.
Definition signalled (c : caller) : bool := match c with CSignalled _ | CReturned _ => true | _ => false end.
Definition ended (ctx : option error) : bool := match ctx with Some _ => true | None => false end.

Definition opener_inv (s : opening) : bool :=
  let w := op_watcher s in
  (* the watcher acts only on a context that ended *)
  implb (is_watcher w WPicked || is_watcher w WStored || op_abandoned s) (ended (op_ctx s)) &&
  (* what it stores is followed by the cancellation *)
  implb (op_abandoned s) (is_watcher w WStored || (is_watcher w WEnd && op_cancelled s)) &&
  implb (is_watcher w WStored) (op_abandoned s) &&
  implb (op_cancelled s) (op_abandoned s || failed (op_caller s)) &&
  implb (is_watcher w WParked) (negb (op_setupDone s)) &&
  implb (signalled (op_caller s)) (op_setupDone s) &&
  implb (op_msClosed s) (op_abandoned s && failed (op_caller s)) &&
  implb (failed (op_caller s)) (op_cancelled s || is_watcher w WStored).

Lemma opener_step_inv s ch s' : opener_inv s = true → opener_step s ch = Some s' → opener_inv s' = true.
Proof.
  intros I H. destruct s as [w c ctx sd ab ca cl].
  destruct w, c as [|[ms|e]|[ms|e]|[ms|e]], ctx, sd, ab, ca, cl; try discriminate I; clear I;
    destruct ch as [e'|[]| | |[ms'|e']|]; try discriminate H; injection H as <-; reflexivity.
Qed.

Lemma opener_run_inv s sched s' : opener_inv s = true → opener_run s sched = Some s' → opener_inv s' = true.
Proof.
  revert s. induction sched as [|ch sched IH]; intros s I H; simpl in H; [by injection H as <-|].
  destruct (opener_step s ch) as [s1|] eqn:E; [|done]. by eapply IH, H; eapply opener_step_inv.
Qed.

Lemma opener_step_returned s ch s' r :
  op_caller s = CReturned r → opener_step s ch = Some s' → op_caller s' = CReturned r ∧ op_msClosed s' = op_msClosed s.
Proof.
  intros Hc H. destruct s as [w c ctx sd ab ca cl]. cbn in Hc. subst c.
  destruct ch as [e'|[]| | |r'|], w; cbn in H; repeat (case_match; try discriminate H); try discriminate H;
    injection H as <-; by split.
Qed.

End Opener.
Arguments opening : clear implicits.
Arguments ochoice : clear implicits.

(** ** Properties *)

(** An opener that gives up leaves nothing behind: when it has returned an error, the context
    of the stream is cancelled or the watcher is about to cancel it; and a stream it returns
    has not been closed. *)
Lemma managedOpener_clean {MS} sched (s : opening MS) :
  opener_run opener_init sched = Some s →
  (∀ e, op_caller s = CReturned (Err e) → op_cancelled s = true ∨ op_watcher s = WStored) ∧
  (∀ ms, op_caller s = CReturned (Ok ms) → op_msClosed s = false).
Proof.
  intros H. pose proof (opener_run_inv _ _ _ (eq_refl : opener_inv opener_init = true) H) as I. clear H.
  destruct s as [w c ctx sd ab ca cl]. split; cbn; [intros e ->|intros ms ->];
    destruct w, ctx, sd, ab, ca, cl; try discriminate I; auto.
Qed.

(** A stream that is returned while its watcher has ended keeps its context for good. *)
Lemma managedOpener_stable {MS} sched sched' (s s' : opening MS) ms :
  opener_run opener_init sched = Some s → op_caller s = CReturned (Ok ms) → op_watcher s = WEnd →
  op_cancelled s = false → opener_run s sched' = Some s' → op_cancelled s' = false.
Proof.
  intros _ Hc Hw Hn. revert s Hc Hw Hn. induction sched' as [|ch sched' IH]; intros s Hc Hw Hn H; simpl in H; [by injection H as <-|].
  destruct (opener_step s ch) as [s1|] eqn:E; [|done].
  pose proof (opener_step_returned s ch s1 (Ok ms) Hc E) as [Hc1 _].
  assert (op_watcher s1 = WEnd ∧ op_cancelled s1 = false) as [Hw1 Hn1].
  { destruct s as [w c ctx sd ab ca cl]. cbn in *. subst w c ca.
    destruct ch as [e'|[]| | |r'|]; cbn in E; repeat (case_match; try discriminate E); try discriminate E; by injection E as <-. }
  by apply (IH s1).
Qed.

(** The race the check of [abandoned] does not close: the context ends during the set-up, the
    watcher takes that case, and the caller reads [abandoned] before the watcher stores it.
    The opener returns the stream, and the watcher then cancels its context. *)
Lemma managedOpener_cancelled_stream :
  ∃ sched (s s' : opening nat) ms,
    opener_run opener_init sched = Some s ∧ op_caller s = CReturned (Ok ms) ∧ op_cancelled s = false ∧
    opener_run s [OWatcher; OWatcher] = Some s' ∧ op_caller s' = CReturned (Ok ms) ∧ op_cancelled s' = true.
Proof.
  exists [OPark; OAnswer (Ok 7); OCtxEnds (esent CtxDeadlineExceeded); OCaller; OCaller].
  do 2 eexists. exists 7. repeat split; vm_compute; reflexivity.
Qed.
