(* ===== verification/BqDriver.v ===== *)
(** * [internal/sink/analytics/drivers/bigquery]: building the sink

    driver.go: [Describe], [Factory] and [New] with the clients they own; writer.go:
    [managedAppender] over a managed stream.  The clients and streams are the library's: what
    their constructors and calls answer is an argument, and the state of the world they change
    is threaded. *)

From S2P Require Import Prelude.
From S2P Require Import Errors.
From S2P Require Import GoText.
From S2P Require Import Yaml.
From S2P Require Import Analytics.
From S2P Require Import BigQuery.

(** ** New and Factory *)

Section New.
(** Metadata and write clients, and the world. *)
Context {MC WC W : Type}.
Variable table_match : string → bool.
Variable decode : Node → Config → result Config.
(** [bq.NewClient] and [managedwriter.NewClient] with the project and the credentials file, their
    [Close], and the base context with its [cancel]. *)
Variable NewClient : string → option string → W → result MC * W.
Variable NewWriteClient : string → option string → W → result WC * W.
Variable CloseClient : MC → W → option error * W.
Variable CloseWriteClient : WC → W → option error * W.
Variables (withCancel cancel : W → W).

Definition Describe (raw : Node) : result Config := DecodeStrict decode raw DefaultConfig.

(** [option.WithAuthCredentialsFile], when a file is named. *)
Definition credentials (cfg : Config) : option string :=
  if bool_decide (cfg_CredentialsFile cfg = "") then None else Some (cfg_CredentialsFile cfg).

(** What the new writer holds: its configuration, its clients, and what [Close] closes in turn. *)
Record Built := mkBuilt { bw_cfg : Config; bw_meta : MC; bw_mw : WC; bw_closers : list (W → option error * W) }.

Definition New (cfg : Config) (w : W) : result Built * W :=
  match Config_Validate table_match cfg with
  | Some err => (Err err, w)
  | None =>
      let w := withCancel w in
      match NewClient (cfg_Project cfg) (credentials cfg) w with
      | (Err err, w) => (Err (EWrap "bigquery client" err), cancel w)
      | (Ok meta, w) =>
          match NewWriteClient (cfg_Project cfg) (credentials cfg) w with
          | (Err err, w) => let w := cancel w in (Err (EWrap "bigquery storage write client" err), (CloseClient meta w).2)
          | (Ok mw, w) => (Ok (mkBuilt cfg meta mw [CloseWriteClient mw; CloseClient meta]), w)
          end
      end
  end.

(** The sink of the class: the writer, and whether it ensures a schema. *)
Definition Factory (raw : Node) (w : W) : result (Built * bool) * W :=
  match Describe raw with
  | Err err => (Err err, w)
  | Ok cfg =>
      match New cfg w with
      | (Err err, w) => (Err err, w)
      | (Ok b, w) => (Ok (b, cfg_EnsureTable cfg || cfg_EnsureView cfg), w)
      end
  end.
End New.

(** ** The managed stream as an appender *)

Section Managed.
Context {MS R W : Type}.
Variable AppendRows : MS → list string → W → result R * W.
(** [FullResponse]: its error, and the row errors of the response. *)
Variable FullResponse : R → W → option error * list RowError * W.
Variable CloseStream : MS → W → option error * W.
Variable cancel : MS → W → W.

Definition managed_Append (ms : MS) (rows : list string) (w : W) : option error * W :=
  match AppendRows ms rows w with
  | (Err err, w) => (Some err, w)
  | (Ok res, w) =>
      let '(err, rowErrs, w) := FullResponse res w in
      (match err with Some err => Some (withRowErrors err rowErrs) | None => None end, w)
  end.

(** The managed stream answers [io.EOF] to a normal close. *)
Definition managed_Close (ms : MS) (w : W) : option error * W :=
  let '(err, w) := CloseStream ms w in
  (match err with Some e => if errors_is e IoEOF then None else Some e | None => None end, cancel ms w).

(** An append is confirmed when both of its answers are good; row errors keep the error's class. *)
Lemma managed_Append_acked ms rows w w' :
  managed_Append ms rows w = (None, w') ↔
  ∃ res w1 rowErrs, AppendRows ms rows w = (Ok res, w1) ∧ FullResponse res w1 = (None, rowErrs, w').
Proof.
  unfold managed_Append. destruct (AppendRows ms rows w) as [[res|err] w1] eqn:E1.
  2:{ split; [done|]. by intros (? & ? & ? & ? & _). }
  destruct (FullResponse res w1) as [[[err|] rowErrs] w2] eqn:E2; split.
  - done.
  - intros (? & ? & ? & [= <- <-] & ?). congruence.
  - intros [= <-]. by exists res, w1, rowErrs.
  - intros (? & ? & ? & [= <- <-] & ?). congruence.
Qed.

Lemma withRowErrors_is err rowErrs s : errors_is (withRowErrors err rowErrs) s = errors_is err s.
Proof. by destruct rowErrs. Qed.

Lemma withRowErrors_permanent err rowErrs : IsPermanent (withRowErrors err rowErrs) = IsPermanent err.
Proof. by destruct rowErrs. Qed.
End Managed.

(** ** What a start and a close do to the clients *)

(** The calls of the library, as a log; [fails] says which constructors fail. *)
Inductive call := OpenedMeta | OpenedWrite | ClosedMeta | ClosedWrite | Cancelled.

Section Log.
Variables (fails_meta fails_write : option error) (close_meta close_write : option error).
Variable table_match : string → bool.

Definition log_NewClient (_ : string) (_ : option string) (l : list call) : result () * list call :=
  match fails_meta with Some e => (Err e, l) | None => (Ok (), l ++ [OpenedMeta])%list end.
Definition log_NewWriteClient (_ : string) (_ : option string) (l : list call) : result () * list call :=
  match fails_write with Some e => (Err e, l) | None => (Ok (), l ++ [OpenedWrite])%list end.
Definition log_CloseClient (_ : ()) (l : list call) : option error * list call := (close_meta, l ++ [ClosedMeta])%list.
Definition log_CloseWriteClient (_ : ()) (l : list call) : option error * list call := (close_write, l ++ [ClosedWrite])%list.
Definition log_cancel (l : list call) : list call := (l ++ [Cancelled])%list.

Definition log_New : Config → list call → result Built * list call :=
  New table_match log_NewClient log_NewWriteClient log_CloseClient log_CloseWriteClient id log_cancel.

(** A failed construction owns nothing: what it opened it closed, and its context is over.  A
    writer closes both clients exactly once and ends their context, whatever they answer. *)
Lemma New_owns cfg :
  match log_New cfg [] with
  | (Err _, l) => l = [] ∨ l = [Cancelled] ∨ l = [OpenedMeta; Cancelled; ClosedMeta]
  | (Ok b, l) =>
      l = [OpenedMeta; OpenedWrite] ∧ Config_Validate table_match cfg = None ∧
      ∀ (wr : Writer () ()) (cs : () → list call → option error * list call), w_closed wr = false → w_stream wr = None →
        let '(err, (wr', l')) := Close cs log_cancel (bw_closers b) wr l in
        l' = [OpenedMeta; OpenedWrite; ClosedWrite; ClosedMeta; Cancelled] ∧ w_closed wr' = true ∧
        (err = None ↔ close_write = None ∧ close_meta = None) ∧
        Close cs log_cancel (bw_closers b) wr' l' = (None, (wr', l'))
  end.
Proof.
  unfold log_New, New. destruct (Config_Validate _ cfg) as [err|]; [by left|]. unfold log_NewClient, id.
  destruct fails_meta as [e|]; [by right; left|]. unfold log_NewWriteClient. destruct fails_write as [e|]; [by do 2 right|].
  split_and!; [done..|]. intros wr cs Hc Hs. unfold Close. rewrite Hc, Hs. cbn. split_and!; [done..| |done].
  destruct close_write, close_meta; cbn; naive_solver.
Qed.
End Log.
