(* ===== verification/Forward.v ===== *)
(** * [internal/sink/forward]: bounded re-publishing

    sink.go: [New], [Process], [Message], [ForwardUUID].  drivers/bus/driver.go: the checks of
    the driver's configuration.  A publisher threads a state of its own. *)

From S2P Require Import Prelude.
From S2P Require Import Errors.
From S2P Require Import GoText.
From S2P Require Import GoNum.
From S2P Require Import GoTime.
From S2P Require Import GoSha.
From S2P Require Import Event.

Local Open Scope Z_scope.

(** ** sink.go *)

Definition DefaultMaxHops : Z := 3.

Record Sink := mkSink { fw_name : string; fw_topic : string; fw_maxHops : Z }.

(** [New]; [None] is a panic.  [publisher] says whether there is one. *)
Definition New (name : string) (publisher : bool) (topic : string) (maxHops : Z) : option Sink :=
  if negb publisher then None
  else if bool_decide (topic = "") then None
  else if maxHops <? 0 then None
  else Some (mkSink name topic (if maxHops =? 0 then DefaultMaxHops else maxHops)).

Definition forward_preimage (deliveryGUID sinkName topic : string) : string :=
  "antwatcher:forward:" +:+ deliveryGUID +:+ ":" +:+ sinkName +:+ ":" +:+ topic.

Definition ForwardUUID (deliveryGUID sinkName topic : string) : string :=
  hex_encode (sha256 (bytes (forward_preimage deliveryGUID sinkName topic))).

Definition Message (s : Sink) (env : Envelope) : Event.Message :=
  let out := mkEnvelope (e_SchemaVersion env) (e_DeliveryGUID env) (e_Event env) (e_Action env) (e_HookID env)
               (e_ReceivedAt env) (e_RepositoryID env) (e_Repository env)
               (fw_name s) (wrap64 (e_ForwardHops env + 1)) (e_Payload env) in
  let msg := ToMessage out in
  mkMessage (ForwardUUID (e_DeliveryGUID env) (fw_name s) (fw_topic s)) (m_Metadata msg) (m_Payload msg).

Section Process.
Context {W : Type}.
(** [publisher.Publish]. *)
Variable Publish : Event.Message → W → option error * W.

Definition Process (s : Sink) (env : Envelope) (w : W) : option error * W :=
  if fw_maxHops s <=? e_ForwardHops env then (Some (Permanentf "forward: loop detected"), w)
  else
    let '(err, w') := Publish (Message s env) w in
    match err with
    | Some e => (Some (EWrap "forward" e), w')
    | None => (None, w')
    end.
End Process.

(** ** drivers/bus/driver.go *)

Record Config := mkConfig { fc_Driver : string; fc_Topic : string; fc_MaxHops : Z }.

Definition Validate (c : Config) : option error :=
  join_problems
    ((if bool_decide (fc_Driver c = "") then [errorf "driver is required"] else []) ++
     (if bool_decide (fc_Topic c = "") then [errorf "topic is required"] else []) ++
     (if fc_MaxHops c <? 1 then [errorf "max_hops must be >= 1"] else []))%list.

Definition ValidateIngress (c : Config) (ingress_driver ingress_topic : string) : option error :=
  if negb (bool_decide (fc_Driver c = "")) && String.eqb (fc_Driver c) ingress_driver &&
     negb (bool_decide (fc_Topic c = "")) && String.eqb (fc_Topic c) ingress_topic
  then Some (errorf "target is the ingress bus") else None.

(** ** The journey of an event through forward sinks *)

(** A publisher that keeps the message it accepted. *)
Definition accept (m : Event.Message) (_ : option Event.Message) : option error * option Event.Message := (None, Some m).

(** What the sink's target receives, as its own sinks read it. *)
Definition forwarded (s : Sink) (env : Envelope) : option Envelope :=
  match snd (Process accept s env None) with
  | Some m => match FromMessage (Some m) with Ok env' => Some env' | Err _ => None end
  | None => None
  end.

(** The copies of an event on its way through [sinks], up to the first refusal. *)
Fixpoint journey (sinks : list Sink) (env : Envelope) : list Envelope :=
  match sinks with
  | [] => []
  | s :: sinks => match forwarded s env with Some env' => env' :: journey sinks env' | None => [] end
  end.

(** ** Lemmas *)

(** The copy of [env] that [s] publishes, as an envelope. *)
Definition copy_of (s : Sink) (env : Envelope) : Envelope :=
  mkEnvelope (e_SchemaVersion env) (e_DeliveryGUID env) (e_Event env) (e_Action env) (e_HookID env)
    (UTC (e_ReceivedAt env)) (e_RepositoryID env) (e_Repository env) (fw_name s) (e_ForwardHops env + 1) (e_Payload env).

(** Sinks and limits as configured: a [MaxHops] is an [int]. *)
Definition sink_ok (s : Sink) : Prop := fw_maxHops s ≤ int64_max.

(** [FromMessage] reads the GUID from the metadata, not from the transport UUID. *)
Lemma FromMessage_any_uuid env uuid :
  e_DeliveryGUID env ≠ "" →
  FromMessage (Some (mkMessage uuid (m_Metadata (ToMessage env)) (m_Payload (ToMessage env)))) =
  FromMessage (Some (ToMessage env)).
Proof.
  intros Hg. destruct (envelope_metadata_lookup env) as (L1 & _). unfold FromMessage, ToMessage.
  cbn [m_Metadata m_Payload m_UUID default from_option id]. by rewrite L1.
Qed.

Lemma publishable_copy s env :
  publishable env → sink_ok s → e_ForwardHops env < fw_maxHops s →
  FromMessage (Some (Message s env)) = Ok (copy_of s env).
Proof.
  unfold sink_ok. intros Hp Hs Hh. destruct Hp as [Hv Hg He Ht Hr Hn].
  unfold Message. cbv zeta.
  rewrite (FromMessage_any_uuid (mkEnvelope _ _ _ _ _ _ _ _ _ _ _)) by done.
  rewrite wrap64_id by (unfold in_int64, int64_min; lia). rewrite FromMessage_roundtrip.
  { unfold utc_envelope, copy_of. cbn. by rewrite ?Hv. }
  constructor; cbn; try done. lia.
Qed.

Lemma publishable_copy_of s env :
  publishable env → sink_ok s → e_ForwardHops env < fw_maxHops s → publishable (copy_of s env).
Proof. unfold sink_ok. intros [Hv Hg He Ht Hr Hn] Hs Hh. constructor; cbn; try done. lia. Qed.

Lemma forwarded_spec s env :
  publishable env → sink_ok s →
  forwarded s env = if fw_maxHops s <=? e_ForwardHops env then None else Some (copy_of s env).
Proof.
  intros Hp Hs. unfold forwarded, Process. destruct (_ <=? _) eqn:E; [done|]. to_prop.
  cbn [accept snd]. by rewrite publishable_copy.
Qed.

(** What a forwarded copy keeps of the event. *)
Definition same_event (env env' : Envelope) : Prop :=
  e_DeliveryGUID env' = e_DeliveryGUID env ∧ e_Event env' = e_Event env ∧ e_Action env' = e_Action env ∧
  e_HookID env' = e_HookID env ∧ t_ns (e_ReceivedAt env') = t_ns (e_ReceivedAt env) ∧
  e_RepositoryID env' = e_RepositoryID env ∧ e_Repository env' = e_Repository env ∧ e_Payload env' = e_Payload env.

Lemma same_event_trans a b c : same_event a b → same_event b c → same_event a c.
Proof. unfold same_event. intuition congruence. Qed.

Lemma copy_same s env : same_event env (copy_of s env).
Proof. by repeat split. Qed.

Lemma journey_spec M sinks env :
  publishable env → Forall (λ s, sink_ok s ∧ fw_maxHops s ≤ M) sinks →
  Forall (same_event env) (journey sinks env) ∧
  Z.of_nat (length (journey sinks env)) ≤ Z.max 0 (M - e_ForwardHops env).
Proof.
  intros Hp Hs. revert env Hp. induction Hs as [|s sinks [Hok HM] _ IH]; intros env Hp; cbn [journey].
  { split; [constructor|]. cbn [length]. lia. }
  rewrite forwarded_spec by done. destruct (_ <=? _) eqn:E; to_prop.
  { split; [constructor|]. cbn [length]. lia. }
  destruct (IH (copy_of s env)) as [H1 H2]; [by apply publishable_copy_of|]. cbn [length].
  change (e_ForwardHops (copy_of s env)) with (e_ForwardHops env + 1) in H2. split; [|lia].
  constructor; [apply copy_same|]. eapply Forall_impl; [exact H1|]. intros e He. by eapply same_event_trans; [apply copy_same|].
Qed.

Lemma ForwardUUID_decode guid name topic :
  hex_decode (ForwardUUID guid name topic) = Some (sha256 (bytes (forward_preimage guid name topic))).
Proof. apply hex_decode_encode. by apply sha256_ok. Qed.

(** ** Properties *)

(** C18: forwarding loops end.  Whatever forward sinks an event meets, in whatever order and
    however often (a cycle of buses included), it is forwarded at most the highest [max_hops]
    times less the hops it already made; and every copy, as the next system reads it, is
    still the same event: GUID, event, action, hook, repository, time and payload. *)
Theorem forward_loops_end M sinks env :
  publishable env → Forall (λ s, sink_ok s ∧ fw_maxHops s ≤ M) sinks →
  Forall (same_event env) (journey sinks env) ∧
  Z.of_nat (length (journey sinks env)) ≤ Z.max 0 (M - e_ForwardHops env).
Proof. apply journey_spec. Qed.

(** One forward step.  An envelope at its limit is refused with a permanent error and
    nothing is published; below it, exactly one message is published, whose UUID is
    [ForwardUUID] and which reads back as the same event, one hop further and forwarded by
    this sink; the publisher's classification of a failure is kept. *)
Lemma Process_forwards_once {W} (publish : Event.Message → W → option error * W) s env w :
  publishable env → sink_ok s →
  if fw_maxHops s <=? e_ForwardHops env
  then (Process publish s env w).2 = w ∧ IsPermanent <$> (Process publish s env w).1 = Some true
  else ∃ m, Process publish s env w = (EWrap "forward" <$> (publish m w).1, (publish m w).2) ∧
         IsPermanent <$> (Process publish s env w).1 = IsPermanent <$> (publish m w).1 ∧
         m_UUID m = ForwardUUID (e_DeliveryGUID env) (fw_name s) (fw_topic s) ∧
         FromMessage (Some m) = Ok (copy_of s env).
Proof.
  intros Hp Hs. unfold Process. destruct (_ <=? _) eqn:E; to_prop; [done|].
  exists (Message s env). destruct (publish (Message s env) w) as [[e|] w']; simpl; split_and!; try done;
    try (by rewrite IsPermanent_wrap); by apply publishable_copy.
Qed.

(** The transport UUID of a copy is a function of the delivery, the sink and the topic
    that tells them apart: the UUIDs of two different (delivery, sink, topic) triples whose
    GUIDs and sink names hold no colon can only be equal through a SHA-256 collision, and no
    UUID equals a delivery GUID unless that GUID is itself 64 characters long. *)
Lemma ForwardUUID_faithful g n t g' n' t' :
  contains_char ":"%char g = false → contains_char ":"%char n = false →
  contains_char ":"%char g' = false → contains_char ":"%char n' = false →
  (ForwardUUID g n t = ForwardUUID g' n' t' →
   (g, n, t) = (g', n', t') ∨
   (bytes (forward_preimage g n t) ≠ bytes (forward_preimage g' n' t') ∧
    sha256 (bytes (forward_preimage g n t)) = sha256 (bytes (forward_preimage g' n' t')))) ∧
  (slen g ≠ 64 → ForwardUUID g n t ≠ g).
Proof.
  intros Hg Hn Hg' Hn'. split.
  - intros H. assert (sha256 (bytes (forward_preimage g n t)) = sha256 (bytes (forward_preimage g' n' t'))) as Hsha.
    { apply (f_equal hex_decode) in H. rewrite !ForwardUUID_decode in H. by injection H. }
    destruct (decide (bytes (forward_preimage g n t) = bytes (forward_preimage g' n' t'))) as [Hb|Hb]; [left|by right].
    apply bytes_inj in Hb. unfold forward_preimage in Hb. autorewrite with gostr in Hb.
    repeat (injection Hb as Hb). apply sep_inj in Hb as [-> Hb]; [|done..]. by apply sep_inj in Hb as [-> ->].
  - intros Hl Heq. apply Hl. rewrite <- Heq. unfold ForwardUUID. rewrite slen_hex_encode.
    destruct (sha256_ok (bytes (forward_preimage g n t))) as [_ ->]. done.
Qed.

(** ** Witnesses *)

Definition ex_env : Envelope := mkEnvelope 1 "g" "ping" "" "" (mkTime 5 0) 0 "" "" 0 "{}".
Definition ex_sink : Sink := mkSink "a" "t" 3.

Lemma ex_env_publishable : publishable ex_env.
Proof. constructor; try discriminate; try reflexivity; try (split; discriminate). split; [reflexivity|split; [discriminate|reflexivity]]. Qed.

Lemma forward_loops_end_witness :
  Z.of_nat (length (journey [ex_sink; ex_sink; ex_sink; ex_sink; ex_sink] ex_env)) ≤ 3.
Proof.
  assert (sink_ok ex_sink ∧ fw_maxHops ex_sink ≤ 3) as H by (split; discriminate).
  apply (forward_loops_end 3 [ex_sink; ex_sink; ex_sink; ex_sink; ex_sink] ex_env ex_env_publishable).
  repeat (constructor; [exact H|]). constructor.
Defined.

Lemma Process_forwards_once_witness :
  ∃ m, Process accept ex_sink ex_env None = (None, Some m) ∧ FromMessage (Some m) = Ok (copy_of ex_sink ex_env).
Proof.
  destruct (Process_forwards_once accept ex_sink ex_env None ex_env_publishable ltac:(discriminate)) as (m & H1 & _ & _ & H2).
  exists m. split; [exact H1|exact H2].
Defined.

Lemma ForwardUUID_faithful_witness : ForwardUUID "g" "a" "t" ≠ "g".
Proof. apply (ForwardUUID_faithful "g" "a" "t" "h" "a" "t" eq_refl eq_refl eq_refl eq_refl). discriminate. Defined.
