(* ===== verification/ForwardBus.v ===== *)
(** * [internal/sink/forward/drivers/bus/driver.go]: the block of a forward sink

    [parse] and [describe] over the YAML tree of the block and the describers of the registered
    bus drivers, the checks [-check] applies, and [Factory].  The target bus itself is opened on
    first use: Lazy.v.  The decoding of a scalar is the YAML library's. *)

From S2P Require Import Prelude.
From S2P Require Import Errors.
From S2P Require Import GoText.
From S2P Require Import Yaml.
From S2P Require Import Event.
From S2P Require Import Bus.
From S2P Require Import Config.
From S2P Require Import Forward.

Local Open Scope Z_scope.

Definition keyDriver : string := "driver".
Definition keyTopic : string := "topic".
Definition keyMaxHops : string := "max_hops".

(** The block as it is in the file. *)
Record rawConfig := mkRawConfig { rc_Driver : string; rc_Topic : string; rc_MaxHops : Z; rc_Drivers : gmap string Node }.

Definition default_raw : rawConfig := mkRawConfig "" "" DefaultMaxHops ∅.

Section Parse.
(** [val.Decode] into a string and into an int. *)
Variable decode_string : Node → result string.
Variable decode_int : Node → result Z.

(** One key of the mapping. *)
Definition parse_key (c : rawConfig) (key val : Node) : result rawConfig :=
  let k := n_Value key in
  if String.eqb k keyDriver then
    match decode_string val with
    | Ok s => Ok (mkRawConfig s (rc_Topic c) (rc_MaxHops c) (rc_Drivers c))
    | Err e => Err (EWrap k e)
    end
  else if String.eqb k keyTopic then
    match decode_string val with
    | Ok s => Ok (mkRawConfig (rc_Driver c) s (rc_MaxHops c) (rc_Drivers c))
    | Err e => Err (EWrap k e)
    end
  else if String.eqb k keyMaxHops then
    match decode_int val with
    | Ok n => Ok (mkRawConfig (rc_Driver c) (rc_Topic c) n (rc_Drivers c))
    | Err e => Err (EWrap k e)
    end
  else if negb (n_Kind val =? MappingNode) && negb (is_null val) then Err (errorf "unknown field (driver blocks must be mappings)")
  else Ok (mkRawConfig (rc_Driver c) (rc_Topic c) (rc_MaxHops c) (<[k := val]> (rc_Drivers c))).

(** The loop over the content of the mapping; a key without a value ends it. *)
Fixpoint parse_keys (c : rawConfig) (seen : gset string) (content : list Node) : result rawConfig :=
  match content with
  | key :: val :: content =>
      if bool_decide (n_Value key ∈ seen) then Err (errorf "duplicate key")
      else match parse_key c key val with
           | Ok c => parse_keys c ({[n_Value key]} ∪ seen) content
           | Err e => Err e
           end
  | _ => Ok c
  end.

Fixpoint parse (raw : Node) : result rawConfig :=
  match raw with
  | mkNode kind style tag value content =>
      if (kind =? 0) || is_null raw then Ok default_raw
      else if kind =? DocumentNode then
        match content with
        | [n] => parse n
        | _ => Err (errorf "config must be a mapping")
        end
      else if kind =? MappingNode then parse_keys default_raw ∅ content
      else Err (errorf "config must be a mapping")
  end.

Section Describe.
(** The typed blocks of bus drivers, and the cross-check some implement. *)
Context {T : Type}.
Variable DriverValidator : T → option (Config.Router → option error).

Record BlockConfig := mkBlockConfig { bk_Config : Forward.Config; bk_Drivers : gmap string T }.

(** The loop over the sorted names: the problems, and the blocks described. *)
Fixpoint describe_all (describers : gmap string (Node → result T)) (blocks : gmap string Node) (names : list string)
    : list error * gmap string T :=
  match names with
  | [] => ([], ∅)
  | name :: names =>
      let '(errs, out) := describe_all describers blocks names in
      match describers !! name with
      | None => (errorf "unknown bus driver" :: errs, out)
      | Some d =>
          match d (default zero_node (blocks !! name)) with
          | Err e => (EWrap name e :: errs, out)
          | Ok typed => (errs, <[name := typed]> out)
          end
      end
  end.

(** The names of the blocks, and the selected driver when it has none. *)
Definition block_names (rc : rawConfig) : list string :=
  let names := elements (dom (rc_Drivers rc) : gset string) in
  merge_sort (λ a b, Is_true (String.leb a b))
    (if bool_decide (rc_Driver rc = "") || bool_decide (rc_Driver rc ∈ names) then names else names ++ [rc_Driver rc])%list.

Definition describe (describers : gmap string (Node → result T)) (rc : rawConfig) : result BlockConfig :=
  let '(errs, out) := describe_all describers (rc_Drivers rc) (block_names rc) in
  match join_problems errs with
  | Some e => Err e
  | None => Ok (mkBlockConfig (mkConfig (rc_Driver rc) (rc_Topic rc) (rc_MaxHops rc)) out)
  end.

Definition DescribeWith (describers : gmap string (Node → result T)) (raw : Node) : result BlockConfig :=
  match parse raw with
  | Err e => Err (EWrap "decode" e)
  | Ok rc => describe describers rc
  end.

Definition ValidateWith (c : BlockConfig) (router : Config.Router) : option error :=
  let err := Validate (bk_Config c) in
  match bk_Drivers c !! fc_Driver (bk_Config c) with
  | Some typed =>
      match DriverValidator typed with
      | Some v => match v router with
                  | Some derr => errors_join [err; Some (EWrap (fc_Driver (bk_Config c)) derr)]
                  | None => err
                  end
      | None => err
      end
  | None => err
  end.

(** What [Factory] builds: the sink and the target it will open. *)
Record built := mkBuilt { fb_sink : option Sink; fb_target : BusConfig }.

Definition Factory (describers : gmap string (Node → result T)) (ingress : BusConfig) (name : string) (raw : Node) : result built :=
  match parse raw with
  | Err e => Err (EWrap "decode" e)
  | Ok rc =>
      match describe describers rc with
      | Err e => Err e
      | Ok cfg =>
          match errors_join [Validate (bk_Config cfg); ValidateIngress (bk_Config cfg) (cb_Driver ingress) (cb_Topic ingress)] with
          | Some e => Err e
          | None =>
              Ok (mkBuilt (New name true (rc_Topic rc) (fc_MaxHops (bk_Config cfg)))
                    (mkBusConfig (rc_Driver rc) (rc_Topic rc) "" (rc_Drivers rc)))
          end
      end
  end.
End Describe.
End Parse.
Arguments BlockConfig : clear implicits.

(** ** The publisher *)

(** [Publisher.Publish], once [open] has answered. *)
Definition Publisher_Publish {S Sub} `{Bus S Sub} (opened : result S) (ctx : option error) (msg : Event.Message) : option error * option S :=
  match opened with
  | Err e => (Some e, None)
  | Ok b =>
      match bus_publish b ctx (Some msg) with
      | (b, Some e) => (Some (EWrap "publish" e), Some b)
      | (b, None) => (None, Some b)
      end
  end.

(** ** Lemmas *)

Section Lemmas.
Variable decode_string : Node → result string.
Variable decode_int : Node → result Z.
Context {T : Type}.
Variable DriverValidator : T → option (Config.Router → option error).

Lemma describe_all_ok (ds : gmap string (Node → result T)) blocks names :
  NoDup names → fst (describe_all ds blocks names) = [] →
  ∀ n t, snd (describe_all ds blocks names) !! n = Some t ↔
    n ∈ names ∧ ∃ d, ds !! n = Some d ∧ d (default zero_node (blocks !! n)) = Ok t.
Proof.
  induction names as [|name names IH]; intros Hnd He n t; cbn [describe_all] in *.
  { cbn [snd]. rewrite lookup_empty. split; [done|]. by intros [?%not_elem_of_nil _]. }
  apply NoDup_cons in Hnd as [Hn Hnd]. destruct (describe_all ds blocks names) as [errs out].
  destruct (ds !! name) as [d|] eqn:Ed; [|done]. destruct (d _) as [typed|e] eqn:Et; [|done]. cbn [fst snd] in *.
  specialize (IH Hnd He). rewrite elem_of_cons. destruct (decide (n = name)) as [->|Hne].
  - rewrite lookup_insert_eq. split.
    + intros [= ->]. split; [by left|]. by exists d.
    + intros (_ & d' & Hd & Ht). congruence.
  - rewrite lookup_insert_ne by done. rewrite IH. naive_solver.
Qed.

(** Every name is described when none is a problem. *)
Lemma describe_all_total (ds : gmap string (Node → result T)) blocks names n :
  fst (describe_all ds blocks names) = [] → n ∈ names → ∃ d t, ds !! n = Some d ∧ d (default zero_node (blocks !! n)) = Ok t.
Proof.
  induction names as [|name names IH]; intros He Hn; [by apply not_elem_of_nil in Hn|]. cbn [describe_all] in He.
  destruct (describe_all ds blocks names) as [errs out]. destruct (ds !! name) as [d|] eqn:Ed; [|done].
  destruct (d _) as [t|] eqn:Et; [|done]. apply elem_of_cons in Hn as [->|Hn]; [by exists d, t|by apply IH].
Qed.

Lemma block_names_spec rc :
  NoDup (block_names rc) ∧ ∀ n, n ∈ block_names rc ↔ is_Some (rc_Drivers rc !! n) ∨ (n = rc_Driver rc ∧ n ≠ "").
Proof.
  unfold block_names. set (names := elements _).
  assert (∀ n, n ∈ names ↔ is_Some (rc_Drivers rc !! n)) as Hn by (intros n; unfold names; rewrite elem_of_elements; apply elem_of_dom).
  split.
  - rewrite (merge_sort_Permutation _). destruct (_ || _) eqn:E; [apply NoDup_elements|].
    apply orb_false_iff in E as [_ E%bool_decide_eq_false]. apply NoDup_app. split; [apply NoDup_elements|].
    split; [|apply NoDup_singleton]. intros x Hx ->%list_elem_of_singleton. done.
  - intros n. rewrite (merge_sort_Permutation _). destruct (_ || _) eqn:E.
    + rewrite Hn. apply orb_true_iff in E as [E%bool_decide_eq_true|E%bool_decide_eq_true]; naive_solver.
    + apply orb_false_iff in E as [E1%bool_decide_eq_false E2]. rewrite elem_of_app, list_elem_of_singleton, Hn. naive_solver.
Qed.

(** What [describe] accepts: every block has a registered driver that decodes it, and so has the
    selected driver, whose absent block is its defaults. *)
Lemma describe_spec (ds : gmap string (Node → result T)) rc c :
  describe ds rc = Ok c →
  bk_Config c = mkConfig (rc_Driver rc) (rc_Topic rc) (rc_MaxHops rc) ∧
  ∀ n, (is_Some (rc_Drivers rc !! n) ∨ (n = rc_Driver rc ∧ n ≠ "")) ↔ is_Some (bk_Drivers c !! n).
Proof.
  unfold describe. destruct (describe_all ds _ _) as [errs out] eqn:E. destruct (join_problems errs) eqn:Ej; [done|].
  apply join_problems_None in Ej as ->. intros [= <-]. split; [done|]. cbn [bk_Drivers]. intros n.
  destruct (block_names_spec rc) as [Hnd Hn]. rewrite <- Hn.
  assert (fst (describe_all ds (rc_Drivers rc) (block_names rc)) = []) as Hf by (by rewrite E).
  split.
  - intros Hin. destruct (describe_all_total _ _ _ _ Hf Hin) as (d & t & Hd & Ht). exists t.
    pose proof (proj2 (describe_all_ok ds _ _ Hnd Hf n t)) as H. rewrite E in H. apply H. split; [done|]. by exists d.
  - intros [t Ht]. apply (describe_all_ok ds _ _ Hnd Hf n t). by rewrite E.
Qed.

Lemma Validate_None c : Validate c = None ↔ fc_Driver c ≠ "" ∧ fc_Topic c ≠ "" ∧ 1 ≤ fc_MaxHops c.
Proof.
  unfold Validate. rewrite join_problems_None, !app_nil. case_bool_decide; case_bool_decide; destruct (fc_MaxHops c <? 1) eqn:E; to_prop; naive_solver lia.
Qed.

Lemma ValidateIngress_None c d t : fc_Driver c ≠ "" → fc_Topic c ≠ "" →
  ValidateIngress c d t = None ↔ ¬ (fc_Driver c = d ∧ fc_Topic c = t).
Proof.
  intros H1 H2. unfold ValidateIngress. rewrite !bool_decide_false by done. cbn [negb andb].
  destruct (String.eqb_spec (fc_Driver c) d), (String.eqb_spec (fc_Topic c) t); cbn; naive_solver.
Qed.

(** ** Properties *)

(** A forward sink that starts: [Factory] builds one exactly for the blocks that the driver's
    describer decodes, whose own checks pass and whose target is not the ingress bus.  Then the
    sink forwards to the topic of the block with a hop limit of at least one, its target is
    another driver or another topic than the ingress, and every driver block, the selected one
    included, was decoded by a registered driver.  What [-check] accepts, [Factory] builds. *)
Lemma Factory_spec ds ingress name raw :
  (∀ b, Factory decode_string decode_int (T := T) ds ingress name raw = Ok b →
     ∃ c rc, DescribeWith decode_string decode_int ds raw = Ok c ∧ parse decode_string decode_int raw = Ok rc ∧
       Validate (bk_Config c) = None ∧ ValidateIngress (bk_Config c) (cb_Driver ingress) (cb_Topic ingress) = None ∧
       fb_sink b = Some (mkSink name (rc_Topic rc) (rc_MaxHops rc)) ∧ 1 ≤ rc_MaxHops rc ∧
       ¬ (cb_Driver (fb_target b) = cb_Driver ingress ∧ cb_Topic (fb_target b) = cb_Topic ingress) ∧
       is_Some (bk_Drivers c !! cb_Driver (fb_target b)) ∧
       (∀ n, is_Some (cb_Drivers (fb_target b) !! n) → is_Some (ds !! n))) ∧
  (∀ c router, DescribeWith decode_string decode_int ds raw = Ok c → ValidateWith DriverValidator c router = None →
     ValidateIngress (bk_Config c) (cb_Driver ingress) (cb_Topic ingress) = None →
     ∃ b, Factory decode_string decode_int ds ingress name raw = Ok b).
Proof.
  unfold Factory, DescribeWith. destruct (parse _ _ raw) as [rc|e]; [|by split].
  destruct (describe ds rc) as [c|e] eqn:Ed; [|by split]. destruct (describe_spec _ _ _ Ed) as [Hc Hn].
  split.
  - intros b. destruct (errors_join _) eqn:Ej; [done|]. apply errors_join_None, Forall_cons in Ej as [Hv [Hi _]%Forall_cons].
    intros [= <-]. exists c, rc. pose proof Hv as (H1 & H2 & H3)%Validate_None. pose proof Hi as Hi'.
    apply (ValidateIngress_None _ _ _ H1 H2) in Hi'. rewrite Hc in *. cbn [fc_Driver fc_Topic fc_MaxHops] in *.
    split_and!; try done.
    + unfold New. cbn [negb fb_sink]. rewrite bool_decide_false by done. rewrite (proj2 (Z.ltb_ge _ _)) by lia.
      by rewrite (proj2 (Z.eqb_neq _ _)) by lia.
    + apply Hn. right. by split.
    + intros n Hs. unfold describe in Ed. destruct (describe_all ds _ _) as [errs out] eqn:E. destruct (join_problems errs) eqn:Ej; [done|].
      apply join_problems_None in Ej as ->. destruct (describe_all_total ds (rc_Drivers rc) (block_names rc) n) as (d & _ & Hd & _);
        [by rewrite E|apply block_names_spec; by left|by exists d].
  - intros c' router [= <-] Hv Hi. assert (Validate (bk_Config c) = None) as Hv'.
    { unfold ValidateWith in Hv. destruct (bk_Drivers c !! _); [|done]. destruct (DriverValidator _) as [v|]; [|done]. destruct (v router); [|done].
      by apply errors_join_None, Forall_cons in Hv as [? _]. }
    rewrite Hv', Hi. by eexists.
Qed.
End Lemmas.

(** ** Witness *)

Definition ex_scalar (s : string) : Node := mkNode ScalarNode 0 "!!str" s [].
Definition ex_block : Node :=
  mkNode MappingNode 0 "!!map" "" [ex_scalar "topic"; ex_scalar "copies"; ex_scalar "driver"; ex_scalar "b"; ex_scalar "b"; mkNode MappingNode 0 "!!map" "" []].

Lemma Factory_spec_witness :
  ∃ b, Factory (λ n, Ok (n_Value n)) (λ _, Ok 1) (T := unit) {["b" := λ _, Ok tt]} (mkBusConfig "a" "t" "" ∅) "s" ex_block = Ok b ∧
    fb_sink b = Some (mkSink "s" "copies" 3).
Proof.
  destruct (Factory (λ n, Ok (n_Value n)) (λ _, Ok 1) (T := unit) {["b" := λ _, Ok tt]} (mkBusConfig "a" "t" "" ∅) "s" ex_block) as [b|e] eqn:E.
  - exists b. split; [done|].
    destruct (proj1 (Factory_spec _ _ (λ _, None) _ _ _ _) b E) as (c & rc & _ & Hp & _ & _ & Hs & _).
    vm_compute in Hp. injection Hp as <-. exact Hs.
  - by vm_compute in E.
Defined.
