(* ===== verification/Store.v ===== *)
(** * [internal/sink/archive/jsonl.go]: the JSONL store

    The store in memory, the files on disk, and every call that can fail: an environment
    says, for one operation, which system calls succeed, how much of a write lands, how far a
    compression gets and what the clock says.  Files are their bytes; a compressed file is
    represented by the bytes it decompresses to.  A failing call stops the operation where it
    stands, so the environments of a crashed operation reach every point between its calls.
    Bytes that were written and not synced may be there or not after a crash ([io_written]).  The
    calls of a compression with its temporary file, the directory syncs and the loss of power are
    in Compress.v; log lines are not modelled. *)

From S2P Require Import Prelude.
From S2P Require Import Errors.
From S2P Require Import GoText.
From S2P Require Import GoNum.
From S2P Require Import GoTime.
From S2P Require Import GoJson.
From S2P Require Import JsonText.
From S2P Require Import Event.
From S2P Require Import Archive.

Local Open Scope Z_scope.

Definition Extension : string := ".jsonl".

Definition CompressNone : string := "none".
Definition CompressGzip : string := "gzip".

Definition ParseCompression (s : string) : result string :=
  if bool_decide (s = "") || bool_decide (s = CompressNone) then Ok CompressNone
  else if bool_decide (s = CompressGzip) then Ok CompressGzip
  else Err (errorf "compress must be none or gzip").

Record StoreOptions := mkStoreOptions {
  so_Dir : string; so_Prefix : string; so_Compress : string; so_RotateSize : Z; so_RotateEvery : Duration }.

(** How far a compression got: nothing, the compressed file in place and the plain one kept, or
    the plain file removed as well. *)
Inductive compressed := Uncompressed | BothKept | Compressed.

(** The environment of one operation: [true] is success. *)
Record ioEnv := mkIoEnv {
  io_now : Time;                 (* the clock *)
  io_modtime : Time;             (* the modification time of the part file *)
  io_open : bool; io_stat : bool;                       (* open; io_open: the MkdirAll of OpenStore *)
  io_read : bool;                                       (* firstTimestamp opens the part file *)
  io_close : bool; io_rstat : bool;                     (* rotate *)
  io_cut_open : bool; io_cut_truncate : bool; io_cut_sync : bool;   (* cutPartialLine *)
  io_remove : bool; io_fstat : bool; io_mkdir : bool; io_rename : bool;
  io_compress : compressed;      (* finalize *)
  io_walk : bool; io_sweep : string → compressed;       (* sweep: the walk and removals, each compression *)
  io_reopen : bool; io_restat : bool;                   (* open after a rotation *)
  io_written : nat; io_write : bool;                    (* bytes that landed, and no error *)
  io_sync : bool; io_truncate : bool }.

(** What is on disk: the part file, and the finalized files by path below the directory. *)
Record disk := mkDisk { d_part : option string; d_finals : gmap string string }.

Record store := mkStore {
  s_opened : bool;               (* f != nil *)
  s_size : Z; s_openedAt : Time; s_firstTS : Time; s_seq : Z;
  s_closed : bool; s_closeErr : option error;
  s_disk : disk }.

(** The fields of the open file reset, as after [s.f = nil]. *)
Definition drop_file (s : store) (d : disk) : store :=
  mkStore false 0 zero_time zero_time (s_seq s) (s_closed s) (s_closeErr s) d.

Definition with_disk (s : store) (d : disk) : store :=
  mkStore (s_opened s) (s_size s) (s_openedAt s) (s_firstTS s) (s_seq s) (s_closed s) (s_closeErr s) d.

Definition part (d : disk) : string := default "" (d_part d).

(** [shouldRotate].  A size is that of a file, whose sizes the system keeps within an [int64]. *)
Definition shouldRotate (o : StoreOptions) (s : store) (n : Z) (now : Time) : bool :=
  if s_size s =? 0 then false
  else if (0 <? so_RotateSize o) && (so_RotateSize o <? s_size s + n) then true
  else (0 <? so_RotateEvery o) && (IsZero (s_openedAt s) || (so_RotateEvery o <=? Sub (now) (s_openedAt s))).

(** [firstTimestamp]: of the first record, else the modification time. *)
Definition firstTimestamp (e : ioEnv) (content : string) : Time :=
  if negb (io_read e) then UTC (io_modtime e)
  else match fst (ReadAll content) with
       | env :: _ => e_ReceivedAt env
       | [] => UTC (io_modtime e)
       end.

(** [open]: the results of its two calls are given, since it is called twice in an append. *)
Definition open (e : ioEnv) (s : store) (ok_open ok_stat : bool) : store * option error :=
  if negb ok_open then (s, Some (EWrap "open archive" (errorf "io")))
  else
    let d := mkDisk (Some (part (s_disk s))) (d_finals (s_disk s)) in
    if negb ok_stat then (with_disk s d, Some (EWrap "open archive" (errorf "io")))
    else
      let size := slen (part d) in
      let fresh := size <=? 0 in
      (mkStore true size (if fresh then io_now e else zero_time)
         (if fresh then zero_time else firstTimestamp e (part d)) (s_seq s) (s_closed s) (s_closeErr s) d, None).

(** [lastNewline]: the length up to and including the last newline. *)
Fixpoint last_nl (s : string) : Z :=
  match s with
  | EmptyString => 0
  | String c s' => let n := last_nl s' in if 0 <? n then 1 + n else if bool_decide (c = nl) then 1 else 0
  end.

(** The first [n] bytes. *)
Fixpoint stake (n : nat) (s : string) : string :=
  match n, s with S n, String c s => String c (stake n s) | _, _ => "" end.

(** [cutPartialLine]: the new content and size, or an error (after which the content may have
    been cut). *)
Definition cutPartialLine (e : ioEnv) (content : string) : string * result Z :=
  if slen content =? 0 then (content, Ok 0)
  else if negb (io_cut_open e) then (content, Err (errorf "io"))
  else
    let end_ := last_nl content in
    if end_ =? slen content then (content, Ok end_)
    else if negb (io_cut_truncate e) then (content, Err (errorf "io"))
    else (stake (Z.to_nat end_) content, if io_cut_sync e then Ok end_ else Err (errorf "io")).

(** The UTC calendar fields of a time: year, month, day and seconds of the day. *)
Definition civil (t : Time) : (Z * Z * Z) * Z :=
  (civil_of_days (t_ns t / day_ns), (t_ns t mod day_ns) / Second).

Definition stamp (t : Time) : string :=
  let '((y, m, d), s) := civil t in
  fmt_year y +:+ pad2 m +:+ pad2 d +:+ "T" +:+ pad2 (s / 3600) +:+ pad2 (s / 60 mod 60) +:+ pad2 (s mod 60) +:+ "Z".

Definition target_dir (t : Time) : string :=
  let '((y, m, d), _) := civil t in fmt_year y +:+ "/" +:+ pad2 m +:+ "/" +:+ pad2 d.

(** The prefix ["/"] passes the check of [OpenStore] and is lost when the path is joined. *)
Definition file_prefix (o : StoreOptions) : string := if bool_decide (so_Prefix o = "/") then "" else so_Prefix o.

Definition target (o : StoreOptions) (t : Time) (seq : Z) : string :=
  target_dir t +:+ "/" +:+ file_prefix o +:+ "-" +:+ stamp t +:+ "-" +:+ format_int seq +:+ Extension.

Definition taken (d : disk) (path : string) : bool :=
  bool_decide (is_Some (d_finals d !! path)) || bool_decide (is_Some (d_finals d !! (path +:+ ".gz"))).

(** The loop over [seq] of [finalize]; the number of finalized files bounds it (see
    [free_seq_total]). *)
Fixpoint free_seq (fuel : nat) (o : StoreOptions) (d : disk) (t : Time) (seq : Z) : option Z :=
  match fuel with
  | O => None
  | S f => let seq := seq + 1 in if taken d (target o t seq) then free_seq f o d t seq else Some seq
  end.

(** [compress] of a plain file, as far as it gets. *)
Definition compress (r : compressed) (path : string) (finals : gmap string string) : gmap string string :=
  match finals !! path with
  | None => finals
  | Some c =>
      let gz := path +:+ ".gz" in
      let f := match r with Uncompressed => finals
               | _ => if bool_decide (is_Some (finals !! gz)) then finals else <[gz := c]> finals end in
      match r with Compressed => delete path f | _ => f end
  end.

(** [finalize]: the state after it and its error. *)
Definition finalize (o : StoreOptions) (e : ioEnv) (s : store) (firstTS : Time) : store * option error :=
  let d := s_disk s in
  if IsZero firstTS && negb (io_fstat e) then (s, Some (errorf "io"))
  else
    let day := UTC (if IsZero firstTS then firstTimestamp e (part d) else firstTS) in
    if negb (io_mkdir e) then (s, Some (errorf "io"))
    else match free_seq (S (size (d_finals d))) o d day (s_seq s) with
         | None => (s, Some (errorf "no free name"))
         | Some seq =>
             let path := target o day seq in
             let s := mkStore (s_opened s) (s_size s) (s_openedAt s) (s_firstTS s) seq (s_closed s) (s_closeErr s) d in
             if negb (io_rename e) then (s, Some (errorf "io"))
             else
               let finals := <[path := part d]> (d_finals d) in
               let finals := if bool_decide (so_Compress o = CompressGzip) then compress (io_compress e) path finals else finals in
               (with_disk s (mkDisk None finals), None)
         end.

(** [rotate] *)
Definition rotate (o : StoreOptions) (e : ioEnv) (s : store) : store * option error :=
  if negb (s_opened s) then (s, None)
  else
    let firstTS := s_firstTS s in
    let s := drop_file s (s_disk s) in
    if negb (io_close e) then (s, Some (errorf "close"))
    else if negb (io_rstat e) || negb (bool_decide (is_Some (d_part (s_disk s)))) then (s, Some (errorf "stat"))
    else
      let '(content, r) := cutPartialLine e (part (s_disk s)) in
      let s := with_disk s (mkDisk (Some content) (d_finals (s_disk s))) in
      match r with
      | Err e => (s, Some (EWrap "repair" e))
      | Ok n =>
          if n =? 0 then
            if io_remove e then (with_disk s (mkDisk None (d_finals (s_disk s))), None) else (s, Some (errorf "remove"))
          else finalize o e s firstTS
      end.

(** [abandon] after a failed write of [n] bytes. *)
Definition abandon (e : ioEnv) (s : store) (n : nat) : store :=
  let d := s_disk s in
  let d := if (0 <? Z.of_nat n) && io_truncate e
           then mkDisk (Some (stake (Z.to_nat (s_size s)) (part d))) (d_finals d) else d in
  drop_file s d.

(** The start of [Append] of a line of [n] bytes, once the store is known to be open for
    business: open the part file if it is not, rotate it if it is time. *)
Definition ready (o : StoreOptions) (e : ioEnv) (s : store) (n : Z) : store * option error :=
  let '(s, err) := if s_opened s then (s, None) else open e s (io_open e) (io_stat e) in
  match err with
  | Some err => (s, Some err)
  | None =>
      if shouldRotate o s n (io_now e)
      then match rotate o e s with
           | (s, Some err) => (s, Some (EWrap "rotate archive" err))
           | (s, None) => open e s (io_reopen e) (io_restat e)
           end
      else (s, None)
  end.

(** The rest of [Append]: write and sync. *)
Definition write_line (e : ioEnv) (s : store) (line : string) (received : Time) : store * option error :=
  let n := if io_write e then String.length line else io_written e in
  let s := with_disk s (mkDisk (Some (part (s_disk s) +:+ stake n line)) (d_finals (s_disk s))) in
  if negb (io_write e) then (abandon e s n, Some (EWrap "write archive record" (errorf "io")))
  else if negb (io_sync e) then (abandon e s n, Some (EWrap "fsync archive record" (errorf "io")))
  else
    let first := s_size s =? 0 in
    (mkStore (s_opened s) (s_size s + slen line) (if first then io_now e else s_openedAt s)
       (if first then UTC received else s_firstTS s) (s_seq s) (s_closed s) (s_closeErr s) (s_disk s), None).

(** [Append] of an encoded line received at [received], under the lock. *)
Definition append_line (o : StoreOptions) (e : ioEnv) (s : store) (line : string) (received : Time) : store * option error :=
  if s_closed s then (s, Some (errorf "archive store is closed"))
  else match ready o e s (slen line) with
       | (s, Some err) => (s, Some err)
       | (s, None) => write_line e s line received
       end.

(** [Append]: [ctx] is [ctx.Err()]. *)
Definition Append (o : StoreOptions) (e : ioEnv) (s : store) (ctx : option error) (env : Envelope) : store * option error :=
  match ctx with
  | Some err => (s, Some err)
  | None => match Encode env with
            | Err err => (s, Some err)
            | Ok line => append_line o e s line (e_ReceivedAt env)
            end
  end.

(** [Close] *)
Definition Close (o : StoreOptions) (e : ioEnv) (s : store) : store * option error :=
  if s_closed s then (s, s_closeErr s)
  else
    let '(s, err) := rotate o e s in
    let err := EWrap "finalize archive" <$> err in
    (mkStore (s_opened s) (s_size s) (s_openedAt s) (s_firstTS s) (s_seq s) true err (s_disk s), err).

(** [finalizedPattern], for the plain files: the name is the prefix, then ["-"], eight digits,
    ["T"], six digits, ["Z-"], a number and the extension. *)
Definition take_digit (s : string) : option string :=
  match s with String c s => digit_val c ≫= λ _, Some s | "" => None end.

Fixpoint take_digits (n : nat) (s : string) : option string :=
  match n with O => Some s | S n => take_digit s ≫= take_digits n end.

Fixpoint skip_digits (s : string) : string :=
  match s with String c s' => match digit_val c with Some _ => skip_digits s' | None => s end | "" => "" end.

Definition finalized_rest (s : string) : bool :=
  match s ← strip_prefix "-" s; s ← take_digits 8 s; s ← strip_prefix "T" s; s ← take_digits 6 s;
        s ← strip_prefix "Z-" s; s ← take_digit s; Some (skip_digits s) with
  | Some s => bool_decide (s = Extension)
  | None => false
  end.

(** [d.Name()]: what follows the last slash. *)
Fixpoint base (s : string) : string :=
  match s with
  | "" => ""
  | String c s' => if contains_char "/" s' then base s' else if bool_decide (c = "/"%char) then s' else s
  end.

Definition finalized_name (prefix name : string) : bool :=
  match strip_prefix prefix name with Some s => finalized_rest s | None => false end.

Definition swept (o : StoreOptions) (path : string) : bool := finalized_name (so_Prefix o) (base path).

(** [sweep] of the plain files of this store. *)
Definition sweep (o : StoreOptions) (e : ioEnv) (finals : gmap string string) : gmap string string :=
  if bool_decide (so_Compress o = CompressGzip)
  then foldr (λ path f, compress (io_sweep e path) path f) finals (filter (λ path, swept o path = true) (elements (dom finals)))
  else finals.

(** [recover], on the files of a previous run; [None] is an error. *)
Definition recover_part (o : StoreOptions) (e : ioEnv) (s : store) : store * option error :=
  match d_part (s_disk s) with
  | None => if io_rstat e then (s, None) else (s, Some (errorf "stat"))
  | Some content =>
      if negb (io_rstat e) then (s, Some (errorf "stat"))
      else
        let '(content, r) := cutPartialLine e content in
        let s := with_disk s (mkDisk (Some content) (d_finals (s_disk s))) in
        match r with
        | Err err => (s, Some (EWrap "repair" err))
        | Ok n =>
            if n =? 0 then
              if io_remove e then (with_disk s (mkDisk None (d_finals (s_disk s))), None) else (s, Some (errorf "remove"))
            else match finalize o e s zero_time with
                 | (s, Some err) => (s, Some (EWrap "finalize" err))
                 | (s, None) => (s, None)
                 end
        end
  end.

Definition recover (o : StoreOptions) (e : ioEnv) (s : store) : store * option error :=
  match recover_part o e s with
  | (s, Some err) => (s, Some err)
  | (s, None) =>
      if negb (io_walk e) then (s, Some (errorf "walk"))
      else (with_disk s (mkDisk (d_part (s_disk s)) (sweep o e (d_finals (s_disk s)))), None)
  end.

(** The checks of [OpenStore]: a prefix is its own [filepath.Base] when it has no slash, or is
    a single one. *)
Definition check_options (o : StoreOptions) : option error :=
  if bool_decide (so_Dir o = "") then Some (errorf "archive store: dir is required")
  else if bool_decide (so_Prefix o = "") || (contains_char "/" (so_Prefix o) && negb (bool_decide (so_Prefix o = "/")))
          || bool_decide (so_Prefix o = ".") || bool_decide (so_Prefix o = "..")
       then Some (errorf "archive store: prefix must be a single path element")
  else if negb (bool_decide (so_Compress o ∈ [""; CompressNone; CompressGzip])) then Some (errorf "archive store: unknown compression")
  else if (so_RotateSize o <? 0) || (so_RotateEvery o <? 0) then Some (errorf "archive store: rotation thresholds must not be negative")
  else None.

(** [OpenStore] on the files [d]: what is on disk after it, and the store or an error. *)
Definition OpenStore (o : StoreOptions) (e : ioEnv) (d : disk) : disk * result store :=
  match check_options o with
  | Some err => (d, Err err)
  | None =>
      if negb (io_open e) then (d, Err (EWrap "archive store" (errorf "mkdir")))
      else match recover o e (mkStore false 0 zero_time zero_time 0 false None d) with
           | (s, Some err) => (s_disk s, Err (EWrap "archive store: recover" err))
           | (s, None) => (s_disk s, Ok s)
           end
  end.

(** ** A process and its restarts *)

(** The store of a running process, or the files of one that stopped. *)
Inductive node := Up (s : store) | Down (d : disk).

Definition node_disk (w : node) : disk := match w with Up s => s_disk s | Down d => d end.

(** What can happen, each with the environment its calls meet.  A crash stops the process in the
    middle of an append, of a close or of a recovery: the calls the environment lets through are
    those made before it, and no result is seen.  A lost reply is also a crash. *)
Inductive op :=
  | OAppend (e : ioEnv) (ctx : option error) (env : Envelope)
  | OClose (e : ioEnv)
  | OStop
  | OCrashAppend (e : ioEnv) (env : Envelope)
  | OCrashClose (e : ioEnv)
  | OOpen (e : ioEnv).

(** The node after an operation, and the event it acknowledged. *)
Definition node_step (o : StoreOptions) (w : node) (x : op) : node * list Envelope :=
  match w, x with
  | Up s, OAppend e ctx env => let '(s, err) := Append o e s ctx env in (Up s, if err then [] else [env])
  | Up s, OClose e => (Up (fst (Close o e s)), [])
  | Up s, OStop => (Down (s_disk s), [])
  | Up s, OCrashAppend e env => (Down (s_disk (fst (Append o e s None env))), [])
  | Up s, OCrashClose e => (Down (s_disk (fst (Close o e s))), [])
  | Down d, OOpen e => let '(d, r) := OpenStore o e d in (match r with Ok s => Up s | Err _ => Down d end, [])
  | w, _ => (w, [])
  end.

Fixpoint node_run (o : StoreOptions) (w : node) (ops : list op) : node * list Envelope :=
  match ops with
  | [] => (w, [])
  | x :: ops => let '(w, a) := node_step o w x in let '(w, b) := node_run o w ops in (w, a ++ b)%list
  end.

(** ** Lemmas: lines *)

Definition is_line (l : string) : Prop := ∃ b, l = b +:+ String nl "" ∧ contains_char nl b = false.

(** [content] is the lines [ls] and a last piece without a newline. *)
Definition lines_of (content : string) (ls : list string) (tail : string) : Prop :=
  content = sconcat ls +:+ tail ∧ Forall is_line ls ∧ contains_char nl tail = false.

Lemma sconcat_app a b : sconcat (a ++ b) = sconcat a +:+ sconcat b.
Proof. induction a as [|x a IH]; [done|]. rewrite <- app_comm_cons, !sconcat_cons, IH. by rewrite sapp_assoc. Qed.

Lemma last_nl_none s : contains_char nl s = false → last_nl s = 0.
Proof.
  induction s as [|c s IH]; [done|]. cbn [contains_char last_nl]. intros [Hc Hs]%orb_false_iff. to_prop. rewrite (IH Hs).
  rewrite bool_decide_false by congruence. done.
Qed.

Lemma last_nl_nonneg s : 0 ≤ last_nl s.
Proof. induction s as [|c s IH]; cbn [last_nl]; [done|]. repeat case_match; lia. Qed.

Lemma last_nl_app s t : last_nl (s +:+ t) = if 0 <? last_nl t then slen s + last_nl t else last_nl s.
Proof.
  induction s as [|c s IH]; [rewrite sapp_nil_l; cbn [slen]; pose proof (last_nl_nonneg t); destruct (0 <? _) eqn:E; to_prop; cbn [last_nl]; lia|].
  rewrite sapp_cons. cbn [last_nl slen]. rewrite IH. pose proof (slen_nonneg s).
  destruct (0 <? last_nl t) eqn:E; [|done]. to_prop. rewrite (proj2 (Z.ltb_lt _ _)) by lia. lia.
Qed.

Lemma is_line_last l : is_line l → last_nl l = slen l ∧ 0 < slen l.
Proof.
  intros (b & -> & _). rewrite last_nl_app, slen_app. change (last_nl (String nl "")) with 1. change (slen (String nl "")) with 1.
  pose proof (slen_nonneg b). cbn [Z.ltb Z.compare]. lia.
Qed.

Lemma last_nl_lines ls : Forall is_line ls → last_nl (sconcat ls) = slen (sconcat ls).
Proof.
  induction 1 as [|l ls Hl _ IH]; [done|]. rewrite sconcat_cons, last_nl_app, slen_app, IH.
  destruct (is_line_last l Hl) as [-> _]. destruct (0 <? _) eqn:E; [done|]. to_prop. pose proof (slen_nonneg (sconcat ls)). lia.
Qed.

Lemma last_nl_lines_of content ls tail : lines_of content ls tail → last_nl content = slen (sconcat ls).
Proof. intros (-> & Hl & Ht). rewrite last_nl_app, (last_nl_none tail) by done. cbn. by apply last_nl_lines. Qed.

Lemma stake_app a b : stake (Z.to_nat (slen a)) (a +:+ b) = a.
Proof.
  induction a as [|c a IH]; [by destruct b|]. rewrite sapp_cons. cbn [slen]. pose proof (slen_nonneg a).
  replace (Z.to_nat (1 + slen a)) with (S (Z.to_nat (slen a))) by lia.
  cbn [stake]. by rewrite IH.
Qed.

Lemma stake_full s : stake (String.length s) s = s.
Proof. induction s as [|c s IH]; [done|]. cbn [String.length stake]. by rewrite IH. Qed.

(** What lands of a line: the whole line, or a piece of it without a newline. *)
Lemma stake_line n l : is_line l → stake n l = l ∨ contains_char nl (stake n l) = false.
Proof.
  intros (b & -> & Hb). revert n. induction b as [|c b IH]; intros n.
  - rewrite sapp_nil_l. destruct n as [|n]; [by right|]. left. by destruct n.
  - rewrite sapp_cons. destruct n as [|n]; [by right|]. cbn [stake contains_char] in *. apply orb_false_iff in Hb as [Hc Hb].
    destruct (IH Hb n) as [-> | H]; [by left|right]. by rewrite Hc.
Qed.

Lemma read_lines_piece s : contains_char nl s = false → read_lines s = if bool_decide (s = "") then [] else [s].
Proof.
  induction s as [|c s IH]; [done|]. cbn [contains_char read_lines]. intros [Hc Hs]%orb_false_iff. to_prop.
  rewrite bool_decide_false by congruence. rewrite (IH Hs). by destruct s.
Qed.

Lemma read_lines_cons b rest : contains_char nl b = false → read_lines (b +:+ String nl rest) = (b +:+ String nl "") :: read_lines rest.
Proof.
  induction b as [|c b IH]; intros H; [rewrite !sapp_nil_l; cbn [read_lines]; by rewrite bool_decide_true|].
  cbn [contains_char] in H. apply orb_false_iff in H as [Hc H]. to_prop. rewrite !sapp_cons. cbn [read_lines].
  rewrite bool_decide_false by congruence. by rewrite IH.
Qed.

Lemma read_lines_of content ls tail :
  lines_of content ls tail → read_lines content = (ls ++ if bool_decide (tail = "") then [] else [tail])%list.
Proof.
  intros (-> & Hl & Ht). induction Hl as [|l ls (b & -> & Hb) _ IH]; [by apply read_lines_piece|].
  rewrite sconcat_cons, !sapp_assoc, sapp_cons, sapp_nil_l, read_lines_cons by done. by rewrite IH.
Qed.

(** The complete lines of a file, and what is left after them. *)
Definition complete (content : string) : list string := filter (λ l, contains_char nl l = true) (read_lines content).

Lemma is_line_nl l : is_line l → contains_char nl l = true.
Proof. intros (b & -> & _). rewrite contains_char_app. cbn [contains_char]. rewrite bool_decide_true by done. by rewrite orb_true_r. Qed.

Lemma complete_of content ls tail : lines_of content ls tail → complete content = ls.
Proof.
  intros H. unfold complete. rewrite (read_lines_of _ _ _ H). destruct H as (_ & Hl & Ht). rewrite filter_app.
  assert (filter (λ l, contains_char nl l = true) ls = ls) as ->.
  { induction Hl as [|l ls H _ IH]; [done|]. rewrite filter_cons_True by (by apply is_line_nl). by rewrite IH. }
  case_bool_decide; [by rewrite app_nil_r|]. rewrite filter_cons_False by congruence. by rewrite app_nil_r.
Qed.

Lemma lines_of_exists content : ∃ ls tail, lines_of content ls tail.
Proof.
  induction content as [|c s (ls & tail & -> & Hl & Ht)]; [by exists [], ""|].
  destruct (decide (nl = c)) as [<-|Hc].
  - exists (String nl "" :: ls), tail. split_and!; [by rewrite sconcat_cons| |done]. constructor; [|done]. by exists "".
  - destruct Hl as [|l ls (b & -> & Hb) Hl].
    + exists [], (String c tail). split_and!; [done|constructor|]. cbn [contains_char]. by rewrite bool_decide_false, Ht.
    + exists ((String c b +:+ String nl "") :: ls), tail. split_and!; [|constructor; [|done]|done].
      * rewrite !sconcat_cons, !sapp_assoc, !sapp_cons, sapp_nil_l. done.
      * exists (String c b). split; [done|]. cbn [contains_char]. by rewrite bool_decide_false, Hb.
Qed.

Definition tail_of (content : string) : string :=
  match filter (λ l, contains_char nl l = false) (read_lines content) with t :: _ => t | [] => "" end.

Lemma tail_of_spec content ls tail : lines_of content ls tail → tail_of content = tail.
Proof.
  intros H. unfold tail_of. rewrite (read_lines_of _ _ _ H). destruct H as (_ & Hl & Ht). rewrite filter_app.
  assert (filter (λ l, contains_char nl l = false) ls = []) as ->.
  { induction Hl as [|l ls H _ IH]; [done|]. rewrite filter_cons_False; [done|]. by rewrite is_line_nl. }
  case_bool_decide; [by subst|]. by rewrite filter_cons_True.
Qed.

Lemma split_content content : lines_of content (complete content) (tail_of content).
Proof.
  destruct (lines_of_exists content) as (ls & tail & H). by rewrite (complete_of _ _ _ H), (tail_of_spec _ _ _ H).
Qed.

Lemma content_eq content : content = sconcat (complete content) +:+ tail_of content.
Proof. apply split_content. Qed.

Lemma complete_lines content : Forall is_line (complete content).
Proof. apply split_content. Qed.

Lemma clean_split ls : Forall is_line ls → complete (sconcat ls) = ls ∧ tail_of (sconcat ls) = "".
Proof.
  intros H. assert (lines_of (sconcat ls) ls "") as Hl by (split_and!; [by rewrite sapp_nil_r|done|done]).
  by rewrite (complete_of _ _ _ Hl), (tail_of_spec _ _ _ Hl).
Qed.

Lemma nonempty_content content : complete content = [] → tail_of content = "" → content = "".
Proof. intros H1 H2. rewrite (content_eq content), H1, H2. done. Qed.

(** [cutPartialLine] never touches a complete line; when it succeeds only they are left. *)
Lemma cut_spec e content :
  let '(content', r) := cutPartialLine e content in
  complete content' = complete content ∧
  match r with Ok n => content' = sconcat (complete content) ∧ n = slen content' | Err _ => True end.
Proof.
  pose proof (split_content content) as Hs. pose proof (content_eq content) as Hc.
  destruct (clean_split _ (complete_lines content)) as [Hcl _].
  unfold cutPartialLine. destruct (slen content =? 0) eqn:E0.
  { to_prop. destruct content; [done|]. cbn [slen] in E0. pose proof (slen_nonneg content). lia. }
  destruct (negb (io_cut_open e)); [done|]. rewrite (last_nl_lines_of _ _ _ Hs).
  destruct (slen (sconcat (complete content)) =? slen content) eqn:E; to_prop.
  - cbv beta iota. split; [done|]. rewrite Hc in E at 2. rewrite slen_app in E. destruct (tail_of content) as [|c t] eqn:Et.
    + rewrite sapp_nil_r in Hc. split; [exact Hc|by rewrite <- Hc].
    + cbn [slen] in E. pose proof (slen_nonneg t). lia.
  - destruct (negb (io_cut_truncate e)); [done|].
    assert (stake (Z.to_nat (slen (sconcat (complete content)))) content = sconcat (complete content)) as ->
      by (rewrite Hc at 2; apply stake_app).
    cbv beta iota. split; [done|]. by destruct (io_cut_sync e).
Qed.

Lemma complete_append content l :
  is_line l → tail_of content = "" →
  complete (content +:+ l) = (complete content ++ [l])%list ∧ tail_of (content +:+ l) = "".
Proof.
  intros Hl Ht. pose proof (content_eq content) as Hc. rewrite Ht, sapp_nil_r in Hc.
  assert (lines_of (content +:+ l) (complete content ++ [l]) "") as Hs.
  { split_and!; [|apply Forall_app; split; [apply complete_lines|by apply Forall_singleton]|done].
    rewrite sapp_nil_r, sconcat_app, <- Hc. done. }
  by rewrite (complete_of _ _ _ Hs), (tail_of_spec _ _ _ Hs).
Qed.

(** Writing part of a line after complete lines. *)
Lemma write_spec content n l :
  is_line l → tail_of content = "" →
  complete (content +:+ stake n l) = complete content ∨
  (stake n l = l ∧ complete (content +:+ l) = (complete content ++ [l])%list ∧ tail_of (content +:+ l) = "").
Proof.
  intros Hl Ht. pose proof (content_eq content) as Hc. rewrite Ht, sapp_nil_r in Hc.
  destruct (stake_line n l Hl) as [H|H].
  - right. split; [done|]. by apply complete_append.
  - left. apply (complete_of _ _ (stake n l)). split_and!; [by rewrite <- Hc|apply complete_lines|done].
Qed.

(** ** Lemmas: names *)

Lemma free_seq_free fuel o d t seq seq' : free_seq fuel o d t seq = Some seq' → taken d (target o t seq') = false.
Proof.
  revert seq. induction fuel as [|f IH]; intros seq H; cbn [free_seq] in H; [done|]. cbv zeta in H.
  destruct (taken d (target o t (seq + 1))) eqn:E; [by eapply IH|]. by injection H as <-.
Qed.

Lemma sapp_inj_l a b c : a +:+ b = a +:+ c → b = c.
Proof. induction a as [|x a IH]; [done|]. rewrite !sapp_cons. intros [= H]. by apply IH. Qed.

Lemma sapp_inj_r a b c : a +:+ c = b +:+ c → a = b.
Proof.
  intros H. assert (slen a = slen b) as Hl by (apply (f_equal slen) in H; rewrite !slen_app in H; lia).
  revert b H Hl. induction a as [|x a IH]; intros [|y b] H Hl; cbn [slen] in Hl;
    [done|pose proof (slen_nonneg b); lia|pose proof (slen_nonneg a); lia|].
  rewrite !sapp_cons in H. injection H as -> H. f_equal. apply IH; [done|lia].
Qed.

Lemma target_inj o t i j : in_int64 i → in_int64 j → target o t i = target o t j → i = j.
Proof.
  intros Hi Hj H. unfold target in H. repeat apply sapp_inj_l in H. apply sapp_inj_r in H. by apply format_int_inj.
Qed.

Lemma target_last o t i d : last_char d (target o t i) = "l"%char.
Proof. unfold target. rewrite <- !sapp_assoc, last_char_suffix by discriminate. reflexivity. Qed.

(** The name of a finalized file that makes [path] taken. *)
Definition taker (d : disk) (path : string) : string :=
  if bool_decide (is_Some (d_finals d !! path)) then path else path +:+ ".gz".

Lemma taker_dom d path : taken d path = true → taker d path ∈ dom (d_finals d).
Proof.
  unfold taken, taker. intros H. rewrite elem_of_dom. case_bool_decide; [done|]. cbn [orb] in H. by to_prop.
Qed.

Lemma taker_inj d o t i j :
  in_int64 i → in_int64 j → taker d (target o t i) = taker d (target o t j) → i = j.
Proof.
  intros Hi Hj H. apply (target_inj o t); [done..|]. unfold taker in H.
  assert (∀ k k', target o t k ≠ target o t k' +:+ ".gz") as Hne.
  { intros k k' He. apply (f_equal (last_char "x"%char)) in He. rewrite target_last in He.
    rewrite last_char_suffix in He by done. done. }
  repeat case_bool_decide; [done|by apply Hne in H|symmetry in H; by apply Hne in H|by apply sapp_inj_r in H].
Qed.

Lemma free_seq_stuck fuel o d t seq :
  free_seq fuel o d t seq = None → ∀ k, 1 ≤ k ≤ Z.of_nat fuel → taken d (target o t (seq + k)) = true.
Proof.
  revert seq. induction fuel as [|f IH]; intros seq H k Hk; [lia|]. cbn [free_seq] in H. cbv zeta in H.
  destruct (taken d (target o t (seq + 1))) eqn:E; [|done].
  destruct (decide (k = 1)) as [->|Hne]; [done|]. replace (seq + k) with (seq + 1 + (k - 1)) by lia. apply IH; [done|lia].
Qed.

(** One more attempt than there are files finds a free name. *)
Lemma free_seq_total o d t seq :
  0 ≤ seq → seq + Z.of_nat (S (size (d_finals d))) ≤ int64_max →
  ∃ seq', free_seq (S (size (d_finals d))) o d t seq = Some seq'.
Proof.
  intros H0 Hmax. destruct (free_seq _ o d t seq) as [seq'|] eqn:E; [by eexists|]. exfalso.
  pose proof (free_seq_stuck _ _ _ _ _ E) as Hall. set (n := S (size (d_finals d))) in *.
  set (names := (λ k : nat, taker d (target o t (seq + 1 + Z.of_nat k))) <$> List.seq 0 n).
  assert (NoDup names) as Hnd.
  { apply NoDup_fmap_2_strong; [|apply NoDup_seq]. intros i j Hi%elem_of_seq Hj%elem_of_seq H.
    apply taker_inj in H; unfold in_int64, int64_min; lia. }
  assert (list_to_set names ⊆ dom (d_finals d)) as Hsub.
  { intros p [k [-> Hk%elem_of_seq]]%elem_of_list_to_set%list_elem_of_fmap. apply taker_dom.
    replace (seq + 1 + Z.of_nat k) with (seq + (1 + Z.of_nat k)) by lia. apply Hall. lia. }
  apply subseteq_size in Hsub. rewrite size_list_to_set, size_dom in Hsub by done.
  unfold names in Hsub. rewrite length_fmap, length_seq in Hsub. lia.
Qed.

(** ** Lemmas: nothing complete is lost *)

(** [l] is a complete line of the part file or of a finalized file. *)
Definition held (d : disk) (l : string) : Prop :=
  l ∈ complete (part d) ∨ ∃ path c, d_finals d !! path = Some c ∧ l ∈ complete c.

Definition keeps (d d' : disk) : Prop := ∀ l, held d l → held d' l.

#[export] Instance keeps_refl : Reflexive keeps.
Proof. by intros d l. Qed.
#[export] Instance keeps_trans : Transitive keeps.
Proof. intros a b c H1 H2 l H. by apply H2, H1. Qed.

(** When a plain file of the store also exists compressed, it has the same contents: [compress]
    then removes it unread. *)
Definition pair_at (f : gmap string string) (p : string) : Prop :=
  ∀ c c', f !! p = Some c → f !! (p +:+ ".gz") = Some c' → c = c'.

Definition paired (o : StoreOptions) (d : disk) : Prop := ∀ p, swept o p = true → pair_at (d_finals d) p.

(** Nothing complete is lost, given well-paired files, which stay so. *)
Definition safe (o : StoreOptions) (d d' : disk) : Prop := paired o d → paired o d' ∧ keeps d d'.

#[export] Instance safe_refl o : Reflexive (safe o).
Proof. by intros d H. Qed.
#[export] Instance safe_trans o : Transitive (safe o).
Proof. intros a b c H1 H2 [Hb K1]%H1. destruct (H2 Hb) as [Hc K2]. split; [done|by etransitivity]. Qed.

Lemma safe_part o d d' : d_finals d' = d_finals d → complete (part d) ⊆ complete (part d') → safe o d d'.
Proof.
  intros Hf Hp Hd. split; [unfold paired; by rewrite Hf|]. intros l [H|H]; [left; by apply Hp|right]. by rewrite Hf.
Qed.

Lemma take_digits_suffix n s r : take_digits n s = Some r → ∃ q, s = q +:+ r.
Proof.
  revert s. induction n as [|n IH]; intros s H; [injection H as ->; by exists ""|]. cbn [take_digits] in H.
  destruct s as [|c s]; [done|]. cbn [take_digit] in H. destruct (digit_val c); [|done]. cbn [mbind option_bind] in H.
  apply IH in H as [q ->]. by exists (String c q).
Qed.

Lemma skip_digits_suffix s : ∃ q, s = q +:+ skip_digits s.
Proof.
  induction s as [|c s [q Hq]]; [by exists ""|]. cbn [skip_digits]. destruct (digit_val c); [|by exists ""].
  exists (String c q). by rewrite sapp_cons, <- Hq.
Qed.

Lemma base_suffix s : ∃ q, s = q +:+ base s.
Proof.
  induction s as [|c s [q Hq]]; [by exists ""|]. cbn [base].
  destruct (contains_char _ s); [exists (String c q); by rewrite sapp_cons, <- Hq|].
  case_bool_decide; [|by exists ""]. exists (String c ""). by rewrite sapp_cons, sapp_nil_l.
Qed.

Lemma finalized_rest_inv s :
  finalized_rest s = true →
  ∃ a b c, s = "-" +:+ a ∧ take_digits 8 a = Some ("T" +:+ b) ∧ take_digits 6 b = Some ("Z-" +:+ c) ∧
    ∃ c', take_digit c = Some c' ∧ skip_digits c' = Extension.
Proof.
  unfold finalized_rest. intros H.
  destruct (strip_prefix "-" s) as [a|] eqn:E1; [|done]. apply strip_prefix_Some in E1. cbn [mbind option_bind] in H.
  destruct (take_digits 8 a) as [a'|] eqn:E2; [|done]. cbn [mbind option_bind] in H.
  destruct (strip_prefix "T" a') as [b|] eqn:E3; [|done]. apply strip_prefix_Some in E3. cbn [mbind option_bind] in H.
  destruct (take_digits 6 b) as [b'|] eqn:E4; [|done]. cbn [mbind option_bind] in H.
  destruct (strip_prefix "Z-" b') as [c|] eqn:E5; [|done]. apply strip_prefix_Some in E5. cbn [mbind option_bind] in H.
  destruct (take_digit c) as [c'|] eqn:E6; [|done]. cbn [mbind option_bind] in H. to_prop.
  exists a, b, c. subst. split_and!; [done..|]. by exists c'.
Qed.

Lemma swept_last o p x : swept o p = true → last_char x p = "l"%char.
Proof.
  unfold swept, finalized_name. destruct (strip_prefix _ (base p)) as [r|] eqn:E; [|done]. apply strip_prefix_Some in E.
  intros (a & b & c & -> & H1 & H2 & c' & H3 & H4)%finalized_rest_inv.
  destruct (base_suffix p) as [q Hq]. apply take_digits_suffix in H1 as [q1 ->], H2 as [q2 ->].
  destruct c as [|x3 c3]; [done|]. cbn [take_digit] in H3. destruct (digit_val x3); [|done]. injection H3 as ->.
  destruct (skip_digits_suffix c') as [q4 Hq4]. rewrite H4 in Hq4. rewrite Hq, E, Hq4.
  change (String x3 (q4 +:+ Extension)) with (String x3 q4 +:+ Extension).
  rewrite <- !sapp_assoc. rewrite last_char_suffix by discriminate. reflexivity.
Qed.

Lemma gz_ne p q x : last_char x p = "l"%char → p ≠ q +:+ ".gz".
Proof. intros H ->. by rewrite last_char_suffix in H. Qed.

(** A compression loses nothing, however far it gets. *)
Lemma compress_safe o r path x f :
  last_char "x"%char path = "l"%char → pair_at f path → safe o (mkDisk x f) (mkDisk x (compress r path f)).
Proof.
  intros Hl Hpa Hd. unfold compress. destruct (f !! path) as [c|] eqn:Ec; [|done].
  set (gz := path +:+ ".gz"). set (f1 := if bool_decide (is_Some (f !! gz)) then f else <[gz := c]> f).
  assert (path ≠ gz) as Hne by (exact (gz_ne path path _ Hl)).
  assert (f1 !! gz = Some c ∧ f1 !! path = Some c ∧ (∀ p, p ≠ gz → f1 !! p = f !! p) ∧ f ⊆ f1) as (Hg & Hp & Ho & Hsub).
  { unfold f1. case_bool_decide as Hb.
    - destruct Hb as [c' Hc']. pose proof (Hpa c c' Ec Hc') as <-. done.
    - rewrite lookup_insert_eq. apply eq_None_not_Some in Hb. split_and!; [done|by rewrite lookup_insert_ne| |by apply insert_subseteq].
      intros p Hp. by rewrite lookup_insert_ne. }
  assert (paired o (mkDisk x f1)) as Hd1.
  { intros p Hs d d' H1 H2. cbn [d_finals] in *. rewrite Ho in H1 by (exact (gz_ne p path _ (swept_last o p "x"%char Hs))).
    destruct (decide (p +:+ ".gz" = gz)) as [He|He]; [|rewrite Ho in H2 by done; by eapply Hd].
    rewrite He in H2. apply sapp_inj_r in He as ->. congruence. }
  destruct r; [done|..].
  - split; [done|]. intros l [H|(q & d & Hq & H)]; [by left|right]. exists q, d. split; [|done]. by eapply lookup_weaken.
  - split.
    + intros p Hs d d' H1 H2. cbn [d_finals] in *. apply lookup_delete_Some in H1 as [_ H1], H2 as [_ H2]. by eapply Hd1.
    + intros l [H|(q & d & Hq & H)]; [by left|right]. cbn [d_finals] in *. destruct (decide (q = path)) as [->|Hqp].
      * exists gz, c. rewrite lookup_delete_ne by done. split; [done|]. congruence.
      * exists q, d. rewrite lookup_delete_ne by done. split; [|done]. by eapply lookup_weaken.
Qed.

(** Finalizing under a free name. *)
Lemma safe_add o d name :
  last_char "x"%char name = "l"%char → d_finals d !! name = None → d_finals d !! (name +:+ ".gz") = None →
  safe o d (mkDisk None (<[name := part d]> (d_finals d))) ∧ pair_at (<[name := part d]> (d_finals d)) name.
Proof.
  intros Hl Hn Hg. assert (name ≠ name +:+ ".gz") as Hne by (exact (gz_ne name name _ Hl)). split.
  - intros Hd. split.
    + intros p Hs c c' H1 H2. cbn [d_finals] in *. rewrite (lookup_insert_ne _ name (p +:+ ".gz")) in H2 by (exact (gz_ne name p _ Hl)).
      destruct (decide (p = name)) as [->|Hp]; [congruence|]. rewrite lookup_insert_ne in H1 by done. by eapply Hd.
    + intros l [H|(p & c & Hp & H)]; right.
      * exists name, (part d). cbn [d_finals]. by rewrite lookup_insert_eq.
      * exists p, c. cbn [d_finals]. rewrite lookup_insert_ne by congruence. done.
  - intros c c' H1 H2. rewrite lookup_insert_ne in H2 by done. congruence.
Qed.

Lemma finalize_spec o e s ts s' err :
  finalize o e s ts = (s', err) →
  safe o (s_disk s) (s_disk s') ∧ s_opened s' = s_opened s ∧ s_closed s' = s_closed s ∧
  (err = None → d_part (s_disk s') = None).
Proof.
  unfold finalize. cbv zeta. intros H. destruct (_ && negb (io_fstat e)); [by simplify_eq|].
  destruct (negb (io_mkdir e)); [by simplify_eq|]. destruct (free_seq _ _ _ _ _) as [seq|] eqn:E; [|by simplify_eq].
  apply free_seq_free in E. set (path := target o _ seq) in *.
  destruct (negb (io_rename e)); [injection H as <- <-; done|]. injection H as <- <-. split_and!; [|done..].
  unfold taken in E. apply orb_false_iff in E as [E1%bool_decide_eq_false E2%bool_decide_eq_false].
  apply eq_None_not_Some in E1, E2. assert (last_char "x"%char path = "l"%char) as Hl by apply target_last.
  destruct (safe_add o (s_disk s) path Hl E1 E2) as [Hs Hp]. cbn [with_disk s_disk].
  case_bool_decide; [|done]. etransitivity; [exact Hs|]. by apply compress_safe.
Qed.

Lemma sweep_safe o e x f : safe o (mkDisk x f) (mkDisk x (sweep o e f)).
Proof.
  unfold sweep. case_bool_decide; [|done].
  assert (Forall (λ p, swept o p = true) (filter (λ path, swept o path = true) (elements (dom f)))) as Hall
    by (apply Forall_forall; by intros p [H' _]%list_elem_of_filter).
  induction Hall as [|p l Hp _ IH]; [done|]. cbn [foldr]. intros Hd. destruct (IH Hd) as [Hd1 K1].
  destruct (compress_safe o (io_sweep e p) p x _ (swept_last _ _ _ Hp) (Hd1 p Hp) Hd1) as [Hd2 K2].
  split; [done|by etransitivity].
Qed.

Lemma slen_zero a : slen a = 0 → a = "".
Proof. destruct a as [|c a]; [done|]. cbn [slen]. pose proof (slen_nonneg a). lia. Qed.

Lemma rotate_spec o e s s' err :
  rotate o e s = (s', err) →
  safe o (s_disk s) (s_disk s') ∧ s_closed s' = s_closed s ∧ s_opened s' = false ∧
  (err = None → s_opened s = true → part (s_disk s') = "").
Proof.
  unfold rotate. intros H. destruct (s_opened s) eqn:Eo; cbn [negb] in H; [|by simplify_eq].
  destruct (negb (io_close e)); [by simplify_eq|].
  destruct (_ || _); [by simplify_eq|]. cbn [drop_file s_disk] in H. pose proof (cut_spec e (part (s_disk s))) as Hc.
  destruct (cutPartialLine e (part (s_disk s))) as [content r]. destruct Hc as [Hc Hr].
  set (s1 := with_disk (drop_file s (s_disk s)) (mkDisk (Some content) (d_finals (s_disk s)))) in *.
  assert (safe o (s_disk s) (s_disk s1)) as Hk by (apply safe_part; [done|]; change (part (s_disk s1)) with content; by rewrite Hc).
  destruct r as [n|]; [|by simplify_eq]. destruct Hr as [_ Hr2]. destruct (n =? 0) eqn:En; to_prop.
  - assert (content = "") as Hnil by (apply slen_zero; lia).
    destruct (io_remove e); injection H as <- <-; [|done]. split_and!; [|done..]. etransitivity; [exact Hk|].
    apply safe_part; [done|]. change (part (s_disk s1)) with content. by rewrite Hnil.
  - apply finalize_spec in H as (H1 & H2 & H3 & H4). split_and!; [by etransitivity|done|done|].
    intros He _. unfold part. by rewrite H4.
Qed.

Lemma open_spec e s a b s' err :
  open e s a b = (s', err) →
  part (s_disk s') = part (s_disk s) ∧ d_finals (s_disk s') = d_finals (s_disk s) ∧ s_closed s' = s_closed s ∧
  match err with
  | None => s_opened s' = true ∧ s_size s' = slen (part (s_disk s)) ∧
      (part (s_disk s) ≠ "" → IsZero (s_openedAt s') = true)
  | Some _ => s_opened s' = s_opened s ∧ s_size s' = s_size s ∧ s_openedAt s' = s_openedAt s
  end.
Proof.
  unfold open. intros H. destruct (negb a); [by simplify_eq|]. destruct (negb b); [by simplify_eq|]. cbv zeta in H.
  simplify_eq/=. split_and!; try done. intros Hne. destruct (_ <=? 0) eqn:E; [|done]. to_prop.
  destruct (part (s_disk s)) as [|c r] eqn:Ep; [done|]. unfold part in E. cbn [d_part default from_option id] in E.
  cbn [slen] in E. pose proof (slen_nonneg r). lia.
Qed.

Lemma open_part e s a b s' : open e s a b = (s', None) → is_Some (d_part (s_disk s')).
Proof. unfold open. intros H. destruct (negb a), (negb b); try done. injection H as <-. by eexists. Qed.

(** ** The invariant of an open store *)

(** While a file is open its size is known, and a file that ends in a partial line has an
    unknown age. *)
Definition sinv (s : store) : Prop :=
  s_opened s = true →
  is_Some (d_part (s_disk s)) ∧ s_size s = slen (part (s_disk s)) ∧
  (tail_of (part (s_disk s)) ≠ "" → IsZero (s_openedAt s) = true).

Lemma sinv_closed s : s_opened s = false → sinv s.
Proof. intros H Ho. congruence. Qed.

Lemma part_some c f : part (mkDisk (Some c) f) = c.
Proof. done. Qed.

(** With time rotation on, a file that needs no rotation ends at a line boundary. *)
Lemma no_rotate_clean o s n now :
  0 < so_RotateEvery o → sinv s → s_opened s = true → shouldRotate o s n now = false → tail_of (part (s_disk s)) = "".
Proof.
  intros Hr Hs Ho H. destruct (Hs Ho) as (_ & Hsz & Ht). destruct (decide (tail_of (part (s_disk s)) = "")) as [|Hne]; [done|].
  specialize (Ht Hne). unfold shouldRotate in H. rewrite Ht in H. cbn [orb] in H. rewrite andb_true_r in H.
  destruct (s_size s =? 0) eqn:E; to_prop.
  - rewrite Hsz in E. apply slen_zero in E. by rewrite E in Hne.
  - destruct (_ && _); [done|]. to_prop. lia.
Qed.

Lemma open_inv o e s a b s' err :
  open e s a b = (s', err) → s_opened s = false →
  safe o (s_disk s) (s_disk s') ∧ s_closed s' = s_closed s ∧ sinv s' ∧ (err = None → s_opened s' = true).
Proof.
  intros H Ho. pose proof (open_spec _ _ _ _ _ _ H) as (Hp & Hf & Hc & He).
  split_and!; [by apply safe_part; rewrite ?Hp|done| |].
  - destruct err; [apply sinv_closed; destruct He; congruence|]. destruct He as (Ho' & Hsz & Ht). intros _.
    split_and!; [by eapply open_part|by rewrite Hp|]. intros Hne. apply Ht. intros Hnil. apply Hne. by rewrite Hp, Hnil.
  - intros ->. apply He.
Qed.

(** The file an append writes to: open, at a line boundary, with nothing lost. *)
Lemma ready_spec o e s n s' err :
  0 < so_RotateEvery o → sinv s → ready o e s n = (s', err) →
  safe o (s_disk s) (s_disk s') ∧ s_closed s' = s_closed s ∧ sinv s' ∧
  (err = None → s_opened s' = true ∧ tail_of (part (s_disk s')) = "").
Proof.
  intros Hr Hs H. unfold ready in H.
  destruct (if s_opened s then _ else _) as [s1 err1] eqn:E1.
  assert (safe o (s_disk s) (s_disk s1) ∧ s_closed s1 = s_closed s ∧ sinv s1 ∧ (err1 = None → s_opened s1 = true)) as (Hk & Hc & Hs1 & Ho1).
  { destruct (s_opened s) eqn:Eo; [injection E1 as <- <-; done|]. by apply (open_inv o) in E1. }
  destruct err1 as [err1|]; [injection H as <- <-; done|]. specialize (Ho1 eq_refl).
  destruct (shouldRotate o s1 n (io_now e)) eqn:Er.
  - destruct (rotate o e s1) as [s2 err2] eqn:E2. apply rotate_spec in E2 as (Hk2 & Hc2 & Ho2 & Hp2).
    destruct err2 as [err2|].
    + injection H as <- <-. split_and!; [by etransitivity|congruence|by apply sinv_closed|done].
    + specialize (Hp2 eq_refl Ho1). pose proof (open_spec _ _ _ _ _ _ H) as (Hpart & _).
      apply (open_inv o) in H as (Hk3 & Hc3 & Hs3 & Ho3); [|done].
      split_and!; [by do 2 etransitivity; eauto|congruence|done|]. intros He. split; [by apply Ho3|]. by rewrite Hpart, Hp2.
  - injection H as <- <-. split_and!; try done. intros _. split; [done|]. by eapply no_rotate_clean.
Qed.

(** Cutting back to the size before the write. *)
Lemma abandon_disk e s content n w :
  d_part (s_disk s) = Some (content +:+ w) → s_size s = slen content →
  s_disk (abandon e s n) = s_disk s ∨ s_disk (abandon e s n) = mkDisk (Some content) (d_finals (s_disk s)).
Proof.
  intros Hp Hsz. unfold abandon. destruct (_ && _); [right|by left]. cbn [drop_file s_disk].
  unfold part. rewrite Hp. cbn [default from_option id]. by rewrite Hsz, stake_app.
Qed.

(** A write at a line boundary: acknowledged, the line is there; refused, nothing is lost. *)
Lemma write_line_spec o e s line received s' err :
  sinv s → s_opened s = true → tail_of (part (s_disk s)) = "" → is_line line →
  write_line e s line received = (s', err) →
  safe o (s_disk s) (s_disk s') ∧ s_closed s' = s_closed s ∧ sinv s' ∧
  (err = None → complete (part (s_disk s')) = (complete (part (s_disk s)) ++ [line])%list ∧
     d_finals (s_disk s') = d_finals (s_disk s) ∧ s_opened s' = true).
Proof.
  intros Hs Ho Ht Hl H. destruct (Hs Ho) as (_ & Hsz & _). unfold write_line in H.
  set (n := if io_write e then String.length line else io_written e) in *.
  set (s1 := with_disk s (mkDisk (Some (part (s_disk s) +:+ stake n line)) (d_finals (s_disk s)))) in *.
  assert (complete (part (s_disk s)) ⊆ complete (part (s_disk s1))) as Hsub.
  { change (part (s_disk s1)) with (part (s_disk s) +:+ stake n line).
    destruct (write_spec _ n _ Hl Ht) as [-> | (-> & -> & _)]; [done|]. apply list_subseteq_app_l. done. }
  assert (safe o (s_disk s) (s_disk (abandon e s1 n))) as Hab.
  { destruct (abandon_disk e s1 (part (s_disk s)) n (stake n line)) as [-> | ->]; [done..|by apply safe_part|by apply safe_part]. }
  destruct (io_write e) eqn:Ew; cbn [negb] in H; [|injection H as <- <-; split_and!; [done..|by apply sinv_closed|done]].
  destruct (io_sync e); cbn [negb] in H; [|injection H as <- <-; split_and!; [done..|by apply sinv_closed|done]].
  injection H as <- <-. assert (part (s_disk s1) = part (s_disk s) +:+ line) as Hp 
    by (change (part (s_disk s1)) with (part (s_disk s) +:+ stake n line); unfold n; by rewrite stake_full).
  destruct (complete_append _ _ Hl Ht) as [Hc Htl].
  split_and!; [by apply safe_part|done| |].
  - intros _. cbn [s_disk s_size s_openedAt]. split_and!; [by eexists| |].
    + change (s_size s + slen line = slen (part (s_disk s1))). by rewrite Hp, slen_app, Hsz.
    + intros Hne. change (tail_of (part (s_disk s1)) ≠ "") in Hne. by rewrite Hp, Htl in Hne.
  - intros _. change (complete (part (s_disk s1)) = (complete (part (s_disk s)) ++ [line])%list ∧ d_finals (s_disk s1) = d_finals (s_disk s) ∧ s_opened s = true).
    split_and!; [by rewrite Hp, Hc|done..].
Qed.

(** [Append] of a line, whatever fails: nothing that was complete is lost, and a line that is
    acknowledged is on disk. *)
Lemma append_spec o e s line received s' err :
  0 < so_RotateEvery o → sinv s → is_line line → append_line o e s line received = (s', err) →
  safe o (s_disk s) (s_disk s') ∧ sinv s' ∧ (err = None → held (s_disk s') line).
Proof.
  intros Hr Hs Hl H. unfold append_line in H. destruct (s_closed s); [injection H as <- <-; done|].
  destruct (ready o e s (slen line)) as [s1 err1] eqn:E. apply ready_spec in E as (Hk & _ & Hs1 & Hrd); [|done..].
  destruct err1 as [err1|]; [injection H as <- <-; done|]. destruct (Hrd eq_refl) as [Ho Ht].
  apply (write_line_spec o) in H as (Hk2 & _ & Hs2 & Hw); [|done..]. split_and!; [by etransitivity|done|].
  intros He. left. destruct (Hw He) as (-> & _). apply elem_of_app. right. by apply list_elem_of_singleton.
Qed.

Lemma Close_spec o e s s' err :
  sinv s → Close o e s = (s', err) → safe o (s_disk s) (s_disk s') ∧ sinv s' ∧ s_closed s' = true.
Proof.
  intros Hs H. unfold Close in H. destruct (s_closed s) eqn:Ec; [injection H as <- <-; done|].
  destruct (rotate o e s) as [s1 err1] eqn:E. apply rotate_spec in E as (Hk & _ & Ho & _). injection H as <- <-.
  split_and!; [done|by apply sinv_closed|done].
Qed.

Lemma recover_part_spec o e s s' err :
  recover_part o e s = (s', err) → s_opened s = false →
  safe o (s_disk s) (s_disk s') ∧ s_opened s' = false ∧ s_closed s' = s_closed s ∧ (err = None → d_part (s_disk s') = None).
Proof.
  intros H Ho. unfold recover_part in H. destruct (d_part (s_disk s)) as [content|] eqn:Ep.
  2:{ destruct (io_rstat e); injection H as <- <-; done. }
  destruct (io_rstat e); cbn [negb] in H; [|injection H as <- <-; done].
  pose proof (cut_spec e content) as Hc. destruct (cutPartialLine e content) as [content' rr]. destruct Hc as [Hc Hr].
  set (s1 := with_disk _ (mkDisk (Some content') (d_finals (s_disk s)))) in *.
  assert (part (s_disk s) = content) as Hpd by (unfold part; by rewrite Ep).
  assert (safe o (s_disk s) (s_disk s1)) as Hk by (apply safe_part; [done|]; change (part (s_disk s1)) with content'; by rewrite Hc, Hpd).
  destruct rr as [n|]; [|injection H as <- <-; done]. destruct Hr as [_ Hr2]. destruct (n =? 0) eqn:En; to_prop.
  - assert (content' = "") as Hnil by (apply slen_zero; lia).
    destruct (io_remove e); injection H as <- <-; [|done]. split_and!; [|done..]. etransitivity; [exact Hk|].
    apply safe_part; [done|]. change (part (s_disk s1)) with content'. by rewrite Hnil.
  - destruct (finalize o e s1 zero_time) as [s2 err2] eqn:E. apply finalize_spec in E as (H1 & H2 & H3 & H4).
    change (s_opened s1) with (s_opened s) in H2. change (s_closed s1) with (s_closed s) in H3.
    destruct err2; injection H as <- <-; (split_and!; [by etransitivity|congruence|done|done]).
Qed.

Lemma OpenStore_spec o e d d' r :
  OpenStore o e d = (d', r) →
  safe o d d' ∧ match r with Ok s => s_disk s = d' ∧ s_opened s = false ∧ s_closed s = false ∧ d_part d' = None | Err _ => True end.
Proof.
  unfold OpenStore. intros H. destruct (check_options o); [injection H as <- <-; done|].
  destruct (negb (io_open e)); [injection H as <- <-; done|]. unfold recover in H.
  destruct (recover_part o e _) as [s1 err1] eqn:E. apply recover_part_spec in E as (Hk & Ho & Hc & Hp); [|done]. cbn [s_disk s_closed] in Hk, Hc.
  destruct err1 as [err1|]; [injection H as <- <-; done|]. specialize (Hp eq_refl).
  destruct (negb (io_walk e)); injection H as <- <-; [done|]. split_and!; [|done..]. etransitivity; [exact Hk|].
  destruct (s_disk s1) as [x f]. apply sweep_safe.
Qed.

(** ** Lemmas: runs *)

Lemma Encode_is_line env line : Encode env = Ok line → is_line line.
Proof. intros (b & -> & Hb)%Encode_line. exists b. split; [done|]. by apply contains_no_ctl. Qed.

Lemma Append_spec o e s ctx env s' err :
  0 < so_RotateEvery o → sinv s → Append o e s ctx env = (s', err) →
  safe o (s_disk s) (s_disk s') ∧ sinv s' ∧ (err = None → ∃ line, Encode env = Ok line ∧ held (s_disk s') line).
Proof.
  intros Hr Hs H. unfold Append in H. destruct ctx as [c|]; [injection H as <- <-; done|].
  destruct (Encode env) as [line|c] eqn:E; [|injection H as <- <-; done].
  apply append_spec in H as (Hk & Hi & Ha); [|done|done|by eapply Encode_is_line].
  split_and!; [done..|]. intros He. exists line. split; [done|]. by apply Ha.
Qed.

Definition ninv (o : StoreOptions) (w : node) : Prop :=
  paired o (node_disk w) ∧ match w with Up s => sinv s | Down _ => True end.

(** What an operation or a run guarantees. *)
Definition kept (o : StoreOptions) (w w' : node) (acked : list Envelope) : Prop :=
  ninv o w' ∧ keeps (node_disk w) (node_disk w') ∧
  ∀ env, env ∈ acked → ∃ line, Encode env = Ok line ∧ held (node_disk w') line.

Lemma kept_none o w w' :
  paired o (node_disk w) → safe o (node_disk w) (node_disk w') →
  match w' with Up s => sinv s | Down _ => True end → kept o w w' [].
Proof. intros Hp [Hp' Hk]%(λ H, H Hp) Hs. split_and!; [done..|]. intros env []%not_elem_of_nil. Qed.

Lemma node_step_spec o w x w' acked :
  0 < so_RotateEvery o → ninv o w → node_step o w x = (w', acked) → kept o w w' acked.
Proof.
  intros Hr [Hp Hi] H.
  destruct w as [s|d], x as [e ctx env|e| |e env|e|e]; cbn [node_step] in H; try (injection H as <- <-; by apply kept_none).
  - destruct (Append o e s ctx env) as [s' err] eqn:E. apply Append_spec in E as (Hk & Hs & Ha); [|done..].
    injection H as <- <-. destruct err as [err|]; [by apply kept_none|]. destruct (Hk Hp) as [Hp' Hk'].
    split_and!; [done..|]. intros env' ->%list_elem_of_singleton. by apply Ha.
  - destruct (Close o e s) as [s' err] eqn:E. apply Close_spec in E as (Hk & Hs & _); [|done].
    injection H as <- <-. by apply kept_none.
  - destruct (Append o e s None env) as [s' err] eqn:E. apply Append_spec in E as (Hk & _); [|done..].
    injection H as <- <-. by apply kept_none.
  - destruct (Close o e s) as [s' err] eqn:E. apply Close_spec in E as (Hk & _); [|done].
    injection H as <- <-. by apply kept_none.
  - destruct (OpenStore o e d) as [d' r] eqn:E. apply OpenStore_spec in E as (Hk & Ho).
    injection H as <- <-. destruct r as [s|]; [|by apply kept_none].
    destruct Ho as (<- & Ho & _). apply kept_none; [done..|]. by apply sinv_closed.
Qed.

Lemma node_run_spec o w ops w' acked :
  0 < so_RotateEvery o → ninv o w → node_run o w ops = (w', acked) → kept o w w' acked.
Proof.
  intros Hr. revert w acked. induction ops as [|x ops IH]; intros w acked Hi H; cbn [node_run] in H.
  { injection H as <- <-. destruct Hi. by apply kept_none. }
  destruct (node_step o w x) as [w1 a] eqn:E1. destruct (node_run o w1 ops) as [w2 b] eqn:E2. injection H as <- <-.
  apply node_step_spec in E1 as (Hi1 & Hk1 & Ha); [|done..]. apply IH in E2 as (Hi2 & Hk2 & Hb); [|done].
  split_and!; [done|by etransitivity|]. intros env [Hin|Hin]%elem_of_app; [|by apply Hb].
  destruct (Ha env Hin) as (line & He & Hh). exists line. split; [done|]. by apply Hk2.
Qed.

(** ** Lemmas: retries *)

(** Every call succeeds. *)
Definition calm (e : ioEnv) : Prop :=
  Forall (λ b, b = true)
    [io_open e; io_stat e; io_close e; io_rstat e; io_cut_open e; io_cut_truncate e; io_cut_sync e; io_remove e;
     io_fstat e; io_mkdir e; io_rename e; io_reopen e; io_restat e; io_write e; io_sync e; io_walk e].

(** There are numbers left for the names of a file finalized now. *)
Definition numbered (s : store) : Prop := 0 ≤ s_seq s ∧ s_seq s + Z.of_nat (S (size (d_finals (s_disk s)))) ≤ int64_max.

Ltac use_calm H :=
  unfold calm in H; repeat match type of H with
  | Forall _ (_ :: _) => let E := fresh "Hcalm" in apply Forall_cons in H as [E H]; rewrite ?E
  end.

Lemma finalize_calm o e s ts : calm e → numbered s → snd (finalize o e s ts) = None.
Proof.
  intros Hc [H0 Hm]. unfold finalize. use_calm Hc. rewrite andb_false_r. cbn [negb]. cbv zeta.
  destruct (free_seq_total o (s_disk s) (UTC (if IsZero ts then firstTimestamp e (part (s_disk s)) else ts)) (s_seq s) H0 Hm) as [q ->].
  done.
Qed.

Lemma cut_calm e content : calm e → ∃ n, snd (cutPartialLine e content) = Ok n.
Proof.
  intros Hc. unfold cutPartialLine. use_calm Hc. cbn [negb]. destruct (slen content =? 0); [by eexists|].
  destruct (_ =? _); by eexists.
Qed.

Lemma rotate_calm o e s : calm e → numbered s → is_Some (d_part (s_disk s)) → snd (rotate o e s) = None.
Proof.
  intros Hc Hn Hp. unfold rotate. destruct (s_opened s); [|done]. cbn [negb].
  destruct (cut_calm e (part (s_disk s)) Hc) as [n Hcut].
  pose proof Hc as Hc'. use_calm Hc'. cbn [negb orb drop_file s_disk]. rewrite bool_decide_true by done. cbn [negb].
  destruct (cutPartialLine e (part (s_disk s))) as [content r]. cbn [snd] in Hcut. subst r. destruct (n =? 0); [done|].
  by apply finalize_calm.
Qed.

Lemma open_calm e s : ∃ s', open e s true true = (s', None) ∧ s_seq s' = s_seq s.
Proof. eexists. split; reflexivity. Qed.

Lemma ready_calm o e s n : calm e → sinv s → numbered s → snd (ready o e s n) = None.
Proof.
  intros Hc Hs Hn. unfold ready. pose proof Hc as Hc'. use_calm Hc'.
  destruct (if s_opened s then _ else _) as [s1 err1] eqn:E1.
  assert (err1 = None ∧ is_Some (d_part (s_disk s1)) ∧ numbered s1) as (-> & Hp & Hn1).
  { destruct (s_opened s) eqn:Eo; [injection E1 as <- <-; split_and!; [done|by apply Hs|done]|].
    destruct (open_calm e s) as (s2 & Ho & Hq). rewrite Ho in E1. injection E1 as <- <-.
    pose proof (open_spec _ _ _ _ _ _ Ho) as (_ & Hf & _). split_and!; [done|by eapply open_part|].
    unfold numbered. by rewrite Hq, Hf. }
  destruct (shouldRotate o s1 n (io_now e)); [|done]. pose proof (rotate_calm o e s1 Hc Hn1 Hp) as Hr.
  destruct (rotate o e s1) as [s2 err2]. cbn [snd] in Hr. subst err2. destruct (open_calm e s2) as (s3 & -> & _). done.
Qed.

Lemma append_calm o e s line received :
  calm e → sinv s → numbered s → s_closed s = false → snd (append_line o e s line received) = None.
Proof.
  intros Hc Hs Hn Hcl. unfold append_line. rewrite Hcl. pose proof (ready_calm o e s (slen line) Hc Hs Hn) as Hr.
  destruct (ready o e s (slen line)) as [s1 err1]. cbn [snd] in Hr. subst err1. unfold write_line. use_calm Hc. done.
Qed.

(** ** Lemmas: recovery *)

Fixpoint dashes (s : string) : Z :=
  match s with "" => 0 | String c s => (if bool_decide (c = "-"%char) then 1 else 0) + dashes s end.

Lemma dashes_nonneg s : 0 ≤ dashes s.
Proof. induction s as [|c s IH]; [done|]. cbn [dashes]. case_bool_decide; lia. Qed.

Lemma dashes_app s t : dashes (s +:+ t) = dashes s + dashes t.
Proof. induction s as [|c s IH]; [by rewrite sapp_nil_l|]. rewrite sapp_cons. cbn [dashes]. rewrite IH. lia. Qed.

Lemma digit_no_dash c d : digit_val c = Some d → bool_decide (c = "-"%char) = false.
Proof. intros H. apply bool_decide_eq_false. intros ->. discriminate. Qed.

Lemma take_digits_dashes n s r : take_digits n s = Some r → dashes s = dashes r.
Proof.
  revert s. induction n as [|n IH]; intros s H; [by injection H as ->|]. cbn [take_digits] in H.
  destruct s as [|c s]; [done|]. cbn [take_digit] in H. destruct (digit_val c) eqn:E; [|done]. cbn [mbind option_bind] in H.
  cbn [dashes]. rewrite (digit_no_dash _ _ E). by apply IH.
Qed.

Lemma skip_digits_dashes s : dashes s = dashes (skip_digits s).
Proof.
  induction s as [|c s IH]; [done|]. cbn [skip_digits]. destruct (digit_val c) eqn:E; [|done].
  cbn [dashes]. by rewrite (digit_no_dash _ _ E), IH.
Qed.

(** What follows the prefix starts with a dash, and has one more. *)
Lemma finalized_rest_dashes s : finalized_rest s = true → dashes s = 2 ∧ ∃ r, s = "-" +:+ r.
Proof.
  intros (a & b & c & -> & H1 & H2 & c' & H3 & H4)%finalized_rest_inv. split; [|by exists a].
  rewrite dashes_app, (take_digits_dashes _ _ _ H1), dashes_app, (take_digits_dashes _ _ _ H2), dashes_app.
  assert (take_digits 1 c = Some c') as H3' by (cbn [take_digits]; by rewrite H3).
  rewrite (take_digits_dashes _ _ _ H3'), (skip_digits_dashes c'), H4. reflexivity.
Qed.

Lemma app_split a b c d :
  a +:+ b = c +:+ d → (∃ q, c = a +:+ q ∧ b = q +:+ d) ∨ (∃ q, a = c +:+ q ∧ d = q +:+ b).
Proof.
  revert c. induction a as [|x a IH]; intros c H; [rewrite sapp_nil_l in H; left; by exists c|].
  destruct c as [|y c]; [right; exists (String x a); by rewrite sapp_nil_l in *|].
  rewrite !sapp_cons in H. injection H as -> H. destruct (IH _ H) as [(q & -> & ->)|(q & -> & ->)]; [left|right]; by exists q.
Qed.

Lemma rest_unique q s : finalized_rest (q +:+ s) = true → finalized_rest s = true → q = "".
Proof.
  intros [H1 [r Hr]]%finalized_rest_dashes [H2 _]%finalized_rest_dashes. destruct q as [|c q]; [done|].
  rewrite sapp_cons in Hr. injection Hr as -> _. rewrite dashes_app in H1. cbn [dashes] in H1.
  rewrite bool_decide_true in H1 by done. pose proof (dashes_nonneg q). lia.
Qed.

(** A name belongs to one prefix only. *)
Lemma finalized_name_inj p p' n : finalized_name p n = true → finalized_name p' n = true → p = p'.
Proof.
  unfold finalized_name. destruct (strip_prefix p n) as [s|] eqn:E; [|done]. destruct (strip_prefix p' n) as [s'|] eqn:E'; [|done].
  apply strip_prefix_Some in E, E'. intros Hs Hs'. rewrite E in E'.
  destruct (app_split _ _ _ _ E') as [(q & -> & ->)|(q & -> & ->)].
  - rewrite (rest_unique q s'), sapp_nil_r; done.
  - rewrite (rest_unique q s), sapp_nil_r; done.
Qed.

(** The names [finalize] writes are those [sweep] looks for. *)
Lemma take_pad2 k n s : 0 ≤ n < 100 → take_digits (S (S k)) (pad2 n +:+ s) = take_digits k s.
Proof.
  intros H. unfold pad2. rewrite !sapp_cons, sapp_nil_l. cbn [take_digits take_digit].
  rewrite digit_val_digit by (split; [apply Z.div_pos; lia|apply Z.div_lt_upper_bound; lia]). cbn [mbind option_bind take_digits take_digit].
  rewrite digit_val_digit by (apply Z.mod_pos_bound; lia). done.
Qed.

Lemma skip_digits_all s acc n t : digits_go s acc = Some n → skip_digits (s +:+ t) = skip_digits t.
Proof.
  revert acc. induction s as [|c s IH]; intros acc H; [done|]. rewrite sapp_cons. cbn [digits_go skip_digits] in *.
  destruct (digit_val c); [|done]. by eapply IH.
Qed.

Lemma format_rest n : 0 ≤ n → ∃ s, take_digit (format_int n +:+ Extension) = Some s ∧ skip_digits s = Extension.
Proof.
  intros H. unfold format_int. rewrite (proj2 (Z.ltb_ge _ _)) by lia. destruct (format_uint_spec n H) as [Hne Hd].
  destruct (format_uint n) as [|c s]; [done|]. cbn [digits_go] in Hd. rewrite sapp_cons. cbn [take_digit].
  destruct (digit_val c); [|done]. exists (s +:+ Extension). split; [done|]. by rewrite (skip_digits_all _ _ _ _ Hd).
Qed.

Lemma base_app q n : contains_char "/" n = false → base (q +:+ "/" +:+ n) = n.
Proof.
  intros H. induction q as [|c q IH].
  - rewrite sapp_nil_l, sapp_cons, sapp_nil_l. cbn [base]. rewrite H. by rewrite bool_decide_true.
  - rewrite sapp_cons. cbn [base]. rewrite IH, contains_char_app, (sapp_cons _ "" n). cbn [contains_char].
    by rewrite bool_decide_true, orb_true_r.
Qed.

Definition stamp_of (y m d s : Z) : string :=
  pad4 y +:+ pad2 m +:+ pad2 d +:+ "T" +:+ pad2 (s / 3600) +:+ pad2 (s / 60 mod 60) +:+ pad2 (s mod 60) +:+ "Z".

Lemma finalized_rest_intro a b c c' :
  take_digits 8 a = Some ("T" +:+ b) → take_digits 6 b = Some ("Z-" +:+ c) → take_digit c = Some c' →
  skip_digits c' = Extension → finalized_rest ("-" +:+ a) = true.
Proof.
  intros H1 H2 H3 H4. unfold finalized_rest. rewrite strip_prefix_app. cbn [mbind option_bind]. rewrite H1. cbn [mbind option_bind].
  rewrite strip_prefix_app. cbn [mbind option_bind]. rewrite H2. cbn [mbind option_bind].
  rewrite strip_prefix_app. cbn [mbind option_bind]. rewrite H3. cbn [mbind option_bind]. by rewrite H4.
Qed.

Lemma stamp_rest y m d s seq :
  0 ≤ y < 10000 → 0 ≤ m < 100 → 0 ≤ d < 100 → 0 ≤ s < 86400 → 0 ≤ seq →
  finalized_rest ("-" +:+ stamp_of y m d s +:+ "-" +:+ format_int seq +:+ Extension) = true.
Proof.
  intros Hy Hm Hd Hs Hq. unfold stamp_of, pad4. rewrite (proj2 (Z.ltb_lt _ _)) by lia. rewrite !sapp_assoc.
  destruct (format_rest seq Hq) as (r & Hf & Hr).
  eapply finalized_rest_intro; [| |exact Hf|exact Hr].
  - rewrite !take_pad2 by (try lia; first [apply Z.mod_pos_bound; lia|split; [apply Z.div_pos|apply Z.div_lt_upper_bound]; lia] || (pose proof (Z.mod_pos_bound y 100); lia)).
    reflexivity.
  - rewrite !take_pad2; [reflexivity|..]; [pose proof (Z.mod_pos_bound s 60); lia|pose proof (Z.mod_pos_bound (s / 60) 60); lia|].
    split; [apply Z.div_pos|apply Z.div_lt_upper_bound]; lia.
Qed.

Lemma contains_char_pad2 n : 0 ≤ n < 100 → contains_char "/" (pad2 n) = false.
Proof.
  intros H. unfold pad2. cbn [contains_char]. rewrite orb_false_r. apply orb_false_iff.
  split; apply bool_decide_eq_false; intros He; apply (f_equal digit_val) in He;
    rewrite digit_val_digit in He; try done; [split; [apply Z.div_pos|apply Z.div_lt_upper_bound]; lia|by apply Z.mod_pos_bound].
Qed.

Lemma target_swept o t seq :
  check_options o = None → so_Prefix o ≠ "/" → utc_4digit t → 0 ≤ seq → swept o (target o t seq) = true.
Proof.
  intros Ho Hp [Hoff Hy] Hq. unfold swept, target, target_dir, stamp, civil. unfold Year in Hy. rewrite Hoff, Z.add_0_r in Hy.
  pose proof (civil_roundtrip (t_ns t / day_ns)) as Hc. destruct (civil_of_days (t_ns t / day_ns)) as [[y m] d].
  destruct Hc as [_ [Hm Hd]]. set (s := t_ns t mod day_ns / Second).
  assert (0 ≤ s < 86400) as Hs.
  { unfold s. pose proof (Z.mod_pos_bound (t_ns t) day_ns eq_refl). split; [apply Z.div_pos; [lia|done]|].
    apply Z.div_lt_upper_bound; [done|]. unfold day_ns, Second in *. lia. }
  assert (d < 100) as Hd' by (unfold days_in in Hd; repeat case_match; lia).
  assert (file_prefix o = so_Prefix o) as -> by (unfold file_prefix; by rewrite bool_decide_false).
  assert (contains_char "/" (so_Prefix o) = false) as Hns.
  { unfold check_options in Ho. destruct (contains_char "/" (so_Prefix o)); [|done]. rewrite (bool_decide_false (so_Prefix o = "/")) in Ho by done.
    cbn [negb andb] in Ho. rewrite orb_true_r in Ho. cbn [orb] in Ho. by case_bool_decide. }
  unfold fmt_year. rewrite (proj2 (Z.ltb_ge y 0)) by lia. rewrite base_app.
  - unfold finalized_name. rewrite strip_prefix_app. apply stamp_rest; lia.
  - rewrite !contains_char_app, Hns.
    assert (contains_char "/" (pad4 y) = false) as ->.
    { unfold pad4. rewrite (proj2 (Z.ltb_lt y 10000)) by lia. rewrite contains_char_app, !contains_char_pad2;
        [done|pose proof (Z.mod_pos_bound y 100); lia|split; [apply Z.div_pos|apply Z.div_lt_upper_bound]; lia]. }
    rewrite !contains_char_pad2, format_int_no_char; try done; try lia;
      first [pose proof (Z.mod_pos_bound s 60); lia|pose proof (Z.mod_pos_bound (s / 60) 60); lia|idtac].
    split; [apply Z.div_pos|apply Z.div_lt_upper_bound]; lia.
Qed.

(** A compression changes the plain file and its compressed form only. *)
Lemma compress_other r path f p : p ≠ path → p ≠ path +:+ ".gz" → compress r path f !! p = f !! p.
Proof.
  intros H1 H2. unfold compress. destruct (f !! path); [|done].
  destruct r; rewrite ?lookup_delete_ne by done; [done|..]; (case_bool_decide; [done|by rewrite lookup_insert_ne]).
Qed.

Lemma compress_all path f : compress Compressed path f !! path = None.
Proof. unfold compress. destruct (f !! path) eqn:E; [by rewrite lookup_delete_eq|done]. Qed.

(** The plain files of another prefix survive a sweep, those of this one do not. *)
Lemma sweep_other o e f p :
  last_char "x"%char p = "l"%char → swept o p = false → sweep o e f !! p = f !! p.
Proof.
  intros Hl Hs. unfold sweep. case_bool_decide; [|done].
  assert (Forall (λ q, swept o q = true) (filter (λ path, swept o path = true) (elements (dom f)))) as Hall
    by (apply Forall_forall; by intros q [H' _]%list_elem_of_filter).
  induction Hall as [|q l Hq _ IH]; [done|]. cbn [foldr]. rewrite compress_other; [done|congruence|]. by eapply gz_ne.
Qed.

Lemma compress_fold o e l f p :
  (∀ q, io_sweep e q = Compressed) → swept o p = true → (f !! p = None ∨ p ∈ l) →
  foldr (λ path f, compress (io_sweep e path) path f) f l !! p = None.
Proof.
  intros He Hs Hp. induction l as [|q l IH]; [by destruct Hp as [?|[]%not_elem_of_nil]|]. cbn [foldr]. rewrite He.
  destruct (decide (p = q)) as [->|Hne]; [apply compress_all|].
  rewrite compress_other; [|done|exact (gz_ne p q _ (swept_last o p "x"%char Hs))].
  apply IH. destruct Hp as [?|[?|?]%elem_of_cons]; [by left|done|by right].
Qed.

Lemma sweep_all o e f p :
  so_Compress o = CompressGzip → (∀ q, io_sweep e q = Compressed) → swept o p = true → sweep o e f !! p = None.
Proof.
  intros Hc He Hs. unfold sweep. rewrite bool_decide_true by done. apply (compress_fold o); [done..|].
  destruct (f !! p) as [c|] eqn:Ef; [right|by left].
  apply list_elem_of_filter. split; [done|]. apply elem_of_elements, elem_of_dom. by eexists.
Qed.

(** Finalizing leaves the files that were there. *)
Lemma finalize_other o e s ts s' err p c :
  finalize o e s ts = (s', err) → last_char "x"%char p = "l"%char →
  d_finals (s_disk s) !! p = Some c → d_finals (s_disk s') !! p = Some c.
Proof.
  unfold finalize. cbv zeta. intros H Hl Hp. destruct (_ && negb (io_fstat e)); [by simplify_eq|].
  destruct (negb (io_mkdir e)); [by simplify_eq|]. destruct (free_seq _ _ _ _ _) as [seq|] eqn:E; [|by simplify_eq].
  apply free_seq_free in E. set (path := target o _ seq) in *.
  destruct (negb (io_rename e)); [injection H as <- <-; done|]. injection H as <- <-. cbn [with_disk s_disk d_finals].
  assert (p ≠ path) as Hne.
  { intros ->. unfold taken in E. rewrite bool_decide_true in E by (by eexists). done. }
  case_bool_decide; [rewrite compress_other; [|done|exact (gz_ne p path _ Hl)]|]; by rewrite lookup_insert_ne.
Qed.

Lemma recover_part_other o e s s' err p c :
  recover_part o e s = (s', err) → last_char "x"%char p = "l"%char →
  d_finals (s_disk s) !! p = Some c → d_finals (s_disk s') !! p = Some c.
Proof.
  unfold recover_part. intros H Hl Hp. destruct (d_part (s_disk s)) as [content|]; [|by destruct (io_rstat e); injection H as <- <-].
  destruct (negb (io_rstat e)); [by injection H as <- <-|]. destruct (cutPartialLine e content) as [content' [n|]]; [|by injection H as <- <-].
  destruct (n =? 0); [by destruct (io_remove e); injection H as <- <-|].
  destruct (finalize o e _ zero_time) as [s2 err2] eqn:E. eapply finalize_other in E; [|done..].
  by destruct err2; injection H as <- <-.
Qed.

Lemma recover_part_calm o e s : calm e → numbered s → snd (recover_part o e s) = None.
Proof.
  intros Hc Hn. unfold recover_part. pose proof Hc as Hc'. use_calm Hc'. destruct (d_part (s_disk s)) as [content|]; [|done].
  cbn [negb]. destruct (cut_calm e content Hc) as [n Hcut]. destruct (cutPartialLine e content) as [content' r].
  cbn [snd] in Hcut. subst r. destruct (n =? 0); [done|].
  match goal with |- context [finalize o e ?s1 zero_time] => pose proof (finalize_calm o e s1 zero_time Hc Hn) as Hf;
    destruct (finalize o e s1 zero_time) as [s2 err2] end.
  cbn [snd] in Hf. by subst err2.
Qed.

Lemma OpenStore_calm o e d :
  check_options o = None → calm e → Z.of_nat (S (size (d_finals d))) ≤ int64_max →
  ∃ s, OpenStore o e d = (s_disk s, Ok s) ∧ s_closed s = false ∧ d_part (s_disk s) = None ∧
    (so_Compress o = CompressGzip → (∀ p, io_sweep e p = Compressed) →
       ∀ p, swept o p = true → d_finals (s_disk s) !! p = None) ∧
    (∀ o' p c, so_Prefix o' ≠ so_Prefix o → swept o' p = true → d_finals d !! p = Some c →
       d_finals (s_disk s) !! p = Some c).
Proof.
  intros Ho Hc Hn. unfold OpenStore. rewrite Ho. pose proof Hc as Hc'. use_calm Hc'. cbn [negb].
  set (s0 := mkStore false 0 zero_time zero_time 0 false None d). unfold recover.
  assert (numbered s0) as Hn0 by (split; [done|]; cbn [s_seq s_disk s0]; lia).
  pose proof (recover_part_calm o e s0 Hc Hn0) as He. destruct (recover_part o e s0) as [s1 err1] eqn:E. cbn [snd] in He. subst err1.
  destruct (recover_part_spec _ _ _ _ _ E eq_refl) as (_ & _ & Hcl & Hp). cbv iota beta. rewrite Hcalm14. cbn [negb].
  eexists. split; [reflexivity|]. split_and!; [done|by apply Hp|..].
  - intros Hz Hs p Hsw. by apply sweep_all.
  - intros o' p c Hne Hsw Hf. change (sweep o e (d_finals (s_disk s1)) !! p = Some c).
    assert (last_char "x"%char p = "l"%char) as Hl by (by eapply swept_last).
    rewrite sweep_other; [by eapply recover_part_other|done|].
    destruct (swept o p) eqn:E'; [|done]. exfalso. apply Hne. by eapply finalized_name_inj.
Qed.

(** ** Properties *)

(** C7: an acknowledged event is never lost.  With time rotation on, start from any files
    (a file both plain and compressed being the same in both), and run the store through any
    sequence of appends, closes, stops, crashes in the middle of an append or of a close, and
    recoveries, with any calls failing, any part of a write landing and any compression stopping
    half way: every event whose [Append] returned no error is, at the end, the complete line
    [Encode] made of it, in the part file or in a finalized file; and so is every complete line
    there was at the start. *)
Theorem acked_kept o d ops w acked :
  0 < so_RotateEvery o → paired o d → node_run o (Down d) ops = (w, acked) →
  keeps d (node_disk w) ∧
  ∀ env, env ∈ acked → ∃ line, Encode env = Ok line ∧ held (node_disk w) line.
Proof. intros Hr Hp H. by apply node_run_spec in H as (_ & Hk & Ha). Qed.

(** A refused event can be retried.  Whatever failed before, an open store whose calls now
    succeed accepts the event, and its line is on disk. *)
Lemma Append_retry o d ops s acked e env line :
  0 < so_RotateEvery o → paired o d → node_run o (Down d) ops = (Up s, acked) → s_closed s = false → numbered s →
  calm e → Encode env = Ok line →
  ∃ s', Append o e s None env = (s', None) ∧ held (s_disk s') line.
Proof.
  intros Hr Hp H Hcl Hn Hc He. apply node_run_spec in H as ([_ Hi] & _); [|done..].
  pose proof (append_calm o e s line (e_ReceivedAt env) Hc Hi Hn Hcl) as Ha.
  destruct (append_line o e s line (e_ReceivedAt env)) as [s' err] eqn:E. cbn [snd] in Ha. subst err.
  exists s'. unfold Append. rewrite He, E. split; [done|].
  apply append_spec in E as (_ & _ & Hh); [by apply Hh|done..|by eapply Encode_is_line].
Qed.

(** C34: a restart repairs any files.  With its calls succeeding, [OpenStore] turns whatever a
    crash left into a store with no part file; with compression on, no plain finalized file of
    its prefix is left; and plain files of every other prefix in the same directory, also of
    one that extends this one with a dash and digits, are as they were. *)
Theorem OpenStore_recovers o e d :
  check_options o = None → calm e → Z.of_nat (S (size (d_finals d))) ≤ int64_max →
  ∃ s, OpenStore o e d = (s_disk s, Ok s) ∧ s_closed s = false ∧ d_part (s_disk s) = None ∧
    (so_Compress o = CompressGzip → (∀ p, io_sweep e p = Compressed) →
       ∀ p, swept o p = true → d_finals (s_disk s) !! p = None) ∧
    (∀ o' p c, so_Prefix o' ≠ so_Prefix o → swept o' p = true → d_finals d !! p = Some c →
       d_finals (s_disk s) !! p = Some c).
Proof. apply OpenStore_calm. Qed.

(** ** Witnesses *)

Definition ex_t : Time := mkTime (unix_epoch_ns + 1700000000 * Second) 0.

Definition calm_env : ioEnv :=
  {| io_now := ex_t; io_modtime := ex_t; io_open := true; io_stat := true; io_read := true; io_close := true;
     io_rstat := true; io_cut_open := true; io_cut_truncate := true; io_cut_sync := true; io_remove := true;
     io_fstat := true; io_mkdir := true; io_rename := true; io_compress := Compressed; io_walk := true;
     io_sweep := λ _, Compressed; io_reopen := true; io_restat := true; io_written := 0; io_write := true;
     io_sync := true; io_truncate := true |}.

(** The write fails after three bytes, and so does the truncation that should cut them. *)
Definition torn_env : ioEnv :=
  {| io_now := ex_t; io_modtime := ex_t; io_open := true; io_stat := true; io_read := true; io_close := true;
     io_rstat := true; io_cut_open := true; io_cut_truncate := true; io_cut_sync := true; io_remove := true;
     io_fstat := true; io_mkdir := true; io_rename := true; io_compress := BothKept; io_walk := true;
     io_sweep := λ _, BothKept; io_reopen := true; io_restat := true; io_written := 3; io_write := false;
     io_sync := true; io_truncate := false |}.

Definition ex_opts (every : Z) : StoreOptions := mkStoreOptions "/d" "raw" CompressGzip 0 every.

(** An append that is torn, its retry, and a crash in the middle of another append. *)
Definition ex_ops : list op :=
  [OOpen calm_env; OAppend calm_env None ex_archived_env; OAppend torn_env None ex_archived_env;
   OAppend calm_env None ex_archived_env; OCrashAppend torn_env ex_archived_env; OOpen calm_env].

Definition no_files : disk := mkDisk None ∅.

Lemma no_files_paired : paired (ex_opts 1) no_files.
Proof. intros p _ c c' H. cbn [no_files d_finals] in H. by rewrite lookup_empty in H. Qed.

Definition ex_end : node * list Envelope := node_run (ex_opts 1) (Down no_files) ex_ops.

Lemma acked_kept_witness :
  snd ex_end = [ex_archived_env; ex_archived_env] ∧
  keeps no_files (node_disk (fst ex_end)) ∧
  ∃ line, Encode ex_archived_env = Ok line ∧ held (node_disk (fst ex_end)) line.
Proof.
  assert (snd ex_end = [ex_archived_env; ex_archived_env]) as Ha by (vm_compute; reflexivity).
  destruct (acked_kept (ex_opts 1) no_files ex_ops (fst ex_end) (snd ex_end) eq_refl no_files_paired (surjective_pairing _)) as [Hk Hh].
  split_and!; [exact Ha|exact Hk|]. apply Hh. rewrite Ha. apply list_elem_of_here.
Defined.

Definition ex_up : node * list Envelope := node_run (ex_opts 1) (Down no_files) [OOpen calm_env; OAppend torn_env None ex_archived_env].

Definition ex_store : store := match fst ex_up with Up s => s | Down d => mkStore false 0 zero_time zero_time 0 true None d end.

Lemma ex_up_ok : ex_up = (Up ex_store, []).
Proof. vm_compute. reflexivity. Qed.

Lemma Append_retry_witness : ∃ s', Append (ex_opts 1) calm_env ex_store None ex_archived_env = (s', None) ∧ held (s_disk s') ex_line.
Proof.
  apply (Append_retry (ex_opts 1) no_files [OOpen calm_env; OAppend torn_env None ex_archived_env] ex_store [] calm_env ex_archived_env ex_line).
  - reflexivity.
  - exact no_files_paired.
  - exact ex_up_ok.
  - vm_compute. reflexivity.
  - split; vm_compute; discriminate.
  - repeat constructor.
  - exact ex_line_ok.
Defined.

(** Without time rotation the torn bytes stay in front of the retried line: the event is
    acknowledged and no file holds its line. *)
Lemma torn_line_merged :
  let '(w, acked) := node_run (ex_opts 0) (Down no_files)
    [OOpen calm_env; OAppend torn_env None ex_archived_env; OAppend calm_env None ex_archived_env] in
  acked = [ex_archived_env] ∧ ¬ held (node_disk w) ex_line.
Proof.
  destruct (node_run _ _ _) as [w acked] eqn:E. vm_compute in E. injection E as <- <-. split; [reflexivity|].
  intros [H|(p & c & H & _)]; [|done]. apply (bool_decide_eq_true_2 _) in H. vm_compute in H. discriminate.
Qed.

Lemma OpenStore_recovers_witness :
  let d := mkDisk (Some (ex_line +:+ "{")) {["raw-20231114T221320Z-1.jsonl" := ex_line; "raw-2-20231114T221320Z-1.jsonl" := ex_line]} in
  ∃ s, OpenStore (ex_opts 1) calm_env d = (s_disk s, Ok s) ∧ d_part (s_disk s) = None ∧
    d_finals (s_disk s) !! "raw-20231114T221320Z-1.jsonl" = None ∧
    d_finals (s_disk s) !! "raw-2-20231114T221320Z-1.jsonl" = Some ex_line.
Proof.
  intros d. destruct (OpenStore_recovers (ex_opts 1) calm_env d) as (s & H1 & _ & H2 & H3 & H4).
  - reflexivity.
  - repeat constructor.
  - vm_compute. discriminate.
  - exists s. split; [exact H1|]. split; [exact H2|]. split.
    + apply H3; [reflexivity..|]. vm_compute. reflexivity.
    + apply (H4 (mkStoreOptions "/d" "raw-2" CompressGzip 0 1)); [discriminate|vm_compute; reflexivity..].
Defined.
