(* ===== verification/Compress.v ===== *)
(** * [internal/sink/archive/jsonl.go]: compressing a finalized file

    [compress], [writeGzip], [syncDir] and [sweep] call by call, over directory entries and inodes
    that a loss of power may take back.  Store.v has a compression as one step with three possible
    outcomes; here is why that is all it can be.  The gzip format is two arguments; a file that was
    not synced may hold anything after a loss of power, and the entries of the directory are those
    of some moment since it was last synced. *)

From S2P Require Import Prelude.
From S2P Require Import Errors.
From S2P Require Import GoText.
From S2P Require Import ByteSize.
From S2P Require Import Archive.
From S2P Require Import Store.

Local Open Scope Z_scope.

Definition GzipExtension : string := ".jsonl.gz".
Definition tmpSuffix : string := ".tmp".

(** ** Files *)

Record inode := mkInode { i_data : string; i_safe : bool (* synced since it was written *) }.

(** [f_olds] are the directories a loss of power may bring back, the latest first. *)
Record fs := mkFs { f_dir : gmap string nat; f_olds : list (gmap string nat); f_nodes : gmap nat inode }.

Definition hist (s : fs) : list (gmap string nat) := f_dir s :: f_olds s.

Definition set_dir (m : gmap string nat) (s : fs) : fs := mkFs m (hist s) (f_nodes s).
Definition set_node (i : nat) (n : inode) (s : fs) : fs := mkFs (f_dir s) (f_olds s) (<[i := n]> (f_nodes s)).
Definition sync_dir (s : fs) : fs := mkFs (f_dir s) [] (f_nodes s).
Definition unlink (name : string) (s : fs) : fs := set_dir (delete name (f_dir s)) s.

(** [os.OpenFile] with [O_CREATE|O_TRUNC]: the file and the files of the directory. *)
Definition create (name : string) (s : fs) : nat * fs :=
  match f_dir s !! name with
  | Some i => (i, set_node i (mkInode "" false) s)
  | None => let i := fresh (dom (f_nodes s)) in (i, set_node i (mkInode "" false) (set_dir (<[name := i]> (f_dir s)) s))
  end.

(** ** Programs that keep the states they pass through *)

Definition M (A : Type) : Type := fs → list fs * fs * A.

#[export] Instance M_ret : MRet M := λ A a s, ([], s, a).
#[export] Instance M_bind : MBind M := λ A B f m s, let '(l, s1, a) := m s in let '(l', s2, b) := f a s1 in ((l ++ l')%list, s2, b).

Definition get : M fs := λ s, ([], s, s).
Definition effect (f : fs → fs) : M () := λ s, ([f s], f s, ()).

(** ** The calls of one compression: [true] is success *)

Record gzEnv := mkGzEnv {
  g_stat : bool;                             (* exists sees the file *)
  g_open : bool; g_create : bool;
  g_copied : option string;                  (* what a failed io.Copy or Close of the writer left *)
  g_sync : bool; g_close : bool;
  g_clean : bool;                            (* removing the temporary file *)
  g_rename : bool; g_fsync : bool; g_remove : bool; g_fsync2 : bool }.

Section Compress.
Variable gzip : string → string → string.    (* the name in the header, the data *)
Variable gunzip : string → option string.

Definition contents (i : nat) (s : fs) : string := from_option i_data "" (f_nodes s !! i).

Definition failed : error := errorf "io".

(** [writeGzip] *)
Definition writeGzip (e : gzEnv) (src dst : string) : M (option error) :=
  s ← get;
  match f_dir s !! src with
  | None => mret (Some failed)
  | Some i =>
      if negb (g_open e) || negb (g_create e) then mret (Some failed)
      else
        let '(j, s1) := create dst s in
        effect (const s1);;
        match g_copied e with
        | Some partial => effect (set_node j (mkInode partial false));; mret (Some failed)
        | None =>
            let out := gzip (base src) (contents i s) in
            effect (set_node j (mkInode out false));;
            if negb (g_sync e) then mret (Some failed)
            else effect (set_node j (mkInode out true));; mret (if g_close e then None else Some failed)
        end
  end.

(** [os.Remove] of a file: [ok] is whether the call works where the file is. *)
Definition remove (ok : bool) (name : string) : M (option error) :=
  s ← get;
  if ok && bool_decide (is_Some (f_dir s !! name)) then effect (unlink name);; mret None else mret (Some failed).

(** [os.Rename] *)
Definition rename (ok : bool) (old new : string) : M (option error) :=
  s ← get;
  match f_dir s !! old with
  | Some i => if ok then effect (set_dir (<[new := i]> (delete old (f_dir s))));; mret None else mret (Some failed)
  | None => mret (Some failed)
  end.

Definition syncDir (ok : bool) : M (option error) :=
  if ok then effect sync_dir;; mret None else mret (Some failed).

(** The part of [compress] for a file not yet compressed. *)
Definition write_gz (e : gzEnv) (plain gzPath : string) : M (option error) :=
  let tmp := gzPath +:+ tmpSuffix in
  err ← writeGzip e plain tmp;
  match err with
  | Some err => remove (g_clean e) tmp;; mret (Some err)
  | None =>
      err ← rename (g_rename e) tmp gzPath;
      match err with
      | Some err => remove (g_clean e) tmp;; mret (Some err)
      | None => err ← syncDir (g_fsync e); mret (EWrap "fsync" <$> err)
      end
  end.

Definition compress (e : gzEnv) (plain : string) : M (option error) :=
  let gzPath := plain +:+ ".gz" in
  s ← get;
  let exists_ := g_stat e && bool_decide (is_Some (f_dir s !! gzPath)) in
  err ← (if exists_ : bool then mret None else write_gz e plain gzPath);
  match err with
  | Some err => mret (Some err)
  | None =>
      err ← remove (g_remove e) plain;
      match err with
      | Some err => mret (Some err)
      | None => syncDir (g_fsync2 e);; mret None
      end
  end.

(** [sweep] over the paths its walk collected. *)
Fixpoint remove_all (ok : string → bool) (paths : list string) : M (option error) :=
  match paths with
  | [] => mret None
  | path :: paths =>
      err ← remove (ok path) path;
      match err with Some err => mret (Some err) | None => remove_all ok paths end
  end.

Fixpoint compress_each (e : string → gzEnv) (paths : list string) : M () :=
  match paths with
  | [] => mret ()
  | path :: paths => compress (e path) path;; compress_each e paths
  end.

Definition sweep (compression : string) (ok : string → bool) (e : string → gzEnv) (interrupted plain : list string) : M (option error) :=
  err ← remove_all ok interrupted;
  match err with
  | Some err => mret (Some err)
  | None => if bool_decide (compression = CompressGzip) then compress_each e plain;; mret None else mret None
  end.

(** ** A loss of power *)

(** What was synced is kept, of the rest anything. *)
Definition nodes_kept (x y : fs) : Prop :=
  ∀ i n, f_nodes x !! i = Some n → ∃ n', f_nodes y !! i = Some n' ∧ (i_safe n = true → n' = n).

(** The entries are those of one moment, as a journal gives them; or each of its own moment. *)
Definition power_loss (x y : fs) : Prop := nodes_kept x y ∧ f_dir y ∈ hist x ∧ f_olds y = [].
Definition power_loss_unordered (x y : fs) : Prop :=
  nodes_kept x y ∧ (∀ name, ∃ m, m ∈ hist x ∧ f_dir y !! name = m !! name) ∧ f_olds y = [].

(** ** What a reader of the archive sees *)

Definition is_tmp (name : string) : bool := HasSuffix name tmpSuffix.

Definition shown (name data : string) : option string :=
  if HasSuffix name ".gz" then gunzip data else Some data.

Definition seen (nodes : gmap nat inode) (name : string) (i : nat) : option string :=
  if is_tmp name then None else n ← nodes !! i; shown name (i_data n).

Definition view (s : fs) (m : gmap string nat) : gmap string string := map_imap (seen (f_nodes s)) m.
Definition view_now (s : fs) : gmap string string := view s (f_dir s).
Definition views (s : fs) : list (gmap string string) := view s <$> hist s.

(** ** Triples over the states a program passes through *)

Definition triple {A} (I : fs → Prop) (P : fs → Prop) (m : M A) (Q : A → fs → Prop) : Prop :=
  ∀ s, I s → P s → let '(l, s', a) := m s in Forall I l ∧ I s' ∧ Q a s'.

Section Triple.
Variable I : fs → Prop.

Lemma triple_ret {A} (a : A) (P : fs → Prop) (Q : A → fs → Prop) : (∀ s, P s → Q a s) → triple I P (mret a) Q.
Proof. intros H s Hi Hp. cbn. split_and!; [constructor|done|by apply H]. Qed.

Lemma triple_bind {A B} (m : M A) (f : A → M B) P R Q :
  triple I P m R → (∀ a, triple I (R a) (f a) Q) → triple I P (m ≫= f) Q.
Proof.
  intros Hm Hf s Hi Hp. cbv [mbind M_bind]. specialize (Hm s Hi Hp). destruct (m s) as [[l s1] a]. destruct Hm as (Hl & Hi1 & Hr).
  specialize (Hf a s1 Hi1 Hr). destruct (f a s1) as [[l' s2] b]. destruct Hf as (Hl' & Hi2 & Hq). split_and!; [by apply Forall_app|done..].
Qed.

Lemma triple_get P (Q : fs → fs → Prop) : (∀ s, I s → P s → Q s s) → triple I P get Q.
Proof. intros H s Hi Hp. cbn. split_and!; [constructor|done|by apply H]. Qed.

Lemma triple_effect f P (Q : () → fs → Prop) : (∀ s, I s → P s → I (f s) ∧ Q () (f s)) → triple I P (effect f) Q.
Proof. intros H s Hi Hp. destruct (H s Hi Hp). cbn. split_and!; [by constructor|done..]. Qed.

Lemma triple_assume {A} (φ : Prop) (m : M A) P Q : (∀ s, I s → P s → φ) → (φ → triple I P m Q) → triple I P m Q.
Proof. intros Hφ H s Hi Hp. by apply (H (Hφ s Hi Hp)). Qed.

Lemma triple_weaken {A} (m : M A) (P P' : fs → Prop) (Q Q' : A → fs → Prop) :
  triple I P m Q → (∀ s, P' s → P s) → (∀ a s, Q a s → Q' a s) → triple I P' m Q'.
Proof. intros H HP HQ s Hi Hp. specialize (H s Hi (HP s Hp)). destruct (m s) as [[l s'] a]. destruct H as (? & ? & ?). auto. Qed.
End Triple.

(** ** Sound files *)

(** In every directory that may come back, a file has one name; what a reader looks at is there,
    synced and readable; and what is still being written is under no other name. *)
Record sound (s : fs) : Prop := {
  so_inj m a b i : m ∈ hist s → m !! a = Some i → m !! b = Some i → a = b;
  so_known m n i : m ∈ hist s → m !! n = Some i →
    ∃ node, f_nodes s !! i = Some node ∧ (is_tmp n = false → i_safe node = true ∧ is_Some (shown n (i_data node)));
  so_excl t i m n : f_dir s !! t = Some i → is_tmp t = true → m ∈ hist s → is_tmp n = false → m !! n ≠ Some i }.

Lemma view_lookup s m n : view s m !! n = m !! n ≫= seen (f_nodes s) n.
Proof. apply map_lookup_imap. Qed.

Lemma view_dom s m n : sound s → m ∈ hist s → is_tmp n = false → is_Some (view s m !! n) ↔ is_Some (m !! n).
Proof.
  intros Hs Hm Hn. rewrite view_lookup. destruct (m !! n) as [i|] eqn:E; [|by split; intros [? ?]].
  destruct (so_known _ Hs m n i Hm E) as (node & Hnode & Hk). destruct (Hk Hn) as [_ Hsh]. cbn. unfold seen. rewrite Hn, Hnode.
  cbn. split; eauto.
Qed.

Lemma view_set_node s tmp j n m :
  sound s → f_dir s !! tmp = Some j → is_tmp tmp = true → m ∈ hist s → view (set_node j n s) m = view s m.
Proof.
  intros Hs Hj Ht Hm. apply map_eq. intros x. rewrite !view_lookup. destruct (m !! x) as [i|] eqn:E; [|done]. cbn.
  unfold seen. destruct (is_tmp x) eqn:Hx; [done|]. cbn [set_node f_nodes]. rewrite lookup_insert_ne; [done|].
  intros <-. by eapply so_excl.
Qed.

Lemma set_node_sound s tmp j n :
  sound s → f_dir s !! tmp = Some j → is_tmp tmp = true → sound (set_node j n s) ∧ views (set_node j n s) = views s.
Proof.
  intros Hs Hj Ht. split.
  - split; [apply Hs| |apply Hs]. intros m x i Hm Hx. cbn [set_node f_nodes]. destruct (decide (i = j)) as [->|Hne].
    + exists n. rewrite lookup_insert_eq. split; [done|]. intros Hn. exfalso. by eapply so_excl.
    + rewrite lookup_insert_ne by done. by eapply so_known.
  - unfold views. change (hist (set_node j n s)) with (hist s). apply list_fmap_ext. intros k m Hm%list_elem_of_lookup_2. by eapply view_set_node.
Qed.

(** A change of the directory. *)
Lemma views_set_dir s m : views (set_dir m s) = view s m :: views s.
Proof. done. Qed.

Lemma hist_set_dir s m m' : m' ∈ hist (set_dir m s) ↔ m' = m ∨ m' ∈ hist s.
Proof. unfold hist, set_dir. cbn. by rewrite elem_of_cons. Qed.

Lemma dir_hist s : f_dir s ∈ hist s.
Proof. left. Qed.

Lemma unlink_sound s name : sound s → sound (unlink name s).
Proof.
  intros Hs. unfold unlink. split.
  - intros m a b i [->|Hm]%hist_set_dir Ha Hb; [|by eapply so_inj].
    apply lookup_delete_Some in Ha as [_ Ha], Hb as [_ Hb]. eapply so_inj; [done|apply dir_hist|done..].
  - intros m n i [->|Hm]%hist_set_dir Hn; [|exact (so_known _ Hs _ _ _ Hm Hn)]. apply lookup_delete_Some in Hn as [_ Hn].
    exact (so_known _ Hs _ _ _ (dir_hist s) Hn).
  - intros t i m n Ht Htt Hm Hn. cbn [set_dir f_dir] in Ht. apply lookup_delete_Some in Ht as [_ Ht].
    apply hist_set_dir in Hm as [->|Hm]; [|by eapply so_excl]. intros [_ H]%lookup_delete_Some.
    exact (so_excl _ Hs _ _ _ _ Ht Htt (dir_hist s) Hn H).
Qed.

Lemma view_unlink s name : view_now (unlink name s) = delete name (view_now s).
Proof.
  apply map_eq. intros x. unfold view_now. rewrite view_lookup. cbn. destruct (decide (x = name)) as [->|Hne].
  - by rewrite !lookup_delete_eq.
  - by rewrite !lookup_delete_ne, view_lookup by done.
Qed.

Lemma view_tmp s m name : is_tmp name = true → view s m !! name = None.
Proof. intros Ht. rewrite view_lookup. destruct (m !! name); [|done]. cbn. unfold seen. by rewrite Ht. Qed.

Lemma sync_sound s : sound s → sound (sync_dir s).
Proof.
  intros Hs. assert (∀ m, m ∈ hist (sync_dir s) → m ∈ hist s) as Hh by (intros m ->%list_elem_of_singleton; exact (dir_hist s)).
  split.
  - intros m a b i Hm%Hh. by apply (so_inj _ Hs).
  - intros m n i Hm%Hh. by apply (so_known _ Hs).
  - intros t i m n Ht Htt Hm%Hh. by apply (so_excl _ Hs t).
Qed.

(** The inode of a new temporary file is no other's. *)
Lemma create_sound s name j s1 :
  sound s → is_tmp name = true → create name s = (j, s1) →
  sound s1 ∧ f_dir s1 !! name = Some j ∧ view_now s1 = view_now s ∧
  (views s1 = views s ∨ views s1 = view_now s :: views s).
Proof.
  intros Hs Ht. unfold create. destruct (f_dir s !! name) as [i|] eqn:E.
  { intros [= <- <-]. destruct (set_node_sound s name i (mkInode "" false) Hs E Ht) as [Hs1 Hv]. split_and!; [done..| |by left].
    by injection Hv. }
  set (k := fresh (dom (f_nodes s))). intros [= <- <-].
  assert (f_nodes s !! k = None) as Hk by (apply not_elem_of_dom, is_fresh).
  assert (∀ m n i, m ∈ hist s → m !! n = Some i → i ≠ k) as Hno.
  { intros m n i Hm Hn ->. destruct (so_known _ Hs m n k Hm Hn) as (node & Hnode & _). congruence. }
  set (s1 := set_node k (mkInode "" false) (set_dir (<[name := k]> (f_dir s)) s)).
  assert (∀ m, m ∈ hist s → view s1 m = view s m) as Hview.
  { intros m Hm. apply map_eq. intros x. rewrite !view_lookup. destruct (m !! x) as [i|] eqn:Ex; [|done]. cbn. unfold seen.
    cbn [s1 set_node f_nodes]. rewrite lookup_insert_ne; [done|]. intros <-. by eapply Hno. }
  assert (view_now s1 = view_now s) as Hnow.
  { apply map_eq. intros x. unfold view_now. rewrite <- (Hview _ (dir_hist s)), !view_lookup. cbn [s1 set_node set_dir f_dir].
    destruct (decide (x = name)) as [->|Hx]; [|by rewrite lookup_insert_ne].
    rewrite lookup_insert_eq, E. cbn. unfold seen. by rewrite Ht. }
  split_and!; [|by cbn; rewrite lookup_insert_eq|done|right].
  2:{ change (view s1 (f_dir s1) :: (view s1 <$> hist s) = view_now s :: views s). f_equal; [exact Hnow|].
      apply list_fmap_ext. intros q m Hm%list_elem_of_lookup_2. by apply Hview. }
  assert (∀ m, m ∈ hist s1 → m = <[name := k]> (f_dir s) ∨ m ∈ hist s) as Hh by (intros m; by apply hist_set_dir).
  split.
  - intros m a b i [->|Hm]%Hh Ha Hb; [|exact (so_inj _ Hs _ _ _ _ Hm Ha Hb)].
    apply lookup_insert_Some in Ha as [[<- <-]|[Hna Ha]], Hb as [[<- Hkb]|[Hnb Hb]]; [done|..].
    + by apply Hno in Hb; [|apply dir_hist].
    + subst i. by apply Hno in Ha; [|apply dir_hist].
    + exact (so_inj _ Hs _ _ _ _ (dir_hist s) Ha Hb).
  - intros m n i Hm Hn. cbn [s1 set_node f_nodes set_dir]. destruct (decide (i = k)) as [->|Hne].
    + exists (mkInode "" false). rewrite lookup_insert_eq. split; [done|]. apply Hh in Hm as [->|Hm]; [|by apply Hno in Hn].
      intros Htn. apply lookup_insert_Some in Hn as [[<- _]|[_ Hn]]; [congruence|]. by apply Hno in Hn; [|apply dir_hist].
    + rewrite lookup_insert_ne by done. apply Hh in Hm as [->|Hm]; [|exact (so_known _ Hs _ _ _ Hm Hn)].
      apply lookup_insert_Some in Hn as [[_ ?]|[_ Hn]]; [congruence|]. exact (so_known _ Hs _ _ _ (dir_hist s) Hn).
  - intros t i m n Hti Htt Hm Htn Hn. cbn [s1 set_node set_dir f_dir] in Hti.
    assert (f_dir s !! n = Some i ∨ m ∈ hist s) as Hm'.
    { apply Hh in Hm as [->|Hm]; [left|by right]. apply lookup_insert_Some in Hn as [[<- _]|[_ Hn]]; [congruence|done]. }
    apply lookup_insert_Some in Hti as [[<- <-]|[_ Hti]].
    + destruct Hm' as [Hd|Hm']; [by apply (Hno _ _ _ (dir_hist s)) in Hd|by apply (Hno _ _ _ Hm') in Hn].
    + destruct Hm' as [Hd|Hm']; [exact (so_excl _ Hs _ _ _ _ Hti Htt (dir_hist s) Htn Hd)|exact (so_excl _ Hs _ _ _ _ Hti Htt Hm' Htn Hn)].
Qed.

(** A complete temporary file gets its name. *)
Lemma rename_sound s tmp new j data c :
  sound s → is_tmp tmp = true → is_tmp new = false → f_dir s !! tmp = Some j →
  f_nodes s !! j = Some (mkInode data true) → shown new data = Some c →
  let s1 := set_dir (<[new := j]> (delete tmp (f_dir s))) s in
  sound s1 ∧ view_now s1 = <[new := c]> (view_now s).
Proof.
  intros Hs Ht Hn Hj Hd Hc s1. set (m1 := <[new := j]> (delete tmp (f_dir s))) in *.
  assert (∀ m x i, m ∈ hist s → m !! x = Some i → is_tmp x = false → i ≠ j) as Hno.
  { intros m x i Hm Hx Hxt ->. exact (so_excl _ Hs _ _ _ _ Hj Ht Hm Hxt Hx). }
  assert (∀ x i, m1 !! x = Some i → x = new ∧ i = j ∨ x ≠ new ∧ x ≠ tmp ∧ i ≠ j ∧ f_dir s !! x = Some i) as Hm1.
  { intros x i [[<- <-]|[Hx [Hxt Hi]%lookup_delete_Some]]%lookup_insert_Some; [by left|right]. split_and!; [done..| |done].
    intros ->. apply Hxt. symmetry. exact (so_inj _ Hs _ _ _ _ (dir_hist s) Hi Hj). }
  split.
  - split.
    + intros m a b i [->|Hm]%hist_set_dir Ha Hb; [|exact (so_inj _ Hs _ _ _ _ Hm Ha Hb)].
      apply Hm1 in Ha as [[-> ->]|(? & ? & ? & Ha)], Hb as [[-> Hij]|(? & ? & ? & Hb)]; try done.
      exact (so_inj _ Hs _ _ _ _ (dir_hist s) Ha Hb).
    + intros m x i [->|Hm]%hist_set_dir Hx; [|exact (so_known _ Hs _ _ _ Hm Hx)].
      apply Hm1 in Hx as [[-> ->]|(_ & _ & _ & Hx)]; [|exact (so_known _ Hs _ _ _ (dir_hist s) Hx)].
      exists (mkInode data true). split; [done|]. intros _. split; [done|]. by exists c.
    + intros t i m x Hti Htt Hm Hxt Hx. apply Hm1 in Hti as [[-> _]|(_ & _ & Hij & Hti)]; [congruence|].
      apply hist_set_dir in Hm as [->|Hm]; [|exact (so_excl _ Hs _ _ _ _ Hti Htt Hm Hxt Hx)].
      apply Hm1 in Hx as [[_ ?]|(_ & _ & _ & Hx)]; [done|]. exact (so_excl _ Hs _ _ _ _ Hti Htt (dir_hist s) Hxt Hx).
  - apply map_eq. intros x. unfold view_now. rewrite view_lookup. cbn [s1 set_dir f_dir f_nodes]. unfold m1.
    destruct (decide (x = new)) as [->|Hx].
    + rewrite !lookup_insert_eq. cbn. unfold seen. by rewrite Hn, Hd.
    + rewrite !lookup_insert_ne by done. destruct (decide (x = tmp)) as [->|Hxt].
      * rewrite lookup_delete_eq, view_tmp by done. done.
      * by rewrite lookup_delete_ne, view_lookup by done.
Qed.

(** ** What one compression does to the directories that may come back *)

Section Moves.
Variables (plain : string) (existed : Prop).
Let gzPath := plain +:+ ".gz".

(** The plain file goes when its compressed form was there before, or is for good. *)
Inductive move : list (gmap string string) → list (gmap string string) → Prop :=
  | move_tmp v l : move (v :: l) (v :: v :: l)
  | move_publish v l c : v !! plain = Some c → move (v :: l) (<[gzPath := c]> v :: v :: l)
  | move_sync v l : move (v :: l) [v]
  | move_remove v l : is_Some (v !! gzPath) → existed ∨ l = [] → move (v :: l) (delete plain v :: v :: l).
End Moves.

(** The invariant of the states passed through. *)
Definition reached (plain : string) (existed : Prop) (start : list (gmap string string)) (s : fs) : Prop :=
  sound s ∧ rtc (move plain existed) start (views s).

Lemma reached_move plain existed start s s' :
  reached plain existed start s → sound s' → move plain existed (views s) (views s') → reached plain existed start s'.
Proof. intros [_ Hr] Hs Hm. split; [done|]. by eapply rtc_r. Qed.

Lemma HasSuffix_app p s : HasSuffix (s +:+ p) p = true.
Proof. unfold HasSuffix. by destruct (strip_suffix_app p s) as [r ->]. Qed.

Section Steps.
Variables (plain : string) (existed : Prop) (start : list (gmap string string)).
Let gzPath := plain +:+ ".gz".
Let tmp := gzPath +:+ tmpSuffix.
Hypothesis Hplain : last_char "x"%char plain = "l"%char.
Hypothesis gunzip_gzip : ∀ name data, gunzip (gzip name data) = Some data.
Notation I := (reached plain existed start).

Lemma tmp_is_tmp : is_tmp tmp = true.
Proof. apply HasSuffix_app. Qed.

Lemma not_suffix p s : last_char "x"%char s ≠ last_char "x"%char p → p ≠ "" → HasSuffix s p = false.
Proof.
  intros Hl Hp. unfold HasSuffix. destruct (strip_suffix p s) eqn:E; [|done]. apply strip_suffix_Some in E as ->.
  by rewrite last_char_suffix in Hl.
Qed.

Lemma gz_not_tmp : is_tmp gzPath = false.
Proof. apply not_suffix; [|done]. unfold gzPath. by rewrite last_char_suffix. Qed.

Lemma plain_not_tmp : is_tmp plain = false.
Proof. apply not_suffix; [|done]. by rewrite Hplain. Qed.

Lemma shown_plain data : shown plain data = Some data.
Proof. unfold shown. rewrite not_suffix; [done|by rewrite Hplain|done]. Qed.

Lemma shown_gz name data : shown gzPath (gzip name data) = Some data.
Proof. unfold shown, gzPath. by rewrite HasSuffix_app. Qed.

Lemma remove_tmp ok v : triple I (λ s, view_now s = v) (remove ok tmp) (λ _ s, view_now s = v).
Proof.
  unfold remove. eapply triple_bind; [by apply (triple_get _ _ (λ s0 s, s = s0 ∧ view_now s = v))|]. intros s0.
  destruct (_ && _); [|apply triple_ret; by intros s [-> ?]]. eapply triple_bind; [|intros ?; by apply (triple_ret _ _ (λ s, view_now s = v))].
  apply triple_effect. intros s Hi [-> Hv]. assert (view_now (unlink tmp s0) = view_now s0) as Hu.
  { rewrite view_unlink. apply delete_id, view_tmp, tmp_is_tmp. }
  split; [|by rewrite Hu]. eapply reached_move; [done|apply unlink_sound, Hi|].
  change (move plain existed (view_now s0 :: (view s0 <$> f_olds s0)) (view_now (unlink tmp s0) :: views s0)). rewrite Hu. constructor.
Qed.

Lemma view_plain s i : sound s → f_dir s !! plain = Some i → view_now s !! plain = Some (contents i s).
Proof.
  intros Hs Hi. destruct (so_known _ Hs _ _ _ (dir_hist s) Hi) as (node & Hnode & _). unfold view_now, contents. rewrite view_lookup, Hi, Hnode.
  cbn. unfold seen. rewrite plain_not_tmp, Hnode. apply shown_plain.
Qed.

(** The file being written is at [j], and the reader sees [v]. *)
Definition writing (v : gmap string string) (j : nat) (s : fs) : Prop := view_now s = v ∧ f_dir s !! tmp = Some j.

Lemma write_tmp v j n : triple I (writing v j) (effect (set_node j n)) (λ _ s, writing v j s ∧ f_nodes s !! j = Some n).
Proof.
  apply triple_effect. intros s [Hs Hr] [Hv Hj]. destruct (set_node_sound s tmp j n Hs Hj tmp_is_tmp) as [Hs' Hv'].
  split; [split; [done|by rewrite Hv']|]. split; [split; [|done]|by cbn; rewrite lookup_insert_eq]. rewrite <- Hv. by injection Hv'.
Qed.

Lemma create_tmp v s0 j s1 :
  create tmp s0 = (j, s1) → triple I (λ s, s = s0 ∧ view_now s = v) (effect (const s1)) (λ _, writing v j).
Proof.
  intros Hc. apply triple_effect. intros s [Hs Hr] [-> Hv].
  destruct (create_sound s0 tmp j s1 Hs tmp_is_tmp Hc) as (Hs1 & Hj & Hnow & Hvs). unfold const.
  split; [split; [done|]|split; [congruence|done]]. destruct Hvs as [-> | ->]; [done|]. eapply rtc_r; [exact Hr|]. apply move_tmp.
Qed.

(** The temporary file is complete and synced when it is written. *)
Definition complete_tmp (v : gmap string string) (s : fs) : Prop :=
  ∃ j name c, writing v j s ∧ v !! plain = Some c ∧ f_nodes s !! j = Some (mkInode (gzip name c) true).

Lemma writeGzip_spec e v :
  triple I (λ s, view_now s = v) (writeGzip e plain tmp) (λ err s, view_now s = v ∧ (err = None → complete_tmp v s)).
Proof.
  unfold writeGzip. eapply triple_bind; [by apply (triple_get _ _ (λ s0 s, s = s0 ∧ sound s0 ∧ view_now s0 = v)); intros s [? _]|]. intros s0.
  destruct (f_dir s0 !! plain) as [i|] eqn:Ei; [|apply triple_ret; by intros s (-> & _ & ?)].
  destruct (_ || _); [apply triple_ret; by intros s (-> & _ & ?)|]. destruct (create tmp s0) as [j s1] eqn:Ec.
  apply (triple_assume _ (v !! plain = Some (contents i s0))); [intros s _ (_ & Hs0 & <-); by apply view_plain|]. intros Hc.
  eapply triple_bind.
  { eapply triple_weaken; [by eapply (create_tmp v)|by intros s (-> & _ & ?)|]. intros ? s Hw. exact Hw. }
  intros ?. cbv beta. destruct (g_copied e) as [partial|].
  { eapply triple_bind; [apply write_tmp|]. intros ?. apply triple_ret. by intros s [[? ?] _]. }
  eapply triple_bind; [apply write_tmp|]. intros ?. destruct (negb (g_sync e)); [apply triple_ret; by intros s [[? ?] _]|].
  eapply triple_bind; [eapply triple_weaken; [apply (write_tmp v j)|by intros s [? _]|intros ? s H; exact H]|]. intros ?.
  apply triple_ret. intros s [Hw Hn]. split; [apply Hw|]. intros _. by exists j, (base plain), (contents i s0).
Qed.

Lemma rename_spec ok v :
  triple I (complete_tmp v) (rename ok tmp gzPath)
    (λ err s, match err with Some _ => view_now s = v | None => ∃ c, v !! plain = Some c ∧ view_now s = <[gzPath := c]> v end).
Proof.
  unfold rename. eapply triple_bind; [by apply (triple_get _ _ (λ s0 s, s = s0 ∧ complete_tmp v s0))|]. intros s0.
  destruct (f_dir s0 !! tmp) as [j|] eqn:Ej; [|apply triple_ret; by intros s [-> (? & ? & ? & [? ?] & _)]].
  destruct ok; [|apply triple_ret; by intros s [-> (? & ? & ? & [? ?] & _)]].
  apply (triple_assume _ (complete_tmp v s0)); [by intros s _ [_ ?]|]. intros (j' & name & c & [Hv Hj] & Hc & Hn). assert (j' = j) as -> by congruence.
  eapply triple_bind; [|intros ?; apply triple_ret; intros s H; exists c; split; [exact Hc|exact H]].
  apply triple_effect. intros s Hi [-> _]. destruct (rename_sound s0 tmp gzPath j _ c (proj1 Hi) tmp_is_tmp gz_not_tmp Ej Hn (shown_gz name c)) as [Hs' Hv'].
  split; [|by rewrite Hv', Hv]. eapply reached_move; [done..|]. rewrite views_set_dir.
  change (view _ _) with (view_now (set_dir (<[gzPath := j]> (delete tmp (f_dir s0))) s0)). rewrite Hv'. apply move_publish. by rewrite Hv.
Qed.

Lemma syncDir_spec ok w :
  triple I (λ s, view_now s = w) (syncDir ok) (λ err s, view_now s = w ∧ (err = None → f_olds s = [])).
Proof.
  unfold syncDir. destruct ok; [|apply triple_ret; by intros s]. eapply triple_bind; [|intros ?; apply triple_ret; intros s H; exact H].
  apply triple_effect. intros s Hi Hv. split; [|done]. eapply reached_move; [done|by apply sync_sound, Hi|]. apply move_sync.
Qed.

(** What [write_gz] answers and leaves. *)
Lemma write_gz_spec e v :
  triple I (λ s, view_now s = v) (write_gz e plain gzPath)
    (λ err s, (∃ c, v !! plain = Some c ∧ view_now s = <[gzPath := c]> v ∧ (err = None → f_olds s = [])) ∨ (view_now s = v ∧ is_Some err)).
Proof.
  unfold write_gz. fold tmp. eapply triple_bind; [apply writeGzip_spec|]. intros [err|].
  { eapply triple_bind; [eapply triple_weaken; [apply (remove_tmp _ v)|by intros s [? _]|intros ? s H; exact H]|].
    intros ?. apply triple_ret. intros s H. right. by split. }
  eapply triple_bind; [eapply triple_weaken; [apply (rename_spec _ v)|intros s [_ H]; by apply H|intros err s H; exact H]|].
  intros [err|].
  { eapply triple_bind; [apply remove_tmp|]. intros ?. apply triple_ret. intros s H. right. by split. }
  intros s Hi (c & Hc & Hv). revert s Hi Hv. change (triple I (λ s, view_now s = <[gzPath := c]> v) (err ← syncDir (g_fsync e); mret (EWrap "fsync" <$> err))
    (λ err s, (∃ c, v !! plain = Some c ∧ view_now s = <[gzPath := c]> v ∧ (err = None → f_olds s = [])) ∨ (view_now s = v ∧ is_Some err))).
  eapply triple_bind; [apply syncDir_spec|]. intros err. apply triple_ret. intros s [Hv Ho]. left. exists c. split_and!; [done..|].
  by destruct err; [|intros _; apply Ho].
Qed.

(** What is left is one of the three outcomes of Store.v, the last one when there is no error. *)
Definition outcome (v : gmap string string) (err : option error) (s : fs) : Prop :=
  ∃ r, view_now s = Store.compress r plain v ∧ (err = None → r = Compressed).

Lemma published v c :
  pair_at v plain → v !! plain = Some c →
  Store.compress BothKept plain v = <[gzPath := c]> v ∧ Store.compress Compressed plain v = delete plain (<[gzPath := c]> v).
Proof.
  intros Hp Hc. unfold Store.compress. rewrite Hc. fold gzPath. case_bool_decide as Hb; [|done]. destruct Hb as [c' Hc'].
  rewrite insert_id; [done|]. by rewrite (Hp _ _ Hc Hc').
Qed.

Lemma remove_plain ok w :
  is_Some (w !! gzPath) →
  triple I (λ s, view_now s = w ∧ (existed ∨ f_olds s = [])) (remove ok plain)
    (λ err s, (view_now s = w ∧ is_Some err) ∨ (is_Some (w !! plain) ∧ view_now s = delete plain w ∧ err = None)).
Proof.
  intros Hg. unfold remove. eapply triple_bind; [by apply (triple_get _ _ (λ s0 s, s = s0 ∧ sound s0 ∧ view_now s0 = w ∧ (existed ∨ f_olds s0 = []))); intros s [? _]|]. intros s0.
  destruct ok; cbn [andb]; [|apply triple_ret; intros s (-> & _ & ? & _); by left].
  case_bool_decide as Hb; [|apply triple_ret; intros s (-> & _ & ? & _); by left].
  apply (triple_assume _ (is_Some (w !! plain))).
  { intros s _ (_ & Hs0 & <- & _). by apply view_dom; [|apply dir_hist|apply plain_not_tmp|]. }
  intros Hw. eapply triple_bind; [|intros ?; apply triple_ret; intros s H; right; split; [exact Hw|split; [exact H|done]]].
  apply triple_effect. intros s Hi (-> & Hs0 & Hv & He). split; [|by rewrite view_unlink, Hv].
  eapply reached_move; [done|by apply unlink_sound|]. unfold unlink at 1. rewrite views_set_dir. change (view _ _) with (view_now (unlink plain s0)).
  rewrite view_unlink. unfold views, hist. cbn [fmap list_fmap]. apply move_remove; [by rewrite <- Hv in Hg|].
  destruct He as [?|Ho]; [by left|right]. by rewrite Ho.
Qed.

Lemma compress_spec e v :
  pair_at v plain → (is_Some (v !! gzPath) → existed) →
  triple I (λ s, view_now s = v) (compress e plain) (outcome v).
Proof.
  intros Hp He. unfold compress. fold gzPath. eapply triple_bind; [by apply (triple_get _ _ (λ s0 s, s = s0 ∧ sound s0 ∧ view_now s0 = v)); intros s [? _]|]. intros s0.
  eapply triple_bind with (R := λ err s, match err with
    | None => ∃ w, view_now s = w ∧ is_Some (w !! gzPath) ∧ (existed ∨ f_olds s = []) ∧ (w = v ∨ ∃ c, v !! plain = Some c ∧ w = <[gzPath := c]> v)
    | Some _ => outcome v err s end).
  - destruct (g_stat e && _) eqn:Ee.
    + apply triple_ret. intros s (-> & Hs0 & Hv). apply andb_true_iff in Ee as [_ Ee%bool_decide_eq_true].
      assert (is_Some (v !! gzPath)) as Hg by (rewrite <- Hv; by apply view_dom; [|apply dir_hist|apply gz_not_tmp|]).
      exists v. split_and!; [done..| |by left]. left. by apply He.
    + eapply triple_weaken; [apply (write_gz_spec e v)|by intros s (-> & _ & ?)|]. cbv beta. intros err s [(c & Hc & Hv & Ho)|(Hv & [err' ->])].
      * destruct err as [err|]; [exists BothKept; split; [|done]; by rewrite (proj1 (published v c Hp Hc))|].
        exists (<[gzPath := c]> v). rewrite lookup_insert_eq. split_and!; [done..|right; by apply Ho|right; by exists c].
      * exists Uncompressed. split; [|done]. unfold Store.compress. by destruct (v !! plain).
  - intros [err|]; [apply triple_ret; by intros s H|].
    intros s Hi (w & Hv & Hg & Ho & Hw). refine (_ s Hi (conj Hv Ho)). clear s Hi Hv Ho. cbv beta.
    change (triple I (λ s, view_now s = w ∧ (existed ∨ f_olds s = [])) (err ← remove (g_remove e) plain;
      match err with Some err => mret (Some err) | None => syncDir (g_fsync2 e);; mret None end) (outcome v)).
    eapply triple_bind; [by apply remove_plain|]. intros err. apply (triple_weaken _ _
      (λ s, (view_now s = w ∧ is_Some err) ∨ (view_now s = Store.compress Compressed plain v ∧ err = None)) _ (outcome v) _); [| |done].
    + destruct err as [err|].
      * apply triple_ret. intros s [[Hv _]|[_ ?]]; [|done]. destruct Hw as [->|(c & Hc & ->)].
        -- exists Uncompressed. split; [|done]. unfold Store.compress. by destruct (v !! plain).
        -- exists BothKept. split; [|done]. by rewrite (proj1 (published v c Hp Hc)).
      * eapply triple_bind; [eapply triple_weaken; [apply (syncDir_spec _ (Store.compress Compressed plain v))| |intros ? s H; exact H]|].
        { by intros s [[_ [? ?]]|[? _]]. }
        intros ?. apply triple_ret. intros s [Hv _]. exists Compressed. by split.
    + intros s [?|([c Hc] & Hv & ->)]; [by left|right]. split; [|done]. rewrite Hv. destruct Hw as [->|(c' & Hc' & ->)].
      * rewrite (proj2 (published v c Hp Hc)), insert_id; [done|]. destruct Hg as [c' Hc']. by rewrite (Hp _ _ Hc Hc').
      * by rewrite (proj2 (published v c' Hp Hc')).
Qed.

(** ** What the moves keep *)

Lemma gz_not_plain : gzPath ≠ plain.
Proof. intros H. by apply (gz_ne plain plain "x"%char Hplain). Qed.

(** [v] is the outcome of some compression of [v0]. *)
Definition shows (v0 v : gmap string string) : Prop := ∃ r, v = Store.compress r plain v0.

Lemma outcome_self v0 : shows v0 v0.
Proof. exists Uncompressed. unfold Store.compress. by destruct (v0 !! plain). Qed.

Lemma outcome_now v0 r c :
  pair_at v0 plain → v0 !! plain = Some c →
  Store.compress r plain v0 = match r with Uncompressed => v0 | BothKept => <[gzPath := c]> v0 | Compressed => delete plain (<[gzPath := c]> v0) end.
Proof.
  intros Hp Hc. destruct (published v0 c Hp Hc) as [H1 H2]. destruct r; [|done..]. unfold Store.compress. by rewrite Hc.
Qed.

Lemma outcome_publish v0 v c : pair_at v0 plain → shows v0 v → v !! plain = Some c → shows v0 (<[gzPath := c]> v).
Proof.
  intros Hp [r ->] Hv. destruct (v0 !! plain) as [c0|] eqn:Hc.
  2:{ unfold Store.compress in Hv. rewrite Hc in Hv. congruence. }
  rewrite (outcome_now v0 r c0 Hp Hc) in *. destruct r.
  - exists BothKept. rewrite (outcome_now v0 BothKept c0 Hp Hc). congruence.
  - exists BothKept. rewrite (outcome_now v0 BothKept c0 Hp Hc).
    rewrite lookup_insert_ne in Hv by apply gz_not_plain. rewrite insert_insert_eq. congruence.
  - by rewrite lookup_delete_eq in Hv.
Qed.

Lemma outcome_remove v0 v : pair_at v0 plain → shows v0 v → is_Some (v !! gzPath) → shows v0 (delete plain v).
Proof.
  intros Hp [r ->] Hg. destruct (v0 !! plain) as [c0|] eqn:Hc.
  2:{ assert (Store.compress r plain v0 = v0) as -> by (unfold Store.compress; by rewrite Hc). rewrite delete_id by done. apply outcome_self. }
  exists Compressed. rewrite (outcome_now v0 Compressed c0 Hp Hc), (outcome_now v0 r c0 Hp Hc) in *. destruct r; [|done|].
  - destruct Hg as [c' Hc']. rewrite insert_id; [done|]. by rewrite (Hp _ _ Hc Hc').
  - rewrite delete_id; [done|]. apply lookup_delete_eq.
Qed.

(** Every directory that may come back was there before, or shows an outcome of the compression. *)
Definition tracked (v0 : gmap string string) (l0 l : list (gmap string string)) : Prop :=
  match l with v :: _ => shows v0 v | [] => False end ∧ Forall (λ v, v ∈ l0 ∨ shows v0 v) l.

Lemma moves_tracked v0 l0 l : pair_at v0 plain → rtc (move plain existed) (v0 :: l0) l → tracked v0 l0 l.
Proof.
  intros Hp Hr. apply (rtc_invariant (move plain existed) (tracked v0 l0)) with (x := v0 :: l0); [|exact Hr|].
  - assert (∀ w v m, tracked v0 l0 (v :: m) → shows v0 w → tracked v0 l0 (w :: v :: m)) as Hpush.
    { intros w v m [_ Hall] Hw. split; [done|]. constructor; [by right|done]. }
    intros l1 l2 Hm Ht. destruct Hm as [v m|v m c Hc|v m|v m Hg _].
    + apply Hpush; [done|apply Ht].
    + apply Hpush; [done|]. apply outcome_publish; [done|apply Ht|done].
    + split; [apply Ht|]. constructor; [right; apply Ht|constructor].
    + apply Hpush; [done|]. apply outcome_remove; [done|apply Ht|done].
  - split; [apply outcome_self|]. constructor; [right; apply outcome_self|]. apply Forall_forall. by left.
Qed.

(** The plain file is in all of them, or the compressed one is. *)
Record held_in (c : string) (l : list (gmap string string)) : Prop := {
  hi_plain v c' : v ∈ l → v !! plain = Some c' → c' = c;
  hi_gz v c' : v ∈ l → v !! gzPath = Some c' → c' = c;
  hi_existed : existed → ∀ v, v ∈ l → v !! gzPath = Some c;
  hi_either : (∀ v, v ∈ l → v !! plain = Some c) ∨ (∀ v, v ∈ l → v !! gzPath = Some c) }.

Lemma held_push c w v m :
  held_in c (v :: m) → (∀ c', w !! plain = Some c' → c' = c) → (w !! plain = v !! plain) →
  (w !! gzPath = v !! gzPath ∨ w !! gzPath = Some c) → held_in c (w :: v :: m).
Proof.
  intros [H1 H2 H3 H4] Hw Hp Hg. assert (v ∈ v :: m) as Hv by left. split.
  - intros u c' [->|Hu]%elem_of_cons; [apply Hw|by apply H1].
  - intros u c' [->|Hu]%elem_of_cons; [|by apply H2]. destruct Hg as [-> | ->]; [by apply H2|congruence].
  - intros He u [->|Hu]%elem_of_cons; [|by apply H3]. destruct Hg as [-> | ->]; [by apply H3|done].
  - destruct H4 as [H4|H4]; [left|right]; intros u [->|Hu]%elem_of_cons; [|by apply H4| |by apply H4].
    + rewrite Hp. by apply H4.
    + destruct Hg as [-> | ->]; [by apply H4|done].
Qed.

Lemma moves_held c l l' : held_in c l → rtc (move plain existed) l l' → held_in c l'.
Proof.
  intros Hl Hr. revert Hl. induction Hr as [|l1 l2 l3 Hm _ IH]; [done|]. intros H. apply IH. clear IH l3. destruct Hm as [v m|v m c1 Hc|v m|v m [c' Hg] Hd].
  - apply held_push; [done| |done|by left]. intros c'. apply (hi_plain _ _ H). left.
  - assert (c1 = c) as -> by (eapply (hi_plain _ _ H); [left|done]). apply held_push; [done|..].
    + intros c'. rewrite lookup_insert_ne by apply gz_not_plain. apply (hi_plain _ _ H). left.
    + by rewrite lookup_insert_ne by apply gz_not_plain.
    + right. apply lookup_insert_eq.
  - assert (∀ u, u ∈ [v] → u ∈ v :: m) as Hs by (intros u ->%list_elem_of_singleton; left). destruct H as [H1 H2 H3 H4].
    split; [by intros u c' Hu%Hs; apply H1|by intros u c' Hu%Hs; apply H2|by intros He u Hu%Hs; apply H3|].
    destruct H4 as [H4|H4]; [left|right]; intros u Hu%Hs; by apply H4.
  - assert (c' = c) as -> by (eapply (hi_gz _ _ H); [left|done]).
    assert (∀ u, u ∈ delete plain v :: v :: m → u !! gzPath = Some c) as Hall.
    { assert (∀ u, u ∈ v :: m → u !! gzPath = Some c) as Hvm.
      { destruct Hd as [He| ->]; [by apply (hi_existed _ _ H)|]. by intros u ->%list_elem_of_singleton. }
      intros u [->|Hu]%elem_of_cons; [|by apply Hvm]. rewrite lookup_delete_ne by (symmetry; apply gz_not_plain). done. }
    split; [|intros u c' Hu; rewrite Hall by done; congruence|by intros _|by right].
    intros u c' [->|Hu]%elem_of_cons; [by rewrite lookup_delete_eq|by apply (hi_plain _ _ H)].
Qed.

(** A whole compression, from a state whose compressed file, if any, [existed]. *)
Lemma compress_run e s l s' err :
  sound s → start = views s → pair_at (view_now s) plain → (is_Some (view_now s !! gzPath) → existed) →
  compress e plain s = (l, s', err) →
  Forall I l ∧ I s' ∧ outcome (view_now s) err s'.
Proof.
  intros Hs Hst Hp He H. pose proof (compress_spec e (view_now s) Hp He s) as Hc. rewrite H in Hc. apply Hc; [|done]. split; [done|].
  by rewrite Hst.
Qed.
End Steps.

(** ** After a loss of power *)

Lemma nodes_kept_seen x y m n i :
  sound x → nodes_kept x y → m ∈ hist x → m !! n = Some i → seen (f_nodes y) n i = seen (f_nodes x) n i.
Proof.
  intros Hx Hk Hm Hn. unfold seen. destruct (is_tmp n) eqn:Ht; [done|]. destruct (so_known _ Hx _ _ _ Hm Hn) as (node & Hnode & Hsafe).
  destruct (Hk i node Hnode) as (node' & Hnode' & Heq). rewrite Hnode, Hnode', Heq; [done|]. by apply Hsafe.
Qed.

Lemma power_loss_view x y : sound x → power_loss x y → view_now y ∈ views x.
Proof.
  intros Hx (Hk & Hd & _). assert (view_now y = view x (f_dir y)) as ->; [|by apply list_elem_of_fmap_2].
  apply map_eq. intros n. unfold view_now. rewrite !view_lookup. destruct (f_dir y !! n) as [i|] eqn:E; [|done]. cbn. by eapply nodes_kept_seen.
Qed.

Lemma power_loss_sound x y : sound x → power_loss x y → sound y.
Proof.
  intros Hx (Hk & Hd & Ho). assert (∀ m, m ∈ hist y → m = f_dir y) as Hh by (intros m; unfold hist; rewrite Ho; apply list_elem_of_singleton).
  split.
  - intros m a b i ->%Hh. by apply (so_inj _ Hx).
  - intros m n i ->%Hh Hn. destruct (so_known _ Hx _ _ _ Hd Hn) as (node & Hnode & Hsafe). destruct (Hk i node Hnode) as (node' & Hn' & Heq).
    exists node'. split; [done|]. intros Ht. destruct (Hsafe Ht) as [H1 H2]. by rewrite (Heq H1).
  - intros t i m n Ht Htt ->%Hh Hn Hni. assert (t = n) as -> by exact (so_inj _ Hx _ _ _ _ Hd Ht Hni). congruence.
Qed.

Lemma power_loss_unordered_view x y name :
  sound x → power_loss_unordered x y → ∃ v, v ∈ views x ∧ view_now y !! name = v !! name.
Proof.
  intros Hx (Hk & Hd & _). destruct (Hd name) as (m & Hm & Hn). exists (view x m). split; [by apply list_elem_of_fmap_2|].
  unfold view_now. rewrite !view_lookup, Hn. destruct (m !! name) as [i|] eqn:E; [|done]. cbn. by eapply nodes_kept_seen.
Qed.

(** ** The sweep *)

Lemma remove_all_spec ok paths : ∀ s l s' err,
  sound s → Forall (λ p, is_tmp p = true) paths → remove_all ok paths s = (l, s', err) → sound s' ∧ view_now s' = view_now s.
Proof.
  induction paths as [|p paths IH]; intros s l s' err Hs Hall H; cbn [remove_all] in H; [by injection H as <- <- <-|].
  apply Forall_cons in Hall as [Hp Hall]. cbv [mbind M_bind] in H. unfold remove at 1 in H. cbv [mbind M_bind get mret M_ret effect] in H.
  destruct (ok p && _).
  2:{ by injection H as <- <- <-. }
  destruct (remove_all ok paths (unlink p s)) as [[l2 s2] err2] eqn:E. injection H as <- <- <-.
  apply IH in E as [Hs2 ->]; [|by apply unlink_sound|done]. split; [done|]. rewrite view_unlink. by apply delete_id, view_tmp.
Qed.

(** Compressions of two plain files do not interfere. *)
Lemma store_compress_local r p (f g : gmap string string) q :
  f !! p = g !! p → f !! (p +:+ ".gz") = g !! (p +:+ ".gz") → q = p ∨ q = p +:+ ".gz" →
  Store.compress r p f !! q = Store.compress r p g !! q.
Proof.
  intros Hp Hg Hq. assert (f !! q = g !! q) as Hfg by (by destruct Hq as [->| ->]). unfold Store.compress. rewrite Hp. destruct (g !! p) as [c|]; [|done].
  rewrite Hg. set (b := bool_decide (is_Some (g !! (p +:+ ".gz")))).
  assert ((if b then f else <[p +:+ ".gz":=c]> f) !! q = (if b then g else <[p +:+ ".gz":=c]> g) !! q) as Hi.
  { destruct b; [done|]. rewrite !lookup_insert. by case_decide. }
  destruct r; [done..|]. rewrite !lookup_delete. by case_decide.
Qed.

Lemma store_compress_comm r1 p1 r2 p2 f :
  p1 ≠ p2 → last_char "x"%char p1 = "l"%char → last_char "x"%char p2 = "l"%char →
  Store.compress r1 p1 (Store.compress r2 p2 f) = Store.compress r2 p2 (Store.compress r1 p1 f).
Proof.
  intros Hne H1 H2. assert (p1 ≠ p2 +:+ ".gz") as N1 by (by eapply gz_ne). assert (p2 ≠ p1 +:+ ".gz") as N2 by (by eapply gz_ne).
  assert (p1 +:+ ".gz" ≠ p2 +:+ ".gz") as N3 by (by intros ?%sapp_inj_r).
  apply map_eq. intros q. destruct (decide (q = p1 ∨ q = p1 +:+ ".gz")) as [Hq|Hq].
  - rewrite (store_compress_local r1 p1 _ f q) by (done || by rewrite compress_other). destruct Hq as [-> | ->]; by rewrite (compress_other r2).
  - apply Decidable.not_or in Hq. rewrite (compress_other r1) by tauto. destruct (decide (q = p2 ∨ q = p2 +:+ ".gz")) as [Hq2|Hq2].
    + symmetry. apply store_compress_local; [by rewrite compress_other..|done].
    + apply Decidable.not_or in Hq2. by rewrite !compress_other by tauto.
Qed.

Definition compress_fold (r : string → compressed) (paths : list string) (f : gmap string string) : gmap string string :=
  foldr (λ path f, Store.compress (r path) path f) f paths.

Lemma compress_fold_cons r p paths f :
  p ∉ paths → Forall (λ p, last_char "x"%char p = "l"%char) (p :: paths) →
  compress_fold r paths (Store.compress (r p) p f) = Store.compress (r p) p (compress_fold r paths f).
Proof.
  intros Hn [Hp Hall]%Forall_cons. induction paths as [|q paths IH]; [done|]. apply Forall_cons in Hall as [Hq Hall].
  apply not_elem_of_cons in Hn as [Hpq Hn]. cbn [compress_fold foldr]. fold (compress_fold r paths (Store.compress (r p) p f)). rewrite IH by done.
  by apply store_compress_comm.
Qed.

Lemma compress_fold_ext r r' paths f : (∀ p, p ∈ paths → r p = r' p) → compress_fold r paths f = compress_fold r' paths f.
Proof.
  induction paths as [|p paths IH]; intros H; [done|]. cbn [compress_fold foldr]. rewrite (H p) by left. f_equal. apply IH. intros q Hq. apply H. by right.
Qed.

Lemma compress_fold_perm r paths paths' f :
  paths ≡ₚ paths' → NoDup paths → Forall (λ p, last_char "x"%char p = "l"%char) paths → compress_fold r paths f = compress_fold r paths' f.
Proof.
  intros Hp Hn Hall. unfold compress_fold. apply (foldr_permutation (=)); [by intros x a b ->| |done]. intros j1 a1 j2 a2 b Hj H1 H2. rewrite Forall_forall in Hall.
  apply store_compress_comm; [|by eapply Hall, list_elem_of_lookup_2..]. intros ->. apply Hj. by eapply NoDup_lookup.
Qed.

Lemma compress_each_spec e paths (Hgz : ∀ name data, gunzip (gzip name data) = Some data) : ∀ s l s' u,
  sound s → NoDup paths → Forall (λ p, last_char "x"%char p = "l"%char) paths → (∀ p, p ∈ paths → pair_at (view_now s) p) →
  compress_each e paths s = (l, s', u) → sound s' ∧ ∃ r, view_now s' = compress_fold r paths (view_now s).
Proof.
  induction paths as [|p paths IH]; intros s l s' u Hs Hn Hall Hp H; cbn [compress_each] in H.
  { injection H as <- <- <-. split; [done|]. by exists (λ _, Uncompressed). }
  cbv [mbind M_bind] in H. destruct (compress (e p) p s) as [[l1 s1] err1] eqn:E1. destruct (compress_each e paths s1) as [[l2 s2] u2] eqn:E2.
  injection H as <- <- <-. pose proof Hall as Hall'. apply Forall_cons in Hall as [Hl Hall]. apply NoDup_cons in Hn as [Hnp Hn].
  destruct (compress_run p _ _ Hl Hgz (e p) s l1 s1 err1 Hs eq_refl (Hp p ltac:(left)) id E1) as (_ & [Hs1 _] & r0 & Hv1 & _).
  apply IH in E2 as [Hs2 [r1 Hv2]]; [|done..|].
  - split; [done|]. exists (λ q, if decide (q = p) then r0 else r1 q). rewrite Hv2, Hv1. cbn [compress_fold foldr].
    set (r := λ q, if decide (q = p) then r0 else r1 q). rewrite (compress_fold_ext r1 r) by (intros q Hq; unfold r; by destruct (decide (q = p)) as [->|]).
    transitivity (compress_fold r paths (Store.compress (r p) p (view_now s))); [|by apply compress_fold_cons].
    f_equal. unfold r. by rewrite decide_True.
  - intros q Hq. rewrite Hv1. assert (q ≠ p) as Hqp by (by intros ->). rewrite Forall_forall in Hall. unfold pair_at.
    rewrite !compress_other; [apply Hp; by right|by intros ?%eq_sym%(gz_ne _ _ _ Hl)|by intros ?%sapp_inj_r|done|eapply gz_ne; by apply Hall].
Qed.

(** [sweep] does what Store.v says, for some outcomes of its compressions. *)
Lemma sweep_refines o ok e interrupted plain s l s' err :
  (∀ name data, gunzip (gzip name data) = Some data) →
  sound s → paired o (mkDisk None (view_now s)) → Forall (λ p, is_tmp p = true) interrupted →
  plain ≡ₚ filter (λ path, swept o path = true) (elements (dom (view_now s))) →
  sweep (so_Compress o) ok e interrupted plain s = (l, s', err) →
  sound s' ∧ match err with Some _ => view_now s' = view_now s
  | None => ∃ r, ∀ env, (∀ p, io_sweep env p = r p) → view_now s' = Store.sweep o env (view_now s) end.
Proof.
  intros Hgz Hs Hpa Hi Hpl H. unfold sweep in H. cbv [mbind M_bind mret M_ret] in H.
  destruct (remove_all ok interrupted s) as [[l1 s1] err1] eqn:E1. apply remove_all_spec in E1 as [Hs1 Hv1]; [|done..].
  destruct err1 as [err1|]; [by injection H as <- <- <-|]. unfold Store.sweep. case_bool_decide.
  2:{ injection H as <- <- <-. split; [done|]. by exists (λ _, Uncompressed). }
  destruct (compress_each e plain s1) as [[l2 s2] u] eqn:E2. injection H as <- <- <-.
  assert (∀ p, p ∈ plain → swept o p = true) as Hsw by (intros p; rewrite Hpl; by intros [? _]%list_elem_of_filter).
  assert (NoDup plain) as Hn by (rewrite Hpl; apply NoDup_filter, NoDup_elements).
  assert (Forall (λ p, last_char "x"%char p = "l"%char) plain) as Hall by (apply Forall_forall; intros p Hp; by eapply swept_last, Hsw).
  apply compress_each_spec in E2 as [Hs2 [r Hv2]]; [|done..|].
  - split; [done|]. exists r. intros env He. rewrite Hv2, Hv1, (compress_fold_perm r _ _ _ Hpl Hn Hall).
    apply compress_fold_ext. by intros p _.
  - intros p Hp. rewrite Hv1. by apply Hpa, Hsw.
Qed.
End Compress.

(** ** Properties *)

(** C9: a compression is one of the three outcomes that Store.v gives it, whatever its calls
    answer.  From sound files in which a compressed form of the plain file holds the same, it
    leaves one of them, the complete one when it answers no error.  And when the power fails in
    any state it passes through, with what was not synced replaced by anything and the directory
    as it was at any moment since its last sync, the files are sound again and show one of the
    outcomes, or a directory that could have come back before it started. *)
Theorem compress_refines gzip gunzip e plain s l s' err :
  (∀ name data, gunzip (gzip name data) = Some data) → last_char "x"%char plain = "l"%char →
  sound gunzip s → pair_at (view_now gunzip s) plain →
  compress gzip e plain s = (l, s', err) →
  (∃ r, view_now gunzip s' = Store.compress r plain (view_now gunzip s) ∧ (err = None → r = Compressed)) ∧
  sound gunzip s' ∧
  ∀ x y, x ∈ l → power_loss x y →
    sound gunzip y ∧
    (view_now gunzip y ∈ view gunzip s <$> f_olds s ∨ ∃ r, view_now gunzip y = Store.compress r plain (view_now gunzip s)).
Proof.
  intros Hg Hl Hs Hp H. destruct (compress_run gzip gunzip plain _ _ Hl Hg e s l s' err Hs eq_refl Hp id H) as (Hall & [Hs' _] & Ho).
  split_and!; [exact Ho|done|]. intros x y Hx Hy. rewrite Forall_forall in Hall. destruct (Hall x Hx) as [Hsx Hr].
  split; [by eapply power_loss_sound|]. change (views gunzip s) with (view_now gunzip s :: (view gunzip s <$> f_olds s)) in Hr.
  apply (moves_tracked plain _ Hl _ _ _ Hp) in Hr as [_ Hr]. rewrite Forall_forall in Hr. by apply Hr, power_loss_view.
Qed.

(** C10: no loss of power in the middle of a compression loses the file, provided that when it
    starts the plain file is synced and its entry durable, and its compressed form is either absent
    from the directory, durably, or there durably with the same data.  In every state the compression
    passes through, even if each entry of the directory comes back from a moment of its own, one of
    the two files is there afterwards, whole.  A compressed form whose own entry is not durable yet
    is the case left out, and there the file may be lost: [existing_not_synced]. *)
Theorem compress_never_loses gzip gunzip e plain s l s' err c :
  (∀ name data, gunzip (gzip name data) = Some data) → last_char "x"%char plain = "l"%char →
  sound gunzip s → (∀ v, v ∈ views gunzip s → v !! plain = Some c) →
  (∀ v, v ∈ views gunzip s → v !! (plain +:+ ".gz") = None) ∨ (∀ v, v ∈ views gunzip s → v !! (plain +:+ ".gz") = Some c) →
  compress gzip e plain s = (l, s', err) →
  ∀ x y, x ∈ s :: l → power_loss_unordered x y →
    view_now gunzip y !! plain = Some c ∨ view_now gunzip y !! (plain +:+ ".gz") = Some c.
Proof.
  intros Hg Hl Hs Hpl Hgz H x y Hx Hy. assert (view_now gunzip s ∈ views gunzip s) as Hin by left.
  assert (pair_at (view_now gunzip s) plain) as Hp.
  { intros c1 c2 H1 H2. rewrite (Hpl _ Hin) in H1. injection H1 as <-. destruct Hgz as [Hgz|Hgz]; rewrite (Hgz _ Hin) in H2; congruence. }
  destruct (compress_run gzip gunzip plain _ _ Hl Hg e s l s' err Hs eq_refl Hp id H) as (Hall & _ & _).
  assert (reached gunzip plain (is_Some (view_now gunzip s !! (plain +:+ ".gz"))) (views gunzip s) x) as [Hsx Hr].
  { apply elem_of_cons in Hx as [->|Hx]; [by split|]. rewrite Forall_forall in Hall. by apply Hall. }
  assert (held_in plain (is_Some (view_now gunzip s !! (plain +:+ ".gz"))) c (views gunzip s)) as Hh.
  { split; [|destruct Hgz as [Hgz|Hgz]..|by left].
    - intros v c' Hv. rewrite (Hpl v Hv). by intros [= ->].
    - intros v c' Hv. by rewrite (Hgz v Hv).
    - intros v c' Hv. rewrite (Hgz v Hv). by intros [= ->].
    - rewrite (Hgz _ Hin). by intros [? ?].
    - by intros _. }
  destruct (hi_either _ _ _ _ (moves_held plain _ Hl c _ _ Hh Hr)) as [Hk|Hk]; [left|right];
    [destruct (power_loss_unordered_view gunzip x y plain Hsx Hy) as (v & Hv & ->)|
     destruct (power_loss_unordered_view gunzip x y (plain +:+ ".gz") Hsx Hy) as (v & Hv & ->)]; by apply Hk.
Qed.

(** The compressed file that is found is complete, but its entry may not be for good: after a
    compression that could not sync the directory, the next one removes the plain file first. *)
Definition all_well : gzEnv := mkGzEnv true true true None true true true true true true true.
Definition fsync_fails : gzEnv := mkGzEnv true true true None true true true true false true true.

Definition ex_plain : string := "a.jsonl".
Definition ex_fs : fs := mkFs {[ex_plain := 0%nat]} [] {[0%nat := mkInode "{}" true]}.

Definition ex_compress (e : gzEnv) (s : fs) : list fs * fs * option error := compress (λ _ data, data) e ex_plain s.

Lemma existing_not_synced :
  let s := (ex_compress fsync_fails ex_fs).1.2 in let '(l, s', err) := ex_compress all_well s in
  err = None ∧ ∃ x y, x ∈ l ∧ power_loss_unordered x y ∧
    view_now Some y !! ex_plain = None ∧ view_now Some y !! (ex_plain +:+ ".gz") = None.
Proof.
  intros s. set (x := unlink ex_plain s). assert (ex_compress all_well s = ([x; sync_dir x], sync_dir x, None)) as -> by reflexivity.
  split; [done|]. exists x, (mkFs ∅ [] (f_nodes x)). split; [left|]. split; [|by split].
  split; [by intros i n Hn; exists n|]. split; [|done]. intros name. destruct (decide (name = ex_plain +:+ ".gz")) as [->|Hne].
  - exists (f_dir ex_fs). split; [|done]. by apply (list_elem_of_lookup_2 _ 3).
  - exists (f_dir x). split; [left|]. cbn [f_dir]. rewrite lookup_empty. symmetry.
    assert (f_dir x = {[ex_plain +:+ ".gz" := 1%nat]}) as -> by reflexivity. by apply lookup_singleton_ne.
Qed.

(** ** Witnesses *)

Lemma ex_sound : sound Some ex_fs.
Proof.
  assert (∀ m, m ∈ hist ex_fs → m = {[ex_plain := 0%nat]}) as Hh by (intros m; apply list_elem_of_singleton). split.
  - intros m a b i ->%Hh [<- _]%lookup_singleton_Some [<- _]%lookup_singleton_Some. done.
  - intros m n i ->%Hh [<- <-]%lookup_singleton_Some. exists (mkInode "{}" true). split; [done|]. intros _. split; [done|]. by exists "{}".
  - intros t i m n Hti Ht. cbn [ex_fs f_dir] in Hti. apply lookup_singleton_Some in Hti as [<- _]. done.
Qed.

Lemma ex_views v : v ∈ views Some ex_fs → v = {[ex_plain := "{}"]}.
Proof. intros ->%list_elem_of_singleton. vm_compute. reflexivity. Qed.

Lemma compress_refines_witness :
  let s' := (ex_compress fsync_fails ex_fs).1.2 in
  ∃ r, view_now Some s' = Store.compress r ex_plain (view_now Some ex_fs) ∧ (Some (EWrap "fsync" failed) = None → r = Compressed).
Proof.
  refine (proj1 (compress_refines (λ _ data, data) Some fsync_fails ex_plain ex_fs (ex_compress fsync_fails ex_fs).1.1
    (ex_compress fsync_fails ex_fs).1.2 (Some (EWrap "fsync" failed)) (λ _ _, eq_refl) eq_refl ex_sound _ _)).
  - intros c c' _ H2. by vm_compute in H2.
  - vm_compute. reflexivity.
Defined.

(** The power fails when the new entry is there and the plain file is gone. *)
Lemma compress_never_loses_witness :
  let l := (ex_compress all_well ex_fs).1.1 in let x := nth 6 l ex_fs in
  view_now Some x !! ex_plain = Some "{}" ∨ view_now Some x !! (ex_plain +:+ ".gz") = Some "{}".
Proof.
  refine (compress_never_loses (λ _ data, data) Some all_well ex_plain ex_fs (ex_compress all_well ex_fs).1.1
    (ex_compress all_well ex_fs).1.2 None "{}" (λ _ _, eq_refl) eq_refl ex_sound _ _ _
    (nth 6 (ex_compress all_well ex_fs).1.1 ex_fs) (mkFs (f_dir (nth 6 (ex_compress all_well ex_fs).1.1 ex_fs)) [] (f_nodes (nth 6 (ex_compress all_well ex_fs).1.1 ex_fs))) _ _).
  - intros v ->%ex_views. apply lookup_singleton_eq.
  - left. intros v ->%ex_views. by apply lookup_singleton_ne.
  - vm_compute. reflexivity.
  - right. apply list_elem_of_In, nth_In. vm_compute. lia.
  - split_and!; [by intros i n Hn; exists n| |done]. intros name. eexists. split; [left|]. done.
Defined.
