(* ===== verification/ReadBack.v ===== *)
(** * [internal/sink/archive]: reading the archive back

    [ReadFile] of record.go over the files the store leaves: what every operation of the store puts
    on disk is complete lines it was given, so that everything acknowledged is read back.  Opening
    the file and its gzip header are arguments; a compressed file is the bytes it decompresses to,
    as in Store.v. *)

From S2P Require Import Prelude.
From S2P Require Import Errors.
From S2P Require Import GoText.
From S2P Require Import GoTime.
From S2P Require Import GoJson.
From S2P Require Import JsonText.
From S2P Require Import Event.
From S2P Require Import Archive.
From S2P Require Import Store.

Local Open Scope Z_scope.

(** [ReadFile]: [opened] and [header] are the errors of [os.Open] and [gzip.NewReader]. *)
Definition ReadFile (path : string) (opened header : option error) (content : string) : list Envelope * option error :=
  match opened with
  | Some e => ([], Some e)
  | None =>
      match (if HasSuffix path ".gz" then header else None) with
      | Some e => ([], Some (EWrap path e))
      | None =>
          let '(envs, err) := ReadAll content in
          match err with Some e => (envs, Some (EWrap path e)) | None => (envs, None) end
      end
  end.

(** ** Files made of given lines *)

Section Made.
Variable P : string → Prop.

(** Every complete line is one of those given, and finalized files have nothing else. *)
Record made_of (d : disk) : Prop := {
  mo_part : Forall P (complete (part d));
  mo_finals path c : d_finals d !! path = Some c → tail_of c = "" ∧ Forall P (complete c) }.

(** What an operation that adds no other line does. *)
Definition pure (d d' : disk) : Prop := made_of d → made_of d'.

#[local] Instance pure_refl : Reflexive pure.
Proof. intros d H. exact H. Qed.
#[local] Instance pure_trans : Transitive pure.
Proof. intros a b c H1 H2 H. by apply H2, H1. Qed.

Lemma pure_part d d' : d_finals d' = d_finals d → (Forall P (complete (part d)) → Forall P (complete (part d'))) → pure d d'.
Proof. intros Hf Hp [H1 H2]. split; [auto|]. rewrite Hf. apply H2. Qed.

Lemma compress_origin r p f path c : compress r p f !! path = Some c → ∃ q, f !! q = Some c.
Proof.
  unfold compress. destruct (f !! p) as [c0|] eqn:E; [|eauto]. intros H.
  assert (∀ path c, (if bool_decide (is_Some (f !! (p +:+ ".gz"))) then f else <[p +:+ ".gz" := c0]> f) !! path = Some c → ∃ q, f !! q = Some c) as Hi.
  { intros q x. case_bool_decide; [eauto|]. intros [[_ <-]|[_ Hq]]%lookup_insert_Some; eauto. }
  destruct r; [eauto|by eapply Hi|]. apply lookup_delete_Some in H as [_ H]. by eapply Hi.
Qed.

Lemma pure_finals x f f' : (∀ path c, f' !! path = Some c → ∃ q, f !! q = Some c) → pure (mkDisk x f) (mkDisk x f').
Proof. intros Ho [H1 H2]. split; [done|]. intros path c [q Hq]%Ho. by apply (H2 q). Qed.

Lemma sweep_pure o e x f : pure (mkDisk x f) (mkDisk x (sweep o e f)).
Proof.
  apply pure_finals. unfold sweep. case_bool_decide; [|eauto]. generalize (filter (λ path, swept o path = true) (elements (dom f))).
  intros l. induction l as [|p l IH]; cbn [foldr]; [eauto|]. intros path c [q Hq]%compress_origin. by eapply IH.
Qed.

Lemma finalize_pure o e s ts s' err :
  finalize o e s ts = (s', err) → tail_of (part (s_disk s)) = "" → pure (s_disk s) (s_disk s').
Proof.
  unfold finalize. cbv zeta. intros H Ht. destruct (_ && negb (io_fstat e)); [by simplify_eq|].
  destruct (negb (io_mkdir e)); [by simplify_eq|]. destruct (free_seq _ _ _ _ _) as [seq|]; [|by simplify_eq].
  destruct (negb (io_rename e)); injection H as <- <-; [done|]. cbn [with_disk s_disk].
  set (path := target o _ seq). transitivity (mkDisk None (<[path := part (s_disk s)]> (d_finals (s_disk s)))).
  - intros [H1 H2]. split; [constructor|]. intros q c Hq. cbn [d_finals] in Hq. apply lookup_insert_Some in Hq as [[<- <-]|[_ Hq]]; [done|by eapply H2].
  - case_bool_decide; [|done]. apply pure_finals. intros q c. apply compress_origin.
Qed.

Lemma cut_tail e content content' n : cutPartialLine e content = (content', Ok n) → tail_of content' = "".
Proof.
  intros H. pose proof (cut_spec e content) as Hc. rewrite H in Hc. destruct Hc as [_ [-> _]]. by apply clean_split, complete_lines.
Qed.

Lemma cut_pure e content content' r x f : cutPartialLine e content = (content', r) →
  part (mkDisk x f) = content → pure (mkDisk x f) (mkDisk (Some content') f).
Proof.
  intros H Hp. pose proof (cut_spec e content) as Hc. rewrite H in Hc. destruct Hc as [Hc _]. apply pure_part; [done|].
  rewrite Hp. change (part (mkDisk (Some content') f)) with content'. by rewrite Hc.
Qed.

Lemma removed_pure content f : pure (mkDisk (Some content) f) (mkDisk None f).
Proof. apply pure_part; [done|]. constructor. Qed.

(** The end of [rotate] and of [recover]: cut, then remove or finalize. *)
Lemma rotate_pure o e s s' err : rotate o e s = (s', err) → pure (s_disk s) (s_disk s').
Proof.
  unfold rotate. intros H. destruct (s_opened s); cbn [negb] in H; [|by simplify_eq].
  destruct (negb (io_close e)); [by simplify_eq|]. destruct (_ || _); [by simplify_eq|]. cbn [drop_file s_disk] in H.
  destruct (cutPartialLine e (part (s_disk s))) as [content r] eqn:Ec.
  assert (pure (s_disk s) (mkDisk (Some content) (d_finals (s_disk s)))) as Hk.
  { destruct (s_disk s) as [x f] eqn:Ed. cbn [d_finals] in *. by eapply cut_pure. }
  destruct r as [n|]; [|by simplify_eq]. destruct (n =? 0).
  - destruct (io_remove e); injection H as <- <-; [|done]. etransitivity; [exact Hk|]. apply removed_pure.
  - apply finalize_pure in H; [by etransitivity|]. by eapply cut_tail.
Qed.

Lemma open_pure e s a b s' err : open e s a b = (s', err) → pure (s_disk s) (s_disk s').
Proof. intros H. apply open_spec in H as (Hp & Hf & _). apply pure_part; [done|]. by rewrite Hp. Qed.

Lemma ready_pure o e s n s' err : ready o e s n = (s', err) → pure (s_disk s) (s_disk s').
Proof.
  unfold ready. intros H. destruct (if s_opened s then _ else _) as [s1 err1] eqn:E1.
  assert (pure (s_disk s) (s_disk s1)) as Hk.
  { destruct (s_opened s); [by injection E1 as <- <-|]. by apply open_pure in E1. }
  destruct err1; [by injection H as <- <-|]. destruct (shouldRotate _ _ _ _); [|by injection H as <- <-].
  destruct (rotate o e s1) as [s2 err2] eqn:E2. apply rotate_pure in E2. destruct err2; [injection H as <- <-; by etransitivity|].
  apply open_pure in H. by do 2 etransitivity; eauto.
Qed.

Lemma write_line_pure e s line t s' err :
  sinv s → s_opened s = true → tail_of (part (s_disk s)) = "" → is_line line → P line →
  write_line e s line t = (s', err) → pure (s_disk s) (s_disk s').
Proof.
  intros Hs Ho Ht Hl HP H. destruct (Hs Ho) as (_ & Hsz & _). unfold write_line in H.
  set (n := if io_write e then String.length line else io_written e) in *.
  set (s1 := with_disk s (mkDisk (Some (part (s_disk s) +:+ stake n line)) (d_finals (s_disk s)))) in *.
  assert (pure (s_disk s) (s_disk s1)) as Hk.
  { apply pure_part; [done|]. change (part (s_disk s1)) with (part (s_disk s) +:+ stake n line). intros Hall.
    destruct (write_spec _ n _ Hl Ht) as [-> | (-> & -> & _)]; [done|]. apply Forall_app. split; [done|]. by constructor. }
  assert (pure (s_disk s) (s_disk (abandon e s1 n))) as Hab.
  { destruct (abandon_disk e s1 (part (s_disk s)) n (stake n line)) as [-> | ->]; [done..|]. by apply pure_part. }
  destruct (io_write e); cbn [negb] in H; [|by injection H as <- <-]. destruct (io_sync e); by injection H as <- <-.
Qed.

Lemma Append_pure o e s ctx env s' err :
  0 < so_RotateEvery o → sinv s → (∀ line, Encode env = Ok line → P line) →
  Append o e s ctx env = (s', err) → pure (s_disk s) (s_disk s').
Proof.
  intros Hr Hs HP H. unfold Append in H. destruct ctx; [by injection H as <- <-|].
  destruct (Encode env) as [line|] eqn:E; [|by injection H as <- <-]. unfold append_line in H.
  destruct (s_closed s); [by injection H as <- <-|]. destruct (ready o e s (slen line)) as [s1 err1] eqn:E1.
  pose proof (ready_pure _ _ _ _ _ _ E1) as Hk. apply ready_spec in E1 as (_ & _ & Hs1 & Hrd); [|done..].
  destruct err1; [by injection H as <- <-|]. destruct (Hrd eq_refl) as [Ho Ht].
  apply write_line_pure in H; [by etransitivity|done..|by eapply Encode_is_line|by apply HP].
Qed.

Lemma Close_pure o e s s' err : Close o e s = (s', err) → pure (s_disk s) (s_disk s').
Proof.
  unfold Close. destruct (s_closed s); [by intros [= <- <-]|]. destruct (rotate o e s) as [s1 err1] eqn:E. apply rotate_pure in E.
  by intros [= <- <-].
Qed.

Lemma recover_part_pure o e s s' err : recover_part o e s = (s', err) → pure (s_disk s) (s_disk s').
Proof.
  unfold recover_part. intros H. destruct (s_disk s) as [[content|] f] eqn:Ed; cbn [d_part d_finals] in H.
  2:{ destruct (io_rstat e); injection H as <- <-; by rewrite Ed. }
  destruct (io_rstat e); cbn [negb] in H; [|injection H as <- <-; by rewrite Ed].
  destruct (cutPartialLine e content) as [content' r] eqn:Ec. assert (pure (mkDisk (Some content) f) (mkDisk (Some content') f)) as Hk by by eapply cut_pure.
  destruct r as [n|]; [|by injection H as <- <-]. destruct (n =? 0).
  - destruct (io_remove e); injection H as <- <-; [|done]. etransitivity; [exact Hk|]. apply removed_pure.
  - destruct (finalize o e _ zero_time) as [s2 err2] eqn:E. apply finalize_pure in E; [|by eapply cut_tail].
    destruct err2; injection H as <- <-; by etransitivity.
Qed.

Lemma OpenStore_pure o e d d' r : OpenStore o e d = (d', r) → pure d d'.
Proof.
  unfold OpenStore. intros H. destruct (check_options o); [by injection H as <- <-|].
  destruct (negb (io_open e)); [by injection H as <- <-|]. unfold recover in H.
  destruct (recover_part o e _) as [s1 err1] eqn:E. apply recover_part_pure in E. cbn [s_disk] in E.
  destruct err1; [by injection H as <- <-|]. destruct (negb (io_walk e)); injection H as <- <-; [done|].
  etransitivity; [exact E|]. destruct (s_disk s1) as [x f]. apply sweep_pure.
Qed.

(** The events a run is given. *)
Definition given (x : op) : list Envelope :=
  match x with OAppend _ _ env | OCrashAppend _ env => [env] | _ => [] end.

Lemma node_step_pure o w x w' acked :
  0 < so_RotateEvery o → ninv o w → (∀ env line, env ∈ given x → Encode env = Ok line → P line) →
  node_step o w x = (w', acked) → pure (node_disk w) (node_disk w') ∧ acked ⊆ given x.
Proof.
  intros Hr [_ Hi] HP H. destruct w as [s|d], x as [e ctx env|e| |e env|e|e]; cbn [node_step given] in *;
    try (injection H as <- <-; split; [done|apply list_subseteq_nil]).
  - destruct (Append o e s ctx env) as [s' err] eqn:E. injection H as <- <-. split; [|by destruct err; [apply list_subseteq_nil|]].
    apply Append_pure in E; [done..|]. intros line. apply HP. by left.
  - destruct (Close o e s) as [s' err] eqn:E. injection H as <- <-. split; [by apply Close_pure in E|apply list_subseteq_nil].
  - destruct (Append o e s None env) as [s' err] eqn:E. injection H as <- <-. split; [|apply list_subseteq_nil].
    apply Append_pure in E; [done..|]. intros line. apply HP. by left.
  - destruct (Close o e s) as [s' err] eqn:E. injection H as <- <-. split; [by apply Close_pure in E|apply list_subseteq_nil].
  - destruct (OpenStore o e d) as [d' r] eqn:E. injection H as <- <-. split; [|apply list_subseteq_nil].
    pose proof (OpenStore_spec _ _ _ _ _ E) as (_ & Hd). apply OpenStore_pure in E. destruct r; [|done]. by destruct Hd as (<- & _).
Qed.

Lemma node_run_pure o ops : ∀ w w' acked,
  0 < so_RotateEvery o → ninv o w → (∀ env line, env ∈ ops ≫= given → Encode env = Ok line → P line) →
  node_run o w ops = (w', acked) → pure (node_disk w) (node_disk w') ∧ acked ⊆ ops ≫= given.
Proof.
  induction ops as [|x ops IH]; intros w w' acked Hr Hi HP H; cbn [node_run] in H.
  { injection H as <- <-. split; [done|apply list_subseteq_nil]. }
  destruct (node_step o w x) as [w1 a] eqn:E1. destruct (node_run o w1 ops) as [w2 b] eqn:E2. injection H as <- <-.
  pose proof (node_step_spec _ _ _ _ _ Hr Hi E1) as (Hi1 & _).
  apply node_step_pure in E1 as [Hp1 Ha1]; [|done..|].
  2:{ intros env line Hin. apply HP. rewrite bind_cons. by apply elem_of_app; left. }
  apply IH in E2 as [Hp2 Ha2]; [|done..|].
  2:{ intros env line Hin. apply HP. rewrite bind_cons. by apply elem_of_app; right. }
  split; [by etransitivity|]. rewrite bind_cons. intros env [Hin|Hin]%elem_of_app; apply elem_of_app; [left; by apply Ha1|right; by apply Ha2].
Qed.
End Made.

(** ** Reading lines that were written *)

(** The line of an archivable event among [src]. *)
Definition written (src : list Envelope) (line : string) : Prop :=
  ∃ env v, env ∈ src ∧ archivable env v ∧ Encode env = Ok line.

(** What is read for it. *)
Definition read_as (src : list Envelope) (env' : Envelope) : Prop :=
  ∃ env v, env ∈ src ∧ archivable env v ∧ env' = archived env v.

Lemma Encode_body env v line : archivable env v → Encode env = Ok line → line = body_of env v +:+ String nl "".
Proof.
  intros Ha He. destruct (bool_decide (TrimSpace (e_Payload env) = "")) eqn:Ht; [unfold Encode in He; by rewrite Ht in He|].
  rewrite (Encode_ok env v Ha Ht) in He. by injection He as <-.
Qed.

Lemma same_line env v env' v' line :
  archivable env v → archivable env' v' → Encode env = Ok line → Encode env' = Ok line → archived env v = archived env' v'.
Proof.
  intros Ha Ha' He He'. rewrite (Encode_body _ _ _ Ha He) in He'. apply (Encode_body _ _ _ Ha') in He'. apply sapp_inj_r in He'.
  pose proof (Decode_body env v "" Ha eq_refl) as D. pose proof (Decode_body env' v' "" Ha' eq_refl) as D'.
  rewrite He', D' in D. congruence.
Qed.

(** Written lines followed by anything are read, in order, before it. *)
Lemma read_all_written src ls : Forall (written src) ls → ∀ n rest,
  ∃ envs, Forall2 (λ l e, ∃ env v, env ∈ src ∧ archivable env v ∧ Encode env = Ok l ∧ e = archived env v) ls envs ∧
    read_all n (ls ++ rest) = ((envs ++ (read_all (n + Z.of_nat (length ls)) rest).1)%list, (read_all (n + Z.of_nat (length ls)) rest).2).
Proof.
  induction 1 as [|l ls (env & v & Hs & Ha & He) _ IH]; intros n rest.
  { exists []. cbn [length]. rewrite Z.add_0_r. split; [constructor|]. apply surjective_pairing. }
  destruct (IH (n + 1) rest) as (envs & Hf & Hr). exists (archived env v :: envs). split; [constructor; [eauto 10|done]|].
  cbn [app read_all]. rewrite (Encode_body _ _ _ Ha He), TrimSpace_body.
  rewrite bool_decide_false by (destruct (body_braces env v) as [s ->]; done).
  rewrite <- (sapp_nil_r (body_of env v)) at 1. rewrite (Decode_body env v "" Ha eq_refl), Hr. cbn [length].
  replace (n + 1 + Z.of_nat (length ls)) with (n + Z.of_nat (S (length ls))) by lia. done.
Qed.

Lemma ReadAll_written src content : Forall (written src) (complete content) →
  ∃ envs, Forall (read_as src) envs ∧
    (∀ env v line, archivable env v → Encode env = Ok line → line ∈ complete content → archived env v ∈ envs) ∧
    (∀ e, e ∈ envs → e ∈ (ReadAll content).1) ∧ (tail_of content = "" → ReadAll content = (envs, None)).
Proof.
  intros Hw. pose proof (split_content content) as Hs. pose proof (read_lines_of _ _ _ Hs) as Hl.
  destruct (read_all_written src _ Hw 0 (if bool_decide (tail_of content = "") then [] else [tail_of content])) as (envs & Hf & Hr).
  exists envs. unfold ReadAll. rewrite Hl, Hr. split_and!.
  - clear -Hf. induction Hf as [|l e ls envs (env & v & ? & ? & _ & ->) _ IH]; constructor; [|done]. by exists env, v.
  - intros env v line Ha He Hin. clear -Hf Ha He Hin. induction Hf as [|l e ls envs (env' & v' & _ & Ha' & He' & ->) _ IH]; [by apply not_elem_of_nil in Hin|].
    apply elem_of_cons in Hin as [->|Hin]; [rewrite (same_line env v env' v' l) by done; left|right; by apply IH].
  - intros e Hin. cbn [fst]. apply elem_of_app. by left.
  - intros Ht. rewrite bool_decide_true by done. cbn. by rewrite app_nil_r.
Qed.

(** ** Properties *)

(** C8: the archive is read back.  With time rotation on, run the store from an empty directory
    through any sequence of appends of archivable events, closes, stops, crashes and restarts, with
    any calls failing, any part of a write landing and any compression stopping half way.  Then
    [ReadFile] reads every finalized file, plain or compressed, to its end without an error and
    gives only events that were appended; and every acknowledged event is among those read from
    some finalized file, or among those read from the part file before the piece a crash may have
    left at its end. *)
Theorem archive_reads_back o ops w acked :
  0 < so_RotateEvery o → (∀ env, env ∈ ops ≫= given → ∃ v, archivable env v) →
  node_run o (Down (mkDisk None ∅)) ops = (w, acked) →
  (∀ path c, d_finals (node_disk w) !! path = Some c →
     ∃ envs, ReadFile path None None c = (envs, None) ∧ Forall (read_as (ops ≫= given)) envs) ∧
  ∀ env, env ∈ acked → ∃ v, archivable env v ∧
    ((∃ path c, d_finals (node_disk w) !! path = Some c ∧ archived env v ∈ (ReadFile path None None c).1) ∨
     archived env v ∈ (ReadFile ".part" None None (part (node_disk w))).1).
Proof.
  intros Hr Hsrc H. set (src := ops ≫= given) in *.
  assert (ninv o (Down (mkDisk None ∅))) as Hi.
  { split; [|done]. intros p _ c c' Hc. cbn in Hc. by rewrite lookup_empty in Hc. }
  pose proof (node_run_spec _ _ _ _ _ Hr Hi H) as (_ & _ & Hack).
  assert (made_of (written src) (node_disk w) ∧ acked ⊆ src) as [[Hpart Hfin] Hsub].
  { assert (∀ env line, env ∈ ops ≫= given → Encode env = Ok line → written src line) as Hw.
    { intros env line Hin He. destruct (Hsrc env Hin) as [v Hv]. by exists env, v. }
    destruct (node_run_pure (written src) o ops _ _ _ Hr Hi Hw H) as [Hp Hs]. split; [|exact Hs].
    apply Hp. split; [constructor|]. intros path c Hc. cbn in Hc. by rewrite lookup_empty in Hc. }
  assert (∀ path c, Forall (written src) (complete c) → tail_of c = "" →
    ∃ envs, ReadFile path None None c = (envs, None) ∧ ReadAll c = (envs, None)) as Hfile.
  { intros path c Hw Ht. destruct (ReadAll_written src c Hw) as (envs & _ & _ & _ & Hall). exists envs. unfold ReadFile.
    rewrite (Hall Ht). by destruct (HasSuffix path ".gz"). }
  split.
  - intros path c Hc. destruct (Hfin path c Hc) as [Ht Hw]. destruct (Hfile path c Hw Ht) as (envs & -> & Hra). exists envs. split; [done|].
    destruct (ReadAll_written src c Hw) as (envs' & Hread & _ & _ & Hall). rewrite (Hall Ht) in Hra. by injection Hra as <-.
  - intros env Hin. destruct (Hsrc env (Hsub env Hin)) as [v Hv]. exists v. split; [done|].
    destruct (Hack env Hin) as (line & He & [Hl|(path & c & Hc & Hl)]).
    + right. destruct (ReadAll_written src _ Hpart) as (envs & _ & Hmem & Hfst & _). unfold ReadFile.
      pose proof (Hfst _ (Hmem _ _ _ Hv He Hl)) as Hf. cbn. destruct (ReadAll _) as [es [err|]]; exact Hf.
    + left. exists path, c. split; [done|]. destruct (Hfin path c Hc) as [Ht Hw]. destruct (Hfile path c Hw Ht) as (envs & -> & Hra).
      destruct (ReadAll_written src c Hw) as (envs' & _ & Hmem & _ & Hall). rewrite (Hall Ht) in Hra. injection Hra as <-. by eapply Hmem.
Qed.

(** ** Witness: a torn write, a crash and a restart between two events *)

Lemma archive_reads_back_witness :
  ∃ v, archivable ex_archived_env v ∧
    ((∃ path c, d_finals (node_disk (fst ex_end)) !! path = Some c ∧ archived ex_archived_env v ∈ (ReadFile path None None c).1) ∨
     archived ex_archived_env v ∈ (ReadFile ".part" None None (part (node_disk (fst ex_end)))).1).
Proof.
  assert (snd ex_end = [ex_archived_env; ex_archived_env]) as Ha by (vm_compute; reflexivity).
  refine (proj2 (archive_reads_back (ex_opts 1) ex_ops (fst ex_end) (snd ex_end) eq_refl _ (surjective_pairing _)) ex_archived_env _).
  - intros env Hin. exists (JObj []). assert (Forall (λ e, e = ex_archived_env) (ex_ops ≫= given)) as E by repeat constructor.
    rewrite (proj1 (Forall_forall _ _) E env Hin). exact ex_archivable.
  - rewrite Ha. left.
Defined.
