(* ===== verification/Filesystem.v ===== *)
(** * [internal/sink/archive/drivers/filesystem]: the driver around the JSONL store

    driver.go: the block, its defaults and checks, and [Factory], which opens the store of
    Store.v under the sink's name.  The decoding of the block is the YAML library's. *)

From S2P Require Import Prelude.
From S2P Require Import Errors.
From S2P Require Import GoText.
From S2P Require Import GoTime.
From S2P Require Import ByteSize.
From S2P Require Import Yaml.
From S2P Require Config.
From S2P Require Import Store.

Local Open Scope Z_scope.

Record Config := mkConfig { fs_Dir : string; fs_Compress : string; fs_RotateSize : ByteSize; fs_RotateEvery : Duration }.

Definition DefaultConfig : Config := mkConfig "" CompressNone (128 * MiB) Hour.

Definition Validate (c : Config) : option error :=
  errors_join
    [ (if bool_decide (fs_Dir c = "") then Some (errorf "dir is required") else None);
      err_of (ParseCompression (fs_Compress c));
      (if fs_RotateSize c <? 0 then Some (errorf "rotate_size must not be negative") else None);
      (if fs_RotateEvery c <? 0 then Some (errorf "rotate_every must not be negative") else None) ].

Section Factory.
Variable decode : Node → Config → result Config.

Definition Describe (raw : Node) : result Config := DecodeStrict decode raw DefaultConfig.

(** The options of the store; a compression that does not parse is read as none given. *)
Definition options (name : string) (c : Config) : StoreOptions :=
  mkStoreOptions (fs_Dir c) name (match ParseCompression (fs_Compress c) with Ok z => z | Err _ => "" end)
    (fs_RotateSize c) (fs_RotateEvery c).

(** [Factory] on the files [d]: what is on disk after it, and the store the sink writes to. *)
Definition Factory (name : string) (raw : Node) (e : ioEnv) (d : disk) : disk * result store :=
  match Describe raw with
  | Err err => (d, Err err)
  | Ok cfg =>
      match Validate cfg with
      | Some err => (d, Err err)
      | None => OpenStore (options name cfg) e d
      end
  end.

(** ** Lemmas *)

Lemma sink_name_single name :
  name ≠ "" → Config.sink_name_ok name = true → contains_char "/" name = false ∧ name ≠ "." ∧ name ≠ "..".
Proof.
  intros Hne Hok. split_and!; [|by intros ->..]. clear Hne. unfold Config.sink_name_ok in Hok.
  induction name as [|c s IH]; [done|]. cbn [string_forall contains_char] in *. apply andb_true_iff in Hok as [Hc Hs].
  rewrite (IH Hs), orb_false_r. apply bool_decide_eq_false. intros <-. done.
Qed.

(** A block that passes the checks, under a sink name of a valid configuration, is what the
    store accepts. *)
Lemma options_accepted name c :
  name ≠ "" → Config.sink_name_ok name = true → Validate c = None → check_options (options name c) = None.
Proof.
  intros Hne Hok Hv. destruct (sink_name_single name Hne Hok) as (Hs & Hd & Hdd).
  unfold Validate in Hv. apply errors_join_None in Hv.
  apply Forall_cons in Hv as [H1 Hv]. apply Forall_cons in Hv as [H2 Hv]. apply Forall_cons in Hv as [H3 Hv].
  apply Forall_cons in Hv as [H4 _]. unfold check_options, options. cbn [so_Dir so_Prefix so_Compress so_RotateSize so_RotateEvery].
  destruct (bool_decide (fs_Dir c = "")); [done|].
  rewrite (bool_decide_eq_false_2 _ Hne), Hs, (bool_decide_eq_false_2 _ Hd), (bool_decide_eq_false_2 _ Hdd). cbn [orb andb].
  destruct (fs_RotateSize c <? 0); [done|]. destruct (fs_RotateEvery c <? 0); [done|]. cbn [orb].
  unfold ParseCompression in *. repeat case_match; done.
Qed.

(** ** Properties *)

(** The checks of the block are enough.  Under the name of a sink of a valid configuration,
    a block that does not decode or fails its checks leaves the disk alone and is refused; any
    other block opens the store with its options, and the store cannot refuse them: only a call
    of the file system can fail, and when none does the sink starts with no part file. *)
Lemma Factory_opens name raw e d :
  name ≠ "" → Config.sink_name_ok name = true →
  match Describe raw with
  | Err err => Factory name raw e d = (d, Err err)
  | Ok cfg =>
      match Validate cfg with
      | Some err => Factory name raw e d = (d, Err err)
      | None =>
          Factory name raw e d = OpenStore (options name cfg) e d ∧ check_options (options name cfg) = None ∧
          (calm e → Z.of_nat (S (size (d_finals d))) ≤ int64_max →
             ∃ s, Factory name raw e d = (s_disk s, Ok s) ∧ s_closed s = false ∧ d_part (s_disk s) = None)
      end
  end.
Proof.
  intros Hne Hok. unfold Factory. destruct (Describe raw) as [cfg|]; [|done]. destruct (Validate cfg) eqn:Ev; [done|].
  pose proof (options_accepted name cfg Hne Hok Ev) as Ho. split_and!; [done..|]. intros Hc Hn.
  destruct (OpenStore_calm (options name cfg) e d Ho Hc Hn) as (s & Hs & Hcl & Hp & _). by exists s.
Qed.
End Factory.

(** ** Witness *)

Definition ex_block : Node := mkNode MappingNode 0 "!!map" "" [].
Definition ex_decode (n : Node) (c : Config) : result Config := Ok (mkConfig "/d" "gzip" (fs_RotateSize c) (fs_RotateEvery c)).

Lemma Factory_opens_witness :
  ∃ s, Factory ex_decode "raw" ex_block calm_env no_files = (s_disk s, Ok s) ∧ d_part (s_disk s) = None.
Proof.
  pose proof (Factory_opens ex_decode "raw" ex_block calm_env no_files ltac:(done) eq_refl) as H.
  change (Describe ex_decode ex_block) with (Ok (mkConfig "/d" "gzip" (128 * MiB) Hour) : result Config) in H. cbv iota in H.
  change (Validate (mkConfig "/d" "gzip" (128 * MiB) Hour)) with (None : option error) in H. cbv iota in H.
  destruct H as (_ & _ & H). destruct H as (s & Hs & _ & Hp); [repeat constructor|vm_compute; discriminate|]. by exists s.
Defined.
