(* ===== verification/System.v ===== *)
(** * Between a bus and a sink: the transport of a message, and the archive behind the router

    What Fleet.v and Sinks.v put together: [Transport] states that a message arrives as what was
    published, which both drivers do; the archive sink's [Process] over the JSONL store, as the
    router's handler sees it; the handler a started process makes; and when the envelope of a
    request can cross the bus. *)

From S2P Require Import Prelude.
From S2P Require Import Errors.
From S2P Require Import GoText.
From S2P Require Import GoNum.
From S2P Require Import GoTime.
From S2P Require Import Event.
From S2P Require Import Bus.
From S2P Require GoChannel.
From S2P Require Nats.
From S2P Require Archive.
From S2P Require Import Store.
From S2P Require Import Receiver.
From S2P Require Import Router.

Local Open Scope Z_scope.

(** ** The transport of a message *)

(** [handed m] is what a consumer is given of the published message [m]. *)
Class Transport (handed : Message → Message) : Prop :=
  handed_reads env : publishable env → FromMessage (Some (handed (ToMessage env))) = Ok (utc_envelope env).

(** The in-process bus tags the copy it keeps, and its subscriber removes the tag. *)
Definition gochannel_handed (sub : GoChannel.subscriber) (seq : Z) (m : Message) : Message :=
  fst (GoChannel.deliverable sub (GoChannel.tag seq m)).

Lemma envelope_untagged env : envelope_metadata env !! GoChannel.seqKey = None.
Proof.
  unfold envelope_metadata. cbv zeta.
  assert (∀ c k v (md : Metadata), k ≠ GoChannel.seqKey → md !! GoChannel.seqKey = None → set_if c k v md !! GoChannel.seqKey = None) as Hset.
  { intros c k v md Hk Hmd. unfold set_if. destruct c; [|done]. by rewrite lookup_insert_ne. }
  repeat (apply Hset; [done|]). repeat (rewrite lookup_insert_ne by done). apply lookup_empty.
Qed.

#[export] Instance gochannel_transport sub seq : in_uint64 seq → Transport (gochannel_handed sub seq).
Proof.
  intros Hs env Hp. unfold gochannel_handed.
  rewrite GoChannel.deliverable_tag; [|done|apply envelope_untagged]. cbn [fst]. by apply FromMessage_roundtrip.
Qed.

(** JetStream carries the metadata as headers, set in the order [range] gives. *)
Definition nats_handed (range : gmap string string → list (string * string)) (topic : string) (m : Message) : Message :=
  match Nats.build_msg topic m (range (default ∅ (m_Metadata m))) with Ok n => Nats.toMessage n | Err _ => m end.

#[export] Instance nats_transport range topic : (∀ m, range m ≡ₚ map_to_list m) → Transport (nats_handed range topic).
Proof.
  intros Hr env Hp. unfold nats_handed. cbn [ToMessage m_Metadata default from_option id].
  rewrite (Nats.build_msg_ok _ _ _ _ (Hr _) (Nats.envelope_keys_free env)).
  rewrite Nats.toMessage_headers by apply Nats.envelope_keys_free. by apply FromMessage_roundtrip.
Qed.

(** ** The composed system *)

Section System.
Variable o : StoreOptions.

(** The context a sink is given. *)
Inductive ctx_end := Live | Canceled | TimedOut.
Definition ctx_err (c : ctx_end) : option error :=
  match c with Live => None | Canceled => Some (esent CtxCanceled) | TimedOut => Some (esent CtxDeadlineExceeded) end.

(** The archive sink over the store, in the environment of one call. *)
Definition archive_process (e : ioEnv) (ctx : ctx_end) (env : Envelope) (s : store) : option error * store :=
  Archive.Process (λ env s, let '(s, err) := Append o e s (ctx_err ctx) env in (err, s)) env s.

(** [newService] and [BuildRouter] make a new handler. *)
Definition fresh_handler (h : handler) : handler :=
  mkHandler (h_inst h) (h_consumer h) (h_effective h) (h_warnings h) (h_processTimeout h) initMetrics
    Stalled.newStalledSet zero_time.

(** ** Lemmas *)

(** No error of the archive asks the router to skip the event. *)
Definition unskipped (e : error) : Prop := errors_is e ErrSkipped = false.

Lemma finalize_unskipped e s ts s' err : finalize o e s ts = (s', Some err) → unskipped err.
Proof.
  unfold finalize. destruct (_ && _); [by intros [= _ <-]|]. destruct (negb (io_mkdir e)); [by intros [= _ <-]|].
  destruct (free_seq _ _ _ _ _); [|by intros [= _ <-]]. destruct (negb (io_rename e)); [by intros [= _ <-]|done].
Qed.

Lemma rotate_unskipped e s s' err : rotate o e s = (s', Some err) → unskipped err.
Proof.
  unfold rotate. destruct (negb (s_opened s)); [done|]. destruct (negb (io_close e)); [by intros [= _ <-]|].
  destruct (_ || _); [by intros [= _ <-]|]. unfold cutPartialLine.
  destruct (slen _ =? 0); [by destruct (io_remove e); [|intros [= _ <-]]|].
  destruct (negb (io_cut_open e)); [by intros [= _ <-]|].
  destruct (_ =? slen _); [|destruct (negb (io_cut_truncate e)); [by intros [= _ <-]|destruct (io_cut_sync e); [|by intros [= _ <-]]]];
    (destruct (_ =? 0); [by destruct (io_remove e); [|intros [= _ <-]]|apply finalize_unskipped]).
Qed.

Lemma open_unskipped e s a b s' err : open e s a b = (s', Some err) → unskipped err.
Proof. unfold open. intros Ho. repeat case_match; by simplify_eq/=. Qed.

Lemma append_line_unskipped e s line t s' err : append_line o e s line t = (s', Some err) → unskipped err.
Proof.
  unfold append_line. destruct (s_closed s); [by intros [= _ <-]|]. destruct (ready o e s (slen line)) as [s1 [err1|]] eqn:E.
  - intros [= _ <-]. revert E. unfold ready. destruct (if s_opened s then _ else _) as [s2 [err2|]] eqn:E2.
    + intros [= _ <-]. destruct (s_opened s); [done|]. by eapply open_unskipped.
    + destruct (shouldRotate _ _ _ _); [|done]. destruct (rotate o e s2) as [s3 [err3|]] eqn:E3; [|by apply open_unskipped].
      intros [= _ <-]. apply rotate_unskipped in E3. exact E3.
  - unfold write_line. intros Hw. repeat case_match; by simplify_eq/=.
Qed.

Lemma Append_unskipped e s ctx env s' err : Append o e s (ctx_err ctx) env = (s', Some err) → unskipped err.
Proof.
  unfold Append. destruct ctx; cbn [ctx_err]; try by intros [= _ <-].
  destruct (Archive.Encode env) eqn:E; [by apply append_line_unskipped|]. intros [= _ <-].
  unfold Archive.Encode in E. repeat case_match; by simplify_eq/=.
Qed.

Lemma archive_process_spec e ctx env s :
  snd (archive_process e ctx env s) = fst (Append o e s (ctx_err ctx) env) ∧
  match fst (archive_process e ctx env s) with
  | None => snd (Append o e s (ctx_err ctx) env) = None
  | Some err => unskipped err ∧ is_Some (snd (Append o e s (ctx_err ctx) env))
  end.
Proof.
  unfold archive_process, Archive.Process. destruct (Append o e s (ctx_err ctx) env) as [s' [err|]] eqn:E; [|done].
  cbn [fst snd]. split; [done|]. split; [|done]. by apply Append_unskipped in E.
Qed.

(** A step of the node with nothing to acknowledge. *)
Lemma node_keeps w x : 0 < so_RotateEvery o → ninv o w → ninv o (fst (node_step o w x)) ∧ keeps (node_disk w) (node_disk (fst (node_step o w x))).
Proof.
  intros Hr Hi. destruct (node_step o w x) as [w' a] eqn:E. apply node_step_spec in E as (Hi' & Hk & _); [|done..]. by split.
Qed.

(** Removing one element leaves every other. *)
Lemma elem_of_delete {A} (l : list A) i x y : l !! i = Some x → y ∈ l → y = x ∨ y ∈ delete i l.
Proof.
  intros Hx Hy. rewrite (delete_Permutation l i x Hx) in Hy. apply elem_of_cons in Hy as [?|?]; [by left|by right].
Qed.

(** What [FromWebhook] makes of a request can cross the bus, if its repository id is not
    negative and the clock shows a year of four digits. *)
Lemma FromWebhook_publishable hdr body start env :
  FromWebhook hdr body start = Ok env → utc_4digit (UTC start) → 0 ≤ e_RepositoryID env → publishable env ∧ utc_envelope env = env.
Proof.
  intros (Hv & Hg & Hg' & He & He' & Ht & Hp & Hb & Hh & Hr)%FromWebhook_fields Hy Hpos. split.
  - constructor; try done; [by rewrite Ht|by destruct Hr|by rewrite Hh].
  - unfold utc_envelope. destruct env; simpl in *. by subst.
Qed.
End System.

(** ** A request *)

Definition ex_signed : Header := <[CanonicalHeaderKey HeaderSignature := [Sign "s3cret" ex_body]]> ex_header.

Definition ex_env : Envelope := mkEnvelope 1 "guid-1" "workflow_run" "" "" (UTC ex_t) 7 "" "" 0 ex_body.
