(* ===== verification/Fleet.v ===== *)
(** * From a webhook to every sink: the program with all the sinks it was given

    One webhook receiver, one bus and any number of sinks of any class, each a consumer of the
    bus with the router's handler in front of it, composed as [serve.go] composes them.  A sink
    is what the router sees of it - [Process] over a state of its own - with what it has kept of
    the events it acknowledged; [Durable] is its side of the contract, which Sinks.v shows of the
    sinks of every class.

    The broker behind the bus is not this program's code.  What it keeps is modelled as far as
    the repository documents it and no further.  A message that was published is in front of
    every consumer until that acknowledges it ([FanOut] of capabilities.go, without which
    [ResolveConsumer] lets nothing start); a repeated UUID may be
    collapsed, which publishes nothing and is no error ([Deduplicates]; [ack.Duplicate] in the
    [Publish] of natsjs/driver.go); a message past the retention may be dropped at any time
    (docs/operations.md); and what was published before the process ended is kept only by a bus
    whose capabilities say so ([DurablePublish] and [DurableConsumers]; the channels of
    gochannel/driver.go keep nothing). *)

From S2P Require Import Prelude.
From S2P Require Import Errors.
From S2P Require Import GoText.
From S2P Require Import GoTime.
From S2P Require Import Event.
From S2P Require Import Bus.
From S2P Require Import Receiver.
From S2P Require Import Router.
From S2P Require Import System.

Local Open Scope Z_scope.

(** ** A sink and its contract *)

Record sinkModel := mkSinkModel {
  sm_state : Type;
  sm_call : Type;                     (* what one call of Process meets: contexts, clients, disks *)
  sm_call_ok : sm_call → Prop;
  sm_process : sm_call → Envelope → sm_state → option error * sm_state;
  sm_life : Type;                     (* what happens to it otherwise: opening, closing, crashes *)
  sm_live : sm_life → sm_state → sm_state;
  sm_exit : sm_life;                  (* the process ends: what the sink had in memory is gone *)
  sm_open : sm_state → bool;          (* the router runs over an open sink *)
  sm_inv : sm_state → Prop;
  sm_ignores : Envelope → Prop;       (* events the class has nothing to do for *)
  sm_kept : Envelope → sm_state → Prop }.

(** What the router relies on: an acknowledged event is kept, an event is skipped only if the
    class ignores it, and nothing that happens later takes a kept event away. *)
Class Durable (k : sinkModel) : Prop := {
  durable_process x env s :
    sm_call_ok k x → sm_inv k s → sm_open k s = true →
    let '(err, s') := sm_process k x env s in
    sm_inv k s' ∧ (∀ env', sm_kept k env' s → sm_kept k env' s') ∧
    match err with
    | None => sm_kept k env s'
    | Some e => errors_is e ErrSkipped = true → sm_ignores k env
    end;
  durable_live l s :
    sm_inv k s → sm_inv k (sm_live k l s) ∧ ∀ env', sm_kept k env' s → sm_kept k env' (sm_live k l s) }.

(** ** The program *)

(** A message as the broker stored it: when, and in which run of the process. *)
Record stored := mkStored { st_msg : Message; st_at : Z; st_epoch : nat }.

(** A sink with its handler and the messages its consumer has not acknowledged. *)
Record runner := mkRunner {
  rn_model : sinkModel; rn_handler : handler; rn_queue : list stored; rn_state : sm_state rn_model }.

Definition with_queue (r : runner) (q : list stored) : runner := mkRunner (rn_model r) (rn_handler r) q (rn_state r).

(** What the broker is configured to: the retention ([None] without a limit), the window in which
    it looks for a repeated UUID, and which messages it collapses, given what it has and its
    clock. *)
Record keeping := mkKeeping {
  kp_retention : option Duration; kp_window : Duration; kp_collapses : list stored → Message → Z → bool }.

(** A message is collapsed only into one with its UUID, stored within the window; and the window
    is inside the retention, which [Validate] of natsjs/config.go asks for. *)
Class Keeping (k : keeping) : Prop := {
  collapses_known l m now :
    kp_collapses k l m now = true → ∃ p, p ∈ l ∧ m_UUID (st_msg p) = m_UUID m ∧ now - st_at p ≤ kp_window k;
  window_inside d : kp_retention k = Some d → kp_window k ≤ d;
  window_length : 0 ≤ kp_window k }.

Section Fleet.
Context {S Sub : Type} `{BusLaws S Sub}.
Variable handed : Message → Message.
(** A publish that failed may have reached the broker all the same. *)
Variable stored_anyway : Message → Z → bool.
Variable secret : string.
Variable keep : keeping.

(** The bus, the consumers, the broker's clock, the number of the run of the process, and every
    message the broker has stored so far. *)
Record fleet := mkFleet {
  fl_bus : S; fl_up : bool; fl_runners : list runner; fl_now : Z; fl_epoch : nat; fl_log : list stored }.

Definition with_bus (f : fleet) (s : S) : fleet := mkFleet s (fl_up f) (fl_runners f) (fl_now f) (fl_epoch f) (fl_log f).

(** Published messages, and the positions of the consumers, survive the end of the process. *)
Definition durable (f : fleet) : bool := DurablePublish (bus_capabilities (fl_bus f)) && DurableConsumers (bus_capabilities (fl_bus f)).

(** What was stored and not lost with an earlier run of the process. *)
Definition present (f : fleet) : list stored :=
  if durable f then fl_log f else filter (λ p, st_epoch p = fl_epoch f) (fl_log f).

(** The broker stores a message and puts it in front of every consumer. *)
Definition store_message (f : fleet) (m : Message) : fleet :=
  let p := mkStored m (fl_now f) (fl_epoch f) in
  mkFleet (fl_bus f) (fl_up f) ((λ r, with_queue r (rn_queue r ++ [p])%list) <$> fl_runners f) (fl_now f) (fl_epoch f) (fl_log f ++ [p])%list.

Definition fleet_publish (f : fleet) (ctx : option error) (msg : option Message) : fleet * option error :=
  let '(s, err) := bus_publish (fl_bus f) ctx msg in
  let f' := match msg with
            | Some m =>
                let reached := match err with None => true | Some _ => stored_anyway m (fl_now f) end in
                if reached && negb (kp_collapses keep (present f) m (fl_now f)) then store_message (with_bus f s) m else with_bus f s
            | None => with_bus f s
            end in
  (f', err).

#[local] Instance Fleet_Bus : Bus fleet Sub := {|
  bus_topic := λ f, bus_topic (fl_bus f); bus_capabilities := λ f, bus_capabilities (fl_bus f);
  bus_closed := λ f, bus_closed (fl_bus f); bus_publish := fleet_publish;
  bus_subscribe := λ f, bus_subscribe (fl_bus f);
  bus_close := λ f, let '(s, e) := bus_close (fl_bus f) in (with_bus f s, e) |}.

(** One delivery to one sink: the handler of router.go around its [Process]. *)
Definition run_delivery (r : runner) (i : nat) (c : clock) (x : sm_call (rn_model r)) : runner :=
  match rn_queue r !! i with
  | Some p =>
      if sm_open (rn_model r) (rn_state r) then
        let msg := handed (st_msg p) in
        let '(h, err) := handle (λ env, fst (sm_process _ x env (rn_state r))) (rn_handler r) c msg in
        let s := match FromMessage (Some msg) with Ok env => snd (sm_process _ x env (rn_state r)) | Err _ => rn_state r end in
        mkRunner (rn_model r) h (match err with None => delete i (rn_queue r) | Some _ => rn_queue r end) s
      else r
  | None => r
  end.

Lemma run_delivery_model r i c x : ∃ h q s, run_delivery r i c x = mkRunner (rn_model r) h q s.
Proof. unfold run_delivery. cbv zeta. repeat case_match; first [by eexists _, _, _|destruct r; by eexists _, _, _]. Qed.

Definition run_life (r : runner) (l : sm_life (rn_model r)) : runner :=
  mkRunner (rn_model r) (rn_handler r) (rn_queue r) (sm_live _ l (rn_state r)).

Definition request_answer (f : fleet) (read : readResult) (hdr : Header) (start : Time) (ctx : publishCtx) : served fleet :=
  serveWebhook secret f read hdr start ctx.

Definition with_runner (f : fleet) (n : nat) (r : runner) : fleet :=
  mkFleet (fl_bus f) (fl_up f) (<[n := r]> (fl_runners f)) (fl_now f) (fl_epoch f) (fl_log f).

(** Time passes for the broker. *)
Definition later (f : fleet) (d : Z) : fleet :=
  mkFleet (fl_bus f) (fl_up f) (fl_runners f) (fl_now f + Z.max 0 d) (fl_epoch f) (fl_log f).

(** The message is past the retention. *)
Definition expired (f : fleet) (p : stored) : Prop := ∃ d, kp_retention keep = Some d ∧ d < fl_now f - st_at p.

(** It was published to a bus that is not durable, in a run of the process that has ended. *)
Definition outlived (f : fleet) (p : stored) : Prop := durable f = false ∧ (st_epoch p < fl_epoch f)%nat.

(** When the broker may no longer have a message that was not acknowledged. *)
Definition lost (f : fleet) (p : stored) : Prop := expired f p ∨ outlived f p.

(** The process ends: what the sinks had in memory is gone, and with a bus that is not durable so
    are the messages. *)
Definition stopped (f : fleet) : fleet :=
  mkFleet (fl_bus f) false
    ((λ r, let r := run_life r (sm_exit (rn_model r)) in if durable f then r else with_queue r []) <$> fl_runners f)
    (fl_now f) (fl_epoch f + 1) (fl_log f).

(** [newService] builds the bus and the router anew, over what the broker has kept. *)
Definition restarted (f : fleet) (s : S) : fleet :=
  mkFleet s true ((λ r, mkRunner (rn_model r) (fresh_handler (rn_handler r)) (rn_queue r) (rn_state r)) <$> fl_runners f)
    (fl_now f) (fl_epoch f) (fl_log f).

(** What may happen at any time, apart from requests and the end and start of the process. *)
Inductive inner_step (f : fleet) : fleet → Prop :=
  | step_deliver n r i c x :                     (* the bus hands a message to a sink's consumer *)
      fl_up f = true → fl_runners f !! n = Some r → sm_call_ok _ x → inner_step f (with_runner f n (run_delivery r i c x))
  | step_life n r l :                            (* a sink is opened, closed, or crashes *)
      fl_runners f !! n = Some r → inner_step f (with_runner f n (run_life r l))
  | step_time d : inner_step f (later f d)
  | step_expire n r i p :                        (* the broker drops a message past the retention *)
      fl_runners f !! n = Some r → rn_queue r !! i = Some p → expired f p →
      inner_step f (with_runner f n (with_queue r (delete i (rn_queue r)))).

(** What may happen, at any time. *)
Inductive fleet_step (f : fleet) : fleet → Prop :=
  | step_inner f' : inner_step f f' → fleet_step f f'
  | step_request read hdr start ctx :            (* a request reaches the receiver *)
      fl_up f = true → fleet_step f (sv_bus (request_answer f read hdr start ctx))
  | step_down : fleet_step f (stopped f)         (* the process ends, in whatever way *)
  | step_up s :                                  (* and is started with the same configuration *)
      fl_up f = false → bus_capabilities s = bus_capabilities (fl_bus f) → fleet_step f (restarted f s).

(** ** What becomes of a message *)

(** It is still to be acknowledged, or its event is kept, or nothing was to be done for it. *)
Definition served_by (r : runner) (p : stored) : Prop :=
  p ∈ rn_queue r ∨
  ∃ env, FromMessage (Some (handed (st_msg p))) = Ok env ∧ (sm_kept _ env (rn_state r) ∨ sm_ignores (rn_model r) env).

Definition runner_inv (r : runner) : Prop := Durable (rn_model r) ∧ sm_inv _ (rn_state r).

(** Every message the broker stored is served by the sink, or was lost. *)
Record runner_ok (f : fleet) (r : runner) : Prop := {
  ok_inv : runner_inv r;
  ok_queue : rn_queue r ⊆ fl_log f;
  ok_served p : p ∈ fl_log f → served_by r p ∨ lost f p }.

Definition stream_ok (f : fleet) : Prop := Forall (λ p, st_at p ≤ fl_now f ∧ (st_epoch p ≤ fl_epoch f)%nat) (fl_log f).

Definition fleet_inv (f : fleet) : Prop := stream_ok f ∧ Forall (runner_ok f) (fl_runners f).

(** A sink took a step: the same class, and what it served it serves. *)
Record moved (r r' : runner) : Prop := {
  moved_model : rn_model r' = rn_model r;
  moved_inv : runner_inv r';
  moved_queue : rn_queue r' ⊆ rn_queue r;
  moved_served p : served_by r p → served_by r' p }.

Lemma moved_refl r : runner_inv r → moved r r.
Proof. by constructor. Qed.

Lemma run_life_moved r l : runner_inv r → moved r (run_life r l).
Proof.
  intros [Hd Hi]. destruct (durable_live (k := rn_model r) l _ Hi) as [Hi' Hk]. constructor; [done|by split|done|].
  intros p [Hp|(env & H1 & [H2|H2])]; [by left|right..]; exists env; split; try done; [left; by apply Hk|by right].
Qed.

(** The router acknowledges a message exactly when it was decoded and its sink returned no error
    or skipped the event. *)
Lemma handle_acks process h c msg :
  snd (handle process h c msg) = None ↔
  ∃ env, FromMessage (Some msg) = Ok env ∧
    match process env with None => True | Some e => errors_is e ErrSkipped = true end.
Proof.
  unfold handle. destruct (FromMessage (Some msg)) as [env|err]; [|split; [done|by intros (? & ? & _)]]. cbv zeta.
  destruct (process env) as [e|] eqn:E; [destruct (errors_is e ErrSkipped) eqn:Es; [|destruct (IsPermanent e)]|].
  2,3: split; [done|]; intros (env' & [= <-] & Hx); rewrite E in Hx; congruence.
  all: split; [|done]; intros _; exists env; by rewrite E.
Qed.

Lemma run_delivery_moved r i c x : runner_inv r → sm_call_ok _ x → moved r (run_delivery r i c x).
Proof.
  intros [Hd Hi] Hx. unfold run_delivery. destruct (rn_queue r !! i) as [q|] eqn:Eq; [|by apply moved_refl].
  destruct (sm_open _ _) eqn:Eo; [|by apply moved_refl]. cbv zeta.
  pose proof (handle_acks (λ env, fst (sm_process _ x env (rn_state r))) (rn_handler r) c (handed (st_msg q))) as Hh.
  destruct (handle _ _ c _) as [h err]. cbn [snd] in Hh.
  assert (∀ e : option error, match e with None => delete i (rn_queue r) | Some _ => rn_queue r end ⊆ rn_queue r) as Hsub.
  { intros [e|]; [done|]. intros y Hy. eapply elem_of_sublist; [exact Hy|apply sublist_delete]. }
  destruct (FromMessage (Some (handed (st_msg q)))) as [env|ferr] eqn:Ef.
  - pose proof (durable_process (k := rn_model r) x env _ Hx Hi Eo) as Hp. destruct (sm_process _ x env (rn_state r)) as [perr s'] eqn:Ep.
    destruct Hp as (Hi' & Hk & Ha). cbn [snd]. constructor; [done|by split|apply Hsub|].
    intros p [Hp|(env' & H1 & [H2|H2])]; [|right; exists env'; split; [done|]; [left; by apply Hk]..|right; exists env'; split; [done|by right]].
    destruct err as [err|]; [by left|]. apply (elem_of_delete _ _ _ _ Eq) in Hp as [->|Hp]; [right|by left].
    exists env. split; [done|]. destruct (proj1 Hh eq_refl) as (env' & [= <-] & Hack). rewrite Ep in Hack. cbn [fst] in Hack.
    destruct perr as [e|]; [right; by apply Ha|left; exact Ha].
  - destruct err as [err|]; [|by destruct (proj1 Hh eq_refl) as (? & ? & _)]. by constructor.
Qed.

(** ** The whole program *)

(** What every step keeps: the messages stored, the losses, the classes of the sinks. *)
Record fleet_next (f f' : fleet) : Prop := {
  next_log : fl_log f ⊆ fl_log f';
  next_lost p : lost f p → lost f' p;
  next_durable : durable f' = durable f;
  next_models : rn_model <$> fl_runners f' = rn_model <$> fl_runners f }.

Lemma fleet_next_refl f : fleet_next f f.
Proof. by constructor. Qed.

Lemma fleet_next_trans a b c : fleet_next a b → fleet_next b c → fleet_next a c.
Proof.
  intros [A1 A2 A3 A4] [B1 B2 B3 B4]. constructor; [set_solver|auto|congruence..].
Qed.

Definition steps (f f' : fleet) : Prop := fleet_inv f' ∧ fleet_next f f'.

Lemma lost_mono f f' p :
  fl_now f ≤ fl_now f' → (fl_epoch f ≤ fl_epoch f')%nat → durable f' = durable f → lost f p → lost f' p.
Proof. intros Hn He Hd [(d & H1 & H2)|[H1 H2]]; [left; exists d; split; [done|lia]|right; split; [congruence|lia]]. Qed.

(** A step that stores nothing. *)
Lemma quiet_steps f f' :
  fleet_inv f → fl_log f' = fl_log f → fl_now f ≤ fl_now f' → (fl_epoch f ≤ fl_epoch f')%nat → durable f' = durable f →
  Forall2 (λ r r', runner_inv r' ∧ rn_model r' = rn_model r ∧ rn_queue r' ⊆ rn_queue r ∧
    ∀ p, p ∈ fl_log f → served_by r p → served_by r' p ∨ lost f' p) (fl_runners f) (fl_runners f') →
  steps f f'.
Proof.
  intros [Hl Hr] El Hn He Hd Hrs.
  assert (∀ p, lost f p → lost f' p) as Hlost by (intros p; by apply lost_mono). split; [split|constructor].
  - unfold stream_ok in *. rewrite El. eapply Forall_impl; [exact Hl|]. cbv beta. intros p. lia.
  - clear Hl. induction Hrs as [|r r' l l' (H1 & H2 & H3 & H4) _ IH]; constructor; apply Forall_cons in Hr as [[O1 O2 O3] Hr]; [|auto].
    constructor; [done|rewrite El; set_solver|]. rewrite El. intros p Hp. destruct (O3 p Hp) as [Hs|Hs]; auto.
  - by rewrite El.
  - done.
  - done.
  - clear -Hrs. induction Hrs as [|r r' l l' (_ & H2 & _) _ IH]; [done|]. cbn. by rewrite H2, IH.
Qed.

(** One sink takes a step, and the clock stands still. *)
Lemma step_runner f n r r' :
  fleet_inv f → fl_runners f !! n = Some r →
  (runner_inv r → runner_inv r' ∧ rn_model r' = rn_model r ∧ rn_queue r' ⊆ rn_queue r ∧
    ∀ p, p ∈ fl_log f → served_by r p → served_by r' p ∨ lost f p) →
  steps f (with_runner f n r').
Proof.
  intros Hf Hr Hn. apply quiet_steps; [done|done|cbn; lia|cbn; lia|done|]. destruct Hf as [_ Hf]. cbn [with_runner fl_runners].
  apply Forall2_lookup. intros k. destruct (decide (k = n)) as [->|Hne].
  - rewrite list_lookup_insert_eq, Hr by (by eapply lookup_lt_Some). constructor. apply Hn.
    by destruct (Forall_lookup_1 _ _ _ _ Hf Hr).
  - rewrite list_lookup_insert_ne by done. destruct (fl_runners f !! k) as [rk|] eqn:E; constructor.
    destruct (Forall_lookup_1 _ _ _ _ Hf E). split_and!; [done..|]. by left.
Qed.

Lemma step_moved f n r r' :
  fleet_inv f → fl_runners f !! n = Some r → (runner_inv r → moved r r') → steps f (with_runner f n r').
Proof. intros Hf Hr Hm. eapply step_runner; [done..|]. intros Hi. destruct (Hm Hi). split_and!; auto. Qed.

(** Every sink takes a step. *)
Lemma step_all f f' (g : runner → runner) :
  fleet_inv f → fl_log f' = fl_log f → fl_now f ≤ fl_now f' → (fl_epoch f ≤ fl_epoch f')%nat → durable f' = durable f →
  fl_runners f' = g <$> fl_runners f →
  (∀ r, runner_inv r → runner_inv (g r) ∧ rn_model (g r) = rn_model r ∧ rn_queue (g r) ⊆ rn_queue r ∧
    ∀ p, p ∈ fl_log f → served_by r p → served_by (g r) p ∨ lost f' p) →
  steps f f'.
Proof.
  intros Hf El Hn He Hd Er Hg. apply quiet_steps; [done..|]. rewrite Er. destruct Hf as [_ Hf]. clear Er.
  apply Forall2_fmap_r, Forall_Forall2_diag. eapply Forall_impl; [exact Hf|]. intros r [Hi _ _]. by apply Hg.
Qed.

Lemma down_steps f : fleet_inv f → steps f (stopped f).
Proof.
  intros Hf. eapply step_all; [done|done|cbn; lia|cbn; lia|done|done|]. intros r Hi. cbv zeta.
  destruct (run_life_moved r (sm_exit (rn_model r)) Hi) as [M1 M2 M3 M4]. destruct (durable f) eqn:E.
  - split_and!; auto.
  - split; [exact M2|]. split; [exact M1|]. split; [apply list_subseteq_nil|]. intros p Hp _. right. right. split; [exact E|].
    destruct Hf as [Hl _]. unfold stream_ok in Hl. rewrite Forall_forall in Hl. destruct (Hl p Hp). cbn. lia.
Qed.

Lemma up_steps f s : fleet_inv f → bus_capabilities s = bus_capabilities (fl_bus f) → steps f (restarted f s).
Proof.
  intros Hf Hs. eapply step_all; [done|done|cbn; lia|cbn; lia| |done|].
  - unfold durable. cbn. by rewrite Hs.
  - intros r Hi. split_and!; [done..|]. by left.
Qed.

Lemma inner_steps f f' : fleet_inv f → inner_step f f' → steps f f'.
Proof.
  intros Hf [n r i c x Hup Hr Hx|n r l Hr|d|n r i p Hr Hq He].
  - eapply step_moved; [done..|]. intros Hi. by apply run_delivery_moved.
  - eapply step_moved; [done..|]. intros Hi. by apply run_life_moved.
  - eapply (step_all _ _ id); [done|done|cbn; lia|cbn; lia|done|by rewrite list_fmap_id|]. intros r Hi. split_and!; [done..|]. by left.
  - eapply step_runner; [done..|]. intros Hi. split_and!; [done|done| |].
    + intros y Hy. eapply elem_of_sublist; [exact Hy|apply sublist_delete].
    + intros p' _ [Hp|Hp]; [|by left; right]. apply (elem_of_delete _ _ _ _ Hq) in Hp as [->|Hp]; [by right; left|by left; left].
Qed.

(** What a publish stores. *)
Lemma store_steps f m : fleet_inv f → steps f (store_message f m).
Proof.
  intros [Hl Hr]. unfold store_message. set (p := mkStored m _ _).
  assert (∀ q, lost f q → lost (store_message f m) q) as Hlost by (intros q; apply lost_mono; cbn; [lia|lia|done]). split; [split|constructor].
  - unfold stream_ok in *. cbn. apply Forall_app. split; [done|]. apply Forall_singleton. cbn. lia.
  - cbn. apply Forall_fmap. eapply Forall_impl; [exact Hr|]. intros r [O1 O2 O3]. constructor; cbn; [done|set_solver|].
    intros q. rewrite elem_of_app, list_elem_of_singleton. intros [Hq| ->].
    + destruct (O3 q Hq) as [[Hs|Hs]|Hs]; [left; left; cbn; set_solver|by left; right|by right; apply Hlost].
    + left; left. cbn. set_solver.
  - cbn. set_solver.
  - exact Hlost.
  - done.
  - cbn. rewrite <- list_fmap_compose. by apply list_fmap_ext.
Qed.

Lemma with_bus_steps f s : fleet_inv f → bus_capabilities s = bus_capabilities (fl_bus f) → steps f (with_bus f s).
Proof.
  intros Hf Hs. eapply (step_all _ _ id); [done|done|cbn; lia|cbn; lia| |by rewrite list_fmap_id|].
  - unfold durable. cbn. by rewrite Hs.
  - intros r Hi. split_and!; [done..|]. by left.
Qed.

Lemma steps_trans a b c : steps a b → steps b c → steps a c.
Proof. intros [_ H1] [H2 H3]. split; [done|by eapply fleet_next_trans]. Qed.

Lemma publish_steps f ctx msg : fleet_inv f → steps f (fst (fleet_publish f ctx msg)).
Proof.
  intros Hf. unfold fleet_publish. destruct (bus_publish (fl_bus f) ctx msg) as [s err] eqn:E. cbn [fst].
  assert (steps f (with_bus f s)) as Hs.
  { apply with_bus_steps; [done|]. pose proof (publish_capabilities (fl_bus f) ctx msg) as Hc. by rewrite E in Hc. }
  destruct msg as [m|]; [|done]. cbv zeta. destruct (_ && _); [|done]. eapply steps_trans; [exact Hs|]. apply store_steps. by destruct Hs.
Qed.

Lemma request_steps f read hdr start ctx : fleet_inv f → steps f (sv_bus (request_answer f read hdr start ctx)).
Proof.
  intros Hf. pose proof (serveWebhook_cases secret f read hdr start ctx) as Hc. cbv zeta in Hc. unfold request_answer.
  destruct Hc as [(-> & _)|[(body & _ & _ & -> & _)|(body & env & err & _ & _ & Hp & _)]];
    [by split; [|apply fleet_next_refl]..|].
  change (bus_publish f) with (fleet_publish f) in Hp. pose proof (publish_steps f (pc_err ctx) (Some (ToMessage env)) Hf) as Hq.
  by rewrite Hp in Hq.
Qed.

Lemma fleet_step_steps f f' : fleet_inv f → fleet_step f f' → steps f f'.
Proof. intros Hf [f1 Hs|read hdr start ctx _| |s _ Hs]; [by apply inner_steps|by apply request_steps|by apply down_steps|by apply up_steps]. Qed.

Lemma fleet_run_steps f f' : fleet_inv f → rtc fleet_step f f' → steps f f'.
Proof.
  intros Hf Hr. revert Hf. induction Hr as [f|f f1 f' Hs _ IH]; intros Hf; [by split; [|apply fleet_next_refl]|].
  pose proof (fleet_step_steps f f1 Hf Hs) as Hn. eapply steps_trans; [exact Hn|]. apply IH. by destruct Hn.
Qed.

(** ** Accepted deliveries *)

(** How the broker has a message that was published to it: as it came, or as the message with its
    UUID that it had, stored within the window. *)
Definition stands (f : fleet) (m : Message) (p : stored) : Prop :=
  if kp_collapses keep (present f) m (fl_now f)
  then p ∈ present f ∧ m_UUID (st_msg p) = m_UUID m ∧ fl_now f - st_at p ≤ kp_window keep
  else p = mkStored m (fl_now f) (fl_epoch f).

(** What the sink has of the event [env], which the broker stored as [p]. *)
Definition taken_care (f : fleet) (env : Envelope) (p : stored) (r : runner) : Prop :=
  p ∈ rn_queue r ∨ sm_kept _ env (rn_state r) ∨ sm_ignores (rn_model r) env ∨ lost f p.

Lemma stands_cases f m p :
  stands f m p → p = mkStored m (fl_now f) (fl_epoch f) ∨
  (p ∈ present f ∧ m_UUID (st_msg p) = m_UUID m ∧ fl_now f - st_at p ≤ kp_window keep).
Proof. unfold stands. destruct (kp_collapses _ _ _ _); [by right|by left]. Qed.

Lemma present_log f p : p ∈ present f → p ∈ fl_log f.
Proof. unfold present. destruct (durable f); [done|]. by intros [_ ?]%list_elem_of_filter. Qed.

(** At that moment the message is not lost. *)
Lemma stands_present (HK : Keeping keep) f f' m p :
  stands f m p → fl_now f' = fl_now f → fl_epoch f' = fl_epoch f → durable f' = durable f → ¬ lost f' p.
Proof.
  intros Hs%stands_cases En Ee Ed [(d & Hd & Hx)|[Hd Hx]]; rewrite ?En, ?Ee, ?Ed in *.
  - pose proof (window_inside d Hd). pose proof window_length. destruct Hs as [->|(_ & _ & ?)]; cbn in *; lia.
  - destruct Hs as [->|(Hp & _)]; [cbn in *; lia|]. unfold present in Hp. rewrite Hd in Hp.
    apply list_elem_of_filter in Hp as [Hp _]. lia.
Qed.

(** What a request leaves behind: the broker's clock stands, and a message is stored only for an
    authenticated delivery. *)
Lemma request_log f read hdr start ctx :
  let f1 := sv_bus (request_answer f read hdr start ctx) in
  (fl_now f1 = fl_now f ∧ fl_epoch f1 = fl_epoch f ∧ fl_up f1 = fl_up f ∧ durable f1 = durable f) ∧
  ∀ p, p ∈ fl_log f1 → p ∈ fl_log f ∨
    ∃ body env, authenticated secret read hdr body ∧ FromWebhook hdr body start = Ok env ∧ st_msg p = ToMessage env.
Proof.
  intros f1. pose proof (serveWebhook_cases secret f read hdr start ctx) as Hc. cbv zeta in Hc. unfold f1, request_answer in *.
  destruct Hc as [(-> & _)|[(body & _ & _ & -> & _)|(body & env & err & Ha & Hf & Hp & _)]]; [by split_and!; [..|auto]..|].
  change (bus_publish f) with (fleet_publish f) in Hp. revert Hp. unfold fleet_publish.
  pose proof (publish_capabilities (fl_bus f) (pc_err ctx) (Some (ToMessage env))) as Hcap.
  destruct (bus_publish (fl_bus f) _ _) as [s err'] eqn:E. cbn [fst] in Hcap. cbv zeta.
  assert (durable (with_bus f s) = durable f) as Hd by (unfold durable; cbn; by rewrite Hcap).
  destruct (_ && _); intros [= <- _].
  - split; [done|]. intros p. cbn. rewrite elem_of_app, list_elem_of_singleton. intros [Hp| ->]; [by left|right]. by exists body, env.
  - split; [done|]. intros p Hp. by left.
Qed.

(** A 2xx answer to a delivery: it was published, and stored unless the broker collapsed it. *)
Lemma request_published f read hdr start ctx :
  is_2xx (sv_resp (request_answer f read hdr start ctx)) → TrimSpace (header_get hdr HeaderEvent) ≠ EventPing →
  ∃ body env s, authenticated secret read hdr body ∧ FromWebhook hdr body start = Ok env ∧
    sv_bus (request_answer f read hdr start ctx) =
      (if kp_collapses keep (present f) (ToMessage env) (fl_now f) then with_bus f s else store_message (with_bus f s) (ToMessage env)).
Proof.
  intros H2 Hp. pose proof (serveWebhook_cases secret f read hdr start ctx) as Hc. cbv zeta in Hc. unfold request_answer in *.
  destruct Hc as [(_ & Hn & _)|[(body & _ & Hping & _)|(body & env & err & Ha & Hf & Hpub & Herr)]]; [done..|].
  destruct err as [err|]; [destruct Herr as [Herr _]; unfold is_2xx in H2; lia|]. exists body, env.
  change (bus_publish f) with (fleet_publish f) in Hpub. unfold fleet_publish in Hpub.
  destruct (bus_publish (fl_bus f) _ _) as [s [err|]]; [done|]. cbv zeta in Hpub. cbn [andb] in Hpub. exists s.
  split_and!; [done..|]. by destruct (kp_collapses _ _ _ _); injection Hpub as <-.
Qed.

(** ... and the broker has its message. *)
Lemma request_stored (HK : Keeping keep) f read hdr start ctx :
  is_2xx (sv_resp (request_answer f read hdr start ctx)) → TrimSpace (header_get hdr HeaderEvent) ≠ EventPing →
  ∃ body env p, authenticated secret read hdr body ∧ FromWebhook hdr body start = Ok env ∧
    stands f (ToMessage env) p ∧ p ∈ fl_log (sv_bus (request_answer f read hdr start ctx)).
Proof.
  intros H2 Hp. destruct (request_published f read hdr start ctx H2 Hp) as (body & env & s & Ha & Hf & ->). exists body, env. unfold stands.
  destruct (kp_collapses keep (present f) (ToMessage env) (fl_now f)) eqn:Ek.
  - destruct (collapses_known _ _ _ Ek) as (p & H1 & H3 & H4). exists p. split_and!; [done..|].
    by apply (present_log f).
  - eexists. split_and!; [done..|]. cbn. set_solver.
Qed.

(** Every sink has what the broker stored, if it can be read. *)
Lemma stored_care (HT : Transport handed) f env p :
  fleet_inv f → p ∈ fl_log f → st_msg p = ToMessage env → publishable env → utc_envelope env = env →
  Forall (taken_care f env p) (fl_runners f).
Proof.
  intros [_ Hr] Hp Em Hpub Hu. eapply Forall_impl; [exact Hr|]. intros r [_ _ Hs].
  destruct (Hs p Hp) as [[?|(env' & E & Hk)]|?]; [by left| |by right; right; right]. rewrite Em, handed_reads, Hu in E by done.
  injection E as <-. right. destruct Hk; [by left|by right; left].
Qed.

(** Everything the broker stored came in a request that was authenticated. *)
Definition came (p : stored) : Prop :=
  ∃ read hdr body start env, authenticated secret read hdr body ∧ FromWebhook hdr body start = Ok env ∧ st_msg p = ToMessage env.

Lemma came_run f f' : rtc fleet_step f f' → Forall came (fl_log f) → Forall came (fl_log f').
Proof.
  induction 1 as [|f f1 f' Hs _ IH]; [done|]. intros Hf. apply IH. clear IH.
  destruct Hs as [f1 Hi|read hdr start ctx _| |s _ _]; [by destruct Hi| |done..]. rewrite Forall_forall in *. intros p Hp. destruct (request_log f read hdr start ctx) as [_ Hl].
  destruct (Hl p Hp) as [Hq|(body & env & H1 & H2 & H3)]; [auto|]. by exists read, hdr, body, start, env.
Qed.

(** The program before anything was stored. *)
Definition untouched (f : fleet) : Prop := fl_log f = [] ∧ Forall (λ r, rn_queue r = []) (fl_runners f).

Lemma untouched_inv f : untouched f → Forall runner_inv (fl_runners f) → fleet_inv f.
Proof.
  intros [El Eq] Hi. split; [unfold stream_ok; by rewrite El|]. rewrite Forall_forall in *. intros r Hr.
  constructor; [auto|rewrite (Eq r Hr); apply list_subseteq_nil|]. rewrite El. by intros p ?%elem_of_nil.
Qed.

(** What the sinks make of a delivery that was answered with a 2xx. *)
Lemma accepted_served (HT : Transport handed) (HK : Keeping keep) f0 f f' read hdr start ctx :
  let f1 := sv_bus (request_answer f read hdr start ctx) in
  untouched f0 → Forall runner_inv (fl_runners f0) → rtc fleet_step f0 f → rtc fleet_step f1 f' →
  is_2xx (sv_resp (request_answer f read hdr start ctx)) → TrimSpace (header_get hdr HeaderEvent) ≠ EventPing →
  (∃ body env, authenticated secret read hdr body ∧ FromWebhook hdr body start = Ok env ∧ e_Payload env = body ∧
    ∃ p, stands f (ToMessage env) p ∧ ¬ lost f1 p ∧
    ∃ read' hdr' body' start' env', authenticated secret read' hdr' body' ∧ FromWebhook hdr' body' start' = Ok env' ∧
      st_msg p = ToMessage env' ∧ e_DeliveryGUID env' = e_DeliveryGUID env ∧
      (kp_collapses keep (present f) (ToMessage env) (fl_now f) = false → env' = env ∧ start' = start) ∧
      (utc_4digit (UTC start') → 0 ≤ e_RepositoryID env' → Forall (taken_care f' env' p) (fl_runners f'))) ∧
  rn_model <$> fl_runners f' = rn_model <$> fl_runners f0.
Proof.
  intros f1 Hu Hi R1 R2 H2 Hping. pose proof (untouched_inv f0 Hu Hi) as Hf0. destruct (fleet_run_steps f0 f Hf0 R1) as [Hf N1].
  destruct (request_steps f read hdr start ctx Hf) as [Hf1 N2]. fold f1 in Hf1, N2. destruct (fleet_run_steps f1 f' Hf1 R2) as [Hf' N3].
  split; [|by rewrite (next_models _ _ N3), (next_models _ _ N2), (next_models _ _ N1)].
  destruct (request_stored HK f read hdr start ctx H2 Hping) as (body & env & p & Ha & He & Hs & Hp). fold f1 in Hp.
  destruct (request_log f read hdr start ctx) as [(En & Ee & _ & Ed) Hl]. fold f1 in En, Ee, Ed, Hl.
  assert (∃ read' hdr' body' start' env', authenticated secret read' hdr' body' ∧ FromWebhook hdr' body' start' = Ok env' ∧
    st_msg p = ToMessage env' ∧ (kp_collapses keep (present f) (ToMessage env) (fl_now f) = false → env' = env ∧ start' = start))
    as (read' & hdr' & body' & start' & env' & Ha' & He' & Em & Hsame).
  { unfold stands in Hs. destruct (kp_collapses _ _ _ _); [|by subst p; exists read, hdr, body, start, env].
    assert (p ∈ fl_log f) as Hq by (revert Hs; unfold present; destruct (durable f); [by intros [? _]|by intros [[_ ?]%list_elem_of_filter _]]).
    assert (Forall came (fl_log f)) as Hc by (apply (came_run f0 f R1); rewrite (proj1 Hu); constructor).
    rewrite Forall_forall in Hc. destruct (Hc p Hq) as (r & h & b & s & e & ? & ? & ?). by exists r, h, b, s, e. }
  exists body, env. split; [done|]. split; [done|]. split; [by apply FromWebhook_fields in He as (_ & _ & _ & _ & _ & _ & ? & _)|].
  exists p. split; [done|]. split; [by eapply stands_present|]. exists read', hdr', body', start', env'. split_and!; [done..| |done|].
  - change (m_UUID (ToMessage env') = m_UUID (ToMessage env)). rewrite <- Em. by apply stands_cases in Hs as [->|(_ & ? & _)].
  - intros Ht Hpos. destruct (FromWebhook_publishable _ _ _ _ He' Ht Hpos) as [Hpub Hutc].
    apply stored_care; try done. by apply (next_log _ _ N3).
Qed.
End Fleet.
