(* ===== verification/Sinks.v ===== *)
(** * The sinks of every class keep the router's contract

    For each class of sinks and its drivers, the sink as Fleet.v sees it - [Process] of the class
    over the driver, the state it leaves outside the process, and what it means that an event
    was kept - and the proof that it is [Durable].  What happened outside is a history: the
    requests the collector answered with success (such an answer may reject items, which are
    lost to the collector and counted), the batches BigQuery confirmed, the messages the target
    bus took, the bytes of the stream, the files of the archive.  Clients' errors are any errors but
    the router's own sentinel for skipped events, which no library knows. *)

From S2P Require Import Prelude.
From S2P Require Import Errors.
From S2P Require Import GoText.
From S2P Require Import GoTime.
From S2P Require Import Event.
From S2P Require Import Model.
From S2P Require Import Bus.
From S2P Require Import SingleFlight.
From S2P Require Import Otlp.
From S2P Require GoJson.
From S2P Require OtlpClient.
From S2P Require Archive.
From S2P Require Trace.
From S2P Require Log.
From S2P Require Stdout.
From S2P Require Analytics.
From S2P Require BigQuery.
From S2P Require Forward.
From S2P Require Store.
From S2P Require Import Receiver.
From S2P Require Import Router.
From S2P Require Import System.
From S2P Require Import Fleet.

Local Open Scope Z_scope.

(** ** Errors that do not ask for a skip *)

Definition unskipped_opt (o : option error) : Prop := ∀ e, o = Some e → unskipped e.

Lemma Normalize_unskipped env e : Normalize env = Err e → unskipped e.
Proof. intros [H _]%Normalize_err. unfold unskipped. by rewrite H. Qed.

(** An error that is known not to ask for a skip does not. *)
Ltac no_skip := cbn; rewrite ?errors_is_permanent; unfold unskipped in *; congruence.

(** A sink that has nothing to do between events. *)
Definition no_life : Type := unit.

(** ** The archive over the filesystem *)

Definition archive_sink (o : Store.StoreOptions) : sinkModel := {|
  sm_state := Store.node;
  sm_call := Store.ioEnv * ctx_end;
  sm_call_ok := λ _, True;
  sm_process := λ x env w,
    match w with
    | Store.Up s => let '(err, s') := archive_process o (fst x) (snd x) env s in (err, Store.Up s')
    | Store.Down _ => (Some (errorf "closed"), w)
    end;
  sm_life := Store.op;
  sm_live := λ x w, fst (Store.node_step o w x); sm_exit := Store.OStop;
  sm_open := λ w, match w with Store.Up _ => true | Store.Down _ => false end;
  sm_inv := Store.ninv o;
  sm_ignores := λ _, False;
  sm_kept := λ env w, ∃ line, Archive.Encode env = Ok line ∧ Store.held (Store.node_disk w) line |}.

#[export] Instance archive_durable o : 0 < Store.so_RotateEvery o → Durable (archive_sink o).
Proof.
  intros Hr. split.
  - intros [e ctx] env [s|d] _ Hi Ho; [|done]. cbn [archive_sink sm_process sm_inv sm_kept sm_ignores fst snd] in *.
    pose proof (archive_process_spec o e ctx env s) as [Hs He].
    destruct (archive_process o e ctx env s) as [err s']. cbn [fst snd] in Hs, He.
    destruct (Store.Append o e s (ctx_err ctx) env) as [s1 aerr] eqn:Ea. cbn [fst snd] in Hs, He. subst s'.
    assert (Store.node_step o (Store.Up s) (Store.OAppend e (ctx_err ctx) env) = (Store.Up s1, if aerr then [] else [env])) as Hn
      by (cbn [Store.node_step]; by rewrite Ea).
    apply Store.node_step_spec in Hn as (Hi' & Hk & Ha); [|done..]. split; [done|]. split.
    { intros env' (line & H1 & H2). exists line. split; [done|]. by apply Hk. }
    destruct err as [err|]; [intros Hx; destruct He as [He _]; unfold unskipped in He; congruence|]. subst aerr.
    apply Ha. by apply list_elem_of_singleton.
  - intros x w Hi. cbn [archive_sink sm_live sm_inv sm_kept] in *. destruct (node_keeps o w x Hr Hi) as [Hi' Hk]. split; [done|].
    intros env (line & H1 & H2). exists line. split; [done|]. by apply Hk.
Qed.

(** ** Log records on a stream *)

Section Stream.
Variable other : gvalue → option GoJson.json.
Variable w : Stdout.Writer.

Definition record_text (exec : Execution) : option string :=
  (λ doc, (if Stdout.wr_pretty w then Stdout.json_indent 0 doc else GoJson.json_print doc) +:+ String nl "")
    <$> Stdout.doc_json other (Stdout.Encode (Log.Project exec)).

Definition stream_sink : sinkModel := {|
  sm_state := string;
  sm_call := option error * Stdout.write_call;
  sm_call_ok := λ x, unskipped_opt (fst x) ∧ unskipped_opt (snd <$> snd x);
  sm_process := λ x env stream, Log.Process (Stdout.Write other w (fst x) (snd x)) env stream;
  sm_life := no_life; sm_live := λ _ s, s; sm_exit := tt; sm_open := λ _, true; sm_inv := λ _, True;
  sm_ignores := λ _, False;
  sm_kept := λ env stream, ∃ exec text a b, Normalize env = Ok exec ∧ record_text exec = Some text ∧ stream = a +:+ text +:+ b |}.

#[export] Instance stream_durable : Durable stream_sink.
Proof.
  split; [|by intros ? ? ?].
  intros [ctx o] env stream [Hc Ho] _ _. cbn [stream_sink sm_process sm_inv sm_kept sm_ignores fst snd] in *. unfold Log.Process.
  destruct (Normalize env) as [exec|e] eqn:En.
  2: { split; [done|]. split; [done|]. apply Normalize_unskipped in En. no_skip. }
  assert (∀ data env', (∃ exec text a b, Normalize env' = Ok exec ∧ record_text exec = Some text ∧ stream = a +:+ text +:+ b) →
    ∃ exec text a b, Normalize env' = Ok exec ∧ record_text exec = Some text ∧ stream +:+ data = a +:+ text +:+ b) as Hkeep.
  { intros data env' (x & text & a & b & H1 & H2 & ->). exists x, text, a, (b +:+ data). split_and!; [done..|]. by rewrite !sapp_assoc. }
  unfold Stdout.Write. destruct ctx as [e|]; [split; [done|]; split; [done|]; specialize (Hc e eq_refl); no_skip|].
  unfold record_text. destruct (Stdout.doc_json other (Stdout.Encode (Log.Project exec))) as [doc|] eqn:Ed.
  2: { split; [done|]. by split. }
  destruct o as [[n e]|]; cbn [Stdout.write_stream].
  - split; [done|]. split; [apply Hkeep|]. specialize (Ho e eq_refl). no_skip.
  - split; [done|]. split; [apply Hkeep|]. exists exec. eexists. exists stream, "". rewrite Ed. cbn. split_and!; [done..|].
    by rewrite sapp_nil_r.
Qed.
End Stream.

(** ** Forwarding to another bus *)

Definition forward_sink (s : Forward.Sink) : sinkModel := {|
  sm_state := list Event.Message;                                    (* what the target bus has taken *)
  sm_call := Event.Message → option error * bool;                    (* its answer, and whether it took the message *)
  sm_call_ok := λ x, ∀ m, unskipped_opt (fst (x m)) ∧ (fst (x m) = None → snd (x m) = true);
  sm_process := λ x env h, Forward.Process (λ m h, (fst (x m), if snd (x m) then h ++ [m] else h)) s env h;
  sm_life := no_life; sm_live := λ _ h, h; sm_exit := tt; sm_open := λ _, true; sm_inv := λ _, True;
  sm_ignores := λ _, False;
  sm_kept := λ env h, Forward.Message s env ∈ h |}%list.

#[export] Instance forward_durable s : Durable (forward_sink s).
Proof.
  split; [|by intros ? ? ?].
  intros x env h Hx _ _. cbn [forward_sink sm_process sm_inv sm_kept sm_ignores] in *. unfold Forward.Process.
  destruct (_ <=? _); [by split_and!|]. destruct (Hx (Forward.Message s env)) as [H1 H2].
  destruct (x (Forward.Message s env)) as [err taken]. cbn [fst snd] in *.
  assert (∀ m, m ∈ h → m ∈ (if taken then h ++ [Forward.Message s env] else h)%list) as Hk by (intros; destruct taken; set_solver).
  destruct err as [e|].
  - split; [done|]. split; [auto|]. specialize (H1 e eq_refl). no_skip.
  - split; [done|]. split; [auto|]. rewrite H2 by done. set_solver.
Qed.

(** ** Spans and log records to an OTLP collector *)

Section Collector.
Variable Marshal : OtlpClient.export_request → result string.
Variable gzip : string → result string.
Variable NewRequest : string → option error.
Variable range : gmap string string → list (string * string).
Variable ParseMediaType : string → option string.
Variable Unmarshal : string → Z * string.
Variable status_message : string → option string.
Variable http_ParseTime : string → option Time.
Variable error_text : error → string.
Context (Marshal_unskipped : ∀ r e, Marshal r = Err e → unskipped e)
  (gzip_unskipped : ∀ s e, gzip s = Err e → unskipped e) (NewRequest_unskipped : ∀ u, unskipped_opt (NewRequest u)).

Local Abbreviation ExportSpans := (OtlpClient.ExportSpans Marshal gzip NewRequest range ParseMediaType Unmarshal status_message http_ParseTime error_text).
Local Abbreviation ExportLogs := (OtlpClient.ExportLogs Marshal gzip NewRequest range ParseMediaType Unmarshal status_message http_ParseTime error_text).
Local Abbreviation answered_ok := (OtlpClient.answered_ok Marshal gzip NewRequest range).
Local Abbreviation attempt := (OtlpClient.attempt Marshal gzip NewRequest range ParseMediaType Unmarshal status_message http_ParseTime error_text).
Local Abbreviation attempts := (OtlpClient.attempts Marshal gzip NewRequest range ParseMediaType Unmarshal status_message http_ParseTime error_text).

(** What the client meets around one attempt has errors of its own. *)
Definition exchange_ok (x : OtlpClient.exchange) : Prop :=
  unskipped_opt (OtlpClient.xc_before x) ∧ unskipped_opt (OtlpClient.xc_final x) ∧ unskipped_opt (OtlpClient.xc_sleep x) ∧
  (∀ rq e, OtlpClient.xc_send x rq = Err e → unskipped e) ∧ (∀ req e, OtlpClient.xc_call x req = inr e → unskipped e).

Lemma prepare_unskipped t req e : OtlpClient.prepare Marshal gzip NewRequest range t req = Err e → unskipped e.
Proof.
  unfold OtlpClient.prepare. destruct (Marshal req) as [body|e1] eqn:Em; [|intros [= <-]; by apply Marshal_unskipped in Em].
  cbv zeta. destruct (if OtlpClient.ht_gzip t then _ else _) as [z|e2] eqn:Ez.
  - destruct (NewRequest _) as [e3|] eqn:En; [|done]. intros [= <-]. by apply NewRequest_unskipped in En.
  - intros [= <-]. destruct (OtlpClient.ht_gzip t); [|done]. destruct (gzip body) as [|e3] eqn:Eg; [done|].
    injection Ez as <-. by apply gzip_unskipped in Eg.
Qed.

Lemma attempt_unskipped c req x e : exchange_ok x → attempt c req x = inr e → unskipped e.
Proof.
  intros (_ & _ & _ & Hs & Hc). unfold OtlpClient.attempt, OtlpClient.post. destruct (OtlpClient.cl_tr c); [apply Hc|].
  destruct (OtlpClient.prepare _ _ _ _ _ req) as [rq|e1] eqn:Ep; [|intros [= <-]; by eapply prepare_unskipped].
  destruct (OtlpClient.xc_send x rq) as [r|e1] eqn:Es; [|intros [= <-]; by eapply Hs].
  unfold OtlpClient.answer. repeat case_match; intros [= <-]; done.
Qed.

Lemma finalize_unskipped_otlp ctx err : unskipped_opt ctx → unskipped err → unskipped (finalize ctx err).
Proof.
  intros Hc He. unfold finalize. destruct ctx as [e|]; [by apply Hc|]. cbv zeta. destruct (v_retryable _); [done|].
  unfold unskipped. rewrite errors_is_permanent. exact He.
Qed.

Lemma export_loop_unskipped cfg env fuel n waits r :
  (∀ k, unskipped_opt (ae_before (env k)) ∧ unskipped_opt (ae_final (env k)) ∧ unskipped_opt (ae_sleep (env k)) ∧
        ∀ e, ae_outcome (env k) = inr e → unskipped e) →
  export_loop cfg env fuel n waits = Some r → unskipped_opt (ex_err r).
Proof.
  intros Hok. revert n waits. induction fuel as [|f IH]; intros n waits Hr; [done|]. cbn [export_loop] in Hr.
  destruct (Hok n) as (H1 & H2 & H3 & H4). destruct (ae_before (env n)) as [e|]; [by injection Hr as <-|].
  destruct (ae_outcome (env n)) as [[rej msg]|err]; [by injection Hr as <-|]. specialize (H4 err eq_refl). cbv zeta in Hr.
  assert (unskipped (finalize (ae_final (env n)) err)) as Hf by (by apply finalize_unskipped_otlp).
  destruct (_ || _); [injection Hr as <-; by intros e [= <-]|]. destruct (_ || _); [injection Hr as <-; by intros e [= <-]|].
  destruct (ae_sleep (env n)) as [e|]; [by injection Hr as <-|by eapply IH].
Qed.

Lemma export_unskipped {A} c req (batch : list A) x r :
  (∀ k, exchange_ok (x k)) → ExportBatch (OtlpClient.retry_config (OtlpClient.cl_cfg c)) batch (attempts c req x) = Some r →
  unskipped_opt (ex_err r).
Proof.
  intros Hx Hr. destruct batch; [by injection Hr as <-|]. revert Hr. apply export_loop_unskipped. intros k. cbn.
  destruct (Hx k) as (H1 & H2 & H3 & _). split_and!; [done..|]. intros e. by apply attempt_unskipped.
Qed.

(** The requests of an export that the collector answered with success, attempt after attempt. *)
Definition taken (c : OtlpClient.Client) (req : OtlpClient.export_request) (x : Z → OtlpClient.exchange) (n : Z) : list OtlpClient.export_request :=
  omap (λ k, if answered_ok c req (x (Z.of_nat k)) then Some req else None) (seq 0 (Z.to_nat n)).

(** An export over the history of the requests that were answered with success. *)
Definition exporting (c : OtlpClient.Client) (req : OtlpClient.export_request) (x : Z → OtlpClient.exchange) (o : option exported)
    (h : list OtlpClient.export_request) : option error * list OtlpClient.export_request :=
  match o with
  | Some r => (ex_err r, (h ++ taken c req x (ex_attempts r))%list)
  | None => (Some (errorf "unreachable"), h)
  end.

Lemma reports_taken c req x r :
  OtlpClient.reports Marshal gzip NewRequest range ParseMediaType Unmarshal status_message http_ParseTime error_text c req x r → ex_err r = None → req ∈ taken c req x (ex_attempts r).
Proof.
  intros (H0 & H1 & _ & H2) He. specialize (H1 He). apply list_elem_of_omap. exists (Z.to_nat (ex_attempts r - 1)).
  split; [apply elem_of_seq; lia|]. rewrite Z2Nat.id by lia. rewrite H2 by lia. by rewrite bool_decide_true.
Qed.

Definition log_sink (c : OtlpClient.Client) : sinkModel := {|
  sm_state := list OtlpClient.export_request; sm_call := Z → OtlpClient.exchange;
  sm_call_ok := λ x, ∀ k, exchange_ok (x k);
  sm_process := λ x env h, Log.Process (λ rec, exporting c (OtlpClient.logs_request c [rec]) x (ExportLogs c [rec] x)) env h;
  sm_life := no_life; sm_live := λ _ h, h; sm_exit := tt; sm_open := λ _, true; sm_inv := λ _, True;
  sm_ignores := λ _, False;
  sm_kept := λ env h, ∃ exec, Normalize env = Ok exec ∧ OtlpClient.logs_request c [Log.Project exec] ∈ h |}.

Definition trace_sink (c : OtlpClient.Client) : sinkModel := {|
  sm_state := list OtlpClient.export_request; sm_call := Z → OtlpClient.exchange;
  sm_call_ok := λ x, ∀ k, exchange_ok (x k);
  sm_process := λ x env h, Trace.Process (λ spans, exporting c (OtlpClient.spans_request c spans) x (ExportSpans c spans x)) env h;
  sm_life := no_life; sm_live := λ _ h, h; sm_exit := tt; sm_open := λ _, true; sm_inv := λ _, True;
  sm_ignores := λ env, ∃ exec, Normalize env = Ok exec ∧ Trace.completed exec = false;
  sm_kept := λ env h, ∃ exec spans, Normalize env = Ok exec ∧ Trace.Project exec = Ok spans ∧ spans ≠ [] ∧
    OtlpClient.spans_request c spans ∈ h |}.

#[export] Instance log_durable c : Durable (log_sink c).
Proof.
  split; [|by intros ? ? ?].
  intros x env h Hx _ _. cbn [log_sink sm_call_ok sm_process sm_inv sm_kept sm_ignores] in *. unfold Log.Process.
  destruct (Normalize env) as [exec|e] eqn:En; [|split; [done|]; split; [done|]; apply Normalize_unskipped in En; no_skip].
  destruct (OtlpClient.ExportLogs_accepted Marshal gzip NewRequest range ParseMediaType Unmarshal status_message http_ParseTime
    error_text c [Log.Project exec] x ltac:(done)) as (r & Hr & Ha).
  pose proof (export_unskipped c _ _ x r Hx Hr) as Hu. rewrite Hr. cbn [exporting].
  assert (∀ env' l, (∃ exec, Normalize env' = Ok exec ∧ OtlpClient.logs_request c [Log.Project exec] ∈ h) →
    ∃ exec, Normalize env' = Ok exec ∧ OtlpClient.logs_request c [Log.Project exec] ∈ (h ++ l)%list) as Hk.
  { intros env' l (exec' & H1 & H2). exists exec'. split; [done|]. apply elem_of_app. by left. }
  destruct (ex_err r) as [e|] eqn:Ee.
  - split; [done|]. split; [auto|]. specialize (Hu e eq_refl). no_skip.
  - split; [done|]. split; [auto|]. exists exec. split; [done|]. apply elem_of_app. right. by apply reports_taken.
Qed.

Lemma Trace_Project_cases exec :
  match Trace.Project exec with
  | Ok spans => spans ≠ []
  | Err e => Trace.completed exec = false
  end.
Proof. unfold Trace.Project, Trace.completed. by repeat case_match; simplify_eq. Qed.

#[export] Instance trace_durable c : Durable (trace_sink c).
Proof.
  split; [|by intros ? ? ?].
  intros x env h Hx _ _. cbn [trace_sink sm_call_ok sm_process sm_inv sm_kept sm_ignores] in *. unfold Trace.Process.
  destruct (Normalize env) as [exec|e] eqn:En; [|split; [done|]; split; [done|]; apply Normalize_unskipped in En; no_skip].
  pose proof (Trace_Project_cases exec) as Hc. destruct (Trace.Project exec) as [spans|e] eqn:Ep.
  2: { split; [done|]. split; [done|]. intros _. by exists exec. }
  destruct (OtlpClient.ExportSpans_accepted Marshal gzip NewRequest range ParseMediaType Unmarshal status_message http_ParseTime
    error_text c spans x Hc) as (r & Hr & Ha).
  pose proof (export_unskipped c _ _ x r Hx Hr) as Hu. rewrite Hr. cbn [exporting].
  assert (∀ env' l, (∃ exec spans, Normalize env' = Ok exec ∧ Trace.Project exec = Ok spans ∧ spans ≠ [] ∧ OtlpClient.spans_request c spans ∈ h) →
    ∃ exec spans, Normalize env' = Ok exec ∧ Trace.Project exec = Ok spans ∧ spans ≠ [] ∧ OtlpClient.spans_request c spans ∈ (h ++ l)%list) as Hk.
  { intros env' l (exec' & spans' & H1 & H2 & H3 & H4). exists exec', spans'. split_and!; [done..|]. apply elem_of_app. by left. }
  destruct (ex_err r) as [e|] eqn:Ee.
  - split; [done|]. split; [auto|]. specialize (Hu e eq_refl). no_skip.
  - split; [done|]. split; [auto|]. exists exec, spans. split_and!; [done..|]. apply elem_of_app. right. by apply reports_taken.
Qed.
End Collector.

(** ** Rows in BigQuery *)

Section Warehouse.
Context {D A : Type}.
Variable cfg : BigQuery.Config.
Variable adapt : list BigQuery.FieldSchema → result D.
Variable ByName : D → string → option (BigQuery.wire_kind * bool).
Variable Marshal : gmap string BigQuery.pval → result string.
Variable ranged : gmap string Analytics.fval → list (string * Analytics.fval).
Context (adapt_unskipped : ∀ s e, adapt s = Err e → unskipped e) (Marshal_unskipped : ∀ m e, Marshal m = Err e → unskipped e).

(** What the clients answer during one call; an append that failed may have been taken. *)
Record bqCall := mkBqCall {
  bc_Metadata : string → result BigQuery.TableMeta; bc_Create : string → BigQuery.TableMeta → option error;
  bc_open : D → result A; bc_Append : A → list string → option error * bool }.

Definition bqCall_ok (x : bqCall) : Prop :=
  (∀ id e, bc_Metadata x id = Err e → unskipped e) ∧ (∀ id md, unskipped_opt (bc_Create x id md)) ∧
  (∀ d e, bc_open x d = Err e → unskipped e) ∧
  ∀ a rows, unskipped_opt (fst (bc_Append x a rows)) ∧ (fst (bc_Append x a rows) = None → snd (bc_Append x a rows) = true).

(** The batches the service has taken. *)
Definition batches : Type := list (list string).

Definition bq_Metadata (x : bqCall) (id : string) (h : batches) := (bc_Metadata x id, h).
Definition bq_Create (x : bqCall) (id : string) (md : BigQuery.TableMeta) (h : batches) := (bc_Create x id md, h).
Definition bq_open (x : bqCall) (d : D) (h : batches) := (bc_open x d, h).

Definition append_batch (x : bqCall) (a : A) (rows : list string) (h : batches) : option error * batches :=
  (fst (bc_Append x a rows), if snd (bc_Append x a rows) then (h ++ [rows])%list else h).

Definition bq_ensure (x : bqCall) (s : Analytics.Schema) (w : BigQuery.Writer D A * batches) : option error * (BigQuery.Writer D A * batches) :=
  BigQuery.EnsureSchema cfg (bq_Metadata x) (bq_Create x) s (fst w) (snd w).

(** A panic of the encoder is an error of the router's [Recoverer]. *)
Definition bq_write (x : bqCall) (records : list Analytics.Row) (w : BigQuery.Writer D A * batches)
    : option error * (BigQuery.Writer D A * batches) :=
  let '(o, w) := BigQuery.Write adapt (bq_open x) (append_batch x) ByName Marshal ranged records (fst w) (snd w) in
  (match o with OOk _ => None | OErr e => Some e | OPanic => Some (errorf "panic") end, w).

Inductive bq_life := BQClosed | BQRestarted.

Definition bq_live (l : bq_life) (s : option unit * (BigQuery.Writer D A * batches)) : option unit * (BigQuery.Writer D A * batches) :=
  let '(ready, (wr, h)) := s in
  match l with
  | BQClosed => (ready, (BigQuery.mkWriter (BigQuery.w_schema wr) (BigQuery.w_desc wr) true None, h))
  | BQRestarted => (None, (BigQuery.NewWriter, h))
  end.

Definition rows_kept (env : Envelope) (h : batches) : Prop :=
  ∃ exec records d rows, Normalize env = Ok exec ∧ Analytics.Project exec = Ok records ∧
    Forall2 (λ r row, BigQuery.Encode ByName Marshal d (ranged (Analytics.Fields r)) = OOk row) records rows ∧ rows ∈ h.

Definition analytics_sink (ensure : bool) : sinkModel := {|
  sm_state := option unit * (BigQuery.Writer D A * batches); sm_call := bqCall; sm_call_ok := bqCall_ok;
  sm_process := λ x env s, Analytics.Process (bq_ensure x) (bq_write x) ensure (fst s) env (snd s);
  sm_life := bq_life; sm_live := bq_live; sm_exit := BQRestarted; sm_open := λ _, true;
  sm_inv := λ s, BigQuery.w_schema (fst (snd s)) = Analytics.Current;
  sm_ignores := λ env, ∃ exec, Normalize env = Ok exec ∧ x_Kind exec = KindNone;
  sm_kept := λ env s, rows_kept env (snd (snd s)) |}.

Lemma classify_unskipped e : unskipped e → unskipped (BigQuery.classify e).
Proof. unfold unskipped. intros H. destruct (BigQuery.classify_spec e) as [-> _]. exact H. Qed.

Lemma ensureTable_unskipped x id md verify h :
  bqCall_ok x → (∀ f m, verify = Some f → unskipped_opt (f m)) →
  let '(err, h') := BigQuery.ensureTable (bq_Metadata x) (bq_Create x) id md verify h in
  h' = h ∧ unskipped_opt err.
Proof.
  intros (Hm & Hc & _) Hv. unfold BigQuery.ensureTable, bq_Metadata, bq_Create. destruct (bc_Metadata x id) as [have|e] eqn:E.
  - split; [done|]. destruct verify as [f|]; [|done]. destruct (f have) as [e|] eqn:Ef; [|done].
    intros e' [= <-]. specialize (Hv f have eq_refl e Ef). unfold unskipped. by rewrite errors_is_permanent.
  - apply Hm in E. destruct (negb _); [split; [done|]; intros e' [= <-]; by apply classify_unskipped in E|].
    destruct (bc_Create x id md) as [e'|] eqn:E2; [|done]. split; [done|]. apply Hc in E2.
    destruct (BigQuery.isConflict e'); [done|]. intros e2 [= <-]. by apply classify_unskipped in E2.
Qed.

Lemma TableSchema_Current : ∃ fs, BigQuery.TableSchema Analytics.Current = Ok fs.
Proof. apply BigQuery.TableSchema_total. vm_compute. reflexivity. Qed.

Lemma VerifySchema_unskipped have : unskipped_opt (BigQuery.VerifySchema Analytics.Current have).
Proof.
  unfold BigQuery.VerifySchema. destruct TableSchema_Current as [fs ->]. destruct (omap _ fs); [done|]. by intros e [= <-].
Qed.

Lemma bq_ensure_spec x wr h :
  bqCall_ok x →
  let '(err, (wr', h')) := bq_ensure x Analytics.Current (wr, h) in
  h' = h ∧ unskipped_opt err ∧ BigQuery.w_schema wr' = Analytics.Current.
Proof.
  intros Hx. unfold bq_ensure, BigQuery.EnsureSchema. cbn [fst snd].
  assert (Analytics.Validate Analytics.Current = None) as -> by (vm_compute; reflexivity).
  unfold BigQuery.ensure_base, BigQuery.ensure_view, BigQuery.TableMetadata. destruct TableSchema_Current as [fs ->].
  assert (∀ w, let '(err, w') := (if BigQuery.cfg_EnsureView cfg then
      match BigQuery.ensureTable (bq_Metadata x) (bq_Create x)
        (Analytics.ViewName (BigQuery.cfg_Table cfg)) (BigQuery.ViewMetadata (BigQuery.TableID cfg)) None w with
      | (Some e, w') => (Some (EWrap "view" e), w') | r => r end else (None, w)) in (w' : batches) = w ∧ unskipped_opt err) as Hview.
  { intros w. destruct (BigQuery.cfg_EnsureView cfg); [|done].
    pose proof (ensureTable_unskipped x (Analytics.ViewName (BigQuery.cfg_Table cfg)) (BigQuery.ViewMetadata (BigQuery.TableID cfg)) None w Hx ltac:(done)) as H.
    destruct (BigQuery.ensureTable _ _ _ _ _ _) as [[e|] w']; destruct H as [-> H]; (split; [done|]); [|done].
    intros e' [= <-]. apply (H e eq_refl). }
  destruct (BigQuery.cfg_EnsureTable cfg).
  - match goal with |- context [BigQuery.ensureTable ?a ?b ?i ?m ?v h] =>
      pose proof (ensureTable_unskipped x i m v h Hx) as H; destruct (BigQuery.ensureTable a b i m v h) as [[e|] h'] end.
    + destruct H as [-> H]; [intros f m [= <-]; apply VerifySchema_unskipped|]. split; [done|]. split; [|done].
      intros e' [= <-]. apply (H e eq_refl).
    + destruct H as [-> _]; [intros f m [= <-]; apply VerifySchema_unskipped|]. specialize (Hview h).
      destruct (if BigQuery.cfg_EnsureView cfg then _ else _) as [err w']. destruct Hview as [-> ?]. done.
  - specialize (Hview h). destruct (if BigQuery.cfg_EnsureView cfg then _ else _) as [err w']. destruct Hview as [-> ?]. done.
Qed.

Lemma streamFor_spec x wr h :
  bqCall_ok x → BigQuery.w_schema wr = Analytics.Current →
  let '(r, (wr', h')) := BigQuery.streamFor adapt (bq_open x) wr h in
  h' = h ∧ BigQuery.w_schema wr' = Analytics.Current ∧ ∀ e, r = Err e → unskipped e.
Proof.
  intros (_ & _ & Ho & _) Hs. unfold BigQuery.streamFor. destruct (BigQuery.w_closed wr).
  { split_and!; [done..|]. by intros e [= <-]. }
  assert (let '(r, wr') := BigQuery.descriptor adapt wr in BigQuery.w_schema wr' = Analytics.Current ∧ ∀ e, r = Err e → unskipped e) as Hd.
  { unfold BigQuery.descriptor, BigQuery.NewRowDescriptor. destruct (BigQuery.w_desc wr); [done|].
    rewrite Hs. destruct TableSchema_Current as [fs ->]. destruct (adapt fs) as [d|e] eqn:E; [done|].
    split; [done|]. intros e' [= <-]. apply adapt_unskipped in E. unfold unskipped in *. by rewrite errors_is_permanent. }
  destruct (BigQuery.descriptor adapt wr) as [[d|e] wr1]; destruct Hd as [Hd1 Hd2]; [|split_and!; [done..|]; intros e' [= <-]; by apply Hd2].
  unfold BigQuery.open_once, bq_open. destruct (BigQuery.w_stream wr1); [done|]. destruct (bc_open x d) as [a|e] eqn:E; [done|].
  split_and!; [done..|]. intros e' [= <-]. apply Ho in E. by apply classify_unskipped in E.
Qed.

Lemma encode_all_unskipped d records e :
  BigQuery.encode_all ByName Marshal ranged d records = OErr e → unskipped e.
Proof.
  revert e. induction records as [|r records IH]; intros e; cbn [BigQuery.encode_all]; [done|].
  destruct (BigQuery.Encode _ _ _ _) as [row|e1|] eqn:E; [|intros [= <-]|done].
  - destruct (BigQuery.encode_all _ _ _ _ _) as [rows|e2|]; [done|intros [= <-]; by apply IH|done].
  - unfold unskipped. rewrite errors_is_permanent. cbn. unfold BigQuery.Encode in E.
    assert (∀ fields msg e2, BigQuery.message_from ByName d msg fields = OErr e2 → unskipped e2) as Hm.
    { clear. intros fields. induction fields as [|[k v] fields IH]; intros msg e; cbn [BigQuery.message_from]; [done|].
      destruct (BigQuery.set_field ByName d msg k v) as [msg'|e'|] eqn:E; [apply IH|intros [= <-]|done].
      revert E. unfold BigQuery.set_field, BigQuery.set_scalar, BigQuery.append_list. repeat case_match; by intros [= <-]. }
    unfold BigQuery.Message in E. destruct (BigQuery.message_from _ _ _ _) as [msg|e2|] eqn:E2; [|injection E as <-; by apply Hm in E2|done].
    destruct (Marshal msg) as [data|e2] eqn:E3; [done|]. injection E as <-. by apply Marshal_unskipped in E3.
Qed.

Lemma bq_write_spec x records wr h :
  bqCall_ok x → BigQuery.w_schema wr = Analytics.Current → records ≠ [] →
  let '(err, (wr', h')) := bq_write x records (wr, h) in
  BigQuery.w_schema wr' = Analytics.Current ∧ h ⊆ h' ∧ unskipped_opt err ∧
  (err = None → ∃ d rows, Forall2 (λ r row, BigQuery.Encode ByName Marshal d (ranged (Analytics.Fields r)) = OOk row) records rows ∧ rows ∈ h').
Proof.
  intros Hx Hs Hne. unfold bq_write, BigQuery.Write. cbn [fst snd]. destruct records as [|r records]; [done|].
  pose proof (streamFor_spec x wr h Hx Hs) as Hst. destruct (BigQuery.streamFor adapt (bq_open x) wr h) as [[[a d]|e] [wr1 h1]].
  2: { destruct Hst as (-> & H1 & H2). split_and!; [done..| |done]. intros e' [= <-]. by apply H2. }
  destruct Hst as (-> & Hs1 & _). destruct (BigQuery.encode_all _ _ _ d (r :: records)) as [rows|e|] eqn:Ee.
  2: { split_and!; [done..| |done]. intros e' [= <-]. by eapply encode_all_unskipped. }
  2: { split_and!; [done..| |done]. by intros e' [= <-]. }
  unfold append_batch. destruct Hx as (_ & _ & _ & Ha). destruct (Ha a rows) as [Ha1 Ha2].
  destruct (bc_Append x a rows) as [err tk]. cbn [fst snd] in *.
  assert (h ⊆ (if tk then h ++ [rows] else h)%list) as Hsub by (destruct tk; set_solver).
  destruct err as [e|].
  - split_and!; [done..| |done]. intros e' [= <-]. specialize (Ha1 e eq_refl). by apply classify_unskipped in Ha1.
  - split_and!; [done..|]. intros _. exists d, rows. split; [by apply BigQuery.encode_all_Ok|]. rewrite Ha2 by done. set_solver.
Qed.

Lemma Analytics_Project_cases env exec :
  Normalize env = Ok exec →
  match Analytics.Project exec with Ok records => records ≠ [] | Err _ => x_Kind exec = KindNone end.
Proof.
  intros Hn. assert (match x_Kind exec with KindRun => is_Some (x_Run exec) | KindJob => is_Some (x_Job exec) | KindNone => True end) as Hk.
  { revert Hn. unfold Normalize. destruct (String.eqb _ EventWorkflowRun); [|destruct (String.eqb _ EventWorkflowJob); [|by intros [= <-]]];
      (match goal with |- context [res_bind ?r _] => destruct r end; cbn [res_bind]; [intros [= <-]; cbn; by eexists|done]). }
  unfold Analytics.Project. destruct (x_Kind exec), (x_Run exec), (x_Job exec); cbn in *; try done; destruct Hk as [? ?]; done.
Qed.

#[export] Instance analytics_durable ensure : Durable (analytics_sink ensure).
Proof.
  split.
  - intros x env [ready [wr h]] Hx Hi _. cbn [analytics_sink sm_call_ok sm_process sm_inv sm_kept sm_ignores fst snd] in *.
    unfold Analytics.Process.
    destruct (Normalize env) as [exec|e] eqn:En; [|split; [done|]; split; [done|]; apply Normalize_unskipped in En; no_skip].
    pose proof (Analytics_Project_cases env exec En) as Hc. destruct (Analytics.Project exec) as [records|e] eqn:Ep.
    2: { split; [done|]. split; [done|]. intros _. by exists exec. }
    assert (∀ h', h ⊆ h' → ∀ env', rows_kept env' h → rows_kept env' h') as Hk.
    { intros h' Hsub env' (x1 & r1 & d1 & rows & H1 & H2 & H3 & H4). exists x1, r1, d1, rows. split_and!; auto. }
    assert (let '(err, (_, (wr', h'))) := Analytics.ensureSchema (bq_ensure x) ensure ready (wr, h) in
            h' = h ∧ unskipped_opt err ∧ BigQuery.w_schema wr' = Analytics.Current) as He.
    { unfold Analytics.ensureSchema, Analytics.ensure_once. destruct ensure; [|done]. destruct ready; [done|]. cbn [negb].
      pose proof (bq_ensure_spec x wr h Hx) as He. destruct (bq_ensure x Analytics.Current (wr, h)) as [[e|] [wr' h']]; done. }
    destruct (Analytics.ensureSchema _ ensure ready (wr, h)) as [[e|] [ready' [wr' h']]]; destruct He as (-> & He & Hs').
    { split; [done|]. split; [done|]. specialize (He e eq_refl). no_skip. }
    pose proof (bq_write_spec x records wr' h Hx Hs' Hc) as Hw.
    destruct (bq_write x records (wr', h)) as [[e|] [wr2 h2]]; destruct Hw as (H1 & H2 & H3 & H4); cbn [fst snd].
    + split; [done|]. split; [by apply Hk|]. specialize (H3 e eq_refl). no_skip.
    + split; [done|]. split; [by apply Hk|]. destruct (H4 eq_refl) as (d & rows & H5 & H6). by exists exec, records, d, rows.
  - intros l [ready [wr h]] Hi. by destruct l.
Qed.
End Warehouse.

(** ** Every class, every driver *)

(** The sinks a configuration can ask for, with any clients behind them. *)
Inductive configured : sinkModel → Prop :=
  | configured_archive o : 0 < Store.so_RotateEvery o → configured (archive_sink o)
  | configured_stream other w : configured (stream_sink other w)
  | configured_forward s : configured (forward_sink s)
  | configured_log Marshal gzip NewRequest range mt um sm hp et c :
      (∀ r e, Marshal r = Err e → unskipped e) → (∀ s e, gzip s = Err e → unskipped e) → (∀ u, unskipped_opt (NewRequest u)) →
      configured (log_sink Marshal gzip NewRequest range mt um sm hp et c)
  | configured_trace Marshal gzip NewRequest range mt um sm hp et c :
      (∀ r e, Marshal r = Err e → unskipped e) → (∀ s e, gzip s = Err e → unskipped e) → (∀ u, unskipped_opt (NewRequest u)) →
      configured (trace_sink Marshal gzip NewRequest range mt um sm hp et c)
  | configured_analytics (D A : Type) cfg adapt ByName Marshal ranged ensure :
      (∀ s e, adapt s = Err e → unskipped e) → (∀ m e, Marshal m = Err e → unskipped e) →
      configured (@analytics_sink D A cfg adapt ByName Marshal ranged ensure).

Lemma configured_durable k : configured k → Durable k.
Proof. destruct 1; apply _ || (by apply archive_durable) || (by apply log_durable) || (by apply trace_durable) || (by apply analytics_durable). Qed.

Lemma configured_inv (l : list runner) :
  Forall (λ r, configured (rn_model r) ∧ sm_inv _ (rn_state r)) l → Forall runner_inv l.
Proof. intros Hl. eapply Forall_impl; [exact Hl|]. intros r [H1 H2]. split; [by apply configured_durable|done]. Qed.

(** One delivery to an open archive whose disk works. *)
Lemma archive_delivery handed (HT : Transport handed) o h q s i p env line c e :
  0 < Store.so_RotateEvery o → Store.ninv o (Store.Up s) → Store.s_closed s = false → Store.numbered s → Store.calm e →
  q !! i = Some p → st_msg p = ToMessage env → publishable env → Archive.Encode (utc_envelope env) = Ok line →
  ∃ h' s', run_delivery handed (mkRunner (archive_sink o) h q (Store.Up s)) i c (e, Live) =
    mkRunner (archive_sink o) h' (delete i q) (Store.Up s') ∧ Store.held (Store.s_disk s') line.
Proof.
  intros Hr Hi Hcl Hn Hc Hq Em Hpub He.
  pose proof (Store.append_calm o e s line (e_ReceivedAt (utc_envelope env)) Hc (proj2 Hi) Hn Hcl) as Ha.
  assert (snd (Store.Append o e s (ctx_err Live) (utc_envelope env)) = None) as Happ by (unfold Store.Append; cbn [ctx_err]; by rewrite He).
  assert (FromMessage (Some (handed (ToMessage env))) = Ok (utc_envelope env)) as Hf by (by apply handed_reads).
  unfold run_delivery. cbn [rn_queue rn_model rn_handler rn_state archive_sink sm_open sm_process fst snd]. rewrite Hq, Em, Hf. cbv zeta.
  match goal with |- context [handle ?g h c ?m] => pose proof (handle_acks g h c m) as Hh; destruct (handle g h c m) as [h' err] end.
  cbn [snd] in Hh. pose proof (archive_process_spec o e Live (utc_envelope env) s) as [Hs Hp].
  destruct (archive_process o e Live (utc_envelope env) s) as [perr s'] eqn:Ep. cbn [fst snd] in *.
  assert (perr = None) as ->. { destruct perr as [pe|]; [|done]. destruct Hp as [_ Hp]. rewrite Happ in Hp. by destruct Hp. }
  assert (err = None) as ->. { apply Hh. exists (utc_envelope env). split; [done|]. by rewrite Ep. }
  exists h', s'. split; [done|]. destruct (Store.Append o e s (ctx_err Live) (utc_envelope env)) as [s1 aerr] eqn:Ea. cbn [fst snd] in *. subst s1 aerr.
  assert (Store.node_step o (Store.Up s) (Store.OAppend e (ctx_err Live) (utc_envelope env)) = (Store.Up s', [utc_envelope env])) as Hnode
    by (cbn [Store.node_step]; by rewrite Ea).
  apply Store.node_step_spec in Hnode as (_ & _ & Hacked); [|done..].
  destruct (Hacked (utc_envelope env)) as (line1 & H1 & H3); [by apply list_elem_of_singleton|]. rewrite He in H1. by injection H1 as <-.
Qed.

(** ** Properties *)

(** C2: an accepted delivery reaches every sink.  Take the program with any sinks of any classes
    and drivers, over any bus, any transport that keeps messages intact, and a broker that
    collapses repeated UUIDs within its window and drops what is past its retention; start it with
    an empty stream and run it in any way: requests, deliveries to any sink with whatever its
    clients and disks answer, time, crashes, stops and restarts.  If at some point of the run a
    request that is not a ping is answered with a 2xx, then it carried a valid signature, and the
    broker has its message: as it came, or, collapsed, as a message of an authenticated request
    with the same GUID stored within the window; and it is not lost at that point.  At the end of
    the run each sink either still has that event coming from the bus, or has kept it - a line of
    an archive file, a record on the stream, a request the collector answered with success, rows
    BigQuery took, a message the target bus took - or is a trace or analytics sink with nothing to
    make of such an event, or the broker lost it: the retention has passed since it was stored,
    or the bus is not durable and the process has ended since.  No sink stands in the way of
    another.  (The clock must show a year of four digits and the repository id not be negative.
    An archive is one with a positive [rotate_every].) *)
Theorem every_sink_serves {S Sub} `{BusLaws S Sub} handed (HT : Transport handed) anyway secret keep (HK : Keeping keep)
    (f0 f f' : fleet (S := S)) read hdr start ctx :
  let f1 := sv_bus (request_answer anyway secret keep f read hdr start ctx) in
  untouched f0 → Forall (λ r, configured (rn_model r) ∧ sm_inv _ (rn_state r)) (fl_runners f0) →
  rtc (fleet_step handed anyway secret keep) f0 f → rtc (fleet_step handed anyway secret keep) f1 f' →
  is_2xx (sv_resp (request_answer anyway secret keep f read hdr start ctx)) →
  TrimSpace (header_get hdr HeaderEvent) ≠ EventPing →
  (∃ body env, authenticated secret read hdr body ∧ FromWebhook hdr body start = Ok env ∧ e_Payload env = body ∧
    ∃ p, stands keep f (ToMessage env) p ∧ ¬ lost keep f1 p ∧
    ∃ read' hdr' body' start' env', authenticated secret read' hdr' body' ∧ FromWebhook hdr' body' start' = Ok env' ∧
      st_msg p = ToMessage env' ∧ e_DeliveryGUID env' = e_DeliveryGUID env ∧
      (kp_collapses keep (present f) (ToMessage env) (fl_now f) = false → env' = env ∧ start' = start) ∧
      (utc_4digit (UTC start') → 0 ≤ e_RepositoryID env' → Forall (taken_care keep f' env' p) (fl_runners f'))) ∧
  rn_model <$> fl_runners f' = rn_model <$> fl_runners f0.
Proof.
  intros f1 Hu Hc. apply accepted_served; [done..|]. by apply configured_inv.
Qed.

(** C23: nothing keeps an event from the archive but the disk.  In any run, at a point where the
    process runs and the archive's store is open, with numbers left for its file names, and a
    message is in front of its consumer that can be read and whose line can be made: delivering it
    with the calls of the disk succeeding is a step, it acknowledges that message and no other,
    and it leaves the event's line in a file.  The archive is one with a positive [rotate_every]:
    without, a line can be merged with one that a crash tore (Store.torn_line_merged). *)
Theorem pending_gets_archived {S Sub} `{BusLaws S Sub} handed (HT : Transport handed) anyway secret keep o
    (f0 f : fleet (S := S)) n h q s i p env line (c : clock) e :
  0 < Store.so_RotateEvery o →
  untouched f0 → Forall (λ r, configured (rn_model r) ∧ sm_inv _ (rn_state r)) (fl_runners f0) →
  rtc (fleet_step handed anyway secret keep) f0 f →
  fl_up f = true → fl_runners f !! n = Some (mkRunner (archive_sink o) h q (Store.Up s)) →
  Store.s_closed s = false → Store.numbered s → Store.calm e →
  q !! i = Some p → st_msg p = ToMessage env → publishable env → Archive.Encode (utc_envelope env) = Ok line →
  ∃ f' h' s', fleet_step handed anyway secret keep f f' ∧
    fl_runners f' !! n = Some (mkRunner (archive_sink o) h' (delete i q) (Store.Up s')) ∧ Store.held (Store.s_disk s') line.
Proof.
  intros Hr Hu Hc Hrun Hup Hn Hcl Hnum Hcalm Hi Em Hpub He.
  assert (Store.ninv o (Store.Up s)) as Hinv.
  { destruct (fleet_run_steps handed anyway secret keep f0 f (untouched_inv handed keep _ Hu (configured_inv _ Hc)) Hrun) as [[_ Hf] _].
    by destruct (Forall_lookup_1 _ _ _ _ Hf Hn) as [[_ Hx] _ _]. }
  destruct (archive_delivery handed HT o h q s i p env line c e) as (h' & s' & Hd & Hh); [done..|].
  eexists. exists h', s'. split; [|split; [|exact Hh]].
  - apply step_inner. by apply (step_deliver handed keep f n (mkRunner (archive_sink o) h q (Store.Up s)) i c (e, Live)).
  - cbn [with_runner fl_runners]. rewrite list_lookup_insert_eq by (by eapply lookup_lt_Some). by rewrite Hd.
Qed.

(** ** A run *)

(** The broker of the examples: a week of retention, repeated UUIDs collapsed within two hours. *)
Definition ex_keep : keeping :=
  mkKeeping (Some (Nats.nj_Retention Nats.DefaultConfig)) (Nats.nj_DedupWindow Nats.DefaultConfig)
    (λ l m now, existsb (λ p, String.eqb (m_UUID (st_msg p)) (m_UUID m) && (now - st_at p <=? Nats.nj_DedupWindow Nats.DefaultConfig)) l).

#[export] Instance ex_keeping : Keeping ex_keep.
Proof.
  split.
  - intros l m now Hl. cbn in Hl. apply existsb_exists in Hl as (p & Hp & [Hu Hw]%andb_true_iff). exists p.
    split; [by apply list_elem_of_In|]. split; [by apply String.eqb_eq|]. by apply Z.leb_le.
  - intros d Hd. cbn in Hd. injection Hd as <-. apply Z.leb_le. vm_compute. reflexivity.
  - discriminate.
Qed.

Definition ex_handed : Message → Message := nats_handed map_to_list "deliveries".
#[export] Instance ex_transport : Transport ex_handed.
Proof. by apply nats_transport. Qed.

#[export] Instance ex_nats : Bus (Nats.NatsBus Nats.MapBroker) Nats.JSConsumer :=
  Nats.Nats_Bus Nats.mb_Stream Nats.mb_PublishMsg Nats.mb_Consumer Nats.mb_UpdateConsumer Nats.mb_CreateConsumer map_to_list None false.
#[export] Instance ex_nats_laws : BusLaws (Nats.NatsBus Nats.MapBroker) Nats.JSConsumer.
Proof. apply Nats.Nats_BusLaws. Qed.

Definition ex_forward : Forward.Sink := Forward.mkSink "mirror" "copies" 3.
Definition ex_taking (m : Event.Message) : option error * bool := (None, true).
Definition ex_stream : sinkModel := stream_sink (λ _, None) (Stdout.mkWriter false false).

Definition ex_fleet : fleet :=
  mkFleet Nats.ex_bus true [mkRunner (forward_sink ex_forward) Router.ex_handler [] []; mkRunner ex_stream Router.ex_handler [] ""] 0 0 [].

Definition ex_request (f : fleet) : served fleet :=
  request_answer (λ _ _, false) "s3cret" ex_keep f (ReadOk Event.ex_body) ex_signed Store.ex_t (mkPublishCtx None false).

(** The delivery is accepted; the process ends and is started again; an hour after the delivery
    GitHub sends it again, and it is accepted, and collapsed. *)
Definition ex_accepted : fleet := sv_bus (ex_request ex_fleet).
Definition ex_again : fleet := later (restarted (stopped ex_accepted) (fl_bus ex_accepted)) Hour.
Definition ex_collapsed : fleet := sv_bus (ex_request ex_again).

Definition ex_stored : stored := mkStored (ToMessage ex_env) 0 0.

Definition ex_waiting : runner :=
  mkRunner (forward_sink ex_forward) (fresh_handler Router.ex_handler) [ex_stored] [].

(** The event is forwarded, and the stream sink has it coming. *)
Definition ex_forwarded : fleet := with_runner ex_collapsed 0 (run_delivery ex_handed ex_waiting 0 Router.ex_clock ex_taking).

Lemma ex_answered : is_2xx (sv_resp (ex_request ex_fleet)).
Proof. vm_compute. intuition congruence. Qed.

Lemma ex_answered_again : is_2xx (sv_resp (ex_request ex_again)).
Proof. vm_compute. intuition congruence. Qed.

Lemma ex_read : FromWebhook ex_signed Event.ex_body Store.ex_t = Ok ex_env.
Proof. vm_compute. reflexivity. Qed.

Lemma ex_no_ping : TrimSpace (header_get ex_signed HeaderEvent) ≠ EventPing.
Proof. vm_compute. discriminate. Qed.

(** What an accepted request of the examples leaves behind. *)
Lemma ex_published f :
  is_2xx (sv_resp (ex_request f)) →
  ∃ s, sv_bus (ex_request f) = if kp_collapses ex_keep (present f) (ToMessage ex_env) (fl_now f) then with_bus f s else store_message (with_bus f s) (ToMessage ex_env).
Proof.
  unfold ex_request. intros H2. apply (request_published (λ _ _, false) "s3cret" ex_keep f) in H2; [|exact ex_no_ping]. destruct H2
    as (body & env & s & [Hb _] & Hf & Hs). injection Hb as <-. rewrite ex_read in Hf. injection Hf as <-. by exists s.
Qed.

Lemma ex_accepted_eq : ∃ s, ex_accepted = store_message (with_bus ex_fleet s) (ToMessage ex_env).
Proof. destruct (ex_published ex_fleet ex_answered) as [s Hs]. by exists s. Qed.

Lemma ex_collapses : kp_collapses ex_keep (present ex_again) (ToMessage ex_env) (fl_now ex_again) = true.
Proof. vm_compute. reflexivity. Qed.

Lemma ex_collapsed_eq : ∃ s, ex_collapsed = with_bus ex_again s.
Proof. destruct (ex_published ex_again ex_answered_again) as [s Hs]. rewrite ex_collapses in Hs. by exists s. Qed.

Lemma ex_durable : durable ex_accepted = true.
Proof. vm_compute. reflexivity. Qed.

Lemma ex_waits : fl_runners ex_collapsed !! 0%nat = Some ex_waiting.
Proof.
  destruct ex_collapsed_eq as [s ->]. destruct ex_accepted_eq as [s' Ha]. unfold ex_again, stopped. rewrite ex_durable, Ha. reflexivity.
Qed.

Lemma ex_forwarded_queue : rn_queue (run_delivery ex_handed ex_waiting 0 Router.ex_clock ex_taking) = [].
Proof. vm_compute. reflexivity. Qed.

Local Abbreviation ex_step := (fleet_step ex_handed (λ _ _, false) "s3cret" ex_keep).

Lemma ex_restart_run : rtc ex_step ex_accepted ex_again.
Proof.
  apply rtc_l with (stopped ex_accepted); [apply step_down|].
  apply rtc_l with (restarted (stopped ex_accepted) (fl_bus ex_accepted)); [by apply step_up|].
  apply rtc_once, step_inner. unfold ex_again. apply step_time.
Qed.

Lemma ex_forwarded_run : rtc ex_step ex_again ex_forwarded.
Proof.
  eapply rtc_l; [by apply (step_request _ _ _ _ ex_again (ReadOk Event.ex_body) ex_signed Store.ex_t (mkPublishCtx None false))|].
  apply rtc_once, step_inner. refine (step_deliver _ _ ex_collapsed 0 ex_waiting 0 Router.ex_clock ex_taking _ ex_waits _).
  - destruct ex_collapsed_eq as [s ->]. reflexivity.
  - intros m. split; [discriminate|reflexivity].
Qed.

(** An hour is far inside the retention. *)
Lemma ex_not_lost : ¬ lost ex_keep ex_forwarded ex_stored.
Proof.
  assert (fl_now ex_forwarded = Hour ∧ durable ex_forwarded = true) as [En Ed] by (vm_compute; done).
  intros [(d & Hd & Hx)|[Hx _]]; [|congruence]. rewrite En in Hx. injection Hd as <-. revert Hx. apply Z.le_ngt, Z.leb_le.
  vm_compute. reflexivity.
Qed.

Lemma every_sink_serves_witness :
  ∃ h q s, run_delivery ex_handed ex_waiting 0 Router.ex_clock ex_taking = mkRunner (forward_sink ex_forward) h q s ∧
    Forward.Message ex_forward ex_env ∈ s.
Proof.
  destruct (every_sink_serves ex_handed _ (λ _ _, false) "s3cret" ex_keep _ ex_fleet ex_fleet ex_forwarded
    (ReadOk Event.ex_body) ex_signed Store.ex_t (mkPublishCtx None false)) as [(body & env & [Hread _] & Hf & _ & p & Hs & _ & Hk) _].
  - split; [reflexivity|repeat constructor].
  - repeat constructor.
  - apply rtc_refl.
  - etrans; [exact ex_restart_run|exact ex_forwarded_run].
  - exact ex_answered.
  - exact ex_no_ping.
  - injection Hread as <-. rewrite ex_read in Hf. injection Hf as <-.
    destruct Hk as (read' & hdr' & body' & start' & env' & _ & _ & _ & _ & Hsame & Hk). destruct (Hsame eq_refl) as [-> ->].
    assert (p = ex_stored) as -> by exact Hs.
    specialize (Hk ltac:(split; vm_compute; intuition congruence) ltac:(vm_compute; discriminate)).
    assert (fl_runners ex_forwarded !! 0%nat = Some (run_delivery ex_handed ex_waiting 0 Router.ex_clock ex_taking)) as Hr.
    { unfold ex_forwarded, with_runner. cbn [fl_runners]. apply list_lookup_insert_eq. eapply lookup_lt_Some, ex_waits. }
    pose proof (Forall_lookup_1 _ _ _ _ Hk Hr) as Hc. pose proof ex_forwarded_queue as Hq.
    destruct (run_delivery_model ex_handed ex_waiting 0 Router.ex_clock ex_taking) as (h & q & s & E). rewrite E in Hc, Hq.
    exists h, q, s. split; [exact E|]. cbn [rn_queue] in Hq. subst q. destruct Hc as [Hc|[Hc|[Hc|Hc]]].
    + exfalso. revert Hc. apply not_elem_of_nil.
    + exact Hc.
    + destruct Hc.
    + exfalso. by apply ex_not_lost.
Defined.

(** The archive of the examples is opened, accepts the delivery, is torn by a crash in the middle
    of it, and opened again. *)
Definition ex_archive : runner := mkRunner (archive_sink (Store.ex_opts 1)) Router.ex_handler [] (Store.Down Store.no_files).
Definition ex_cold : fleet := mkFleet Nats.ex_bus true [ex_archive] 0 0 [].
Definition ex_store (l : list Store.op) : Store.node := foldl (λ w x, fst (Store.node_step (Store.ex_opts 1) w x)) (Store.Down Store.no_files) l.
Definition ex_torn : list Store.op := [Store.OOpen Store.calm_env; Store.OCrashAppend Store.torn_env ex_env; Store.OOpen Store.calm_env].
Definition ex_stored_cold : fleet := sv_bus (ex_request ex_cold).
Definition ex_reopened : fleet :=
  mkFleet (fl_bus ex_stored_cold) true
    [mkRunner (archive_sink (Store.ex_opts 1)) Router.ex_handler [ex_stored] (ex_store ex_torn)] 0 0 [ex_stored].
Definition ex_open_store : Store.store :=
  match ex_store ex_torn with Store.Up s => s | Store.Down d => Store.mkStore false 0 zero_time zero_time 0 false None d end.

Lemma ex_cold_answered : is_2xx (sv_resp (ex_request ex_cold)).
Proof. vm_compute. intuition congruence. Qed.

Lemma ex_stored_cold_eq : ex_stored_cold = mkFleet (fl_bus ex_stored_cold) true [with_queue ex_archive [ex_stored]] 0 0 [ex_stored].
Proof. unfold ex_stored_cold. destruct (ex_published ex_cold ex_cold_answered) as [s ->]. reflexivity. Qed.

Definition ex_with_store (s : Nats.NatsBus Nats.MapBroker) (w : Store.node) : fleet :=
  mkFleet s true [mkRunner (archive_sink (Store.ex_opts 1)) Router.ex_handler [ex_stored] w] 0 0 [ex_stored].

Lemma ex_store_run s l w :
  rtc ex_step (ex_with_store s w) (ex_with_store s (foldl (λ w x, fst (Store.node_step (Store.ex_opts 1) w x)) w l)).
Proof.
  revert w. induction l as [|x l IH]; intros w; [apply rtc_refl|]. cbn [foldl].
  apply rtc_l with (ex_with_store s (fst (Store.node_step (Store.ex_opts 1) w x))); [|apply IH]. apply step_inner.
  exact (step_life ex_handed ex_keep (ex_with_store s w) 0 (mkRunner (archive_sink (Store.ex_opts 1)) Router.ex_handler [ex_stored] w) x eq_refl).
Qed.

Lemma ex_reopened_run : rtc ex_step ex_cold ex_reopened.
Proof.
  apply rtc_l with ex_stored_cold.
  { exact (step_request ex_handed (λ _ _, false) "s3cret" ex_keep ex_cold (ReadOk Event.ex_body) ex_signed Store.ex_t (mkPublishCtx None false) eq_refl). }
  rewrite ex_stored_cold_eq. exact (ex_store_run (fl_bus ex_stored_cold) ex_torn (Store.Down Store.no_files)).
Qed.

Lemma pending_gets_archived_witness :
  ∃ line f' h' s', Archive.Encode ex_env = Ok line ∧ ex_step ex_reopened f' ∧
    fl_runners f' !! 0%nat = Some (mkRunner (archive_sink (Store.ex_opts 1)) h' [] (Store.Up s')) ∧ Store.held (Store.s_disk s') line.
Proof.
  assert (∃ line, Archive.Encode ex_env = Ok line) as [line Hl] by (vm_compute; by eexists). exists line.
  destruct (pending_gets_archived ex_handed _ (λ _ _, false) "s3cret" ex_keep (Store.ex_opts 1) ex_cold ex_reopened 0 Router.ex_handler
    [ex_stored] ex_open_store 0 ex_stored ex_env line Router.ex_clock Store.calm_env) as (f' & h' & s' & H1 & H2 & H3).
  - reflexivity.
  - split; [reflexivity|repeat constructor].
  - constructor; [|constructor]. split; [by apply configured_archive|exact (conj Store.no_files_paired I)].
  - exact ex_reopened_run.
  - reflexivity.
  - assert (ex_store ex_torn = Store.Up ex_open_store) as E by (vm_compute; reflexivity). unfold ex_reopened. rewrite E. reflexivity.
  - vm_compute. reflexivity.
  - split; vm_compute; discriminate.
  - repeat constructor.
  - reflexivity.
  - reflexivity.
  - constructor; vm_compute; intuition congruence.
  - rewrite <- Hl. vm_compute. reflexivity.
  - exists f', h', s'. split_and!; [exact Hl|exact H1|exact H2|exact H3].
Defined.
