(* ===== verification/Webhooks.v ===== *)
(** * No webhook is lost: the receiver, the bus, the sinks and the recovery loop together

    The program of Fleet.v with the recovery loop of RecoveryRun.v beside it, and GitHub around
    both: GitHub sends the deliveries of its hooks to the receiver and keeps a log of the
    attempts; the loop reads that log through the client, page by page, and asks for
    redeliveries, which are attempts like any other.  The process may end at any time; GitHub's
    log outlives it, what the broker has outlives it if the bus is durable, the memory of the
    loop does not.

    What GitHub does is an assumption: its ids identify attempts, a log lists the newest attempt
    first, an attempt it counts as a success was answered with a 2xx, and what it sends under
    one GUID is one event, however often it sends it.  So is that nobody else knows the secret:
    a request that is authenticated is a delivery of GitHub. *)

From S2P Require Import Prelude.
From S2P Require Import Errors.
From S2P Require Import GoText.
From S2P Require Import GoTime.
From S2P Require Import GhClient.
From S2P Require Import Recovery.
From S2P Require Import RecoveryRun.
From S2P Require Import Event.
From S2P Require Import Bus.
From S2P Require Import Receiver.
From S2P Require Import System.
From S2P Require Import Fleet.
From S2P Require Store.
From S2P Require GoChannel.
From S2P Require Sinks.

Local Open Scope Z_scope.

(** ** One hook and the loop's view of it *)

(** What a scan meets: the API of GitHub as the client calls it, the order [sort.Slice] leaves,
    and the context. *)
Record api := mkApi {
  ap_discover : result Z;
  ap_pages : string → result (list Delivery * string);
  ap_sort : list (string * pendingInfo) → list (string * pendingInfo);
  ap_requests : nat → requestEnv;
  ap_ctx : option error }.

(** The loop lists the deliveries with [ListDeliveries] of the client. *)
Definition scan_env (a : api) : scanEnv :=
  mkScanEnv (ap_discover a) (ListDeliveries (ap_pages a)) (ap_sort a) (ap_requests a) (ap_ctx a).

(** GitHub shows the log of the hook, newest attempt first, on pages of which any may fail. *)
Definition answers (a : api) (log : list Delivery) : Prop :=
  (∃ all, newest_first all ∧ (∀ d, d ∈ all ↔ d ∈ log) ∧ shows (ap_pages a) "" all) ∧ ∀ l, ap_sort a l ≡ₚ l.

(** A hook with GitHub's log of its attempts, the log as the loop last saw it, the state the loop
    has for it, and the attempts it asked GitHub to repeat. *)
Record hookState := mkHook {
  hk_conf : Target; hk_log : list Delivery; hk_seen : list Delivery; hk_target : targetState; hk_asked : list Z }.

(** A target as [New] makes it. *)
Definition new_target (t : Target) : targetState := mkTargetState t zero_time ∅ None 0 NoScan false.

Definition new_hook (t : Target) : hookState := mkHook t [] [] (new_target t) [].

Definition attempted (h : hookState) (d : Delivery) : hookState :=
  mkHook (hk_conf h) (hk_log h ++ [d]) (hk_seen h) (hk_target h) (hk_asked h).

(** The process is started again: the memory of the loop is gone. *)
Definition rebooted (h : hookState) : hookState :=
  mkHook (hk_conf h) (hk_log h) [] (new_target (hk_conf h)) (hk_asked h).

Section Hook.
Variable opts : Options.

Definition scanned (a : api) (now : Time) (h : hookState) : hookState :=
  let '(st, ids) := scan opts (scan_env a) now (hk_target h) in
  mkHook (hk_conf h) (hk_log h)
    (match listed opts (scan_env a) now (hk_target h) with Some _ => hk_log h | None => hk_seen h end)
    st (hk_asked h ++ ids)%list.

(** A new attempt: its id is new, and it shows up in the log within the overlap of two scans. *)
Definition fresh (h : hookState) (d : Delivery) : Prop :=
  0 < d_ID d ∧ Forall (λ d', d_ID d' ≠ d_ID d) (hk_log h) ∧
  (ts_scanned (hk_target h) = true →
   Before (d_DeliveredAt d) (Add (ts_lastScan (hk_target h)) (- o_Overlap opts)) = false).

(** When a scan can run: GitHub answers as above, and the clock has not gone back. *)
Definition can_scan (a : api) (now : Time) (h : hookState) : Prop :=
  answers a (hk_log h) ∧ (ts_scanned (hk_target h) = true → t_ns (ts_lastScan (hk_target h)) ≤ t_ns now).

(** GitHub was asked to repeat some attempt of [g]. *)
Definition asked_for (h : hookState) (g : string) : Prop :=
  ∃ d, d ∈ of_guid g (hk_log h) ∧ d_ID d ∈ hk_asked h.

(** The hook and the loop agree, and only attempts that failed were asked for. *)
Record hook_inv (h : hookState) : Prop := {
  hook_log : log_ok (hk_log h);
  hook_watch : watch_inv opts (hk_seen h) (hk_log h) (hk_target h);
  hook_asked : ∀ id, id ∈ hk_asked h → ∃ d, d ∈ hk_log h ∧ d_ID d = id ∧ Succeeded d = false;
  hook_marked : ∀ g p, ts_pending (hk_target h) !! g = Some p → IsZero (p_requestedAt p) = false → asked_for h g }.

Context (Hov : 0 ≤ o_Overlap opts).

Lemma new_hook_inv t : hook_inv (new_hook t).
Proof.
  split; cbn; [by split; [constructor|intros ? ? ?%elem_of_nil]| |by intros ? ?%elem_of_nil|done].
  split_and!; [done|done|done|apply tracked_nothing].
Qed.

Lemma rebooted_inv h : hook_inv h → hook_inv (rebooted h).
Proof.
  intros [H1 H2 H3 H4]. split; cbn; [done| |done|done]. split_and!; [set_solver|done|done|apply tracked_nothing].
Qed.

Lemma asked_for_mono h h' g : hk_log h ⊆ hk_log h' → hk_asked h ⊆ hk_asked h' → asked_for h g → asked_for h' g.
Proof. intros Hl Ha (d & [H1 H2]%elem_of_guid & H3). exists d. split; [apply elem_of_guid|]; auto. Qed.

Lemma attempted_inv h d : hook_inv h → fresh h d → hook_inv (attempted h d).
Proof.
  intros [H1 (I1 & I2 & I3 & I4) H3 H4] (F1 & F2 & F3). rewrite Forall_forall in F2. split; cbn.
  - destruct H1 as [Hp Hid]. split; [rewrite Forall_app, Forall_singleton; by split|].
    intros a b. rewrite !elem_of_app, !list_elem_of_singleton. intros [Ha| ->] [Hb| ->] E; [auto|..|done].
    + by destruct (F2 a Ha).
    + by destruct (F2 b Hb).
  - split_and!; [set_solver|done| |done]. intros Hs d'. rewrite elem_of_app, list_elem_of_singleton. intros [Hd| ->] Hn; auto.
  - intros id (d' & Hd & Hx)%H3. exists d'. split; [set_solver|done].
  - intros g p Hp Hz. eapply asked_for_mono; [| |by eapply H4]; cbn; set_solver.
Qed.

(** ** Scans *)

Lemma answers_listed a log now st ds :
  answers a log → listed opts (scan_env a) now st = Some ds → lists log (window opts st now) ds.
Proof.
  intros [(all & Hn & Hall & Hs) _]. unfold listed, scan_env. cbn [se_discover se_list].
  assert (∀ t since l, ListDeliveries (ap_pages a) t since = Ok l → lists log since l) as Hl.
  { intros t since l H. apply (ListDeliveries_shows _ _ _ all) in H as ->; [|done..].
    intros d. rewrite list_elem_of_filter, Hall. unfold recent. tauto. }
  destruct (_ =? 0); [destruct (ap_discover a); [|done]|];
    destruct (ListDeliveries _ _ _) eqn:E; [|done|..]; try done; intros [= <-]; by eapply Hl.
Qed.

Lemma scanned_fields a now h :
  let r := scan opts (scan_env a) now (hk_target h) in
  hk_log (scanned a now h) = hk_log h ∧ hk_target (scanned a now h) = fst r ∧ hk_asked (scanned a now h) = (hk_asked h ++ snd r)%list ∧
  hk_seen (scanned a now h) = match listed opts (scan_env a) now (hk_target h) with Some _ => hk_log h | None => hk_seen h end.
Proof. unfold scanned. by destruct (scan _ _ _ _). Qed.

Lemma lists_positive log since ds : log_ok log → lists log since ds → Forall (λ d, 0 < d_ID d) ds.
Proof. intros [Hp _] Hl. rewrite Forall_forall in Hp |- *. intros d Hd. apply Hp. by apply Hl. Qed.

Lemma scanned_inv a now h : hook_inv h → can_scan a now h → hook_inv (scanned a now h).
Proof.
  intros [H1 H2 H3 H4] [Ha Hlast]. pose proof (scanned_fields a now h) as (Fl & Ft & Fa & Fs). cbv zeta in *.
  pose proof (λ ds, answers_listed a (hk_log h) now (hk_target h) ds Ha) as Hl. destruct Ha as [_ Hperm].
  split; rewrite ?Fl, ?Ft, ?Fa, ?Fs; [done|..].
  - destruct (listed _ _ _ _) as [ds|] eqn:E; [eapply scan_tracks; eauto|].
    destruct (scan_unlisted _ _ _ _ E) as (S1 & S2 & S3 & _). unfold watch_inv. by rewrite S1, S2, S3.
  - intros id [Hid|Hid]%elem_of_app; [by apply H3|].
    edestruct scan_asks as (g & d & [Hd _] & H5 & H6 & _); [done..|]. exists d. by apply elem_of_guid in Hd as [Hd _].
  - intros g p Hp Hz. assert (hk_asked h ⊆ hk_asked (scanned a now h)) as Hsub by (rewrite Fa; set_solver).
    assert (asked_for h g → asked_for (scanned a now h) g) as Hmono by (apply asked_for_mono; [by rewrite Fl|done]).
    destruct (listed _ _ _ _) as [ds|] eqn:E.
    + pose proof (merged_tracked opts _ _ _ (scan_env a) now ds Hov H1 H2 Hlast E (Hl ds eq_refl)) as [T _].
      destruct (scan_marked _ _ _ _ _ _ _ E Hperm Hp) as [Hm|(info & Hm & Hin)].
      * apply Hmono. destruct (T g p Hm) as [Hg _].
        destruct (merge_requested _ _ _ _ _ _ (lists_positive _ _ _ H1 (Hl ds eq_refl)) Hg Hm Hz) as (q & Hq & Eq).
        eapply H4; [exact Hq|by rewrite Eq].
      * destruct (T g info Hm) as (_ & d & [Hd _] & _ & _ & Hid & _). exists d. rewrite Fl, Fa, <- Hid. split; [done|set_solver].
    + destruct (scan_unlisted _ _ _ _ E) as (_ & _ & S3 & _). rewrite S3 in Hp. eauto.
Qed.
End Hook.

(** The newest attempt of a GUID that was attempted. *)
Lemma newest_exists g log : of_guid g log ≠ [] → ∃ d, newest g log d.
Proof.
  unfold newest. induction (of_guid g log) as [|d l IH]; [done|]. intros _. destruct l as [|d' l].
  - exists d. split; [by left|]. constructor; [right; lia|constructor].
  - destruct IH as (m & Hm & Hmax); [done|]. destruct (decide (later_eq d m)) as [Hd|Hd].
    + exists m. split; [by right|by constructor].
    + exists d. split; [by left|]. constructor; [right; lia|]. eapply Forall_impl; [exact Hmax|].
      intros x Hx. unfold later_eq in *. lia.
Qed.

(** What the next scan makes of a GUID of which every attempt failed: it is remembered with its
    newest attempt; and past its grace, when the requests go well and no more is due than the
    cap allows, GitHub is asked to repeat that attempt, unless it was asked within the grace. *)
Lemma lost_is_asked opts a now h g d ds :
  0 ≤ o_Overlap opts → hook_inv opts h → can_scan a now h → listed opts (scan_env a) now (hk_target h) = Some ds →
  g ≠ "" → newest g (hk_log h) d → existsb Succeeded (of_guid g (hk_log h)) = false → in_lookback opts now d →
  let h' := scanned opts a now h in
  (∃ p, ts_pending (hk_target h') !! g = Some p ∧ p_latestDeliveryID p = d_ID d) ∧
  (o_Grace opts ≤ Sub now (d_DeliveredAt d) →
   (∀ k, re_sleep (ap_requests a k) = None ∧ re_answer (ap_requests a k) = None) →
   Z.of_nat (length (due_of (o_Grace opts) now (merge (o_Lookback opts) (ts_pending (hk_target h)) ds now))) ≤ o_MaxPerScan opts →
   d_ID d ∈ hk_asked h' ∨
   (asked_for h g ∧ ∃ p, ts_pending (hk_target h) !! g = Some p ∧ Sub now (p_requestedAt p) < o_Grace opts)).
Proof.
  intros Hov [H1 H2 _ H4] [Ha Hlast] E Hg Hd Hf Hlb h'. pose proof (scanned_fields opts a now h) as (_ & Ft & Fa & _). cbv zeta in *.
  pose proof (answers_listed opts a (hk_log h) now (hk_target h) ds Ha E) as Hl. destruct Ha as [_ Hperm].
  pose proof (merged_tracked opts _ _ _ (scan_env a) now ds Hov H1 H2 Hlast E Hl) as [T1 T2].
  destruct (T2 g d Hg Hd Hf Hlb) as [p Hp]. destruct (T1 g p Hp) as (_ & d' & Hd' & _ & _ & Hid & Hat).
  rewrite (newest_unique _ _ _ _ H1 Hd' Hd) in Hid, Hat. split.
  - pose proof (scan_attempts _ _ _ _ _ g E) as Hs. rewrite Hp in Hs. inversion Hs as [q ? [Hq _] Eq|]; subst.
    exists q. subst h'. by rewrite Ft, Hq.
  - intros Hgr Hok Hlen. subst h'. rewrite Fa. destruct (is_due (o_Grace opts) now p) eqn:Ed.
    + left. apply elem_of_app. right. rewrite <- Hid. eapply scan_asks_due; [done..|]. by apply elem_of_due.
    + right. unfold is_due in Ed. rewrite Hat, (proj2 (Z.ltb_ge _ _)) in Ed by done.
      destruct (negb _ && _) eqn:Eb; [|done]. apply andb_true_iff in Eb as [Hz Hs]. apply negb_true_iff in Hz. to_prop.
      destruct (merge_requested _ _ _ _ _ _ (lists_positive _ _ _ H1 Hl) Hg Hp Hz) as (q & Hq & Er).
      rewrite <- Er in Hz, Hs. split; [by eapply H4|by exists q].
Qed.

(** ** The whole world *)

Section World.
Context {S Sub : Type} `{BusLaws S Sub}.
Variable handed : Message → Message.
Variable stored_anyway : Message → Z → bool.
Variable secret : string.
Variable keep : keeping.
Variable opts : Options.
(** What GitHub sends for a GUID: the headers and the body. *)
Variable sent : string → Header * string.

(** When an attempt reached the receiver, by the broker's clock, and in which run of the process. *)
Record reception := mkReception { rc_hook : nat; rc_id : Z; rc_at : Z; rc_epoch : nat }.

Record world := mkWorld { wo_fleet : fleet (S := S); wo_hooks : list hookState; wo_received : list reception }.

Definition with_hook_state (w : world) (n : nat) (h : hookState) : list hookState := <[n := h]> (wo_hooks w).

(** What may happen, at any time and in any order. *)
Inductive world_step (w : world) : world → Prop :=
  | world_inner f :                        (* a delivery to a sink, the life of a sink, time, retention *)
      inner_step handed keep (wo_fleet w) f → world_step w (mkWorld f (wo_hooks w) (wo_received w))
  | world_request read hdr start ctx :     (* a request of anyone *)
      fl_up (wo_fleet w) = true → utc_4digit (UTC start) →
      (∀ body, authenticated secret read hdr body → ∃ g, sent g = (hdr, body)) →
      world_step w (mkWorld (sv_bus (request_answer stored_anyway secret keep (wo_fleet w) read hdr start ctx)) (wo_hooks w) (wo_received w))
  | world_down :                           (* the process ends, in whatever way *)
      world_step w (mkWorld (stopped (wo_fleet w)) (wo_hooks w) (wo_received w))
  | world_up s :                           (* and is started again *)
      fl_up (wo_fleet w) = false → bus_capabilities s = bus_capabilities (fl_bus (wo_fleet w)) →
      world_step w (mkWorld (restarted (wo_fleet w) s) (rebooted <$> wo_hooks w) (wo_received w))
  | world_attempt n h d read start ctx :   (* GitHub sends a delivery, for the first time or again *)
      let g := d_GUID d in
      let r := request_answer stored_anyway secret keep (wo_fleet w) read (fst (sent g)) start ctx in
      fl_up (wo_fleet w) = true → wo_hooks w !! n = Some h → fresh opts h d →
      (∀ body, read = ReadOk body → body = snd (sent g)) →
      (Succeeded d = true → is_2xx (sv_resp r)) → utc_4digit (UTC start) →
      world_step w (mkWorld (sv_bus r) (with_hook_state w n (attempted h d))
        (wo_received w ++ [mkReception n (d_ID d) (fl_now (wo_fleet w)) (fl_epoch (wo_fleet w))])%list)
  | world_missed n h d :                   (* an attempt that never reaches the receiver *)
      wo_hooks w !! n = Some h → fresh opts h d → Succeeded d = false →
      world_step w (mkWorld (wo_fleet w) (with_hook_state w n (attempted h d)) (wo_received w))
  | world_scan n h a now :                 (* the loop scans a hook *)
      fl_up (wo_fleet w) = true → wo_hooks w !! n = Some h → can_scan a now h →
      world_step w (mkWorld (wo_fleet w) (with_hook_state w n (scanned opts a now h)) (wo_received w)).

(** The broker stored the event that GitHub sends under [g]. *)
Definition sent_as (g : string) (p : stored) (env : Envelope) : Prop :=
  ∃ start, utc_4digit (UTC start) ∧ FromWebhook (fst (sent g)) (snd (sent g)) start = Ok env ∧ st_msg p = ToMessage env.

(** The attempt [d] was received, and the broker stored its event: then, or at most the window
    before; and if the bus is not durable, in the same run of the process. *)
Definition reached (w : world) (n : nat) (d : Delivery) (p : stored) (env : Envelope) : Prop :=
  sent_as (d_GUID d) p env ∧ p ∈ fl_log (wo_fleet w) ∧
  ∃ at' epoch, mkReception n (d_ID d) at' epoch ∈ wo_received w ∧ at' - kp_window keep ≤ st_at p ≤ at' ∧
    (durable (wo_fleet w) = false → st_epoch p = epoch).

Definition is_ping (g : string) : Prop := TrimSpace (header_get (fst (sent g)) HeaderEvent) = EventPing.

Record world_inv (w : world) : Prop := {
  world_sinks : fleet_inv handed keep (wo_fleet w);
  world_hooks : Forall (hook_inv opts) (wo_hooks w);
  world_log p : p ∈ fl_log (wo_fleet w) → ∃ g env, sent_as g p env;
  world_sent n h d : wo_hooks w !! n = Some h → d ∈ hk_log h → Succeeded d = true → ¬ is_ping (d_GUID d) →
    ∃ p env, reached w n d p env }.

Context (Hov : 0 ≤ o_Overlap opts) (HT : Transport handed) (HK : Keeping keep).
(** GitHub names what it sends by its GUID, and its repository ids are not negative. *)
Context (Hsent : ∀ g start env, FromWebhook (fst (sent g)) (snd (sent g)) start = Ok env → e_DeliveryGUID env = g ∧ 0 ≤ e_RepositoryID env).

Lemma reached_mono w w' n d p env :
  fl_log (wo_fleet w) ⊆ fl_log (wo_fleet w') → durable (wo_fleet w') = durable (wo_fleet w) → wo_received w ⊆ wo_received w' →
  reached w n d p env → reached w' n d p env.
Proof.
  intros Hl Hd Ha (H1 & H2 & t & e & H3 & H4 & H5). split; [done|]. split; [auto|]. exists t, e. rewrite Hd. auto.
Qed.

(** The sinks move on, and the broker stores what GitHub sent. *)
Definition advances (w : world) (f : fleet (S := S)) : Prop :=
  steps handed keep (wo_fleet w) f ∧ ∀ p, p ∈ fl_log f → p ∈ fl_log (wo_fleet w) ∨ ∃ g env, sent_as g p env.

Lemma advances_quiet w f : steps handed keep (wo_fleet w) f → fl_log f = fl_log (wo_fleet w) → advances w f.
Proof. intros Hs El. split; [done|]. rewrite El. by left. Qed.

Lemma advances_none w : world_inv w → advances w (wo_fleet w).
Proof. intros [W _ _ _]. apply advances_quiet; [|done]. split; [done|apply fleet_next_refl]. Qed.

Lemma request_advances w read hdr start ctx :
  world_inv w → utc_4digit (UTC start) → (∀ body, authenticated secret read hdr body → ∃ g, sent g = (hdr, body)) →
  advances w (sv_bus (request_answer stored_anyway secret keep (wo_fleet w) read hdr start ctx)).
Proof.
  intros [W _ _ _] Ht Hg. split; [by apply request_steps|].
  destruct (request_log stored_anyway secret keep (wo_fleet w) read hdr start ctx) as [_ Hl]. intros p Hp.
  destruct (Hl p Hp) as [?|(body & env & Ha & Hf & Em)]; [by left|right]. destruct (Hg body Ha) as [g Eg]. exists g, env, start.
  by rewrite Eg.
Qed.

(** A hook moves on while the sinks do. *)
Lemma world_update w f n h h' rs :
  world_inv w → advances w f → wo_hooks w !! n = Some h → hook_inv opts h' → wo_received w ⊆ rs →
  let w' := mkWorld f (with_hook_state w n h') rs in
  (∀ d, d ∈ hk_log h' → d ∈ hk_log h ∨ (Succeeded d = true → ¬ is_ping (d_GUID d) → ∃ p env, reached w' n d p env)) →
  world_inv w'.
Proof.
  intros [W1 W2 W3 W4] [[Hf Hn] Hp] Hh Hi Hrs w' Hlog.
  assert (∀ k d, (∃ p env, reached w k d p env) → ∃ p env, reached w' k d p env) as Hmono.
  { intros k d (p & env & Hr). exists p, env. eapply reached_mono; [| | |exact Hr]; [apply Hn|apply (next_durable _ _ _ Hn)|done]. }
  split; [done|by apply Forall_insert| |].
  - intros p Hx. destruct (Hp p Hx) as [?|?]; auto.
  - intros k hk d Hk Hd Hs Hpi. cbn in Hk. unfold with_hook_state in Hk. destruct (decide (k = n)) as [->|Hne].
    + rewrite list_lookup_insert_eq in Hk by (by eapply lookup_lt_Some). injection Hk as <-.
      destruct (Hlog d Hd) as [Ho|Ho]; [|by apply Ho]. apply Hmono. by eapply W4.
    + rewrite list_lookup_insert_ne in Hk by done. apply Hmono. by eapply W4.
Qed.

(** Hooks whose logs stay as they are while the sinks move on. *)
Lemma world_same w f g :
  world_inv w → advances w f → (∀ h, hk_log (g h) = hk_log h) → (∀ h, hook_inv opts h → hook_inv opts (g h)) →
  world_inv (mkWorld f (g <$> wo_hooks w) (wo_received w)).
Proof.
  intros [W1 W2 W3 W4] [[Hf Hn] Hp] Hg Hi. split; [done|apply Forall_fmap; by eapply Forall_impl| |].
  - intros p Hx. destruct (Hp p Hx) as [?|?]; auto.
  - intros k hk d Hk Hd Hs Hpi. cbn in Hk. rewrite list_lookup_fmap in Hk. apply fmap_Some in Hk as (h & Hk & ->). rewrite Hg in Hd.
    destruct (W4 k h d Hk Hd Hs Hpi) as (p & env & Hr). exists p, env.
    eapply reached_mono; [| | |exact Hr]; [apply Hn|apply (next_durable _ _ _ Hn)|done].
Qed.

(** An attempt that is answered with a 2xx has its event stored. *)
Lemma attempt_reached w n h d read start ctx :
  let g := d_GUID d in
  let r := request_answer stored_anyway secret keep (wo_fleet w) read (fst (sent g)) start ctx in
  world_inv w → (∀ body, read = ReadOk body → body = snd (sent g)) → is_2xx (sv_resp r) → utc_4digit (UTC start) → ¬ is_ping g →
  ∃ p env, reached (mkWorld (sv_bus r) (with_hook_state w n h)
    (wo_received w ++ [mkReception n (d_ID d) (fl_now (wo_fleet w)) (fl_epoch (wo_fleet w))])%list) n d p env.
Proof.
  intros g r [[Hlog _] _ W3 _] Hread H2 Ht Hp.
  destruct (request_stored stored_anyway secret keep HK (wo_fleet w) read _ start ctx H2 Hp) as (body & env & p & [Hb _] & Hf & Hs & Hin).
  apply Hread in Hb as ->. destruct (request_log stored_anyway secret keep (wo_fleet w) read (fst (sent g)) start ctx) as [(_ & _ & _ & Ed) _].
  fold r in Ed, Hin. pose proof (stands_cases _ _ _ _ Hs) as Hc. clear Hs.
  assert (∃ env', sent_as g p env') as [env' He'].
  { destruct Hc as [->|(Hpr & Hu & _)]; [by exists env, start|].
    pose proof (present_log _ _ Hpr) as Hq.
    destruct (W3 p Hq) as (g' & env' & start' & Ht' & Hf' & Em). exists env', start'. assert (g' = g) as <-; [|done].
    rewrite <- (proj1 (Hsent _ _ _ Hf)), <- (proj1 (Hsent _ _ _ Hf')). rewrite Em in Hu. exact Hu. }
  exists p, env'. split; [exact He'|]. split; [exact Hin|]. exists (fl_now (wo_fleet w)), (fl_epoch (wo_fleet w)).
  cbn [wo_received wo_fleet]. split; [set_solver|]. rewrite Ed. pose proof (window_length (k := keep)).
  destruct Hc as [->|(Hpr & _ & Hw)]; [cbn; split; [lia|done]|]. split.
  - unfold stream_ok in Hlog. rewrite Forall_forall in Hlog.
    destruct (Hlog p (present_log _ _ Hpr)). lia.
  - intros Hd. unfold present in Hpr. rewrite Hd in Hpr. by apply list_elem_of_filter in Hpr as [? _].
Qed.

Lemma world_step_inv w w' : world_inv w → world_step w w' → world_inv w'.
Proof.
  intros Hw Hs. pose proof Hw as [W1 W2 _ _].
  assert (∀ n h, wo_hooks w !! n = Some h → hook_inv opts h) as Hi by (intros n h; apply (Forall_lookup_1 _ _ n h W2)).
  destruct Hs as [f Hf|read hdr start ctx _ Ht Hg| |s _ Hc|n h d read start ctx g r Hup Hn Hfr Hb H2 Ht|n h d Hn Hfr Hf|n h a now Hup Hn Hc].
  - rewrite <- (list_fmap_id (wo_hooks w)). apply world_same; [done| |done..]. apply advances_quiet; [by apply inner_steps|by destruct Hf].
  - rewrite <- (list_fmap_id (wo_hooks w)). apply world_same; [done| |done..]. by apply request_advances.
  - rewrite <- (list_fmap_id (wo_hooks w)). apply world_same; [done| |done..]. apply advances_quiet; [by apply down_steps|done].
  - apply world_same; [done| |done|intros h; by apply rebooted_inv]. apply advances_quiet; [by apply up_steps|done].
  - eapply world_update; [done| |done|by apply attempted_inv; eauto|set_solver|].
    { apply request_advances; [done..|]. intros body [Hr _]. exists g. apply Hb in Hr as ->. by destruct (sent g). }
    cbn. intros d'. rewrite elem_of_app, list_elem_of_singleton. intros [Hd| ->]; [by left|right]. intros Hsd Hp.
    by apply attempt_reached; auto.
  - eapply world_update; [done|by apply advances_none|done|by apply attempted_inv; eauto|done|]. cbn. intros d'.
    rewrite elem_of_app, list_elem_of_singleton. intros [Hd| ->]; [by left|right]. congruence.
  - eapply world_update; [done|by apply advances_none|done|by apply scanned_inv; eauto|done|]. intros d.
    destruct (scanned_fields opts a now h) as (-> & _). by left.
Qed.

Lemma world_run_inv w w' : world_inv w → rtc world_step w w' → world_inv w'.
Proof. intros Hw Hr. induction Hr; eauto using world_step_inv. Qed.

Lemma world_start f hooks :
  untouched f → Forall runner_inv (fl_runners f) → Forall (λ h, ∃ t, h = new_hook t) hooks → world_inv (mkWorld f hooks []).
Proof.
  intros Hu Hf Hh. split; cbn; [by apply untouched_inv| | |].
  - eapply Forall_impl; [exact Hh|]. intros h [t ->]. apply new_hook_inv.
  - rewrite (proj1 Hu). by intros p ?%elem_of_nil.
  - intros n h d Hn Hd. destruct (Forall_lookup_1 _ _ _ _ Hh Hn) as [t ->]. by apply elem_of_nil in Hd.
Qed.

(** What was reached is taken care of, by every sink. *)
Lemma reached_care w n d p env : world_inv w → reached w n d p env → Forall (taken_care keep (wo_fleet w) env p) (fl_runners (wo_fleet w)).
Proof.
  intros [W _ _ _] ((start & Ht & Hf & Em) & Hp & _). destruct (FromWebhook_publishable _ _ _ _ Hf Ht (proj2 (Hsent _ _ _ Hf))) as [Hpub Hu].
  by eapply stored_care.
Qed.
End World.

(** What [New] of recovery.go checks and makes. *)
Lemma New_targets opts targets :
  Recovery.New opts = Ok targets → targets = new_target <$> o_Targets opts ∧ 0 ≤ o_Overlap opts.
Proof.
  unfold Recovery.New. cbv zeta. destruct (join_problems _) as [e|] eqn:E; [done|]. intros [= <-]. split; [done|].
  apply join_problems_None in E. rewrite !app_nil in E. destruct E as (_ & _ & _ & _ & _ & Ho & _).
  unfold problem in Ho. destruct (_ <? 0) eqn:Eo; [done|by apply Z.ltb_ge].
Qed.

(** The loop as [New] makes it beside the hooks it watches. *)
Definition watching (st : targetState) : hookState := mkHook (ts_target st) [] [] st [].

(** ** Properties *)

(** C1: no webhook is lost.  Run the program - the receiver, the bus, any configured sinks, the
    recovery loop of any number of hooks - against GitHub in any way: attempts that are answered,
    attempts that never arrive, requests of strangers, scans of which any page, any request or
    the whole may fail, deliveries to sinks, time, crashes and restarts.  The broker collapses
    repeated UUIDs within its window, drops what is past its retention, and keeps what was
    published across restarts if the bus is durable.  Then at any moment, of every hook: an
    attempt that succeeded, of an event that is no ping, has its event stored by the broker -
    when the attempt was received, or at most the window before, under the same GUID - and every
    sink has it on its way, or has kept it, or has nothing to do for it, or the broker lost it:
    its retention has passed, or the bus is not durable and the process has ended since.  Of a
    GUID of which no attempt succeeded, the next scan that gets its listing remembers the newest
    attempt while it can be repeated; and when that scan's requests go well and no more is due
    than its cap, GitHub has then been asked to repeat it - now, or within the grace period
    before.  And GitHub is only ever asked to repeat attempts that failed.  (GitHub is assumed to
    send one event under a GUID, with a repository id that is not negative, and nobody else to
    know the secret; the clock shows years of four digits.) *)
Theorem no_webhook_lost {S Cons} `{BusLaws S Cons} handed (HT : Transport handed) anyway secret keep (HK : Keeping keep)
    opts targets sent f0 w :
  Recovery.New opts = Ok targets →
  (∀ g start env, FromWebhook (fst (sent g)) (snd (sent g)) start = Ok env → e_DeliveryGUID env = g ∧ 0 ≤ e_RepositoryID env) →
  untouched f0 → Forall (λ r, Sinks.configured (rn_model r) ∧ sm_inv _ (rn_state r)) (fl_runners f0) →
  rtc (world_step (S := S) handed anyway secret keep opts sent) (mkWorld f0 (watching <$> targets) []) w →
  ∀ n h, wo_hooks w !! n = Some h →
  (∀ id, id ∈ hk_asked h → ∃ d, d ∈ hk_log h ∧ d_ID d = id ∧ Succeeded d = false) ∧
  (∀ d, d ∈ hk_log h → Succeeded d = true → ¬ is_ping sent (d_GUID d) →
    ∃ p env, reached keep sent w n d p env ∧ e_Payload env = snd (sent (d_GUID d)) ∧
      Forall (taken_care keep (wo_fleet w) env p) (fl_runners (wo_fleet w))) ∧
  ∀ g, g ≠ "" → of_guid g (hk_log h) ≠ [] → existsb Succeeded (of_guid g (hk_log h)) = false →
  ∃ d, newest g (hk_log h) d ∧
   ∀ a now ds, can_scan a now h → listed opts (scan_env a) now (hk_target h) = Some ds → in_lookback opts now d →
   let h' := scanned opts a now h in
   (∃ p, ts_pending (hk_target h') !! g = Some p ∧ p_latestDeliveryID p = d_ID d) ∧
   (o_Grace opts ≤ Sub now (d_DeliveredAt d) →
    (∀ k, re_sleep (ap_requests a k) = None ∧ re_answer (ap_requests a k) = None) →
    Z.of_nat (length (due_of (o_Grace opts) now (merge (o_Lookback opts) (ts_pending (hk_target h)) ds now))) ≤ o_MaxPerScan opts →
    d_ID d ∈ hk_asked h' ∨
    (asked_for h g ∧ ∃ p, ts_pending (hk_target h) !! g = Some p ∧ Sub now (p_requestedAt p) < o_Grace opts)).
Proof.
  intros [-> Hov]%New_targets Hsent Hu Hc Hr n h Hn.
  assert (world_inv handed keep opts sent w) as Hw.
  { eapply world_run_inv; [done..| |exact Hr]. apply world_start; [done|by apply Sinks.configured_inv|].
    rewrite <- list_fmap_compose. apply Forall_fmap, Forall_forall. intros t _. by exists t. }
  pose proof (Forall_lookup_1 _ _ _ _ (world_hooks _ _ _ _ _ Hw) Hn) as Hi. split; [apply Hi|]. split.
  - intros d Hd Hs Hp. destruct (world_sent _ _ _ _ _ Hw n h d Hn Hd Hs Hp) as (p & env & Hre). exists p, env.
    split; [done|]. split; [|by eapply reached_care]. destruct Hre as ((start & _ & Hf & _) & _).
    by apply FromWebhook_fields in Hf as (_ & _ & _ & _ & _ & _ & ? & _).
  - intros g Hg Hne Es. destruct (newest_exists g _ Hne) as [d Hd]. exists d. split; [done|]. intros a now ds Ha Hds Hlb.
    by apply lost_is_asked.
Qed.

(** ** A run *)

#[local] Existing Instance Sinks.ex_nats.
#[local] Existing Instance Sinks.ex_nats_laws.
#[local] Existing Instance Sinks.ex_transport.
#[local] Existing Instance Sinks.ex_keeping.

(** The first attempt finds the process down; the loop of the new process asks for another, which
    is answered with a 2xx, and the process ends again. *)
Definition ex_sent (g : string) : Header * string :=
  if String.eqb g "guid-1" then (ex_signed, Event.ex_body) else (∅, "").
Definition ex_failed : Delivery := mkDelivery 1 "guid-1" (mkTime (200 * Hour) 0) 503 false "workflow_run" "".
Definition ex_again : Delivery := mkDelivery 2 "guid-1" (mkTime (202 * Hour) 0) 200 true "workflow_run" "".
Definition ex_api : api :=
  mkApi (Ok 7) (λ _, Ok ([ex_failed], "")) (λ l, l) (λ _, mkRequestEnv None None None) None.
Definition ex_clock_now : Time := mkTime (201 * Hour) 0.

Definition ex_hook : hookState := attempted (watching (new_target (mkTarget "o" "r" "" 7))) ex_failed.
Definition ex_scanned : hookState := scanned Recovery.ex_opts ex_api ex_clock_now (rebooted ex_hook).
Definition ex_up : fleet := restarted (stopped Sinks.ex_fleet) (fl_bus Sinks.ex_fleet).
Definition ex_missed_world : world := mkWorld ex_up [rebooted ex_hook] [].
Definition ex_answer : served fleet := Sinks.ex_request ex_up.
Definition ex_answered_world : world := mkWorld (sv_bus ex_answer) [attempted ex_scanned ex_again] [mkReception 0 2 0 1].
Definition ex_world : world :=
  mkWorld (restarted (stopped (sv_bus ex_answer)) (fl_bus (sv_bus ex_answer))) [rebooted (attempted ex_scanned ex_again)] [mkReception 0 2 0 1].

Local Abbreviation ex_step := (world_step (S := Nats.NatsBus Nats.MapBroker) Sinks.ex_handed (λ _ _, false) "s3cret" Sinks.ex_keep Recovery.ex_opts ex_sent).

Lemma ex_new : Recovery.New Recovery.ex_opts = Ok [new_target (mkTarget "o" "r" "" 7)].
Proof. vm_compute. reflexivity. Qed.

Lemma ex_resent_answered : is_2xx (sv_resp ex_answer).
Proof. vm_compute. intuition congruence. Qed.

Lemma ex_can_scan : can_scan ex_api ex_clock_now (rebooted ex_hook).
Proof.
  split; [|done]. split; [|done]. exists [ex_failed]. split_and!; [repeat constructor|done|].
  apply (shows_last _ _ _ ""); [done|]. by right; left.
Qed.

Definition ex_start : world := mkWorld Sinks.ex_fleet (watching <$> [new_target (mkTarget "o" "r" "" 7)]) [].

Lemma ex_restart (f : fleet) h rs : ex_step (mkWorld (stopped f) [h] rs) (mkWorld (restarted (stopped f) (fl_bus f)) [rebooted h] rs).
Proof. by apply (world_up _ _ _ _ _ _ (mkWorld (stopped f) [h] rs) (fl_bus f)). Qed.

Lemma ex_missed_run : rtc ex_step ex_start ex_missed_world.
Proof.
  apply rtc_l with (mkWorld Sinks.ex_fleet [ex_hook] []).
  { apply (world_missed _ _ _ _ _ _ ex_start 0 (watching (new_target (mkTarget "o" "r" "" 7))) ex_failed); [done| |done].
    split_and!; [done|constructor|done]. }
  apply rtc_l with (mkWorld (stopped Sinks.ex_fleet) [ex_hook] []); [apply (world_down _ _ _ _ _ _ (mkWorld _ _ _))|].
  apply rtc_once, ex_restart.
Qed.

Lemma ex_world_run : rtc ex_step ex_missed_world ex_world.
Proof.
  apply rtc_l with (mkWorld ex_up [ex_scanned] []).
  { apply (world_scan _ _ _ _ _ _ ex_missed_world 0 (rebooted ex_hook) ex_api ex_clock_now); [done|done|exact ex_can_scan]. }
  apply rtc_l with ex_answered_world.
  { refine (world_attempt _ _ _ _ _ _ (mkWorld ex_up [ex_scanned] []) 0 ex_scanned ex_again (ReadOk Event.ex_body) Store.ex_t (mkPublishCtx None false) _ _ _ _ _ _).
    - done.
    - done.
    - split_and!; [done| |]; vm_compute; [|done]. repeat constructor; congruence.
    - by intros body [= <-].
    - intros _. exact ex_resent_answered.
    - split; vm_compute; intuition congruence. }
  apply rtc_l with (mkWorld (stopped (sv_bus ex_answer)) [attempted ex_scanned ex_again] [mkReception 0 2 0 1]);
    [apply (world_down _ _ _ _ _ _ ex_answered_world)|].
  apply rtc_once, ex_restart.
Qed.

Lemma ex_sent_ok g start env :
  FromWebhook (fst (ex_sent g)) (snd (ex_sent g)) start = Ok env → e_DeliveryGUID env = g ∧ 0 ≤ e_RepositoryID env.
Proof.
  unfold ex_sent. destruct (String.eqb g "guid-1") eqn:E; [|by vm_compute]. apply String.eqb_eq in E as ->.
  unfold FromWebhook. intros H. vm_compute in H. injection H as <-. split; [reflexivity|discriminate].
Qed.

Lemma ex_newest d : newest "guid-1" [ex_failed] d → d = ex_failed.
Proof. intros [[Hd _]%elem_of_guid _]. by apply list_elem_of_singleton in Hd. Qed.

(** Before the scan the attempt that was missed is asked for; after the second attempt, and a
    restart, both sinks have the event coming. *)
Lemma no_webhook_lost_witness :
  1 ∈ hk_asked ex_scanned ∧
  ∃ p env, reached Sinks.ex_keep ex_sent ex_world 0 ex_again p env ∧
    Forall (taken_care Sinks.ex_keep (wo_fleet ex_world) env p) (fl_runners (wo_fleet ex_world)).
Proof.
  split.
  - destruct (no_webhook_lost Sinks.ex_handed _ (λ _ _, false) "s3cret" Sinks.ex_keep _ Recovery.ex_opts _ ex_sent Sinks.ex_fleet ex_missed_world
      ex_new ex_sent_ok ltac:(split; [reflexivity|repeat constructor]) ltac:(repeat constructor) ex_missed_run 0 (rebooted ex_hook) eq_refl) as (_ & _ & Hg).
    destruct (Hg "guid-1" ltac:(discriminate) ltac:(vm_compute; discriminate) ltac:(vm_compute; reflexivity)) as (d & Hd & Hs).
    apply ex_newest in Hd as ->.
    destruct (Hs ex_api ex_clock_now [ex_failed] ex_can_scan ltac:(vm_compute; reflexivity) ltac:(vm_compute; reflexivity)) as [_ Ha].
    destruct Ha as [Ha|[(d & _ & Ha) _]].
    + apply Z.leb_le. vm_compute. reflexivity.
    + intros k. split; reflexivity.
    + apply Z.leb_le. vm_compute. reflexivity.
    + exact Ha.
    + exfalso. revert Ha. apply not_elem_of_nil.
  - destruct (no_webhook_lost Sinks.ex_handed _ (λ _ _, false) "s3cret" Sinks.ex_keep _ Recovery.ex_opts _ ex_sent Sinks.ex_fleet ex_world
      ex_new ex_sent_ok ltac:(split; [reflexivity|repeat constructor]) ltac:(repeat constructor) (rtc_trans _ _ _ ex_missed_run ex_world_run) 0 _ eq_refl) as (_ & Hd & _).
    destruct (Hd ex_again) as (p & env & H1 & _ & H2).
    + apply elem_of_app. right. by apply list_elem_of_singleton.
    + reflexivity.
    + vm_compute. discriminate.
    + exists p, env. split; [exact H1|exact H2].
Defined.
